(** * stroyglobal SEO manifest tools: extraction engine and validator

    A shallow embedding of [tools/build_seo_manifest.py] and
    [tools/validate_seo_manifest.py].

    Python text ([str]) is a sequence of Unicode code points; it is modelled
    as [list N].  The regular expressions of the sources are kept as values of
    a small regular-expression type and run by a backtracking matcher that
    follows the priorities of CPython's [re] engine (leftmost match, greedy
    and lazy repetition, ordered alternatives, capture groups). *)

From Stdlib Require Import String Ascii.
From Stdlib Require Import List NArith ZArith Bool Arith Lia.
From Stdlib Require Import DecimalString Floats.
Import ListNotations.

Set Implicit Arguments.

(* ================================================================== *)
(** * Text *)
(* ================================================================== *)

Module Text.

Abbreviation char := N (only parsing).
Abbreviation str := (list N) (only parsing).

(** Embedding of ASCII literals of the sources. *)
Definition ch (a : ascii) : char := N_of_ascii a.
Definition u (s : string) : str := map N_of_ascii (list_ascii_of_string s).

Fixpoint str_eqb (a b : str) : bool :=
  match a, b with
  | [], [] => true
  | x :: a', y :: b' => N.eqb x y && str_eqb a' b'
  | _, _ => false
  end.

Definition is_empty (A : Type) (s : list A) : bool :=
  match s with [] => true | _ => false end.

(** [str.isspace] on one code point, which is also the class [\s] of [re]
    on [str] patterns: the 29 code points CPython 3 classifies as
    whitespace. *)
Definition isspace (c : char) : bool :=
  ((9 <=? c) && (c <=? 13) || (28 <=? c) && (c <=? 32)
   || (c =? 133) || (c =? 160) || (c =? 5760)
   || (8192 <=? c) && (c <=? 8202)
   || (c =? 8232) || (c =? 8233) || (c =? 8239) || (c =? 8287)
   || (c =? 12288))%N.

Fixpoint lstrip (s : str) : str :=
  match s with
  | c :: s' => if isspace c then lstrip s' else s
  | [] => []
  end.

Definition rstrip (s : str) : str := rev (lstrip (rev s)).

(** [s.strip()] *)
Definition strip (s : str) : str := rstrip (lstrip s).

(** [s.startswith(p)] *)
Fixpoint startswith (p s : str) : bool :=
  match p, s with
  | [], _ => true
  | x :: p', y :: s' => N.eqb x y && startswith p' s'
  | _ :: _, [] => false
  end.

(** [s.startswith((p1, p2, ...))] *)
Definition startswith_any (ps : list str) (s : str) : bool :=
  existsb (fun p => startswith p s) ps.

(** [p in s] on strings: [p] occurs as a contiguous run of [s]. *)
Fixpoint contains (p s : str) : bool :=
  startswith p s || match s with [] => false | _ :: s' => contains p s' end.

(** [c in s] for one character. *)
Definition has_char (c : char) (s : str) : bool := existsb (N.eqb c) s.

End Text.
Import Text.

(* ================================================================== *)
(** * Regular expressions *)
(* ================================================================== *)

Module Re.

Inductive greed := Greedy | Lazy.

(** The fragment of [re] syntax the sources use.  Repetition is only ever
    applied to a single character class there (a negated set, the whitespace
    class, the any-character set, an optional quote), so [Rep] carries a
    class. *)
Inductive re :=
  | Eps
  | Chr (p : char -> bool)
  | Rep (g : greed) (lo : nat) (hi : option nat) (p : char -> bool)
  | Seq (a b : re)
  | Alt (a b : re)
  | Grp (i : nat) (a : re).

Definition groups := list (nat * str).

Definition below (hi : option nat) (n : nat) : bool :=
  match hi with None => true | Some h => n <? h end.

(** [p{lo,hi}] followed by the continuation [k]; [n] characters are already
    taken.  A greedy repetition tries to take one more first and falls back to
    stopping; a lazy one tries to stop first. *)
Fixpoint rep (A : Type) (g : greed) (lo : nat) (hi : option nat)
    (p : char -> bool) (k : str -> option A) (s : str) (n : nat) : option A :=
  match g with
  | Greedy =>
      match
        match s with
        | x :: s' => if p x && below hi n then rep g lo hi p k s' (S n) else None
        | [] => None
        end
      with
      | Some v => Some v
      | None => if lo <=? n then k s else None
      end
  | Lazy =>
      match (if lo <=? n then k s else None) with
      | Some v => Some v
      | None =>
          match s with
          | x :: s' => if p x && below hi n then rep g lo hi p k s' (S n) else None
          | [] => None
          end
      end
  end.

(** The backtracking matcher, in continuation-passing style: [mt r s g k]
    matches [r] at the head of [s] and hands the rest of the text and the
    groups to [k]; when [k] fails the next alternative of [r] is tried. *)
Fixpoint mt (A : Type) (r : re) (s : str) (g : groups)
    (k : str -> groups -> option A) : option A :=
  match r with
  | Eps => k s g
  | Chr p =>
      match s with
      | x :: s' => if p x then k s' g else None
      | [] => None
      end
  | Rep gr lo hi p => rep gr lo hi p (fun s' => k s' g) s 0
  | Seq a b => mt a s g (fun s' g' => mt b s' g' k)
  | Alt a b =>
      match mt a s g k with
      | Some v => Some v
      | None => mt b s g k
      end
  | Grp i a =>
      mt a s g (fun s' g' => k s' ((i, firstn (length s - length s') s) :: g'))
  end.

(** A match object: the text matched ([group(0)]) and the groups. *)
Record rmatch := MkMatch { m_whole : str; m_groups : groups }.

Fixpoint lookup (i : nat) (g : groups) : option str :=
  match g with
  | [] => None
  | (j, t) :: g' => if Nat.eqb i j then Some t else lookup i g'
  end.

(** [m.group(i)].  Every group of the patterns below takes part in every
    match of its pattern, so the [None] of a group that did not take part
    never arises; it reads as the empty text here. *)
Definition group (m : rmatch) (i : nat) : str :=
  match i with
  | O => m_whole m
  | _ => match lookup i (m_groups m) with Some t => t | None => [] end
  end.

(** One attempt at the head of [s].  [adv] is the engine's [must_advance]:
    right after an empty match the next match may not be empty at the same
    place. *)
Definition match_at (r : re) (adv : bool) (s : str) : option (rmatch * str) :=
  mt r s []
     (fun s' g =>
        if adv && (length s' =? length s) then None
        else Some (MkMatch (firstn (length s - length s') s) g, s')).

(** [re.match(r, s)] *)
Definition re_match (r : re) (s : str) : option rmatch :=
  option_map fst (match_at r false s).

(** [re.search(r, s)]: the match at the leftmost position that has one. *)
Fixpoint search (r : re) (s : str) : option rmatch :=
  match match_at r false s with
  | Some (m, _) => Some m
  | None => match s with [] => None | _ :: s' => search r s' end
  end.

(** The scan shared by [re.sub], [re.findall] and [re.finditer]: the text cut
    into the successive non-overlapping matches and the characters between
    them. *)
Inductive tok := Lit (c : char) | Hit (m : rmatch).

Fixpoint scan_aux (fuel : nat) (r : re) (adv : bool) (s : str) : list tok :=
  match fuel with
  | O => []
  | S f =>
      match match_at r adv s with
      | Some (m, rest) =>
          Hit m :: (if length rest =? length s
                    then scan_aux f r true s
                    else scan_aux f r false rest)
      | None =>
          match s with
          | [] => []
          | x :: s' => Lit x :: scan_aux f r false s'
          end
      end
  end.

Definition scan (r : re) (s : str) : list tok :=
  scan_aux (2 * length s + 2) r false s.

(** [re.sub(r, repl, s)] with a function [repl] of the match. *)
Definition sub_with (r : re) (repl : rmatch -> str) (s : str) : str :=
  flat_map (fun t => match t with Lit c => [c] | Hit m => repl m end) (scan r s).

(** [re.sub(r, repl, s)] with a constant replacement text. *)
Definition sub (r : re) (repl : str) (s : str) : str :=
  sub_with r (fun _ => repl) s.

(** [re.finditer(r, s)] *)
Definition finditer (r : re) (s : str) : list rmatch :=
  flat_map (fun t => match t with Lit _ => [] | Hit m => [m] end) (scan r s).

(** [re.findall(r, s)] for a pattern with exactly one group. *)
Definition findall1 (r : re) (s : str) : list str :=
  map (fun m => group m 1) (finditer r s).

(** ** Building blocks of the patterns *)

Definition any (_ : char) : bool := true.
Definition one (a : ascii) (x : char) : bool := N.eqb x (ch a).
Definition non (a : ascii) (x : char) : bool := negb (N.eqb x (ch a)).

(** A literal character of a pattern compiled with [re.IGNORECASE].  [c] is
    the pattern's character (the sources write them in lower case).  CPython
    compares the simple lower-case mapping of the text's character with [c]
    and adds the characters its table of case "fixes" lists for [c]: besides
    the two ASCII cases, [i] also matches U+0130 and U+0131, [s] matches
    U+017F and [k] matches U+212A. *)
Definition ichar (c : char) (x : char) : bool :=
  (N.eqb x c
   || ((97 <=? c) && (c <=? 122) && N.eqb x (c - 32))
   || ((c =? 105) && ((x =? 304) || (x =? 305)))
   || ((c =? 115) && (x =? 383))
   || ((c =? 107) && (x =? 8490)))%N.

Fixpoint seqs (l : list re) : re :=
  match l with
  | [] => Eps
  | [a] => a
  | a :: l' => Seq a (seqs l')
  end.

(** A literal run of a case-sensitive pattern, and of an [IGNORECASE] one. *)
Definition lits (s : string) : re := seqs (map (fun c => Chr (N.eqb c)) (u s)).
Definition ilits_s (s : str) : re := seqs (map (fun c => Chr (ichar c)) s).
Definition ilits (s : string) : re := ilits_s (u s).

Definition star (p : char -> bool) : re := Rep Greedy 0 None p.
Definition plus (p : char -> bool) : re := Rep Greedy 1 None p.
Definition lazy_star (p : char -> bool) : re := Rep Lazy 0 None p.
Definition opt (p : char -> bool) : re := Rep Greedy 0 (Some 1) p.

End Re.
Import Re.

(* ================================================================== *)
(** * [html.unescape] *)
(* ================================================================== *)

(** The standard library's [html.unescape], which [strip_tags] ends with,
    after [Lib/html/__init__.py] and the table [html.entities.html5]. *)
Module Html.

Local Open Scope N_scope.

(** [_invalid_charrefs] *)
Definition invalid_charrefs : list (N * str) :=
  [(0, [65533]); (13, [13]); (128, [8364]); (129, [129]); (130, [8218]);
   (131, [402]); (132, [8222]); (133, [8230]); (134, [8224]); (135, [8225]);
   (136, [710]); (137, [8240]); (138, [352]); (139, [8249]); (140, [338]);
   (141, [141]); (142, [381]); (143, [143]); (144, [144]); (145, [8216]);
   (146, [8217]); (147, [8220]); (148, [8221]); (149, [8226]); (150, [8211]);
   (151, [8212]); (152, [732]); (153, [8482]); (154, [353]); (155, [8250]);
   (156, [339]); (157, [157]); (158, [382]); (159, [376])].

(** [num in _invalid_codepoints]: 0x1-0x8, 0xB, 0xE-0x1F, 0x7F-0x9F,
    0xFDD0-0xFDEF and the last two code points of each of the 17 planes. *)
Definition invalid_codepoint (n : N) : bool :=
  (1 <=? n) && (n <=? 8) || (n =? 11) || (14 <=? n) && (n <=? 31)
  || (127 <=? n) && (n <=? 159) || (64976 <=? n) && (n <=? 65007)
  || (n <=? 1114111) && (65534 <=? N.land n 65535).

Local Open Scope string_scope.

(** [html.entities.html5]: name (with or without its semicolon) to text. *)
Definition html5 : list (string * str) :=
  [
   ("Aacute", [193]); ("aacute", [225]); ("Aacute;", [193]);
   ("aacute;", [225]); ("Abreve;", [258]); ("abreve;", [259]);
   ("ac;", [8766]); ("acd;", [8767]); ("acE;", [8766; 819]); ("Acirc", [194]);
   ("acirc", [226]); ("Acirc;", [194]); ("acirc;", [226]); ("acute", [180]);
   ("acute;", [180]); ("Acy;", [1040]); ("acy;", [1072]); ("AElig", [198]);
   ("aelig", [230]); ("AElig;", [198]); ("aelig;", [230]); ("af;", [8289]);
   ("Afr;", [120068]); ("afr;", [120094]); ("Agrave", [192]);
   ("agrave", [224]); ("Agrave;", [192]); ("agrave;", [224]);
   ("alefsym;", [8501]); ("aleph;", [8501]); ("Alpha;", [913]);
   ("alpha;", [945]); ("Amacr;", [256]); ("amacr;", [257]);
   ("amalg;", [10815]); ("AMP", [38]); ("amp", [38]); ("AMP;", [38]);
   ("amp;", [38]); ("And;", [10835]); ("and;", [8743]); ("andand;", [10837]);
   ("andd;", [10844]); ("andslope;", [10840]); ("andv;", [10842]);
   ("ang;", [8736]); ("ange;", [10660]); ("angle;", [8736]);
   ("angmsd;", [8737]); ("angmsdaa;", [10664]); ("angmsdab;", [10665]);
   ("angmsdac;", [10666]); ("angmsdad;", [10667]); ("angmsdae;", [10668]);
   ("angmsdaf;", [10669]); ("angmsdag;", [10670]); ("angmsdah;", [10671]);
   ("angrt;", [8735]); ("angrtvb;", [8894]); ("angrtvbd;", [10653]);
   ("angsph;", [8738]); ("angst;", [197]); ("angzarr;", [9084]);
   ("Aogon;", [260]); ("aogon;", [261]); ("Aopf;", [120120]);
   ("aopf;", [120146]); ("ap;", [8776]); ("apacir;", [10863]);
   ("apE;", [10864]); ("ape;", [8778]); ("apid;", [8779]); ("apos;", [39]);
   ("ApplyFunction;", [8289]); ("approx;", [8776]); ("approxeq;", [8778]);
   ("Aring", [197]); ("aring", [229]); ("Aring;", [197]); ("aring;", [229]);
   ("Ascr;", [119964]); ("ascr;", [119990]); ("Assign;", [8788]);
   ("ast;", [42]); ("asymp;", [8776]); ("asympeq;", [8781]);
   ("Atilde", [195]); ("atilde", [227]); ("Atilde;", [195]);
   ("atilde;", [227]); ("Auml", [196]); ("auml", [228]); ("Auml;", [196]);
   ("auml;", [228]); ("awconint;", [8755]); ("awint;", [10769]);
   ("backcong;", [8780]); ("backepsilon;", [1014]); ("backprime;", [8245]);
   ("backsim;", [8765]); ("backsimeq;", [8909]); ("Backslash;", [8726]);
   ("Barv;", [10983]); ("barvee;", [8893]); ("Barwed;", [8966]);
   ("barwed;", [8965]); ("barwedge;", [8965]); ("bbrk;", [9141]);
   ("bbrktbrk;", [9142]); ("bcong;", [8780]); ("Bcy;", [1041]);
   ("bcy;", [1073]); ("bdquo;", [8222]); ("becaus;", [8757]);
   ("Because;", [8757]); ("because;", [8757]); ("bemptyv;", [10672]);
   ("bepsi;", [1014]); ("bernou;", [8492]); ("Bernoullis;", [8492]);
   ("Beta;", [914]); ("beta;", [946]); ("beth;", [8502]);
   ("between;", [8812]); ("Bfr;", [120069]); ("bfr;", [120095]);
   ("bigcap;", [8898]); ("bigcirc;", [9711]); ("bigcup;", [8899]);
   ("bigodot;", [10752]); ("bigoplus;", [10753]); ("bigotimes;", [10754]);
   ("bigsqcup;", [10758]); ("bigstar;", [9733]); ("bigtriangledown;", [9661]);
   ("bigtriangleup;", [9651]); ("biguplus;", [10756]); ("bigvee;", [8897]);
   ("bigwedge;", [8896]); ("bkarow;", [10509]); ("blacklozenge;", [10731]);
   ("blacksquare;", [9642]); ("blacktriangle;", [9652]);
   ("blacktriangledown;", [9662]); ("blacktriangleleft;", [9666]);
   ("blacktriangleright;", [9656]); ("blank;", [9251]); ("blk12;", [9618]);
   ("blk14;", [9617]); ("blk34;", [9619]); ("block;", [9608]);
   ("bne;", [61; 8421]); ("bnequiv;", [8801; 8421]); ("bNot;", [10989]);
   ("bnot;", [8976]); ("Bopf;", [120121]); ("bopf;", [120147]);
   ("bot;", [8869]); ("bottom;", [8869]); ("bowtie;", [8904]);
   ("boxbox;", [10697]); ("boxDL;", [9559]); ("boxDl;", [9558]);
   ("boxdL;", [9557]); ("boxdl;", [9488]); ("boxDR;", [9556]);
   ("boxDr;", [9555]); ("boxdR;", [9554]); ("boxdr;", [9484]);
   ("boxH;", [9552]); ("boxh;", [9472]); ("boxHD;", [9574]);
   ("boxHd;", [9572]); ("boxhD;", [9573]); ("boxhd;", [9516]);
   ("boxHU;", [9577]); ("boxHu;", [9575]); ("boxhU;", [9576]);
   ("boxhu;", [9524]); ("boxminus;", [8863]); ("boxplus;", [8862]);
   ("boxtimes;", [8864]); ("boxUL;", [9565]); ("boxUl;", [9564]);
   ("boxuL;", [9563]); ("boxul;", [9496]); ("boxUR;", [9562]);
   ("boxUr;", [9561]); ("boxuR;", [9560]); ("boxur;", [9492]);
   ("boxV;", [9553]); ("boxv;", [9474]); ("boxVH;", [9580]);
   ("boxVh;", [9579]); ("boxvH;", [9578]); ("boxvh;", [9532]);
   ("boxVL;", [9571]); ("boxVl;", [9570]); ("boxvL;", [9569]);
   ("boxvl;", [9508]); ("boxVR;", [9568]); ("boxVr;", [9567]);
   ("boxvR;", [9566]); ("boxvr;", [9500]); ("bprime;", [8245]);
   ("Breve;", [728]); ("breve;", [728]); ("brvbar", [166]);
   ("brvbar;", [166]); ("Bscr;", [8492]); ("bscr;", [119991]);
   ("bsemi;", [8271]); ("bsim;", [8765]); ("bsime;", [8909]); ("bsol;", [92]);
   ("bsolb;", [10693]); ("bsolhsub;", [10184]); ("bull;", [8226]);
   ("bullet;", [8226]); ("bump;", [8782]); ("bumpE;", [10926]);
   ("bumpe;", [8783]); ("Bumpeq;", [8782]); ("bumpeq;", [8783]);
   ("Cacute;", [262]); ("cacute;", [263]); ("Cap;", [8914]); ("cap;", [8745]);
   ("capand;", [10820]); ("capbrcup;", [10825]); ("capcap;", [10827]);
   ("capcup;", [10823]); ("capdot;", [10816]);
   ("CapitalDifferentialD;", [8517]); ("caps;", [8745; 65024]);
   ("caret;", [8257]); ("caron;", [711]); ("Cayleys;", [8493]);
   ("ccaps;", [10829]); ("Ccaron;", [268]); ("ccaron;", [269]);
   ("Ccedil", [199]); ("ccedil", [231]); ("Ccedil;", [199]);
   ("ccedil;", [231]); ("Ccirc;", [264]); ("ccirc;", [265]);
   ("Cconint;", [8752]); ("ccups;", [10828]); ("ccupssm;", [10832]);
   ("Cdot;", [266]); ("cdot;", [267]); ("cedil", [184]); ("cedil;", [184]);
   ("Cedilla;", [184]); ("cemptyv;", [10674]); ("cent", [162]);
   ("cent;", [162]); ("CenterDot;", [183]); ("centerdot;", [183]);
   ("Cfr;", [8493]); ("cfr;", [120096]); ("CHcy;", [1063]); ("chcy;", [1095]);
   ("check;", [10003]); ("checkmark;", [10003]); ("Chi;", [935]);
   ("chi;", [967]); ("cir;", [9675]); ("circ;", [710]); ("circeq;", [8791]);
   ("circlearrowleft;", [8634]); ("circlearrowright;", [8635]);
   ("circledast;", [8859]); ("circledcirc;", [8858]);
   ("circleddash;", [8861]); ("CircleDot;", [8857]); ("circledR;", [174]);
   ("circledS;", [9416]); ("CircleMinus;", [8854]); ("CirclePlus;", [8853]);
   ("CircleTimes;", [8855]); ("cirE;", [10691]); ("cire;", [8791]);
   ("cirfnint;", [10768]); ("cirmid;", [10991]); ("cirscir;", [10690]);
   ("ClockwiseContourIntegral;", [8754]); ("CloseCurlyDoubleQuote;", [8221]);
   ("CloseCurlyQuote;", [8217]); ("clubs;", [9827]); ("clubsuit;", [9827]);
   ("Colon;", [8759]); ("colon;", [58]); ("Colone;", [10868]);
   ("colone;", [8788]); ("coloneq;", [8788]); ("comma;", [44]);
   ("commat;", [64]); ("comp;", [8705]); ("compfn;", [8728]);
   ("complement;", [8705]); ("complexes;", [8450]); ("cong;", [8773]);
   ("congdot;", [10861]); ("Congruent;", [8801]); ("Conint;", [8751]);
   ("conint;", [8750]); ("ContourIntegral;", [8750]); ("Copf;", [8450]);
   ("copf;", [120148]); ("coprod;", [8720]); ("Coproduct;", [8720]);
   ("COPY", [169]); ("copy", [169]); ("COPY;", [169]); ("copy;", [169]);
   ("copysr;", [8471]); ("CounterClockwiseContourIntegral;", [8755]);
   ("crarr;", [8629]); ("Cross;", [10799]); ("cross;", [10007]);
   ("Cscr;", [119966]); ("cscr;", [119992]); ("csub;", [10959]);
   ("csube;", [10961]); ("csup;", [10960]); ("csupe;", [10962]);
   ("ctdot;", [8943]); ("cudarrl;", [10552]); ("cudarrr;", [10549]);
   ("cuepr;", [8926]); ("cuesc;", [8927]); ("cularr;", [8630]);
   ("cularrp;", [10557]); ("Cup;", [8915]); ("cup;", [8746]);
   ("cupbrcap;", [10824]); ("CupCap;", [8781]); ("cupcap;", [10822]);
   ("cupcup;", [10826]); ("cupdot;", [8845]); ("cupor;", [10821]);
   ("cups;", [8746; 65024]); ("curarr;", [8631]); ("curarrm;", [10556]);
   ("curlyeqprec;", [8926]); ("curlyeqsucc;", [8927]); ("curlyvee;", [8910]);
   ("curlywedge;", [8911]); ("curren", [164]); ("curren;", [164]);
   ("curvearrowleft;", [8630]); ("curvearrowright;", [8631]);
   ("cuvee;", [8910]); ("cuwed;", [8911]); ("cwconint;", [8754]);
   ("cwint;", [8753]); ("cylcty;", [9005]); ("Dagger;", [8225]);
   ("dagger;", [8224]); ("daleth;", [8504]); ("Darr;", [8609]);
   ("dArr;", [8659]); ("darr;", [8595]); ("dash;", [8208]);
   ("Dashv;", [10980]); ("dashv;", [8867]); ("dbkarow;", [10511]);
   ("dblac;", [733]); ("Dcaron;", [270]); ("dcaron;", [271]);
   ("Dcy;", [1044]); ("dcy;", [1076]); ("DD;", [8517]); ("dd;", [8518]);
   ("ddagger;", [8225]); ("ddarr;", [8650]); ("DDotrahd;", [10513]);
   ("ddotseq;", [10871]); ("deg", [176]); ("deg;", [176]); ("Del;", [8711]);
   ("Delta;", [916]); ("delta;", [948]); ("demptyv;", [10673]);
   ("dfisht;", [10623]); ("Dfr;", [120071]); ("dfr;", [120097]);
   ("dHar;", [10597]); ("dharl;", [8643]); ("dharr;", [8642]);
   ("DiacriticalAcute;", [180]); ("DiacriticalDot;", [729]);
   ("DiacriticalDoubleAcute;", [733]); ("DiacriticalGrave;", [96]);
   ("DiacriticalTilde;", [732]); ("diam;", [8900]); ("Diamond;", [8900]);
   ("diamond;", [8900]); ("diamondsuit;", [9830]); ("diams;", [9830]);
   ("die;", [168]); ("DifferentialD;", [8518]); ("digamma;", [989]);
   ("disin;", [8946]); ("div;", [247]); ("divide", [247]); ("divide;", [247]);
   ("divideontimes;", [8903]); ("divonx;", [8903]); ("DJcy;", [1026]);
   ("djcy;", [1106]); ("dlcorn;", [8990]); ("dlcrop;", [8973]);
   ("dollar;", [36]); ("Dopf;", [120123]); ("dopf;", [120149]);
   ("Dot;", [168]); ("dot;", [729]); ("DotDot;", [8412]); ("doteq;", [8784]);
   ("doteqdot;", [8785]); ("DotEqual;", [8784]); ("dotminus;", [8760]);
   ("dotplus;", [8724]); ("dotsquare;", [8865]); ("doublebarwedge;", [8966]);
   ("DoubleContourIntegral;", [8751]); ("DoubleDot;", [168]);
   ("DoubleDownArrow;", [8659]); ("DoubleLeftArrow;", [8656]);
   ("DoubleLeftRightArrow;", [8660]); ("DoubleLeftTee;", [10980]);
   ("DoubleLongLeftArrow;", [10232]); ("DoubleLongLeftRightArrow;", [10234]);
   ("DoubleLongRightArrow;", [10233]); ("DoubleRightArrow;", [8658]);
   ("DoubleRightTee;", [8872]); ("DoubleUpArrow;", [8657]);
   ("DoubleUpDownArrow;", [8661]); ("DoubleVerticalBar;", [8741]);
   ("DownArrow;", [8595]); ("Downarrow;", [8659]); ("downarrow;", [8595]);
   ("DownArrowBar;", [10515]); ("DownArrowUpArrow;", [8693]);
   ("DownBreve;", [785]); ("downdownarrows;", [8650]);
   ("downharpoonleft;", [8643]); ("downharpoonright;", [8642]);
   ("DownLeftRightVector;", [10576]); ("DownLeftTeeVector;", [10590]);
   ("DownLeftVector;", [8637]); ("DownLeftVectorBar;", [10582]);
   ("DownRightTeeVector;", [10591]); ("DownRightVector;", [8641]);
   ("DownRightVectorBar;", [10583]); ("DownTee;", [8868]);
   ("DownTeeArrow;", [8615]); ("drbkarow;", [10512]); ("drcorn;", [8991]);
   ("drcrop;", [8972]); ("Dscr;", [119967]); ("dscr;", [119993]);
   ("DScy;", [1029]); ("dscy;", [1109]); ("dsol;", [10742]);
   ("Dstrok;", [272]); ("dstrok;", [273]); ("dtdot;", [8945]);
   ("dtri;", [9663]); ("dtrif;", [9662]); ("duarr;", [8693]);
   ("duhar;", [10607]); ("dwangle;", [10662]); ("DZcy;", [1039]);
   ("dzcy;", [1119]); ("dzigrarr;", [10239]); ("Eacute", [201]);
   ("eacute", [233]); ("Eacute;", [201]); ("eacute;", [233]);
   ("easter;", [10862]); ("Ecaron;", [282]); ("ecaron;", [283]);
   ("ecir;", [8790]); ("Ecirc", [202]); ("ecirc", [234]); ("Ecirc;", [202]);
   ("ecirc;", [234]); ("ecolon;", [8789]); ("Ecy;", [1069]); ("ecy;", [1101]);
   ("eDDot;", [10871]); ("Edot;", [278]); ("eDot;", [8785]); ("edot;", [279]);
   ("ee;", [8519]); ("efDot;", [8786]); ("Efr;", [120072]);
   ("efr;", [120098]); ("eg;", [10906]); ("Egrave", [200]); ("egrave", [232]);
   ("Egrave;", [200]); ("egrave;", [232]); ("egs;", [10902]);
   ("egsdot;", [10904]); ("el;", [10905]); ("Element;", [8712]);
   ("elinters;", [9191]); ("ell;", [8467]); ("els;", [10901]);
   ("elsdot;", [10903]); ("Emacr;", [274]); ("emacr;", [275]);
   ("empty;", [8709]); ("emptyset;", [8709]); ("EmptySmallSquare;", [9723]);
   ("emptyv;", [8709]); ("EmptyVerySmallSquare;", [9643]);
   ("emsp13;", [8196]); ("emsp14;", [8197]); ("emsp;", [8195]);
   ("ENG;", [330]); ("eng;", [331]); ("ensp;", [8194]); ("Eogon;", [280]);
   ("eogon;", [281]); ("Eopf;", [120124]); ("eopf;", [120150]);
   ("epar;", [8917]); ("eparsl;", [10723]); ("eplus;", [10865]);
   ("epsi;", [949]); ("Epsilon;", [917]); ("epsilon;", [949]);
   ("epsiv;", [1013]); ("eqcirc;", [8790]); ("eqcolon;", [8789]);
   ("eqsim;", [8770]); ("eqslantgtr;", [10902]); ("eqslantless;", [10901]);
   ("Equal;", [10869]); ("equals;", [61]); ("EqualTilde;", [8770]);
   ("equest;", [8799]); ("Equilibrium;", [8652]); ("equiv;", [8801]);
   ("equivDD;", [10872]); ("eqvparsl;", [10725]); ("erarr;", [10609]);
   ("erDot;", [8787]); ("Escr;", [8496]); ("escr;", [8495]);
   ("esdot;", [8784]); ("Esim;", [10867]); ("esim;", [8770]); ("Eta;", [919]);
   ("eta;", [951]); ("ETH", [208]); ("eth", [240]); ("ETH;", [208]);
   ("eth;", [240]); ("Euml", [203]); ("euml", [235]); ("Euml;", [203]);
   ("euml;", [235]); ("euro;", [8364]); ("excl;", [33]); ("exist;", [8707]);
   ("Exists;", [8707]); ("expectation;", [8496]); ("ExponentialE;", [8519]);
   ("exponentiale;", [8519]); ("fallingdotseq;", [8786]); ("Fcy;", [1060]);
   ("fcy;", [1092]); ("female;", [9792]); ("ffilig;", [64259]);
   ("fflig;", [64256]); ("ffllig;", [64260]); ("Ffr;", [120073]);
   ("ffr;", [120099]); ("filig;", [64257]); ("FilledSmallSquare;", [9724]);
   ("FilledVerySmallSquare;", [9642]); ("fjlig;", [102; 106]);
   ("flat;", [9837]); ("fllig;", [64258]); ("fltns;", [9649]);
   ("fnof;", [402]); ("Fopf;", [120125]); ("fopf;", [120151]);
   ("ForAll;", [8704]); ("forall;", [8704]); ("fork;", [8916]);
   ("forkv;", [10969]); ("Fouriertrf;", [8497]); ("fpartint;", [10765]);
   ("frac12", [189]); ("frac12;", [189]); ("frac13;", [8531]);
   ("frac14", [188]); ("frac14;", [188]); ("frac15;", [8533]);
   ("frac16;", [8537]); ("frac18;", [8539]); ("frac23;", [8532]);
   ("frac25;", [8534]); ("frac34", [190]); ("frac34;", [190]);
   ("frac35;", [8535]); ("frac38;", [8540]); ("frac45;", [8536]);
   ("frac56;", [8538]); ("frac58;", [8541]); ("frac78;", [8542]);
   ("frasl;", [8260]); ("frown;", [8994]); ("Fscr;", [8497]);
   ("fscr;", [119995]); ("gacute;", [501]); ("Gamma;", [915]);
   ("gamma;", [947]); ("Gammad;", [988]); ("gammad;", [989]);
   ("gap;", [10886]); ("Gbreve;", [286]); ("gbreve;", [287]);
   ("Gcedil;", [290]); ("Gcirc;", [284]); ("gcirc;", [285]); ("Gcy;", [1043]);
   ("gcy;", [1075]); ("Gdot;", [288]); ("gdot;", [289]); ("gE;", [8807]);
   ("ge;", [8805]); ("gEl;", [10892]); ("gel;", [8923]); ("geq;", [8805]);
   ("geqq;", [8807]); ("geqslant;", [10878]); ("ges;", [10878]);
   ("gescc;", [10921]); ("gesdot;", [10880]); ("gesdoto;", [10882]);
   ("gesdotol;", [10884]); ("gesl;", [8923; 65024]); ("gesles;", [10900]);
   ("Gfr;", [120074]); ("gfr;", [120100]); ("Gg;", [8921]); ("gg;", [8811]);
   ("ggg;", [8921]); ("gimel;", [8503]); ("GJcy;", [1027]); ("gjcy;", [1107]);
   ("gl;", [8823]); ("gla;", [10917]); ("glE;", [10898]); ("glj;", [10916]);
   ("gnap;", [10890]); ("gnapprox;", [10890]); ("gnE;", [8809]);
   ("gne;", [10888]); ("gneq;", [10888]); ("gneqq;", [8809]);
   ("gnsim;", [8935]); ("Gopf;", [120126]); ("gopf;", [120152]);
   ("grave;", [96]); ("GreaterEqual;", [8805]); ("GreaterEqualLess;", [8923]);
   ("GreaterFullEqual;", [8807]); ("GreaterGreater;", [10914]);
   ("GreaterLess;", [8823]); ("GreaterSlantEqual;", [10878]);
   ("GreaterTilde;", [8819]); ("Gscr;", [119970]); ("gscr;", [8458]);
   ("gsim;", [8819]); ("gsime;", [10894]); ("gsiml;", [10896]); ("GT", [62]);
   ("gt", [62]); ("GT;", [62]); ("Gt;", [8811]); ("gt;", [62]);
   ("gtcc;", [10919]); ("gtcir;", [10874]); ("gtdot;", [8919]);
   ("gtlPar;", [10645]); ("gtquest;", [10876]); ("gtrapprox;", [10886]);
   ("gtrarr;", [10616]); ("gtrdot;", [8919]); ("gtreqless;", [8923]);
   ("gtreqqless;", [10892]); ("gtrless;", [8823]); ("gtrsim;", [8819]);
   ("gvertneqq;", [8809; 65024]); ("gvnE;", [8809; 65024]); ("Hacek;", [711]);
   ("hairsp;", [8202]); ("half;", [189]); ("hamilt;", [8459]);
   ("HARDcy;", [1066]); ("hardcy;", [1098]); ("hArr;", [8660]);
   ("harr;", [8596]); ("harrcir;", [10568]); ("harrw;", [8621]);
   ("Hat;", [94]); ("hbar;", [8463]); ("Hcirc;", [292]); ("hcirc;", [293]);
   ("hearts;", [9829]); ("heartsuit;", [9829]); ("hellip;", [8230]);
   ("hercon;", [8889]); ("Hfr;", [8460]); ("hfr;", [120101]);
   ("HilbertSpace;", [8459]); ("hksearow;", [10533]); ("hkswarow;", [10534]);
   ("hoarr;", [8703]); ("homtht;", [8763]); ("hookleftarrow;", [8617]);
   ("hookrightarrow;", [8618]); ("Hopf;", [8461]); ("hopf;", [120153]);
   ("horbar;", [8213]); ("HorizontalLine;", [9472]); ("Hscr;", [8459]);
   ("hscr;", [119997]); ("hslash;", [8463]); ("Hstrok;", [294]);
   ("hstrok;", [295]); ("HumpDownHump;", [8782]); ("HumpEqual;", [8783]);
   ("hybull;", [8259]); ("hyphen;", [8208]); ("Iacute", [205]);
   ("iacute", [237]); ("Iacute;", [205]); ("iacute;", [237]); ("ic;", [8291]);
   ("Icirc", [206]); ("icirc", [238]); ("Icirc;", [206]); ("icirc;", [238]);
   ("Icy;", [1048]); ("icy;", [1080]); ("Idot;", [304]); ("IEcy;", [1045]);
   ("iecy;", [1077]); ("iexcl", [161]); ("iexcl;", [161]); ("iff;", [8660]);
   ("Ifr;", [8465]); ("ifr;", [120102]); ("Igrave", [204]); ("igrave", [236]);
   ("Igrave;", [204]); ("igrave;", [236]); ("ii;", [8520]);
   ("iiiint;", [10764]); ("iiint;", [8749]); ("iinfin;", [10716]);
   ("iiota;", [8489]); ("IJlig;", [306]); ("ijlig;", [307]); ("Im;", [8465]);
   ("Imacr;", [298]); ("imacr;", [299]); ("image;", [8465]);
   ("ImaginaryI;", [8520]); ("imagline;", [8464]); ("imagpart;", [8465]);
   ("imath;", [305]); ("imof;", [8887]); ("imped;", [437]);
   ("Implies;", [8658]); ("in;", [8712]); ("incare;", [8453]);
   ("infin;", [8734]); ("infintie;", [10717]); ("inodot;", [305]);
   ("Int;", [8748]); ("int;", [8747]); ("intcal;", [8890]);
   ("integers;", [8484]); ("Integral;", [8747]); ("intercal;", [8890]);
   ("Intersection;", [8898]); ("intlarhk;", [10775]); ("intprod;", [10812]);
   ("InvisibleComma;", [8291]); ("InvisibleTimes;", [8290]);
   ("IOcy;", [1025]); ("iocy;", [1105]); ("Iogon;", [302]); ("iogon;", [303]);
   ("Iopf;", [120128]); ("iopf;", [120154]); ("Iota;", [921]);
   ("iota;", [953]); ("iprod;", [10812]); ("iquest", [191]);
   ("iquest;", [191]); ("Iscr;", [8464]); ("iscr;", [119998]);
   ("isin;", [8712]); ("isindot;", [8949]); ("isinE;", [8953]);
   ("isins;", [8948]); ("isinsv;", [8947]); ("isinv;", [8712]);
   ("it;", [8290]); ("Itilde;", [296]); ("itilde;", [297]);
   ("Iukcy;", [1030]); ("iukcy;", [1110]); ("Iuml", [207]); ("iuml", [239]);
   ("Iuml;", [207]); ("iuml;", [239]); ("Jcirc;", [308]); ("jcirc;", [309]);
   ("Jcy;", [1049]); ("jcy;", [1081]); ("Jfr;", [120077]); ("jfr;", [120103]);
   ("jmath;", [567]); ("Jopf;", [120129]); ("jopf;", [120155]);
   ("Jscr;", [119973]); ("jscr;", [119999]); ("Jsercy;", [1032]);
   ("jsercy;", [1112]); ("Jukcy;", [1028]); ("jukcy;", [1108]);
   ("Kappa;", [922]); ("kappa;", [954]); ("kappav;", [1008]);
   ("Kcedil;", [310]); ("kcedil;", [311]); ("Kcy;", [1050]); ("kcy;", [1082]);
   ("Kfr;", [120078]); ("kfr;", [120104]); ("kgreen;", [312]);
   ("KHcy;", [1061]); ("khcy;", [1093]); ("KJcy;", [1036]); ("kjcy;", [1116]);
   ("Kopf;", [120130]); ("kopf;", [120156]); ("Kscr;", [119974]);
   ("kscr;", [120000]); ("lAarr;", [8666]); ("Lacute;", [313]);
   ("lacute;", [314]); ("laemptyv;", [10676]); ("lagran;", [8466]);
   ("Lambda;", [923]); ("lambda;", [955]); ("Lang;", [10218]);
   ("lang;", [10216]); ("langd;", [10641]); ("langle;", [10216]);
   ("lap;", [10885]); ("Laplacetrf;", [8466]); ("laquo", [171]);
   ("laquo;", [171]); ("Larr;", [8606]); ("lArr;", [8656]); ("larr;", [8592]);
   ("larrb;", [8676]); ("larrbfs;", [10527]); ("larrfs;", [10525]);
   ("larrhk;", [8617]); ("larrlp;", [8619]); ("larrpl;", [10553]);
   ("larrsim;", [10611]); ("larrtl;", [8610]); ("lat;", [10923]);
   ("lAtail;", [10523]); ("latail;", [10521]); ("late;", [10925]);
   ("lates;", [10925; 65024]); ("lBarr;", [10510]); ("lbarr;", [10508]);
   ("lbbrk;", [10098]); ("lbrace;", [123]); ("lbrack;", [91]);
   ("lbrke;", [10635]); ("lbrksld;", [10639]); ("lbrkslu;", [10637]);
   ("Lcaron;", [317]); ("lcaron;", [318]); ("Lcedil;", [315]);
   ("lcedil;", [316]); ("lceil;", [8968]); ("lcub;", [123]); ("Lcy;", [1051]);
   ("lcy;", [1083]); ("ldca;", [10550]); ("ldquo;", [8220]);
   ("ldquor;", [8222]); ("ldrdhar;", [10599]); ("ldrushar;", [10571]);
   ("ldsh;", [8626]); ("lE;", [8806]); ("le;", [8804]);
   ("LeftAngleBracket;", [10216]); ("LeftArrow;", [8592]);
   ("Leftarrow;", [8656]); ("leftarrow;", [8592]); ("LeftArrowBar;", [8676]);
   ("LeftArrowRightArrow;", [8646]); ("leftarrowtail;", [8610]);
   ("LeftCeiling;", [8968]); ("LeftDoubleBracket;", [10214]);
   ("LeftDownTeeVector;", [10593]); ("LeftDownVector;", [8643]);
   ("LeftDownVectorBar;", [10585]); ("LeftFloor;", [8970]);
   ("leftharpoondown;", [8637]); ("leftharpoonup;", [8636]);
   ("leftleftarrows;", [8647]); ("LeftRightArrow;", [8596]);
   ("Leftrightarrow;", [8660]); ("leftrightarrow;", [8596]);
   ("leftrightarrows;", [8646]); ("leftrightharpoons;", [8651]);
   ("leftrightsquigarrow;", [8621]); ("LeftRightVector;", [10574]);
   ("LeftTee;", [8867]); ("LeftTeeArrow;", [8612]);
   ("LeftTeeVector;", [10586]); ("leftthreetimes;", [8907]);
   ("LeftTriangle;", [8882]); ("LeftTriangleBar;", [10703]);
   ("LeftTriangleEqual;", [8884]); ("LeftUpDownVector;", [10577]);
   ("LeftUpTeeVector;", [10592]); ("LeftUpVector;", [8639]);
   ("LeftUpVectorBar;", [10584]); ("LeftVector;", [8636]);
   ("LeftVectorBar;", [10578]); ("lEg;", [10891]); ("leg;", [8922]);
   ("leq;", [8804]); ("leqq;", [8806]); ("leqslant;", [10877]);
   ("les;", [10877]); ("lescc;", [10920]); ("lesdot;", [10879]);
   ("lesdoto;", [10881]); ("lesdotor;", [10883]); ("lesg;", [8922; 65024]);
   ("lesges;", [10899]); ("lessapprox;", [10885]); ("lessdot;", [8918]);
   ("lesseqgtr;", [8922]); ("lesseqqgtr;", [10891]);
   ("LessEqualGreater;", [8922]); ("LessFullEqual;", [8806]);
   ("LessGreater;", [8822]); ("lessgtr;", [8822]); ("LessLess;", [10913]);
   ("lesssim;", [8818]); ("LessSlantEqual;", [10877]); ("LessTilde;", [8818]);
   ("lfisht;", [10620]); ("lfloor;", [8970]); ("Lfr;", [120079]);
   ("lfr;", [120105]); ("lg;", [8822]); ("lgE;", [10897]); ("lHar;", [10594]);
   ("lhard;", [8637]); ("lharu;", [8636]); ("lharul;", [10602]);
   ("lhblk;", [9604]); ("LJcy;", [1033]); ("ljcy;", [1113]); ("Ll;", [8920]);
   ("ll;", [8810]); ("llarr;", [8647]); ("llcorner;", [8990]);
   ("Lleftarrow;", [8666]); ("llhard;", [10603]); ("lltri;", [9722]);
   ("Lmidot;", [319]); ("lmidot;", [320]); ("lmoust;", [9136]);
   ("lmoustache;", [9136]); ("lnap;", [10889]); ("lnapprox;", [10889]);
   ("lnE;", [8808]); ("lne;", [10887]); ("lneq;", [10887]);
   ("lneqq;", [8808]); ("lnsim;", [8934]); ("loang;", [10220]);
   ("loarr;", [8701]); ("lobrk;", [10214]); ("LongLeftArrow;", [10229]);
   ("Longleftarrow;", [10232]); ("longleftarrow;", [10229]);
   ("LongLeftRightArrow;", [10231]); ("Longleftrightarrow;", [10234]);
   ("longleftrightarrow;", [10231]); ("longmapsto;", [10236]);
   ("LongRightArrow;", [10230]); ("Longrightarrow;", [10233]);
   ("longrightarrow;", [10230]); ("looparrowleft;", [8619]);
   ("looparrowright;", [8620]); ("lopar;", [10629]); ("Lopf;", [120131]);
   ("lopf;", [120157]); ("loplus;", [10797]); ("lotimes;", [10804]);
   ("lowast;", [8727]); ("lowbar;", [95]); ("LowerLeftArrow;", [8601]);
   ("LowerRightArrow;", [8600]); ("loz;", [9674]); ("lozenge;", [9674]);
   ("lozf;", [10731]); ("lpar;", [40]); ("lparlt;", [10643]);
   ("lrarr;", [8646]); ("lrcorner;", [8991]); ("lrhar;", [8651]);
   ("lrhard;", [10605]); ("lrm;", [8206]); ("lrtri;", [8895]);
   ("lsaquo;", [8249]); ("Lscr;", [8466]); ("lscr;", [120001]);
   ("Lsh;", [8624]); ("lsh;", [8624]); ("lsim;", [8818]); ("lsime;", [10893]);
   ("lsimg;", [10895]); ("lsqb;", [91]); ("lsquo;", [8216]);
   ("lsquor;", [8218]); ("Lstrok;", [321]); ("lstrok;", [322]); ("LT", [60]);
   ("lt", [60]); ("LT;", [60]); ("Lt;", [8810]); ("lt;", [60]);
   ("ltcc;", [10918]); ("ltcir;", [10873]); ("ltdot;", [8918]);
   ("lthree;", [8907]); ("ltimes;", [8905]); ("ltlarr;", [10614]);
   ("ltquest;", [10875]); ("ltri;", [9667]); ("ltrie;", [8884]);
   ("ltrif;", [9666]); ("ltrPar;", [10646]); ("lurdshar;", [10570]);
   ("luruhar;", [10598]); ("lvertneqq;", [8808; 65024]);
   ("lvnE;", [8808; 65024]); ("macr", [175]); ("macr;", [175]);
   ("male;", [9794]); ("malt;", [10016]); ("maltese;", [10016]);
   ("Map;", [10501]); ("map;", [8614]); ("mapsto;", [8614]);
   ("mapstodown;", [8615]); ("mapstoleft;", [8612]); ("mapstoup;", [8613]);
   ("marker;", [9646]); ("mcomma;", [10793]); ("Mcy;", [1052]);
   ("mcy;", [1084]); ("mdash;", [8212]); ("mDDot;", [8762]);
   ("measuredangle;", [8737]); ("MediumSpace;", [8287]);
   ("Mellintrf;", [8499]); ("Mfr;", [120080]); ("mfr;", [120106]);
   ("mho;", [8487]); ("micro", [181]); ("micro;", [181]); ("mid;", [8739]);
   ("midast;", [42]); ("midcir;", [10992]); ("middot", [183]);
   ("middot;", [183]); ("minus;", [8722]); ("minusb;", [8863]);
   ("minusd;", [8760]); ("minusdu;", [10794]); ("MinusPlus;", [8723]);
   ("mlcp;", [10971]); ("mldr;", [8230]); ("mnplus;", [8723]);
   ("models;", [8871]); ("Mopf;", [120132]); ("mopf;", [120158]);
   ("mp;", [8723]); ("Mscr;", [8499]); ("mscr;", [120002]);
   ("mstpos;", [8766]); ("Mu;", [924]); ("mu;", [956]); ("multimap;", [8888]);
   ("mumap;", [8888]); ("nabla;", [8711]); ("Nacute;", [323]);
   ("nacute;", [324]); ("nang;", [8736; 8402]); ("nap;", [8777]);
   ("napE;", [10864; 824]); ("napid;", [8779; 824]); ("napos;", [329]);
   ("napprox;", [8777]); ("natur;", [9838]); ("natural;", [9838]);
   ("naturals;", [8469]); ("nbsp", [160]); ("nbsp;", [160]);
   ("nbump;", [8782; 824]); ("nbumpe;", [8783; 824]); ("ncap;", [10819]);
   ("Ncaron;", [327]); ("ncaron;", [328]); ("Ncedil;", [325]);
   ("ncedil;", [326]); ("ncong;", [8775]); ("ncongdot;", [10861; 824]);
   ("ncup;", [10818]); ("Ncy;", [1053]); ("ncy;", [1085]); ("ndash;", [8211]);
   ("ne;", [8800]); ("nearhk;", [10532]); ("neArr;", [8663]);
   ("nearr;", [8599]); ("nearrow;", [8599]); ("nedot;", [8784; 824]);
   ("NegativeMediumSpace;", [8203]); ("NegativeThickSpace;", [8203]);
   ("NegativeThinSpace;", [8203]); ("NegativeVeryThinSpace;", [8203]);
   ("nequiv;", [8802]); ("nesear;", [10536]); ("nesim;", [8770; 824]);
   ("NestedGreaterGreater;", [8811]); ("NestedLessLess;", [8810]);
   ("NewLine;", [10]); ("nexist;", [8708]); ("nexists;", [8708]);
   ("Nfr;", [120081]); ("nfr;", [120107]); ("ngE;", [8807; 824]);
   ("nge;", [8817]); ("ngeq;", [8817]); ("ngeqq;", [8807; 824]);
   ("ngeqslant;", [10878; 824]); ("nges;", [10878; 824]);
   ("nGg;", [8921; 824]); ("ngsim;", [8821]); ("nGt;", [8811; 8402]);
   ("ngt;", [8815]); ("ngtr;", [8815]); ("nGtv;", [8811; 824]);
   ("nhArr;", [8654]); ("nharr;", [8622]); ("nhpar;", [10994]);
   ("ni;", [8715]); ("nis;", [8956]); ("nisd;", [8954]); ("niv;", [8715]);
   ("NJcy;", [1034]); ("njcy;", [1114]); ("nlArr;", [8653]);
   ("nlarr;", [8602]); ("nldr;", [8229]); ("nlE;", [8806; 824]);
   ("nle;", [8816]); ("nLeftarrow;", [8653]); ("nleftarrow;", [8602]);
   ("nLeftrightarrow;", [8654]); ("nleftrightarrow;", [8622]);
   ("nleq;", [8816]); ("nleqq;", [8806; 824]); ("nleqslant;", [10877; 824]);
   ("nles;", [10877; 824]); ("nless;", [8814]); ("nLl;", [8920; 824]);
   ("nlsim;", [8820]); ("nLt;", [8810; 8402]); ("nlt;", [8814]);
   ("nltri;", [8938]); ("nltrie;", [8940]); ("nLtv;", [8810; 824]);
   ("nmid;", [8740]); ("NoBreak;", [8288]); ("NonBreakingSpace;", [160]);
   ("Nopf;", [8469]); ("nopf;", [120159]); ("not", [172]); ("Not;", [10988]);
   ("not;", [172]); ("NotCongruent;", [8802]); ("NotCupCap;", [8813]);
   ("NotDoubleVerticalBar;", [8742]); ("NotElement;", [8713]);
   ("NotEqual;", [8800]); ("NotEqualTilde;", [8770; 824]);
   ("NotExists;", [8708]); ("NotGreater;", [8815]);
   ("NotGreaterEqual;", [8817]); ("NotGreaterFullEqual;", [8807; 824]);
   ("NotGreaterGreater;", [8811; 824]); ("NotGreaterLess;", [8825]);
   ("NotGreaterSlantEqual;", [10878; 824]); ("NotGreaterTilde;", [8821]);
   ("NotHumpDownHump;", [8782; 824]); ("NotHumpEqual;", [8783; 824]);
   ("notin;", [8713]); ("notindot;", [8949; 824]); ("notinE;", [8953; 824]);
   ("notinva;", [8713]); ("notinvb;", [8951]); ("notinvc;", [8950]);
   ("NotLeftTriangle;", [8938]); ("NotLeftTriangleBar;", [10703; 824]);
   ("NotLeftTriangleEqual;", [8940]); ("NotLess;", [8814]);
   ("NotLessEqual;", [8816]); ("NotLessGreater;", [8824]);
   ("NotLessLess;", [8810; 824]); ("NotLessSlantEqual;", [10877; 824]);
   ("NotLessTilde;", [8820]); ("NotNestedGreaterGreater;", [10914; 824]);
   ("NotNestedLessLess;", [10913; 824]); ("notni;", [8716]);
   ("notniva;", [8716]); ("notnivb;", [8958]); ("notnivc;", [8957]);
   ("NotPrecedes;", [8832]); ("NotPrecedesEqual;", [10927; 824]);
   ("NotPrecedesSlantEqual;", [8928]); ("NotReverseElement;", [8716]);
   ("NotRightTriangle;", [8939]); ("NotRightTriangleBar;", [10704; 824]);
   ("NotRightTriangleEqual;", [8941]); ("NotSquareSubset;", [8847; 824]);
   ("NotSquareSubsetEqual;", [8930]); ("NotSquareSuperset;", [8848; 824]);
   ("NotSquareSupersetEqual;", [8931]); ("NotSubset;", [8834; 8402]);
   ("NotSubsetEqual;", [8840]); ("NotSucceeds;", [8833]);
   ("NotSucceedsEqual;", [10928; 824]); ("NotSucceedsSlantEqual;", [8929]);
   ("NotSucceedsTilde;", [8831; 824]); ("NotSuperset;", [8835; 8402]);
   ("NotSupersetEqual;", [8841]); ("NotTilde;", [8769]);
   ("NotTildeEqual;", [8772]); ("NotTildeFullEqual;", [8775]);
   ("NotTildeTilde;", [8777]); ("NotVerticalBar;", [8740]); ("npar;", [8742]);
   ("nparallel;", [8742]); ("nparsl;", [11005; 8421]);
   ("npart;", [8706; 824]); ("npolint;", [10772]); ("npr;", [8832]);
   ("nprcue;", [8928]); ("npre;", [10927; 824]); ("nprec;", [8832]);
   ("npreceq;", [10927; 824]); ("nrArr;", [8655]); ("nrarr;", [8603]);
   ("nrarrc;", [10547; 824]); ("nrarrw;", [8605; 824]);
   ("nRightarrow;", [8655]); ("nrightarrow;", [8603]); ("nrtri;", [8939]);
   ("nrtrie;", [8941]); ("nsc;", [8833]); ("nsccue;", [8929]);
   ("nsce;", [10928; 824]); ("Nscr;", [119977]); ("nscr;", [120003]);
   ("nshortmid;", [8740]); ("nshortparallel;", [8742]); ("nsim;", [8769]);
   ("nsime;", [8772]); ("nsimeq;", [8772]); ("nsmid;", [8740]);
   ("nspar;", [8742]); ("nsqsube;", [8930]); ("nsqsupe;", [8931]);
   ("nsub;", [8836]); ("nsubE;", [10949; 824]); ("nsube;", [8840]);
   ("nsubset;", [8834; 8402]); ("nsubseteq;", [8840]);
   ("nsubseteqq;", [10949; 824]); ("nsucc;", [8833]);
   ("nsucceq;", [10928; 824]); ("nsup;", [8837]); ("nsupE;", [10950; 824]);
   ("nsupe;", [8841]); ("nsupset;", [8835; 8402]); ("nsupseteq;", [8841]);
   ("nsupseteqq;", [10950; 824]); ("ntgl;", [8825]); ("Ntilde", [209]);
   ("ntilde", [241]); ("Ntilde;", [209]); ("ntilde;", [241]);
   ("ntlg;", [8824]); ("ntriangleleft;", [8938]);
   ("ntrianglelefteq;", [8940]); ("ntriangleright;", [8939]);
   ("ntrianglerighteq;", [8941]); ("Nu;", [925]); ("nu;", [957]);
   ("num;", [35]); ("numero;", [8470]); ("numsp;", [8199]);
   ("nvap;", [8781; 8402]); ("nVDash;", [8879]); ("nVdash;", [8878]);
   ("nvDash;", [8877]); ("nvdash;", [8876]); ("nvge;", [8805; 8402]);
   ("nvgt;", [62; 8402]); ("nvHarr;", [10500]); ("nvinfin;", [10718]);
   ("nvlArr;", [10498]); ("nvle;", [8804; 8402]); ("nvlt;", [60; 8402]);
   ("nvltrie;", [8884; 8402]); ("nvrArr;", [10499]);
   ("nvrtrie;", [8885; 8402]); ("nvsim;", [8764; 8402]); ("nwarhk;", [10531]);
   ("nwArr;", [8662]); ("nwarr;", [8598]); ("nwarrow;", [8598]);
   ("nwnear;", [10535]); ("Oacute", [211]); ("oacute", [243]);
   ("Oacute;", [211]); ("oacute;", [243]); ("oast;", [8859]);
   ("ocir;", [8858]); ("Ocirc", [212]); ("ocirc", [244]); ("Ocirc;", [212]);
   ("ocirc;", [244]); ("Ocy;", [1054]); ("ocy;", [1086]); ("odash;", [8861]);
   ("Odblac;", [336]); ("odblac;", [337]); ("odiv;", [10808]);
   ("odot;", [8857]); ("odsold;", [10684]); ("OElig;", [338]);
   ("oelig;", [339]); ("ofcir;", [10687]); ("Ofr;", [120082]);
   ("ofr;", [120108]); ("ogon;", [731]); ("Ograve", [210]); ("ograve", [242]);
   ("Ograve;", [210]); ("ograve;", [242]); ("ogt;", [10689]);
   ("ohbar;", [10677]); ("ohm;", [937]); ("oint;", [8750]);
   ("olarr;", [8634]); ("olcir;", [10686]); ("olcross;", [10683]);
   ("oline;", [8254]); ("olt;", [10688]); ("Omacr;", [332]);
   ("omacr;", [333]); ("Omega;", [937]); ("omega;", [969]);
   ("Omicron;", [927]); ("omicron;", [959]); ("omid;", [10678]);
   ("ominus;", [8854]); ("Oopf;", [120134]); ("oopf;", [120160]);
   ("opar;", [10679]); ("OpenCurlyDoubleQuote;", [8220]);
   ("OpenCurlyQuote;", [8216]); ("operp;", [10681]); ("oplus;", [8853]);
   ("Or;", [10836]); ("or;", [8744]); ("orarr;", [8635]); ("ord;", [10845]);
   ("order;", [8500]); ("orderof;", [8500]); ("ordf", [170]);
   ("ordf;", [170]); ("ordm", [186]); ("ordm;", [186]); ("origof;", [8886]);
   ("oror;", [10838]); ("orslope;", [10839]); ("orv;", [10843]);
   ("oS;", [9416]); ("Oscr;", [119978]); ("oscr;", [8500]); ("Oslash", [216]);
   ("oslash", [248]); ("Oslash;", [216]); ("oslash;", [248]);
   ("osol;", [8856]); ("Otilde", [213]); ("otilde", [245]);
   ("Otilde;", [213]); ("otilde;", [245]); ("Otimes;", [10807]);
   ("otimes;", [8855]); ("otimesas;", [10806]); ("Ouml", [214]);
   ("ouml", [246]); ("Ouml;", [214]); ("ouml;", [246]); ("ovbar;", [9021]);
   ("OverBar;", [8254]); ("OverBrace;", [9182]); ("OverBracket;", [9140]);
   ("OverParenthesis;", [9180]); ("par;", [8741]); ("para", [182]);
   ("para;", [182]); ("parallel;", [8741]); ("parsim;", [10995]);
   ("parsl;", [11005]); ("part;", [8706]); ("PartialD;", [8706]);
   ("Pcy;", [1055]); ("pcy;", [1087]); ("percnt;", [37]); ("period;", [46]);
   ("permil;", [8240]); ("perp;", [8869]); ("pertenk;", [8241]);
   ("Pfr;", [120083]); ("pfr;", [120109]); ("Phi;", [934]); ("phi;", [966]);
   ("phiv;", [981]); ("phmmat;", [8499]); ("phone;", [9742]); ("Pi;", [928]);
   ("pi;", [960]); ("pitchfork;", [8916]); ("piv;", [982]);
   ("planck;", [8463]); ("planckh;", [8462]); ("plankv;", [8463]);
   ("plus;", [43]); ("plusacir;", [10787]); ("plusb;", [8862]);
   ("pluscir;", [10786]); ("plusdo;", [8724]); ("plusdu;", [10789]);
   ("pluse;", [10866]); ("PlusMinus;", [177]); ("plusmn", [177]);
   ("plusmn;", [177]); ("plussim;", [10790]); ("plustwo;", [10791]);
   ("pm;", [177]); ("Poincareplane;", [8460]); ("pointint;", [10773]);
   ("Popf;", [8473]); ("popf;", [120161]); ("pound", [163]);
   ("pound;", [163]); ("Pr;", [10939]); ("pr;", [8826]); ("prap;", [10935]);
   ("prcue;", [8828]); ("prE;", [10931]); ("pre;", [10927]);
   ("prec;", [8826]); ("precapprox;", [10935]); ("preccurlyeq;", [8828]);
   ("Precedes;", [8826]); ("PrecedesEqual;", [10927]);
   ("PrecedesSlantEqual;", [8828]); ("PrecedesTilde;", [8830]);
   ("preceq;", [10927]); ("precnapprox;", [10937]); ("precneqq;", [10933]);
   ("precnsim;", [8936]); ("precsim;", [8830]); ("Prime;", [8243]);
   ("prime;", [8242]); ("primes;", [8473]); ("prnap;", [10937]);
   ("prnE;", [10933]); ("prnsim;", [8936]); ("prod;", [8719]);
   ("Product;", [8719]); ("profalar;", [9006]); ("profline;", [8978]);
   ("profsurf;", [8979]); ("prop;", [8733]); ("Proportion;", [8759]);
   ("Proportional;", [8733]); ("propto;", [8733]); ("prsim;", [8830]);
   ("prurel;", [8880]); ("Pscr;", [119979]); ("pscr;", [120005]);
   ("Psi;", [936]); ("psi;", [968]); ("puncsp;", [8200]); ("Qfr;", [120084]);
   ("qfr;", [120110]); ("qint;", [10764]); ("Qopf;", [8474]);
   ("qopf;", [120162]); ("qprime;", [8279]); ("Qscr;", [119980]);
   ("qscr;", [120006]); ("quaternions;", [8461]); ("quatint;", [10774]);
   ("quest;", [63]); ("questeq;", [8799]); ("QUOT", [34]); ("quot", [34]);
   ("QUOT;", [34]); ("quot;", [34]); ("rAarr;", [8667]);
   ("race;", [8765; 817]); ("Racute;", [340]); ("racute;", [341]);
   ("radic;", [8730]); ("raemptyv;", [10675]); ("Rang;", [10219]);
   ("rang;", [10217]); ("rangd;", [10642]); ("range;", [10661]);
   ("rangle;", [10217]); ("raquo", [187]); ("raquo;", [187]);
   ("Rarr;", [8608]); ("rArr;", [8658]); ("rarr;", [8594]);
   ("rarrap;", [10613]); ("rarrb;", [8677]); ("rarrbfs;", [10528]);
   ("rarrc;", [10547]); ("rarrfs;", [10526]); ("rarrhk;", [8618]);
   ("rarrlp;", [8620]); ("rarrpl;", [10565]); ("rarrsim;", [10612]);
   ("Rarrtl;", [10518]); ("rarrtl;", [8611]); ("rarrw;", [8605]);
   ("rAtail;", [10524]); ("ratail;", [10522]); ("ratio;", [8758]);
   ("rationals;", [8474]); ("RBarr;", [10512]); ("rBarr;", [10511]);
   ("rbarr;", [10509]); ("rbbrk;", [10099]); ("rbrace;", [125]);
   ("rbrack;", [93]); ("rbrke;", [10636]); ("rbrksld;", [10638]);
   ("rbrkslu;", [10640]); ("Rcaron;", [344]); ("rcaron;", [345]);
   ("Rcedil;", [342]); ("rcedil;", [343]); ("rceil;", [8969]);
   ("rcub;", [125]); ("Rcy;", [1056]); ("rcy;", [1088]); ("rdca;", [10551]);
   ("rdldhar;", [10601]); ("rdquo;", [8221]); ("rdquor;", [8221]);
   ("rdsh;", [8627]); ("Re;", [8476]); ("real;", [8476]);
   ("realine;", [8475]); ("realpart;", [8476]); ("reals;", [8477]);
   ("rect;", [9645]); ("REG", [174]); ("reg", [174]); ("REG;", [174]);
   ("reg;", [174]); ("ReverseElement;", [8715]);
   ("ReverseEquilibrium;", [8651]); ("ReverseUpEquilibrium;", [10607]);
   ("rfisht;", [10621]); ("rfloor;", [8971]); ("Rfr;", [8476]);
   ("rfr;", [120111]); ("rHar;", [10596]); ("rhard;", [8641]);
   ("rharu;", [8640]); ("rharul;", [10604]); ("Rho;", [929]); ("rho;", [961]);
   ("rhov;", [1009]); ("RightAngleBracket;", [10217]);
   ("RightArrow;", [8594]); ("Rightarrow;", [8658]); ("rightarrow;", [8594]);
   ("RightArrowBar;", [8677]); ("RightArrowLeftArrow;", [8644]);
   ("rightarrowtail;", [8611]); ("RightCeiling;", [8969]);
   ("RightDoubleBracket;", [10215]); ("RightDownTeeVector;", [10589]);
   ("RightDownVector;", [8642]); ("RightDownVectorBar;", [10581]);
   ("RightFloor;", [8971]); ("rightharpoondown;", [8641]);
   ("rightharpoonup;", [8640]); ("rightleftarrows;", [8644]);
   ("rightleftharpoons;", [8652]); ("rightrightarrows;", [8649]);
   ("rightsquigarrow;", [8605]); ("RightTee;", [8866]);
   ("RightTeeArrow;", [8614]); ("RightTeeVector;", [10587]);
   ("rightthreetimes;", [8908]); ("RightTriangle;", [8883]);
   ("RightTriangleBar;", [10704]); ("RightTriangleEqual;", [8885]);
   ("RightUpDownVector;", [10575]); ("RightUpTeeVector;", [10588]);
   ("RightUpVector;", [8638]); ("RightUpVectorBar;", [10580]);
   ("RightVector;", [8640]); ("RightVectorBar;", [10579]); ("ring;", [730]);
   ("risingdotseq;", [8787]); ("rlarr;", [8644]); ("rlhar;", [8652]);
   ("rlm;", [8207]); ("rmoust;", [9137]); ("rmoustache;", [9137]);
   ("rnmid;", [10990]); ("roang;", [10221]); ("roarr;", [8702]);
   ("robrk;", [10215]); ("ropar;", [10630]); ("Ropf;", [8477]);
   ("ropf;", [120163]); ("roplus;", [10798]); ("rotimes;", [10805]);
   ("RoundImplies;", [10608]); ("rpar;", [41]); ("rpargt;", [10644]);
   ("rppolint;", [10770]); ("rrarr;", [8649]); ("Rrightarrow;", [8667]);
   ("rsaquo;", [8250]); ("Rscr;", [8475]); ("rscr;", [120007]);
   ("Rsh;", [8625]); ("rsh;", [8625]); ("rsqb;", [93]); ("rsquo;", [8217]);
   ("rsquor;", [8217]); ("rthree;", [8908]); ("rtimes;", [8906]);
   ("rtri;", [9657]); ("rtrie;", [8885]); ("rtrif;", [9656]);
   ("rtriltri;", [10702]); ("RuleDelayed;", [10740]); ("ruluhar;", [10600]);
   ("rx;", [8478]); ("Sacute;", [346]); ("sacute;", [347]);
   ("sbquo;", [8218]); ("Sc;", [10940]); ("sc;", [8827]); ("scap;", [10936]);
   ("Scaron;", [352]); ("scaron;", [353]); ("sccue;", [8829]);
   ("scE;", [10932]); ("sce;", [10928]); ("Scedil;", [350]);
   ("scedil;", [351]); ("Scirc;", [348]); ("scirc;", [349]);
   ("scnap;", [10938]); ("scnE;", [10934]); ("scnsim;", [8937]);
   ("scpolint;", [10771]); ("scsim;", [8831]); ("Scy;", [1057]);
   ("scy;", [1089]); ("sdot;", [8901]); ("sdotb;", [8865]);
   ("sdote;", [10854]); ("searhk;", [10533]); ("seArr;", [8664]);
   ("searr;", [8600]); ("searrow;", [8600]); ("sect", [167]);
   ("sect;", [167]); ("semi;", [59]); ("seswar;", [10537]);
   ("setminus;", [8726]); ("setmn;", [8726]); ("sext;", [10038]);
   ("Sfr;", [120086]); ("sfr;", [120112]); ("sfrown;", [8994]);
   ("sharp;", [9839]); ("SHCHcy;", [1065]); ("shchcy;", [1097]);
   ("SHcy;", [1064]); ("shcy;", [1096]); ("ShortDownArrow;", [8595]);
   ("ShortLeftArrow;", [8592]); ("shortmid;", [8739]);
   ("shortparallel;", [8741]); ("ShortRightArrow;", [8594]);
   ("ShortUpArrow;", [8593]); ("shy", [173]); ("shy;", [173]);
   ("Sigma;", [931]); ("sigma;", [963]); ("sigmaf;", [962]);
   ("sigmav;", [962]); ("sim;", [8764]); ("simdot;", [10858]);
   ("sime;", [8771]); ("simeq;", [8771]); ("simg;", [10910]);
   ("simgE;", [10912]); ("siml;", [10909]); ("simlE;", [10911]);
   ("simne;", [8774]); ("simplus;", [10788]); ("simrarr;", [10610]);
   ("slarr;", [8592]); ("SmallCircle;", [8728]); ("smallsetminus;", [8726]);
   ("smashp;", [10803]); ("smeparsl;", [10724]); ("smid;", [8739]);
   ("smile;", [8995]); ("smt;", [10922]); ("smte;", [10924]);
   ("smtes;", [10924; 65024]); ("SOFTcy;", [1068]); ("softcy;", [1100]);
   ("sol;", [47]); ("solb;", [10692]); ("solbar;", [9023]);
   ("Sopf;", [120138]); ("sopf;", [120164]); ("spades;", [9824]);
   ("spadesuit;", [9824]); ("spar;", [8741]); ("sqcap;", [8851]);
   ("sqcaps;", [8851; 65024]); ("sqcup;", [8852]); ("sqcups;", [8852; 65024]);
   ("Sqrt;", [8730]); ("sqsub;", [8847]); ("sqsube;", [8849]);
   ("sqsubset;", [8847]); ("sqsubseteq;", [8849]); ("sqsup;", [8848]);
   ("sqsupe;", [8850]); ("sqsupset;", [8848]); ("sqsupseteq;", [8850]);
   ("squ;", [9633]); ("Square;", [9633]); ("square;", [9633]);
   ("SquareIntersection;", [8851]); ("SquareSubset;", [8847]);
   ("SquareSubsetEqual;", [8849]); ("SquareSuperset;", [8848]);
   ("SquareSupersetEqual;", [8850]); ("SquareUnion;", [8852]);
   ("squarf;", [9642]); ("squf;", [9642]); ("srarr;", [8594]);
   ("Sscr;", [119982]); ("sscr;", [120008]); ("ssetmn;", [8726]);
   ("ssmile;", [8995]); ("sstarf;", [8902]); ("Star;", [8902]);
   ("star;", [9734]); ("starf;", [9733]); ("straightepsilon;", [1013]);
   ("straightphi;", [981]); ("strns;", [175]); ("Sub;", [8912]);
   ("sub;", [8834]); ("subdot;", [10941]); ("subE;", [10949]);
   ("sube;", [8838]); ("subedot;", [10947]); ("submult;", [10945]);
   ("subnE;", [10955]); ("subne;", [8842]); ("subplus;", [10943]);
   ("subrarr;", [10617]); ("Subset;", [8912]); ("subset;", [8834]);
   ("subseteq;", [8838]); ("subseteqq;", [10949]); ("SubsetEqual;", [8838]);
   ("subsetneq;", [8842]); ("subsetneqq;", [10955]); ("subsim;", [10951]);
   ("subsub;", [10965]); ("subsup;", [10963]); ("succ;", [8827]);
   ("succapprox;", [10936]); ("succcurlyeq;", [8829]); ("Succeeds;", [8827]);
   ("SucceedsEqual;", [10928]); ("SucceedsSlantEqual;", [8829]);
   ("SucceedsTilde;", [8831]); ("succeq;", [10928]);
   ("succnapprox;", [10938]); ("succneqq;", [10934]); ("succnsim;", [8937]);
   ("succsim;", [8831]); ("SuchThat;", [8715]); ("Sum;", [8721]);
   ("sum;", [8721]); ("sung;", [9834]); ("sup1", [185]); ("sup1;", [185]);
   ("sup2", [178]); ("sup2;", [178]); ("sup3", [179]); ("sup3;", [179]);
   ("Sup;", [8913]); ("sup;", [8835]); ("supdot;", [10942]);
   ("supdsub;", [10968]); ("supE;", [10950]); ("supe;", [8839]);
   ("supedot;", [10948]); ("Superset;", [8835]); ("SupersetEqual;", [8839]);
   ("suphsol;", [10185]); ("suphsub;", [10967]); ("suplarr;", [10619]);
   ("supmult;", [10946]); ("supnE;", [10956]); ("supne;", [8843]);
   ("supplus;", [10944]); ("Supset;", [8913]); ("supset;", [8835]);
   ("supseteq;", [8839]); ("supseteqq;", [10950]); ("supsetneq;", [8843]);
   ("supsetneqq;", [10956]); ("supsim;", [10952]); ("supsub;", [10964]);
   ("supsup;", [10966]); ("swarhk;", [10534]); ("swArr;", [8665]);
   ("swarr;", [8601]); ("swarrow;", [8601]); ("swnwar;", [10538]);
   ("szlig", [223]); ("szlig;", [223]); ("Tab;", [9]); ("target;", [8982]);
   ("Tau;", [932]); ("tau;", [964]); ("tbrk;", [9140]); ("Tcaron;", [356]);
   ("tcaron;", [357]); ("Tcedil;", [354]); ("tcedil;", [355]);
   ("Tcy;", [1058]); ("tcy;", [1090]); ("tdot;", [8411]); ("telrec;", [8981]);
   ("Tfr;", [120087]); ("tfr;", [120113]); ("there4;", [8756]);
   ("Therefore;", [8756]); ("therefore;", [8756]); ("Theta;", [920]);
   ("theta;", [952]); ("thetasym;", [977]); ("thetav;", [977]);
   ("thickapprox;", [8776]); ("thicksim;", [8764]);
   ("ThickSpace;", [8287; 8202]); ("thinsp;", [8201]); ("ThinSpace;", [8201]);
   ("thkap;", [8776]); ("thksim;", [8764]); ("THORN", [222]);
   ("thorn", [254]); ("THORN;", [222]); ("thorn;", [254]); ("Tilde;", [8764]);
   ("tilde;", [732]); ("TildeEqual;", [8771]); ("TildeFullEqual;", [8773]);
   ("TildeTilde;", [8776]); ("times", [215]); ("times;", [215]);
   ("timesb;", [8864]); ("timesbar;", [10801]); ("timesd;", [10800]);
   ("tint;", [8749]); ("toea;", [10536]); ("top;", [8868]);
   ("topbot;", [9014]); ("topcir;", [10993]); ("Topf;", [120139]);
   ("topf;", [120165]); ("topfork;", [10970]); ("tosa;", [10537]);
   ("tprime;", [8244]); ("TRADE;", [8482]); ("trade;", [8482]);
   ("triangle;", [9653]); ("triangledown;", [9663]);
   ("triangleleft;", [9667]); ("trianglelefteq;", [8884]);
   ("triangleq;", [8796]); ("triangleright;", [9657]);
   ("trianglerighteq;", [8885]); ("tridot;", [9708]); ("trie;", [8796]);
   ("triminus;", [10810]); ("TripleDot;", [8411]); ("triplus;", [10809]);
   ("trisb;", [10701]); ("tritime;", [10811]); ("trpezium;", [9186]);
   ("Tscr;", [119983]); ("tscr;", [120009]); ("TScy;", [1062]);
   ("tscy;", [1094]); ("TSHcy;", [1035]); ("tshcy;", [1115]);
   ("Tstrok;", [358]); ("tstrok;", [359]); ("twixt;", [8812]);
   ("twoheadleftarrow;", [8606]); ("twoheadrightarrow;", [8608]);
   ("Uacute", [218]); ("uacute", [250]); ("Uacute;", [218]);
   ("uacute;", [250]); ("Uarr;", [8607]); ("uArr;", [8657]);
   ("uarr;", [8593]); ("Uarrocir;", [10569]); ("Ubrcy;", [1038]);
   ("ubrcy;", [1118]); ("Ubreve;", [364]); ("ubreve;", [365]);
   ("Ucirc", [219]); ("ucirc", [251]); ("Ucirc;", [219]); ("ucirc;", [251]);
   ("Ucy;", [1059]); ("ucy;", [1091]); ("udarr;", [8645]); ("Udblac;", [368]);
   ("udblac;", [369]); ("udhar;", [10606]); ("ufisht;", [10622]);
   ("Ufr;", [120088]); ("ufr;", [120114]); ("Ugrave", [217]);
   ("ugrave", [249]); ("Ugrave;", [217]); ("ugrave;", [249]);
   ("uHar;", [10595]); ("uharl;", [8639]); ("uharr;", [8638]);
   ("uhblk;", [9600]); ("ulcorn;", [8988]); ("ulcorner;", [8988]);
   ("ulcrop;", [8975]); ("ultri;", [9720]); ("Umacr;", [362]);
   ("umacr;", [363]); ("uml", [168]); ("uml;", [168]); ("UnderBar;", [95]);
   ("UnderBrace;", [9183]); ("UnderBracket;", [9141]);
   ("UnderParenthesis;", [9181]); ("Union;", [8899]); ("UnionPlus;", [8846]);
   ("Uogon;", [370]); ("uogon;", [371]); ("Uopf;", [120140]);
   ("uopf;", [120166]); ("UpArrow;", [8593]); ("Uparrow;", [8657]);
   ("uparrow;", [8593]); ("UpArrowBar;", [10514]);
   ("UpArrowDownArrow;", [8645]); ("UpDownArrow;", [8597]);
   ("Updownarrow;", [8661]); ("updownarrow;", [8597]);
   ("UpEquilibrium;", [10606]); ("upharpoonleft;", [8639]);
   ("upharpoonright;", [8638]); ("uplus;", [8846]);
   ("UpperLeftArrow;", [8598]); ("UpperRightArrow;", [8599]);
   ("Upsi;", [978]); ("upsi;", [965]); ("upsih;", [978]); ("Upsilon;", [933]);
   ("upsilon;", [965]); ("UpTee;", [8869]); ("UpTeeArrow;", [8613]);
   ("upuparrows;", [8648]); ("urcorn;", [8989]); ("urcorner;", [8989]);
   ("urcrop;", [8974]); ("Uring;", [366]); ("uring;", [367]);
   ("urtri;", [9721]); ("Uscr;", [119984]); ("uscr;", [120010]);
   ("utdot;", [8944]); ("Utilde;", [360]); ("utilde;", [361]);
   ("utri;", [9653]); ("utrif;", [9652]); ("uuarr;", [8648]); ("Uuml", [220]);
   ("uuml", [252]); ("Uuml;", [220]); ("uuml;", [252]); ("uwangle;", [10663]);
   ("vangrt;", [10652]); ("varepsilon;", [1013]); ("varkappa;", [1008]);
   ("varnothing;", [8709]); ("varphi;", [981]); ("varpi;", [982]);
   ("varpropto;", [8733]); ("vArr;", [8661]); ("varr;", [8597]);
   ("varrho;", [1009]); ("varsigma;", [962]);
   ("varsubsetneq;", [8842; 65024]); ("varsubsetneqq;", [10955; 65024]);
   ("varsupsetneq;", [8843; 65024]); ("varsupsetneqq;", [10956; 65024]);
   ("vartheta;", [977]); ("vartriangleleft;", [8882]);
   ("vartriangleright;", [8883]); ("Vbar;", [10987]); ("vBar;", [10984]);
   ("vBarv;", [10985]); ("Vcy;", [1042]); ("vcy;", [1074]);
   ("VDash;", [8875]); ("Vdash;", [8873]); ("vDash;", [8872]);
   ("vdash;", [8866]); ("Vdashl;", [10982]); ("Vee;", [8897]);
   ("vee;", [8744]); ("veebar;", [8891]); ("veeeq;", [8794]);
   ("vellip;", [8942]); ("Verbar;", [8214]); ("verbar;", [124]);
   ("Vert;", [8214]); ("vert;", [124]); ("VerticalBar;", [8739]);
   ("VerticalLine;", [124]); ("VerticalSeparator;", [10072]);
   ("VerticalTilde;", [8768]); ("VeryThinSpace;", [8202]); ("Vfr;", [120089]);
   ("vfr;", [120115]); ("vltri;", [8882]); ("vnsub;", [8834; 8402]);
   ("vnsup;", [8835; 8402]); ("Vopf;", [120141]); ("vopf;", [120167]);
   ("vprop;", [8733]); ("vrtri;", [8883]); ("Vscr;", [119985]);
   ("vscr;", [120011]); ("vsubnE;", [10955; 65024]);
   ("vsubne;", [8842; 65024]); ("vsupnE;", [10956; 65024]);
   ("vsupne;", [8843; 65024]); ("Vvdash;", [8874]); ("vzigzag;", [10650]);
   ("Wcirc;", [372]); ("wcirc;", [373]); ("wedbar;", [10847]);
   ("Wedge;", [8896]); ("wedge;", [8743]); ("wedgeq;", [8793]);
   ("weierp;", [8472]); ("Wfr;", [120090]); ("wfr;", [120116]);
   ("Wopf;", [120142]); ("wopf;", [120168]); ("wp;", [8472]); ("wr;", [8768]);
   ("wreath;", [8768]); ("Wscr;", [119986]); ("wscr;", [120012]);
   ("xcap;", [8898]); ("xcirc;", [9711]); ("xcup;", [8899]);
   ("xdtri;", [9661]); ("Xfr;", [120091]); ("xfr;", [120117]);
   ("xhArr;", [10234]); ("xharr;", [10231]); ("Xi;", [926]); ("xi;", [958]);
   ("xlArr;", [10232]); ("xlarr;", [10229]); ("xmap;", [10236]);
   ("xnis;", [8955]); ("xodot;", [10752]); ("Xopf;", [120143]);
   ("xopf;", [120169]); ("xoplus;", [10753]); ("xotime;", [10754]);
   ("xrArr;", [10233]); ("xrarr;", [10230]); ("Xscr;", [119987]);
   ("xscr;", [120013]); ("xsqcup;", [10758]); ("xuplus;", [10756]);
   ("xutri;", [9651]); ("xvee;", [8897]); ("xwedge;", [8896]);
   ("Yacute", [221]); ("yacute", [253]); ("Yacute;", [221]);
   ("yacute;", [253]); ("YAcy;", [1071]); ("yacy;", [1103]);
   ("Ycirc;", [374]); ("ycirc;", [375]); ("Ycy;", [1067]); ("ycy;", [1099]);
   ("yen", [165]); ("yen;", [165]); ("Yfr;", [120092]); ("yfr;", [120118]);
   ("YIcy;", [1031]); ("yicy;", [1111]); ("Yopf;", [120144]);
   ("yopf;", [120170]); ("Yscr;", [119988]); ("yscr;", [120014]);
   ("YUcy;", [1070]); ("yucy;", [1102]); ("yuml", [255]); ("Yuml;", [376]);
   ("yuml;", [255]); ("Zacute;", [377]); ("zacute;", [378]);
   ("Zcaron;", [381]); ("zcaron;", [382]); ("Zcy;", [1047]); ("zcy;", [1079]);
   ("Zdot;", [379]); ("zdot;", [380]); ("zeetrf;", [8488]);
   ("ZeroWidthSpace;", [8203]); ("Zeta;", [918]); ("zeta;", [950]);
   ("Zfr;", [8488]); ("zfr;", [120119]); ("ZHcy;", [1046]); ("zhcy;", [1078]);
   ("zigrarr;", [8669]); ("Zopf;", [8484]); ("zopf;", [120171]);
   ("Zscr;", [119989]); ("zscr;", [120015]); ("zwj;", [8205]);
   ("zwnj;", [8204])
  ].

Local Close Scope string_scope.

Fixpoint assoc (A : Type) (s : str) (l : list (string * A)) : option A :=
  match l with
  | [] => None
  | (k, v) :: l' => if str_eqb (u k) s then Some v else assoc s l'
  end.

Fixpoint assocN (A : Type) (n : N) (l : list (N * A)) : option A :=
  match l with
  | [] => None
  | (k, v) :: l' => if n =? k then Some v else assocN n l'
  end.

Definition is_digit (c : char) : bool := (48 <=? c) && (c <=? 57).
Definition is_xdigit (c : char) : bool :=
  is_digit c || (97 <=? c) && (c <=? 102) || (65 <=? c) && (c <=? 70).
Definition is_xX (c : char) : bool := (c =? 120) || (c =? 88).

(** [[^\t\n\f <&#;]] *)
Definition is_name_char (c : char) : bool :=
  negb ((c =? 9) || (c =? 10) || (c =? 12) || (c =? 32) || (c =? 60)
        || (c =? 38) || (c =? 35) || (c =? 59)).

Definition digit_val (c : char) : N :=
  if is_digit c then c - 48
  else if (97 <=? c) && (c <=? 102) then c - 87
  else c - 55.

(** [int(digits, base)] on a run of digits of that base.  (The limit recent
    CPython versions put on the length of a decimal numeral is an
    interpreter setting and is left out.) *)
Definition int_of (base : N) (digits : str) : N :=
  fold_left (fun acc c => acc * base + digit_val c) digits 0.

(** [s.rstrip(';')] *)
Fixpoint lstrip_semi (s : str) : str :=
  match s with
  | c :: s' => if c =? 59 then lstrip_semi s' else s
  | [] => []
  end.
Definition rstrip_semi (s : str) : str := rev (lstrip_semi (rev s)).

(** The loop [for x in range(len(s)-1, 1, -1)] of the named branch: the
    longest proper prefix of [s], of two characters at least, that is a name
    of the table. *)
Fixpoint longest_prefix (x : nat) (s : str) : option str :=
  match x with
  | S (S _ as x') =>
      match assoc (firstn x s) html5 with
      | Some v => Some (v ++ skipn x s)
      | None => longest_prefix x' s
      end
  | _ => None
  end.

(** [_replace_charref], on [m.group(1)] *)
Definition replace_charref (s : str) : str :=
  match s with
  | 35 :: t =>
      let num :=
        match t with
        | c :: d => if is_xX c then int_of 16 (rstrip_semi d)
                    else int_of 10 (rstrip_semi t)
        | [] => 0
        end in
      match assocN num invalid_charrefs with
      | Some v => v
      | None =>
          if (55296 <=? num) && (num <=? 57343) || (1114111 <? num)
          then [65533]
          else if invalid_codepoint num then []
          else [num]
      end
  | _ =>
      match assoc s html5 with
      | Some v => v
      | None =>
          match longest_prefix (length s - 1) s with
          | Some v => v
          | None => 38 :: s
          end
      end
  end.

(** [_charref]: an ampersand, then (group 1) a decimal reference, a
    hexadecimal reference or a name of at most 32 characters, each with an
    optional semicolon. *)
Definition re_charref : re :=
  seqs [Chr (one "&");
        Grp 1 (Alt (seqs [Chr (one "#"); plus is_digit; opt (one ";")])
              (Alt (seqs [Chr (one "#"); Chr is_xX; plus is_xdigit; opt (one ";")])
                   (seqs [Rep Greedy 1 (Some 32%nat) is_name_char; opt (one ";")])))].

Definition unescape (s : str) : str :=
  if has_char 38 s
  then sub_with re_charref (fun m => replace_charref (group m 1)) s
  else s.

End Html.

(* ================================================================== *)
(** * The extractor: [tools/build_seo_manifest.py] *)
(* ================================================================== *)

Module Build.

Definition dquote : char := 34%N.
Definition space : str := [32%N].

(** The patterns of [strip_tags]. *)
Definition re_script : re :=
  seqs [ilits "<script"; lazy_star any; ilits "</script>"].
Definition re_style : re :=
  seqs [ilits "<style"; lazy_star any; ilits "</style>"].
Definition re_tag : re := seqs [Chr (one "<"); plus (non ">"); Chr (one ">")].
Definition re_ws : re := plus isspace.

(** The text of [strip_tags] before entities are decoded (lines 26 to 31). *)
Definition detag (html : str) : str :=
  let html := sub re_script [] html in
  let html := sub re_style [] html in
  let text := sub re_tag space html in
  strip (sub re_ws space text).

Definition strip_tags (html : str) : str := Html.unescape (detag html).


(** ** Dictionaries

    A Python [dict] with text keys, in insertion order. *)
Definition dict (V : Type) := list (str * V).

Fixpoint dget (V : Type) (k : str) (d : dict V) : option V :=
  match d with
  | [] => None
  | (k', v) :: d' => if str_eqb k k' then Some v else dget k d'
  end.

Fixpoint dset (V : Type) (k : str) (v : V) (d : dict V) : dict V :=
  match d with
  | [] => [(k, v)]
  | (k', v') :: d' =>
      if str_eqb k k' then (k, v) :: d' else (k', v') :: dset k v d'
  end.

(** [d.get(k, default)] *)
Definition dget_or (V : Type) (k : str) (default : V) (d : dict V) : V :=
  match dget k d with Some v => v | None => default end.

(** ** [extract_between] *)

Definition extract_between (pattern : re) (text : str) : str :=
  match search pattern text with
  | Some m => strip (group m 1)
  | None => []
  end.

Definition re_title : re :=
  seqs [ilits "<title>"; Grp 1 (lazy_star any); ilits "</title>"].

(** ** [extract_headings] *)

Definition is_dq (c : char) : bool := N.eqb c dquote.
Definition not_dq (c : char) : bool := negb (N.eqb c dquote).

(** [f'h{level}'] for a level of one digit *)
Definition heading_tag (level : nat) : str := [104%N; (48 + N.of_nat level)%N].

(** [rf'<{tag}[^>]*>([\s\S]*?)</{tag}>'] *)
Definition re_heading (tag : str) : re :=
  seqs [Chr (one "<"); ilits_s tag; star (non ">"); Chr (one ">");
        Grp 1 (lazy_star any); ilits "</"; ilits_s tag; Chr (one ">")].

Definition heading_items (ms : list str) : list str :=
  map (fun m => strip (strip_tags m))
      (filter (fun m => negb (is_empty (strip (strip_tags m)))) ms).

Definition extract_headings (html : str) : dict (list str) :=
  fold_left
    (fun headings level =>
       let tag := heading_tag level in
       let ms := findall1 (re_heading tag) html in
       if is_empty ms then headings
       else
         let items := heading_items ms in
         if is_empty items then headings else dset tag items headings)
    (seq 1 6) [].

(** ** [extract_links] *)

Record link := MkLink { href : str; anchor : str; rel : str; target : str }.

Definition re_link : re :=
  seqs [ilits "<a"; star (non ">"); ilits "href"; star isspace; Chr (one "=");
        star isspace; Chr is_dq; Grp 1 (plus not_dq); Chr is_dq;
        star (non ">"); Chr (one ">"); Grp 2 (lazy_star any); ilits "</a>"].

(** The attribute pattern with a non-empty value: the name, an equals sign
    with optional whitespace around it, and (group 1) one or more characters
    other than a double quote, between double quotes. *)
Definition re_attr1 (attr : string) : re :=
  seqs [ilits attr; star isspace; Chr (one "="); star isspace;
        Chr is_dq; Grp 1 (plus not_dq); Chr is_dq].

(** The same with a possibly empty value. *)
Definition re_attr0 (attr : string) : re :=
  seqs [ilits attr; star isspace; Chr (one "="); star isspace;
        Chr is_dq; Grp 1 (star not_dq); Chr is_dq].

Definition link_of_match (m : rmatch) : link :=
  let href := strip (group m 1) in
  let anchor := strip_tags (group m 2) in
  let rel_m := search (re_attr1 "rel") (group m 0) in
  let rel := match rel_m with Some r => group r 1 | None => [] end in
  let target_m := search (re_attr1 "target") (group m 0) in
  let target := match target_m with Some r => group r 1 | None => [] end in
  MkLink href anchor rel target.

Definition extract_links (html : str) : list link :=
  map link_of_match (finditer re_link html).

(** ** [extract_images] *)

Record image := MkImage
  { src : str; alt : str; title : str; width : str; height : str }.

Definition re_img : re := seqs [ilits "<img"; star (non ">"); Chr (one ">")].

Definition get_attr (tag : str) (attr : string) : str :=
  match search (re_attr0 attr) tag with
  | Some am => strip (group am 1)
  | None => []
  end.

Definition image_of_match (m : rmatch) : image :=
  let tag := group m 0 in
  MkImage (get_attr tag "src") (get_attr tag "alt") (get_attr tag "title")
          (get_attr tag "width") (get_attr tag "height").

Definition extract_images (html : str) : list image :=
  map image_of_match (finditer re_img html).

(** ** [extract_metas] and [make_page_object]

    Both call [str.lower], the Unicode lower-casing of the Python runtime.
    Its table is not part of the repository; the functions take it as
    [lower]. *)

Section WithLower.

Variable lower : str -> str.

Definition not_charset_end (c : char) : bool :=
  negb (isspace c || N.eqb c dquote || N.eqb c 47 || N.eqb c 62).

Definition re_charset : re :=
  seqs [ilits "<meta"; star (non ">"); ilits "charset"; star isspace;
        Chr (one "="); star isspace; opt is_dq;
        Grp 1 (plus not_charset_end); opt is_dq].

Definition re_meta (name : string) : re :=
  seqs [ilits "<meta"; star (non ">"); ilits "name"; star isspace;
        Chr (one "="); star isspace; opt is_dq; ilits name; opt is_dq;
        star (non ">"); ilits "content"; star isspace; Chr (one "=");
        star isspace; Chr is_dq; Grp 1 (star not_dq); Chr is_dq].

Definition re_canonical : re :=
  seqs [ilits "<link"; star (non ">"); ilits "rel"; star isspace;
        Chr (one "="); star isspace; opt is_dq; ilits "canonical"; opt is_dq;
        star (non ">"); ilits "href"; star isspace; Chr (one "=");
        star isspace; Chr is_dq; Grp 1 (plus not_dq); Chr is_dq].

Definition meta_names : list string :=
  ["description"; "keywords"; "robots"]%string.

Definition extract_metas (html : str) : dict str :=
  let metas : dict str := [] in
  let metas :=
    match search re_charset html with
    | Some m => dset (u "charset") (lower (group m 1)) metas
    | None => metas
    end in
  let metas :=
    fold_left
      (fun metas name =>
         match search (re_meta name) html with
         | Some m => dset (u name) (strip (group m 1)) metas
         | None => metas
         end)
      meta_names metas in
  match search re_canonical html with
  | Some m => dset (u "canonical") (strip (group m 1)) metas
  | None => metas
  end.

(** The classification of one link (the body of the loop of lines 107 to
    126): [true] when the link is appended to [internal_links], [false] when
    it is appended to [external_links].  The first line reads
    [(l.get('href') or '').strip()]: the record always has the key, and an
    empty value stands for itself. *)
Definition is_alpha (c : char) : bool :=
  ((97 <=? c) && (c <=? 122) || (65 <=? c) && (c <=? 90))%N.

Definition re_scheme : re := seqs [plus is_alpha; Chr (one ":")].

Definition is_some (A : Type) (o : option A) : bool :=
  match o with Some _ => true | None => false end.

Definition is_internal (site_domain : str) (l : link) : bool :=
  let href := strip (if is_empty (href l) then [] else href l) in
  let lower_href := lower href in
  if is_empty href
     || startswith_any [u "mailto:"; u "tel:"; u "javascript:"] lower_href
  then false
  else if startswith_any [u "http://"; u "https://"; u "//"] lower_href
  then (if contains site_domain lower_href then true else false)
  else if startswith_any [u "#"; u "/"; u "./"; u "../"] href
          || negb (is_some (re_match re_scheme href))
  then true
  else false.

(** The loop itself: the two lists it appends to, in order. *)
Fixpoint classify (site_domain : str) (links internal external : list link)
  : list link * list link :=
  match links with
  | [] => (internal, external)
  | l :: links' =>
      if is_internal site_domain l
      then classify site_domain links' (internal ++ [l]) external
      else classify site_domain links' internal (external ++ [l])
  end.

Record page_meta := MkMeta
  { description : str; keywords : str; robots : str; canonical : str;
    charset : str }.

Record page := MkPage
  { p_type : str; p_path : str; p_status : Z; p_title : str;
    p_meta : page_meta; openGraph : dict str; twitter : dict str;
    headings : dict (list str); contentHtml : str;
    internalLinks : list link; externalLinks : list link;
    images : list image; breadcrumbs : list str }.

(** [s.replace(BACKSLASH, '/')] *)
Definition slashes (s : str) : str :=
  map (fun c => if N.eqb c 92 then 47%N else c) s.

(** [make_page_object].  The two file-system steps are taken as done:
    [rel_path] is [os.path.relpath(file_path, root_dir)] and [html] is
    [read_file_safe(file_path)]. *)
Definition make_page_object (rel_path html site_domain : str) : page :=
  let title := extract_between re_title html in
  let metas := extract_metas html in
  let headings := extract_headings html in
  let links := extract_links html in
  let images := extract_images html in
  let '(internal_links, external_links) := classify site_domain links [] [] in
  MkPage (u "page")
         (47%N :: slashes rel_path)
         200
         (if is_empty title then [] else strip_tags title)
         (MkMeta (dget_or (u "description") [] metas)
                 (dget_or (u "keywords") [] metas)
                 (dget_or (u "robots") (u "index,follow") metas)
                 (dget_or (u "canonical") [] metas)
                 (dget_or (u "charset") (u "utf-8") metas))
         [] []
         headings
         html
         internal_links
         external_links
         images
         [].

End WithLower.

End Build.
Import Build.

(* ================================================================== *)
(** * The validator: [tools/validate_seo_manifest.py] *)
(* ================================================================== *)

Module Validate.

(** ** Values and exceptions *)

#[local] Set Warnings "-register-all".

(** What [json.loads] returns: [None], [bool], [int], [float], [str], [list]
    or [dict] (keys in insertion order, each key once). *)
Inductive json :=
  | JNull
  | JBool (b : bool)
  | JInt (z : Z)
  | JFloat (f : PrimFloat.float)
  | JStr (s : str)
  | JArr (l : list json)
  | JObj (d : list (str * json)).

(** The exceptions that are not caught: those the checks can raise, and
    the two [json.loads] raises that are no [JSONDecodeError], a
    [RecursionError] on a text nested too deep for the decoder and a
    [ValueError] on an integer with more digits than the interpreter
    converts.  Any of them ends the run before anything is printed. *)
Inductive exn :=
  | AttributeError | TypeError | IndexError | KeyError
  | RecursionError | ValueError.

Inductive res (A : Type) :=
  | Ok (a : A)
  | Raise (e : exn).
Arguments Raise {A} e.

Definition bind (A B : Type) (c : res A) (k : A -> res B) : res B :=
  match c with
  | Ok a => k a
  | Raise e => Raise e
  end.

Notation "x <- c ;; k" := (bind c (fun x => k))
  (at level 61, c at next level, right associativity).

(** A generator run to its end: the items it yields, in order, and the
    exception that ends it when one escapes its body. *)
Record gen (A : Type) := MkGen { yields : list A; raises : option exn }.

(** [yield a] before the rest of the generator. *)
Definition yield (A : Type) (a : A) (g : gen A) : gen A :=
  MkGen (a :: yields g) (raises g).

(** Truth value of a value ([not v] is its negation). *)
Definition truthy (v : json) : bool :=
  match v with
  | JNull => false
  | JBool b => b
  | JInt z => negb (Z.eqb z 0)
  | JFloat f => negb (PrimFloat.eqb f PrimFloat.zero)
  | JStr s => negb (is_empty s)
  | JArr l => negb (is_empty l)
  | JObj d => negb (is_empty d)
  end.

(** [v == s] for a text [s] *)
Definition eq_text (v : json) (s : str) : bool :=
  match v with
  | JStr t => str_eqb t s
  | _ => false
  end.

(** [obj.get(k)] and [obj.get(k, default)]: only a [dict] has [get]. *)
Definition get (obj : json) (k : str) (default : json) : res json :=
  match obj with
  | JObj d => Ok (dget_or k default d)
  | _ => Raise AttributeError
  end.

(** [k in obj] for a text [k]: a key of a [dict], an item of a [list], a
    part of a [str]; the other values are not containers. *)
Definition has_member (k : str) (obj : json) : res bool :=
  match obj with
  | JObj d => Ok (is_some (dget k d))
  | JArr l => Ok (existsb (fun x => eq_text x k) l)
  | JStr s => Ok (contains k s)
  | _ => Raise TypeError
  end.

(** [obj[k]] for a text [k] *)
Definition item (obj : json) (k : str) : res json :=
  match obj with
  | JObj d => match dget k d with Some v => Ok v | None => Raise KeyError end
  | _ => Raise TypeError
  end.

(** What a [for] loop runs over. *)
Definition iterate (v : json) : res (list json) :=
  match v with
  | JArr l => Ok l
  | JObj d => Ok (map (fun kv => JStr (fst kv)) d)
  | JStr s => Ok (map (fun c => JStr [c]) s)
  | _ => Raise TypeError
  end.

(** A method of [str] called on a value: only a [str] has it. *)
Definition as_str (v : json) : res str :=
  match v with
  | JStr s => Ok s
  | _ => Raise AttributeError
  end.

(** [(d.get(k) or '').strip()] *)
Definition text_field (d : json) (k : str) : res str :=
  v <- get d k JNull ;;
  s <- as_str (if truthy v then v else JStr []) ;;
  Ok (strip s).

(** ** Issues

    The issue texts are f-strings over the line number and the offending
    values; they are kept as the values that are formatted, one constructor
    per message of the source. *)
Inductive issue :=
  | Reported (v : json)                          (* [obj['__error__']] *)
  | SiteDomainMissing (ln : nat)
  | ContentEmpty (ln : nat) (typ : str)
  | PathNoSlash (ln : nat) (path : str)
  | DuplicatePath (ln : nat) (path : str)
  | NonUtf8Charset (ln : nat) (path : str)
  | EmptyInternalHref (ln : nat) (path : str)
  | EmptyExternalHref (ln : nat) (path : str)
  | EmptyImageSrc (ln : nat) (path : str)
  | MissingAlt (ln : nat) (src path : str)
  | UnknownType (ln : nat) (typ : json).

(** The three variables of [main]. *)
Record state := MkState
  { issues : list issue; seen_paths : list str; page_count : nat }.

Definition add_issue (i : issue) (st : state) : state :=
  MkState (issues st ++ [i]) (seen_paths st) (page_count st).

(** [path in seen_paths] and [seen_paths.add(path)] on a set of texts. *)
Definition seen (path : str) (paths : list str) : bool :=
  existsb (str_eqb path) paths.
Definition add_path (path : str) (paths : list str) : list str :=
  if seen path paths then paths else paths ++ [path].

(** [str(n)] for a line number *)
Definition decimal (n : nat) : str :=
  u (DecimalString.NilZero.string_of_uint (Nat.to_uint n)).

Section WithRuntime.

(** [json.loads] on a line: the value it returns or the text of the
    [JSONDecodeError] it raises, or another exception it raises. *)
Variable json_loads : str -> res (json + str).
(** [str.lower] *)
Variable lower : str -> str.

(** ** [iter_ndjson] *)

Definition parse_error (line_num : nat) (e : str) : json :=
  JObj [(u "__error__",
         JStr (u "JSON parse error at line " ++ decimal line_num
                 ++ u ": " ++ e))].

(** The lines are those the text file yields, numbered from [line_num].
    The [except] clause catches a [JSONDecodeError] only: any other
    exception of [json.loads] escapes and ends the generator at that
    line. *)
Fixpoint iter_from (line_num : nat) (lines : list str) : gen (nat * json) :=
  match lines with
  | [] => MkGen [] None
  | line :: lines' =>
      let line := strip line in
      if is_empty line then iter_from (S line_num) lines'
      else
        match json_loads line with
        | Ok (inl v) => yield (line_num, v) (iter_from (S line_num) lines')
        | Ok (inr e) =>
            yield (line_num, parse_error line_num e)
                  (iter_from (S line_num) lines')
        | Raise x => MkGen [] (Some x)
        end
  end.

Definition iter_ndjson (lines : list str) : gen (nat * json) :=
  iter_from 1 lines.

(** ** [is_abs_url] *)

Definition is_abs_url (href : str) : bool :=
  startswith_any [u "http://"; u "https://"; u "//"] (lower href).

(** ** [main] *)

(** The loop over [internalLinks].  The condition of its second [if] only
    leads to [pass], but it is evaluated: for an absolute [href] it indexes
    [path.split('/')] at 1, which raises when [path] has no slash. *)
Fixpoint check_internal (ln : nat) (path : str) (links : list json)
    (st : state) : res state :=
  match links with
  | [] => Ok st
  | link :: links' =>
      href <- text_field link (u "href") ;;
      let st := if is_empty href then add_issue (EmptyInternalHref ln path) st
                else st in
      if is_abs_url href && negb (has_char 47%N path)
      then Raise IndexError
      else check_internal ln path links' st
  end.

Fixpoint check_external (ln : nat) (path : str) (links : list json)
    (st : state) : res state :=
  match links with
  | [] => Ok st
  | link :: links' =>
      href <- text_field link (u "href") ;;
      let st := if is_empty href then add_issue (EmptyExternalHref ln path) st
                else st in
      check_external ln path links' st
  end.

Fixpoint check_images (ln : nat) (path : str) (imgs : list json)
    (st : state) : res state :=
  match imgs with
  | [] => Ok st
  | img :: imgs' =>
      src <- text_field img (u "src") ;;
      let st := if is_empty src then add_issue (EmptyImageSrc ln path) st
                else st in
      alt <- text_field img (u "alt") ;;
      let st := if is_empty alt then add_issue (MissingAlt ln src path) st
                else st in
      check_images ln path imgs' st
  end.

(** The branch [typ == 'page']. *)
Definition check_page (ln : nat) (obj : json) (st : state) : res state :=
  let st := MkState (issues st) (seen_paths st) (S (page_count st)) in
  pv <- get obj (u "path") (JStr []) ;;
  path <- as_str pv ;;
  let st := if startswith (u "/") path then st
            else add_issue (PathNoSlash ln path) st in
  let st := if seen path (seen_paths st)
            then add_issue (DuplicatePath ln path) st else st in
  let st := MkState (issues st) (add_path path (seen_paths st)) (page_count st) in
  meta <- get obj (u "meta") (JObj []) ;;
  cv <- get meta (u "charset") (JStr []) ;;
  cs <- as_str cv ;;
  let st := if str_eqb (lower cs) (u "utf-8") || str_eqb (lower cs) (u "utf8")
            then st else add_issue (NonUtf8Charset ln path) st in
  il <- get obj (u "internalLinks") (JArr []) ;;
  il <- iterate il ;;
  st <- check_internal ln path il st ;;
  el <- get obj (u "externalLinks") (JArr []) ;;
  el <- iterate el ;;
  st <- check_external ln path el st ;;
  im <- get obj (u "images") (JArr []) ;;
  im <- iterate im ;;
  check_images ln path im st.

(** The body of the loop of [main] for one record. *)
Definition step (ln : nat) (obj : json) (st : state) : res state :=
  err <- has_member (u "__error__") obj ;;
  if err then
    e <- item obj (u "__error__") ;;
    Ok (add_issue (Reported e) st)
  else
    typ <- get obj (u "type") JNull ;;
    if eq_text typ (u "site") then
      d <- get obj (u "domain") JNull ;;
      Ok (if truthy d then st else add_issue (SiteDomainMissing ln) st)
    else if eq_text typ (u "robotsTxt") || eq_text typ (u "sitemapXml") then
      c <- get obj (u "content") JNull ;;
      Ok (if truthy c then st
          else add_issue (ContentEmpty ln (match typ with JStr t => t | _ => [] end)) st)
    else if eq_text typ (u "page") then check_page ln obj st
    else Ok (add_issue (UnknownType ln typ) st).

Fixpoint run (recs : list (nat * json)) (st : state) : res state :=
  match recs with
  | [] => Ok st
  | (ln, obj) :: recs' =>
      st' <- step ln obj st ;;
      run recs' st'
  end.

(** The [for] loop of [main] over a generator: the body runs on each record
    as it is yielded, so an exception of the generator comes after the
    records before it have been processed. *)
Definition loop (g : gen (nat * json)) (st : state) : res state :=
  st' <- run (yields g) st ;;
  match raises g with
  | Some x => Raise x
  | None => Ok st'
  end.

(** What [main] prints: the summary and the first 200 issues. *)
Record report := MkReport
  { pages : nat; uniquePaths : nat; issuesCount : nat;
    reported : list issue }.

Definition init : state := MkState [] [] 0.

Definition summarize (st : state) : report :=
  MkReport (page_count st) (length (seen_paths st)) (length (issues st))
           (firstn 200 (issues st)).

(** [main], on the lines of the manifest. *)
Definition main (lines : list str) : res report :=
  st <- loop (iter_ndjson lines) init ;;
  Ok (summarize st).

End WithRuntime.

End Validate.

(* ================================================================== *)
(** * The manifest: [main] of [tools/build_seo_manifest.py] *)
(* ================================================================== *)

(** [make_page_object] returns a [dict] and [main] prints the [dict]s it
    makes, one [json.dumps] per line.  The objects are given here as the
    values the validator reads back. *)
Module Manifest.

Import Validate.

(** [s.endswith(p)] *)
Definition endswith (p s : str) : bool := startswith (rev p) (rev s).

(** The [dict] of one link and of one image (lines 75 and 86 to 92). *)
Definition link_json (l : link) : json :=
  JObj [(u "href", JStr (href l)); (u "anchor", JStr (anchor l));
        (u "rel", JStr (rel l)); (u "target", JStr (target l))].

Definition image_json (i : image) : json :=
  JObj [(u "src", JStr (src i)); (u "alt", JStr (alt i));
        (u "title", JStr (title i)); (u "width", JStr (width i));
        (u "height", JStr (height i))].

(** The [dict] [make_page_object] returns (lines 128 to 148). *)
Definition page_json (p : page) : json :=
  JObj [(u "type", JStr (p_type p));
        (u "path", JStr (p_path p));
        (u "status", JInt (p_status p));
        (u "title", JStr (p_title p));
        (u "meta",
         JObj [(u "description", JStr (description (p_meta p)));
               (u "keywords", JStr (keywords (p_meta p)));
               (u "robots", JStr (robots (p_meta p)));
               (u "canonical", JStr (canonical (p_meta p)));
               (u "charset", JStr (charset (p_meta p)))]);
        (u "openGraph", JObj (map (fun kv => (fst kv, JStr (snd kv))) (openGraph p)));
        (u "twitter", JObj (map (fun kv => (fst kv, JStr (snd kv))) (twitter p)));
        (u "headings",
         JObj (map (fun kv => (fst kv, JArr (map JStr (snd kv)))) (headings p)));
        (u "contentHtml", JStr (contentHtml p));
        (u "internalLinks", JArr (map link_json (internalLinks p)));
        (u "externalLinks", JArr (map link_json (externalLinks p)));
        (u "images", JArr (map image_json (images p)));
        (u "breadcrumbs", JArr (map JStr (breadcrumbs p)))].

Definition site_domain : str := u "stroyglobal.com".

(** [site_obj] *)
Definition site_obj : json :=
  JObj [(u "type", JStr (u "site"));
        (u "domain", JStr site_domain);
        (u "wwwPolicy", JStr (u "no-www"));
        (u "trailingSlash", JStr (u "preserve"));
        (u "defaultLang", JStr (u "ru"));
        (u "encoding", JStr (u "utf-8"));
        (u "analytics",
         JObj [(u "gtm", JArr [JStr (u "GTM-NDB4QN5")]);
               (u "ga_ua", JArr [JStr (u "UA-118258068-1")]);
               (u "yandex_metrika", JArr [JStr (u "21670957")])])].

Definition robots_obj (content : str) : json :=
  JObj [(u "type", JStr (u "robotsTxt")); (u "path", JStr (u "/robots.txt"));
        (u "content", JStr content)].

Definition sitemap_obj (content : str) : json :=
  JObj [(u "type", JStr (u "sitemapXml")); (u "path", JStr (u "/sitemap.xml"));
        (u "content", JStr content)].

(** A file of the walk: its name, its path relative to the root and what
    [read_file_safe] returns for it. *)
Record file := MkFile { f_name : str; f_rel_path : str; f_html : str }.

Section WithLower.

Variable lower : str -> str.

(** [main]: the objects it prints, in order.  [robots_txt] and
    [sitemap_xml] are what [read_file_safe] returns for the two files, and
    [files] are the files of [os.walk(ROOT)] in its order. *)
Definition main (robots_txt sitemap_xml : str) (files : list file) : list json :=
  [site_obj]
  ++ (if is_empty robots_txt then [] else [robots_obj robots_txt])
  ++ (if is_empty sitemap_xml then [] else [sitemap_obj sitemap_xml])
  ++ map (fun f => page_json (make_page_object lower (f_rel_path f) (f_html f)
                                site_domain))
         (filter (fun f => endswith (u ".htm") (lower (f_name f))) files).

End WithLower.

End Manifest.

(* ================================================================== *)
(** * Definitions used to state the properties *)
(* ================================================================== *)

Module Props.

(** [links] cut into two lists, each link going to exactly one of them and
    each list keeping the order of [links]. *)
Inductive split_of (A : Type) : list A -> list A -> list A -> Prop :=
  | split_nil : split_of [] [] []
  | split_left x l a b : split_of l a b -> split_of (x :: l) (x :: a) b
  | split_right x l a b : split_of l a b -> split_of (x :: l) a (x :: b).

(** The text a scan is made of: its matches and the characters between
    them, in order. *)
Definition tok_text (t : tok) : str :=
  match t with Lit c => [c] | Hit m => m_whole m end.

Fixpoint dropwhile (p : char -> bool) (s : str) : str :=
  match s with
  | x :: s' => if p x then dropwhile p s' else s
  | [] => []
  end.

(** The characters a greedy repetition takes at most. *)
Definition run_len (p : char -> bool) (s : str) : nat :=
  length s - length (dropwhile p s).

(** ** The heading extractor *)

(** One step of a loop that sets the key of each level that has a value. *)
Definition set_level (V : Type) (key : nat -> str) (val : nat -> option V)
    (d : dict V) (l : nat) : dict V :=
  match val l with Some v => dset (key l) v d | None => d end.

(** The value the loop of [extract_headings] gives to one level. *)
Definition level_items (html : str) (level : nat) : list str :=
  filter (fun t => negb (is_empty t))
         (map (fun m => strip (strip_tags m))
              (findall1 (re_heading (heading_tag level)) html)).

Definition level_value (html : str) (level : nat) : option (list str) :=
  if is_empty (level_items html level) then None
  else Some (level_items html level).

(** The texts a pattern matches and the groups it sets, read off the
    pattern without any order of preference: [sem r w g g'] when [r] matches
    exactly [w] and turns the groups [g] into [g']. *)
Fixpoint sem (r : re) (w : str) (g g' : groups) : Prop :=
  match r with
  | Eps => w = [] /\ g' = g
  | Chr p => (exists x, w = [x] /\ p x = true) /\ g' = g
  | Rep _ lo hi p =>
      forallb p w = true /\ lo <= length w
      /\ match hi with Some h => length w <= h | None => True end
      /\ g' = g
  | Seq a b =>
      exists w1 w2 g1, w = w1 ++ w2 /\ sem a w1 g g1 /\ sem b w2 g1 g'
  | Alt a b => sem a w g g' \/ sem b w g g'
  | Grp i a => exists g1, sem a w g g1 /\ g' = (i, w) :: g1
  end.

(** A lower bound on the length of what a pattern matches. *)
Fixpoint min_len (r : re) : nat :=
  match r with
  | Eps => 0
  | Chr _ => 1
  | Rep _ lo _ _ => lo
  | Seq a b => min_len a + min_len b
  | Alt a b => Nat.min (min_len a) (min_len b)
  | Grp _ a => min_len a
  end.

(** One scan step at a time, with the fuel a text needs. *)
Definition scan_at (r : re) (adv : bool) (s : str) : list tok :=
  scan_aux (2 * length s + 2) r adv s.

(** The fuel a scan needs from one state on. *)
Definition need (adv : bool) (s : str) : nat :=
  2 * length s + (if adv then 1 else 2).

(** [lstrip] changes nothing when the text is empty or starts with a
    character that is not whitespace. *)
Definition clean_head (s : str) : Prop :=
  match s with [] => True | x :: _ => isspace x = false end.

(** The matches of a scan, in order. *)
Definition hits (ts : list tok) : list rmatch :=
  flat_map (fun t => match t with Lit _ => [] | Hit m => [m] end) ts.

(** A text between double quotes. *)
Definition quoted (s : str) : str := dquote :: s ++ [dquote].

(** A text has a scheme prefix: one or more ASCII letters, then a colon. *)
Definition has_scheme (href : str) : bool :=
  match href with
  | c :: _ =>
      is_alpha c &&
      match dropwhile is_alpha href with
      | d :: _ => N.eqb d 58
      | [] => false
      end
  | [] => false
  end.

(** Modelled on the wording of the classification rules (section 4.5 of the
    specification), on the [href] of an extracted link. *)
Definition spec_internal (lower : str -> str) (site_domain href : str) : bool :=
  let lowered := lower href in
  if is_empty href
     || startswith (u "mailto:") lowered
     || startswith (u "tel:") lowered
     || startswith (u "javascript:") lowered
  then false                                             (* rule 1 *)
  else if startswith (u "http://") lowered
          || startswith (u "https://") lowered
          || startswith (u "//") lowered
  then contains site_domain lowered                      (* rule 2 *)
  else if startswith (u "#") href || startswith (u "/") href
          || startswith (u "./") href || startswith (u "../") href
          || negb (has_scheme href)
  then true                                              (* rule 3 *)
  else false.                                            (* rule 4 *)

(** What the properties need of [str.lower]: text made of ASCII characters
    other than the capital letters is left as it is. *)
Definition plain (c : char) : bool :=
  ((c <? 128) && negb ((65 <=? c) && (c <=? 90)))%N.

Definition lower_keeps_plain (lower : str -> str) : Prop :=
  forall s, forallb plain s = true -> lower s = s.

(** A lower-casing of the ASCII letters, one function with that property. *)
Definition ascii_lower (s : str) : str :=
  map (fun c => if ((65 <=? c) && (c <=? 90))%N then (c + 32)%N else c) s.

(** ** The tag stripper *)

(** A text that follows a [<] opens a tag for the pattern of [strip_tags]:
    it starts with a character other than [>] and has a [>] further on. *)
Definition opens (t : str) : bool :=
  match t with
  | x :: r => negb (N.eqb x 62) && has_char 62%N r
  | [] => false
  end.

(** No [<] of the text opens a tag. *)
Fixpoint tagfree (s : str) : bool :=
  match s with
  | [] => true
  | c :: t => (if N.eqb c 60 then negb (opens t) else true) && tagfree t
  end.

(** Every whitespace character of the text is a space that no whitespace
    follows. *)
Fixpoint collapsed (s : str) : bool :=
  match s with
  | [] => true
  | c :: t =>
      (if isspace c
       then N.eqb c 32 && match t with x :: _ => negb (isspace x) | [] => true end
       else true)
      && collapsed t
  end.

(** ** The link extractor *)

(** [s] starts with the literal [p] of an [IGNORECASE] pattern. *)
Fixpoint istartswith (p s : str) : bool :=
  match p, s with
  | [], _ => true
  | c :: p', x :: s' => ichar c x && istartswith p' s'
  | _ :: _, [] => false
  end.

(** The literal occurs somewhere in [s]. *)
Fixpoint icontains (p s : str) : bool :=
  istartswith p s || match s with [] => false | _ :: s' => icontains p s' end.

(** Where the literal first occurs in [s]. *)
Fixpoint find_lit (p s : str) : option nat :=
  if istartswith p s then Some 0
  else match s with
       | [] => None
       | _ :: s' => option_map S (find_lit p s')
       end.

(** After an attribute name: optional whitespace, an equals sign, optional
    whitespace and the opening double quote; what follows the quote. *)
Definition attr_rest (b : str) : option str :=
  match dropwhile isspace b with
  | x :: b1 =>
      if N.eqb x 61 then
        match dropwhile isspace b1 with
        | y :: b2 => if N.eqb y dquote then Some b2 else None
        | [] => None
        end
      else None
  | [] => None
  end.

(** A non-empty value and its closing double quote; the value and what
    follows the quote. *)
Definition value_rest (b : str) : option (str * str) :=
  match dropwhile not_dq b with
  | x :: b1 =>
      if 1 <=? run_len not_dq b then Some (firstn (run_len not_dq b) b, b1)
      else None
  | [] => None
  end.

(** The rest of a tag up to its [>]; what follows it. *)
Definition tag_end (b : str) : option str :=
  match dropwhile (non ">") b with
  | _ :: b1 => Some b1
  | [] => None
  end.

(** The value of [name] when an attribute [name="value"] with a non-empty
    value starts at the head of [b]. *)
Definition attr_value_at (name : str) (b : str) : option (str * str) :=
  if istartswith name b then
    match attr_rest (skipn (length name) b) with
    | Some b2 => value_rest b2
    | None => None
    end
  else None.

(** The value of the first such attribute of the text, empty when there is
    none. *)
Fixpoint find_attr (name : str) (s : str) : str :=
  match attr_value_at name s with
  | Some (v, _) => v
  | None => match s with [] => [] | _ :: s' => find_attr name s' end
  end.

(** What the pattern of a link matches from its [href] on: the value, the
    body up to the first closing tag, and the text after that tag. *)
Definition link_at_tail (b : str) : option (str * str * str) :=
  match attr_value_at (u "href") b with
  | Some (v, b3) =>
      match tag_end b3 with
      | Some b4 =>
          match find_lit (u "</a>") b4 with
          | Some j => Some (v, firstn j b4, skipn (j + 4) b4)
          | None => None
          end
      | None => None
      end
  | None => None
  end.

(** The text of an anchor element: [<a], the text [before] the [href]
    attribute, the attribute with the value [v], the rest of the tag
    [after], the body and the closing tag. *)
Definition anchor_element (before v after body : str) : str :=
  u "<a" ++ before ++ u "href=" ++ quoted v ++ after ++ u ">" ++ body
    ++ u "</a>".

(** The items of the link pattern from [href] on. *)
Definition link_tail_items : list re :=
  [ilits "href"; star isspace; Chr (one "="); star isspace; Chr is_dq;
   Grp 1 (plus not_dq); Chr is_dq; star (non ">"); Chr (one ">");
   Grp 2 (lazy_star any); ilits "</a>"].

(** ** The validator *)

Import Validate.

(** A record of the shape the extractor writes, as far as the checks
    depend on it: texts where the checks call methods of [str], lists of
    objects where they loop, and a page path with a slash in it. *)
Definition typed_text (d : dict json) (k : str) : bool :=
  match dget k d with
  | None => true
  | Some (JStr _) => true
  | Some _ => false
  end.

Definition typed_link (v : json) : bool :=
  match v with
  | JObj d => typed_text d (u "href")
  | _ => false
  end.

Definition typed_image (v : json) : bool :=
  match v with
  | JObj d => typed_text d (u "src") && typed_text d (u "alt")
  | _ => false
  end.

Definition typed_list (f : json -> bool) (d : dict json) (k : str) : bool :=
  match dget k d with
  | None => true
  | Some (JArr l) => forallb f l
  | Some _ => false
  end.

Definition typed_page (d : dict json) : bool :=
  match dget (u "path") d with
  | Some (JStr p) => has_char 47%N p
  | _ => false
  end
  && match dget (u "meta") d with
     | None => true
     | Some (JObj m) => typed_text m (u "charset")
     | Some _ => false
     end
  && typed_list typed_link d (u "internalLinks")
  && typed_list typed_link d (u "externalLinks")
  && typed_list typed_image d (u "images").

Definition typed_record (rec : nat * json) : bool :=
  match snd rec with
  | JObj d =>
      if is_some (dget (u "__error__") d) then true
      else if eq_text (dget_or (u "type") JNull d) (u "page") then typed_page d
      else true
  | _ => false
  end.

(** A parser to run the validator on examples: it knows the empty object
    and one page record, and refuses every other line. *)
Definition page_a : json :=
  JObj [(u "type", JStr (u "page")); (u "path", JStr (u "/a.htm"));
        (u "meta", JObj [(u "charset", JStr (u "utf-8"))])].

Definition toy_loads (line : str) : res (json + str) :=
  if str_eqb line (u "{}") then Ok (inl (JObj []))
  else if str_eqb line (u "A") then Ok (inl page_a)
  else Ok (inr (u "Expecting value")).

(** A line that opens 100000 arrays and closes none, and a parser for
    examples that does on it what [json.loads] does: the decoder gives up
    with a [RecursionError] before it gets to the end of the line. *)
Definition deep_line : str := repeat 91%N (N.to_nat 100000).

Definition toy_deep (line : str) : res (json + str) :=
  if str_eqb line deep_line then Raise RecursionError else toy_loads line.

Definition is_dup (i : issue) : bool :=
  match i with DuplicatePath _ _ => true | _ => false end.

(** The path of a record that the loop of [main] treats as a page: a
    [dict] without the key [__error__], of type [page], whose [path]
    (the empty text when absent) is a text. *)
Definition page_path (obj : json) : option str :=
  match obj with
  | JObj d =>
      if is_some (dget (u "__error__") d) then None
      else if eq_text (dget_or (u "type") JNull d) (u "page") then
        match dget_or (u "path") (JStr []) d with
        | JStr p => Some p
        | _ => None
        end
      else None
  | _ => None
  end.

(** The repeats of a stream: the page records whose path is the path of an
    earlier page record, [prev] being the paths met so far. *)
Fixpoint repeats (prev : list str) (recs : list (nat * json)) : list issue :=
  match recs with
  | [] => []
  | (ln, obj) :: recs' =>
      match page_path obj with
      | Some p =>
          (if existsb (str_eqb p) prev then [DuplicatePath ln p] else [])
          ++ repeats (p :: prev) recs'
      | None => repeats prev recs'
      end
  end.

(** A stretch of the run that leaves the set of paths alone and reports
    no duplicate path. *)
Definition quiet (st st' : state) : Prop :=
  seen_paths st' = seen_paths st
  /\ exists new, issues st' = issues st ++ new /\ filter is_dup new = [].

(** The issue [iter_ndjson] makes of a line that does not parse. *)
Definition parse_issue (line_num : nat) (e : str) : issue :=
  Reported (JStr (u "JSON parse error at line " ++ decimal line_num
                    ++ u ": " ++ e)).


(** ** Patterns that start with a tag opener *)

(** A pattern every match of which starts with [<]. *)
Definition starts_lt (r : re) : Prop :=
  forall s m rest, match_at r false s = Some (m, rest) -> exists t, s = 60%N :: t.

(** ** The stream of records *)

(** A line [iter_ndjson] skips. *)
Definition blank (line : str) : bool := is_empty (strip line).

(** The record [iter_ndjson] yields for line [n] when it is not blank:
    none when [json.loads] raises an exception that is not caught. *)
Definition record_at (json_loads : str -> res (json + str)) (n : nat)
    (line : str) : option (nat * json) :=
  match json_loads (strip line) with
  | Ok (inl v) => Some (n, v)
  | Ok (inr e) => Some (n, parse_error n e)
  | Raise _ => None
  end.

(** The lines [iter_ndjson] gets through: those before the first line that
    is not blank and on which [json.loads] raises an exception that is not
    caught, all the lines when there is no such line. *)
Fixpoint read_lines (json_loads : str -> res (json + str)) (lines : list str)
  : list str :=
  match lines with
  | [] => []
  | line :: lines' =>
      if blank line then line :: read_lines json_loads lines'
      else match json_loads (strip line) with
           | Ok _ => line :: read_lines json_loads lines'
           | Raise _ => []
           end
  end.

(** One generator after another: the second runs only when the first ends
    without an exception. *)
Definition then_gen (A : Type) (g1 g2 : gen A) : gen A :=
  match raises g1 with
  | Some _ => g1
  | None => MkGen (yields g1 ++ yields g2) (raises g2)
  end.

Definition is_dict (v : json) : bool :=
  match v with JObj _ => true | _ => false end.

(** The exception the loop of [main] ends with on a value that is not a
    [dict]: the test for [__error__] fails on a value that is no container,
    and on a text or a list either [obj['__error__']] or [obj.get] does. *)
Definition abort_of (obj : json) : exn :=
  match obj with
  | JStr s => if contains (u "__error__") s then TypeError else AttributeError
  | JArr l => if existsb (fun x => eq_text x (u "__error__")) l
              then TypeError else AttributeError
  | _ => TypeError
  end.

(** The paths of the page records of a stream, in order. *)
Definition page_paths (recs : list (nat * json)) : list str :=
  flat_map (fun rec => match page_path (snd rec) with
                       | Some p => [p]
                       | None => []
                       end) recs.

(** A parser for examples that also knows three values that are no
    objects. *)
Definition toy_values (line : str) : res (json + str) :=
  if str_eqb line (u "null") then Ok (inl JNull)
  else if str_eqb line (u "[]") then Ok (inl (JArr []))
  else if str_eqb line (u "7") then Ok (inl (JInt 7))
  else toy_loads line.

(** The internal links of a page record, and the link whose [href] is an
    absolute URL for the check of the loop over them. *)
Definition internal_links_of (d : dict json) : list json :=
  match dget (u "internalLinks") d with
  | Some (JArr l) => l
  | _ => []
  end.

Definition abs_link (lower : str -> str) (v : json) : bool :=
  match text_field v (u "href") with
  | Ok h => is_abs_url lower h
  | Raise _ => false
  end.

(** The fields of a page record other than its path are of the shape the
    extractor writes. *)
Definition typed_fields (d : dict json) : bool :=
  match dget (u "meta") d with
  | None => true
  | Some (JObj m) => typed_text m (u "charset")
  | Some _ => false
  end
  && typed_list typed_link d (u "internalLinks")
  && typed_list typed_link d (u "externalLinks")
  && typed_list typed_image d (u "images").

(** A page record without a slash in its path and with an absolute internal
    link. *)
Definition page_b : dict json :=
  [(u "type", JStr (u "page")); (u "path", JStr (u "b.htm"));
   (u "internalLinks", JArr [JObj [(u "href", JStr (u "http://x/"))]])].

(** ** The validator on the records of the builder *)

(** The test on [meta.charset]. *)
Definition utf8 (lower : str -> str) (cs : str) : bool :=
  str_eqb (lower cs) (u "utf-8") || str_eqb (lower cs) (u "utf8").

(** The issues of the loops over the links and the images of a page. *)
Definition href_issues (i : issue) (links : list link) : list issue :=
  flat_map (fun l => if is_empty (strip (href l)) then [i] else []) links.

Definition image_issues (ln : nat) (path : str) (imgs : list image)
  : list issue :=
  flat_map
    (fun i =>
       (if is_empty (strip (src i)) then [EmptyImageSrc ln path] else [])
       ++ (if is_empty (strip (alt i))
           then [MissingAlt ln (strip (src i)) path] else []))
    imgs.

(** The issues of a page record, in the order of the checks; [prev] are the
    paths met before it. *)
Definition page_issues (lower : str -> str) (ln : nat) (p : page)
    (prev : list str) : list issue :=
  (if startswith (u "/") (p_path p) then [] else [PathNoSlash ln (p_path p)])
  ++ (if seen (p_path p) prev then [DuplicatePath ln (p_path p)] else [])
  ++ (if utf8 lower (charset (p_meta p)) then []
      else [NonUtf8Charset ln (p_path p)])
  ++ href_issues (EmptyInternalHref ln (p_path p)) (internalLinks p)
  ++ href_issues (EmptyExternalHref ln (p_path p)) (externalLinks p)
  ++ image_issues ln (p_path p) (images p).

(** The objects of a manifest as the validator meets them: one a line,
    numbered from [k]. *)
Fixpoint number_from (k : nat) (objs : list json) : list (nat * json) :=
  match objs with
  | [] => []
  | o :: objs' => (k, o) :: number_from (S k) objs'
  end.

(** The issues a page of the builder can give rise to. *)
Definition benign (i : issue) : bool :=
  match i with
  | DuplicatePath _ _ | NonUtf8Charset _ _ | EmptyExternalHref _ _
  | EmptyImageSrc _ _ | MissingAlt _ _ _ => true
  | _ => false
  end.

(** The [.htm] files of a walk, and the page path of one. *)
Definition htm_files (lower : str -> str) (files : list Manifest.file)
  : list Manifest.file :=
  filter (fun f => Manifest.endswith (u ".htm") (lower (Manifest.f_name f)))
         files.

Definition path_of (f : Manifest.file) : str :=
  47%N :: slashes (Manifest.f_rel_path f).

(** A pattern that can only match where the literal [p] starts. *)
Definition starts_with_lit (r : re) (p : str) : Prop :=
  forall s, istartswith p s = false -> match_at r false s = None.

(** ** The title *)

(** The text between the first [<title>] of a text and the first
    [</title>] after it, stripped; the empty text when either is missing. *)
Definition title_of (html : str) : str :=
  match find_lit (u "<title>") html with
  | Some i =>
      match find_lit (u "</title>") (skipn (i + 7) html) with
      | Some j => strip (firstn j (skipn (i + 7) html))
      | None => []
      end
  | None => []
  end.

(** ** The image extractor *)

(** A possibly empty value and its closing double quote; the value and
    what follows the quote. *)
Definition value_rest0 (b : str) : option (str * str) :=
  match dropwhile not_dq b with
  | _ :: b1 => Some (firstn (run_len not_dq b) b, b1)
  | [] => None
  end.

(** The value of [name] when an attribute [name="value"], the value
    possibly empty, starts at the head of [b]. *)
Definition attr_value_at0 (name : str) (b : str) : option (str * str) :=
  if istartswith name b then
    match attr_rest (skipn (length name) b) with
    | Some b2 => value_rest0 b2
    | None => None
    end
  else None.

(** The value at the first place of the text where such an attribute
    starts, empty when there is none. *)
Fixpoint find_attr0 (name : str) (s : str) : str :=
  match attr_value_at0 name s with
  | Some (v, _) => v
  | None => match s with [] => [] | _ :: s' => find_attr0 name s' end
  end.

(** The text of an image tag with the attributes [attrs], and the record
    read from the text of a tag. *)
Definition img_tag (attrs : str) : str := u "<img" ++ attrs ++ u ">".

Definition image_of_tag (tag : str) : image :=
  MkImage (strip (find_attr0 (u "src") tag))
          (strip (find_attr0 (u "alt") tag))
          (strip (find_attr0 (u "title") tag))
          (strip (find_attr0 (u "width") tag))
          (strip (find_attr0 (u "height") tag)).

(** The characters of an attribute name: each matches itself, and none is
    whitespace or the equals sign. *)
Definition name_char (c : char) : bool :=
  ichar c c && negb (isspace c) && negb (N.eqb c 61).

(** ** The heading extractor, one element *)

(** The opening of a tag of a level, its closing tag, and the text of a
    heading element: the
    opening tag with the text [attrs] after its name, the body and the
    closing tag. *)
Definition open_tag (level : nat) : str := u "<" ++ heading_tag level.

Definition close_tag (level : nat) : str :=
  u "</" ++ heading_tag level ++ u ">".

Definition heading_element (level : nat) (attrs body : str) : str :=
  u "<" ++ heading_tag level ++ attrs ++ u ">" ++ body ++ close_tag level.

(** The entry of a heading: its text without tags, stripped, when that is
    not empty. *)
Definition heading_entry (body : str) : list str :=
  if is_empty (strip (strip_tags body)) then [] else [strip (strip_tags body)].

(** ** The meta extractor, one element *)

(** The pattern shared by the named meta tags and the canonical link: the
    opening [op], an attribute [k1] with the value [v1], optionally between
    double quotes, and further on in the tag an attribute [k2] whose value,
    of [lo] characters at least, is between double quotes. *)
Definition re_pair (op k1 v1 k2 : str) (lo : nat) : re :=
  seqs [ilits_s op; star (non ">"); ilits_s k1; star isspace; Chr (one "=");
        star isspace; opt is_dq; ilits_s v1; opt is_dq; star (non ">");
        ilits_s k2; star isspace; Chr (one "="); star isspace; Chr is_dq;
        Grp 1 (Rep Greedy lo None not_dq); Chr is_dq].

(** The text of such an element up to the closing quote of the second
    value: [a] and [b] are what stands before the two attributes. *)
Definition pair_element (op a k1 v1 b k2 v : str) : str :=
  op ++ a ++ k1 ++ 61%N :: quoted v1 ++ b ++ k2 ++ 61%N :: quoted v.

Definition meta_element (a : str) (name : string) (b v : str) : str :=
  pair_element (u "<meta") a (u "name") (u name) b (u "content") v.

Definition canonical_element (a b v : str) : str :=
  pair_element (u "<link") a (u "rel") (u "canonical") b (u "href") v.

(** The characters of a literal of these patterns: each matches itself and
    none matches [<] or [>]. *)
Definition lit_char (c : char) : bool :=
  ichar c c && negb (ichar c 62) && negb (ichar c 60).

(** ** The charset declaration *)

(** The text of a charset declaration up to the end of its value: [<meta],
    the text [a], [charset=], the text [q] that is empty or one double quote,
    and the value. *)
Definition charset_element (a q v : str) : str :=
  u "<meta" ++ a ++ u "charset=" ++ q ++ v.

(** The text after a value does not go on with a character of a value. *)
Definition value_ends (c : str) : bool :=
  match c with
  | [] => true
  | e :: _ => negb (not_charset_end e)
  end.

(** What follows an optional double quote. *)
Definition after_quote (s : str) : str :=
  match s with
  | x :: t => if is_dq x then t else s
  | [] => []
  end.

(** ** The line of an issue *)

(** The line number an issue is reported with; an [__error__] object is
    reported as it is, without one. *)
Definition issue_line (i : issue) : option nat :=
  match i with
  | Reported _ => None
  | SiteDomainMissing ln | ContentEmpty ln _ | PathNoSlash ln _
  | DuplicatePath ln _ | NonUtf8Charset ln _ | EmptyInternalHref ln _
  | EmptyExternalHref ln _ | EmptyImageSrc ln _ | MissingAlt ln _ _
  | UnknownType ln _ => Some ln
  end.

(** An issue of the record of line [ln]. *)
Definition stamped (ln : nat) (i : issue) : bool :=
  match issue_line i with
  | Some n => Nat.eqb n ln
  | None => true
  end.

(** The state after some more issues of one line. *)
Definition grown (ln : nat) (st st' : state) : Prop :=
  exists g, issues st' = issues st ++ g /\ forallb (stamped ln) g = true.

End Props.
Import Props.

(* ================================================================== *)
(** * Properties of texts *)
(* ================================================================== *)

Section TextFacts.

Lemma str_eqb_eq (a b : str) : str_eqb a b = true <-> a = b.
Proof.
  revert b; induction a as [|x a IH]; intros [|y b]; simpl; split;
    try congruence; try (intros; reflexivity).
  - intros H. apply andb_true_iff in H as [H1 H2].
    apply N.eqb_eq in H1. apply IH in H2. congruence.
  - intros H. injection H as -> ->. rewrite N.eqb_refl. simpl. now apply IH.
Qed.

Lemma str_eqb_refl (a : str) : str_eqb a a = true.
Proof. now apply str_eqb_eq. Qed.

Lemma is_empty_nil (A : Type) (l : list A) : is_empty l = true <-> l = [].
Proof. destruct l; simpl; split; congruence. Qed.

Lemma lstrip_clean (s : str) : clean_head (lstrip s).
Proof.
  induction s as [|x s IH]; simpl; auto.
  destruct (isspace x) eqn:E; simpl; auto.
Qed.

Lemma lstrip_fix (s : str) : clean_head s -> lstrip s = s.
Proof. destruct s as [|x s]; simpl; auto. intros ->. reflexivity. Qed.

Lemma lstrip_snoc (a : str) (x : char) :
  isspace x = false -> lstrip (a ++ [x]) = lstrip a ++ [x].
Proof.
  intros Hx. induction a as [|y a IH]; simpl.
  - now rewrite Hx.
  - destruct (isspace y); auto.
Qed.

Lemma rstrip_cons (x : char) (t : str) :
  isspace x = false -> rstrip (x :: t) = x :: rstrip t.
Proof.
  intros Hx. unfold rstrip. simpl.
  rewrite lstrip_snoc by assumption.
  rewrite rev_app_distr. reflexivity.
Qed.

Lemma rstrip_clean (s : str) : clean_head s -> clean_head (rstrip s).
Proof.
  destruct s as [|x t]; simpl; intros H.
  - exact I.
  - rewrite rstrip_cons by assumption. exact H.
Qed.

Lemma rstrip_idem (s : str) : rstrip (rstrip s) = rstrip s.
Proof.
  unfold rstrip. rewrite rev_involutive.
  rewrite lstrip_fix by apply lstrip_clean. reflexivity.
Qed.

Lemma strip_clean (s : str) : clean_head (strip s).
Proof. apply rstrip_clean, lstrip_clean. Qed.

Lemma strip_idem (s : str) : strip (strip s) = strip s.
Proof.
  unfold strip at 1. rewrite lstrip_fix by apply strip_clean.
  unfold strip. apply rstrip_idem.
Qed.

End TextFacts.

(* ================================================================== *)
(** * Properties of the matcher *)
(* ================================================================== *)

Section ReFacts.

Lemma firstn_cut (A : Type) (w s' : list A) :
  firstn (length (w ++ s') - length s') (w ++ s') = w.
Proof.
  rewrite length_app.
  replace (length w + length s' - length s') with (length w) by lia.
  rewrite firstn_app, Nat.sub_diag, firstn_all. simpl. apply app_nil_r.
Qed.

(** What a repetition hands to its continuation is a run of the class. *)
Lemma rep_sound (A : Type) g lo hi p (k : str -> option A) s n v :
  rep g lo hi p k s n = Some v ->
  exists w s', s = w ++ s' /\ forallb p w = true /\ lo <= n + length w
               /\ (forall h, hi = Some h -> n <= h -> n + length w <= h)
               /\ k s' = Some v.
Proof.
  revert n. induction s as [|x s IH]; intros n H.
  - exists [], []. simpl in *.
    assert (E : (if lo <=? n then k [] else None) = Some v)
      by (destruct g; destruct (if lo <=? n then k [] else None); congruence).
    destruct (lo <=? n) eqn:L; [|discriminate].
    apply Nat.leb_le in L. repeat split; auto; intros; lia.
  - assert (E : (if lo <=? n then k (x :: s) else None) = Some v
                \/ (p x && below hi n = true
                    /\ rep g lo hi p k s (S n) = Some v)).
    { simpl in H. destruct g.
      - destruct (p x && below hi n) eqn:B.
        + destruct (rep Greedy lo hi p k s (S n)) eqn:R.
          * right. split; congruence.
          * left. exact H.
        + left. exact H.
      - destruct (if lo <=? n then k (x :: s) else None) eqn:K.
        + left. exact H.
        + right. destruct (p x && below hi n) eqn:B; [|discriminate].
          split; auto. }
    destruct E as [E|[B R]].
    + destruct (lo <=? n) eqn:L; [|discriminate]. apply Nat.leb_le in L.
      exists [], (x :: s). simpl. repeat split; auto; intros; lia.
    + apply andb_true_iff in B as [Px Bh].
      apply IH in R as (w & s' & -> & Pw & Lo & Hi & K).
      exists (x :: w), s'. simpl. rewrite Px, Pw. repeat split; auto; try lia.
      intros h -> Hn. unfold below in Bh. apply Nat.ltb_lt in Bh.
      specialize (Hi h eq_refl). lia.
Qed.

(** Soundness of the matcher: whatever it hands to its continuation is a
    match of the pattern in the sense of [sem]. *)
Lemma mt_sound (A : Type) r :
  forall s g (k : str -> groups -> option A) v,
    mt r s g k = Some v ->
    exists w s' g', s = w ++ s' /\ sem r w g g' /\ k s' g' = Some v.
Proof.
  induction r as [|p|gr lo hi p|a IHa b IHb|a IHa b IHb|i a IHa];
    intros s g k v H; simpl in H.
  - exists [], s, g. simpl. auto.
  - destruct s as [|x s]; [discriminate|].
    destruct (p x) eqn:Px; [|discriminate].
    exists [x], s, g. simpl. repeat split; eauto.
  - apply rep_sound in H as (w & s' & -> & Pw & Lo & Hi & K).
    exists w, s', g. simpl. repeat split; auto; try lia.
    destruct hi as [h|]; auto. specialize (Hi h eq_refl). lia.
  - apply IHa in H as (w1 & s1 & g1 & -> & S1 & H).
    apply IHb in H as (w2 & s2 & g2 & -> & S2 & H).
    exists (w1 ++ w2), s2, g2. rewrite <- app_assoc. repeat split; auto.
    simpl. exists w1, w2, g1. auto.
  - destruct (mt a s g k) eqn:E.
    + injection H as ->. apply IHa in E as (w & s' & g' & -> & S1 & K).
      exists w, s', g'. simpl. auto.
    + apply IHb in H as (w & s' & g' & -> & S1 & K).
      exists w, s', g'. simpl. auto.
  - apply IHa in H as (w & s' & g' & -> & S1 & K).
    rewrite firstn_cut in K.
    exists w, s', ((i, w) :: g'). repeat split; auto. simpl. eauto.
Qed.

Lemma sem_min_len r : forall w g g', sem r w g g' -> min_len r <= length w.
Proof.
  induction r as [|p|gr lo hi p|a IHa b IHb|a IHa b IHb|i a IHa];
    intros w g g' H; simpl in *.
  - lia.
  - destruct H as [(x & -> & _) _]. simpl. lia.
  - tauto.
  - destruct H as (w1 & w2 & g1 & -> & H1 & H2).
    apply IHa in H1. apply IHb in H2. rewrite length_app. lia.
  - destruct H as [H|H]; [apply IHa in H|apply IHb in H]; lia.
  - destruct H as (g1 & H & _). eauto.
Qed.

(** A successful attempt cuts the text into the match and the rest. *)
Lemma match_at_sound r adv s m rest :
  match_at r adv s = Some (m, rest) ->
  exists g, s = m_whole m ++ rest /\ sem r (m_whole m) [] g
            /\ m = MkMatch (m_whole m) g
            /\ (adv = true -> m_whole m <> []).
Proof.
  unfold match_at. intros H.
  apply mt_sound in H as (w & s' & g' & -> & S1 & K).
  rewrite firstn_cut in K.
  destruct (adv && (length s' =? length (w ++ s'))) eqn:E; [discriminate|].
  injection K as <- <-. simpl. exists g'. repeat split; auto.
  intros -> ->. simpl in E. rewrite Nat.eqb_refl in E. discriminate.
Qed.

Lemma match_at_shorter r adv s m rest :
  match_at r adv s = Some (m, rest) -> length rest <= length s.
Proof.
  intros H. apply match_at_sound in H as (g & -> & _).
  rewrite length_app. lia.
Qed.

Lemma match_at_advances r s m rest :
  match_at r true s = Some (m, rest) -> length rest < length s.
Proof.
  intros H. apply match_at_sound in H as (g & -> & _ & _ & N).
  specialize (N eq_refl). rewrite length_app.
  destruct (m_whole m); [congruence|simpl; lia].
Qed.

(** A pattern that cannot match the empty text always advances, and
    [must_advance] makes no difference to it. *)
Lemma match_at_nonempty r adv s m rest :
  0 < min_len r -> match_at r adv s = Some (m, rest) ->
  length rest < length s.
Proof.
  intros L H. apply match_at_sound in H as (g & -> & S1 & _).
  apply sem_min_len in S1. rewrite length_app. lia.
Qed.

Lemma scan_aux_fuel r : forall f1 f2 adv s,
  need adv s <= f1 -> need adv s <= f2 ->
  scan_aux f1 r adv s = scan_aux f2 r adv s.
Proof.
  induction f1 as [|f1 IH]; intros f2 adv s H1 H2.
  - unfold need in H1. destruct adv; lia.
  - destruct f2 as [|f2]; [unfold need in H2; destruct adv; lia|].
    simpl. destruct (match_at r adv s) as [[m rest]|] eqn:E.
    + f_equal. destruct (length rest =? length s) eqn:L.
      * destruct adv.
        -- apply match_at_advances in E. apply Nat.eqb_eq in L. lia.
        -- apply IH; unfold need in *; lia.
      * apply Nat.eqb_neq in L. apply match_at_shorter in E.
        apply IH; unfold need in *; destruct adv; lia.
    + destruct s as [|x s']; auto. f_equal.
      apply IH; unfold need in *; simpl in *; destruct adv; lia.
Qed.

Lemma scan_at_eq r adv s :
  scan_at r adv s =
  match match_at r adv s with
  | Some (m, rest) =>
      Hit m :: (if length rest =? length s then scan_at r true s
                else scan_at r false rest)
  | None =>
      match s with
      | [] => []
      | x :: s' => Lit x :: scan_at r false s'
      end
  end.
Proof.
  unfold scan_at at 1.
  rewrite (@scan_aux_fuel r (2 * length s + 2) (S (2 * length s + 1)) adv s)
    by (unfold need; destruct adv; lia).
  cbn [scan_aux].
  destruct (match_at r adv s) as [[m rest]|] eqn:E.
  - f_equal. destruct (length rest =? length s) eqn:L.
    + destruct adv.
      * apply match_at_advances in E. apply Nat.eqb_eq in L. lia.
      * unfold scan_at. apply scan_aux_fuel; unfold need; lia.
    + apply Nat.eqb_neq in L. apply match_at_shorter in E.
      unfold scan_at. apply scan_aux_fuel; unfold need; lia.
  - destruct s as [|x s']; auto. f_equal.
    unfold scan_at. apply scan_aux_fuel; unfold need; simpl length; lia.
Qed.

(** The unfolding of [scan] for a pattern that cannot match the empty text. *)
Lemma scan_eq r s :
  0 < min_len r ->
  scan r s =
  match match_at r false s with
  | Some (m, rest) => Hit m :: scan r rest
  | None =>
      match s with
      | [] => []
      | x :: s' => Lit x :: scan r s'
      end
  end.
Proof.
  intros L. change (scan r s) with (scan_at r false s).
  rewrite scan_at_eq.
  destruct (match_at r false s) as [[m rest]|] eqn:E; auto.
  apply (match_at_nonempty _ _ _ L) in E.
  destruct (length rest =? length s) eqn:Q; auto.
  apply Nat.eqb_eq in Q. lia.
Qed.

(** A scan puts the text back together: the matches are successive,
    non-overlapping runs of the text, in the order of the text. *)
Lemma scan_at_text r : forall n adv s,
  need adv s <= n -> flat_map tok_text (scan_at r adv s) = s.
Proof.
  induction n as [|n IH]; intros adv s Hn.
  - unfold need in Hn. destruct adv; lia.
  - rewrite scan_at_eq.
    destruct (match_at r adv s) as [[m rest]|] eqn:E.
    + pose proof (match_at_sound _ _ _ E) as (g & Hs & _ & _ & Hne).
      simpl. destruct (length rest =? length s) eqn:L.
      * apply Nat.eqb_eq in L. destruct adv.
        -- apply match_at_advances in E. lia.
        -- assert (W : m_whole m = []).
           { pose proof (f_equal (@length _) Hs) as Hl.
             rewrite length_app in Hl.
             destruct (m_whole m); simpl in *; [auto|lia]. }
           rewrite W. simpl. apply IH. unfold need in *. lia.
      * apply Nat.eqb_neq in L. apply match_at_shorter in E.
        rewrite IH; [congruence|]. unfold need in *. destruct adv; lia.
    + destruct s as [|x s']; auto. simpl. f_equal.
      apply IH. unfold need in *. simpl in *. destruct adv; lia.
Qed.

Lemma scan_text r s : flat_map tok_text (scan r s) = s.
Proof. apply (scan_at_text r (n := need false s)). lia. Qed.

End ReFacts.

(* ================================================================== *)
(** * Greedy repetition *)
(* ================================================================== *)

Section Greedy.

Lemma dropwhile_length p s : length (dropwhile p s) <= length s.
Proof.
  induction s as [|x s IH]; simpl; auto.
  destruct (p x); simpl; lia.
Qed.

Lemma run_len_cons p x s :
  run_len p (x :: s) = if p x then S (run_len p s) else 0.
Proof.
  unfold run_len. cbn [dropwhile]. destruct (p x).
  - pose proof (dropwhile_length p s). cbn [length]. lia.
  - lia.
Qed.

(** When the continuation refuses every text that starts inside the class,
    a greedy repetition has no choice: it takes the whole run. *)
Lemma rep_greedy_det (A : Type) lo p (k : str -> option A) :
  (forall x t, p x = true -> k (x :: t) = None) ->
  forall s n,
    rep Greedy lo None p k s n =
    if lo <=? n + run_len p s then k (dropwhile p s) else None.
Proof.
  intros Hk. induction s as [|x s IH]; intros n.
  - simpl. unfold run_len. simpl. rewrite Nat.add_0_r. reflexivity.
  - cbn [rep]. rewrite run_len_cons. cbn [dropwhile below].
    destruct (p x) eqn:Px; cbn [andb].
    + rewrite IH. rewrite (Hk x s Px).
      replace (n + S (run_len p s)) with (S n + run_len p s) by lia.
      destruct (lo <=? S n + run_len p s).
      * destruct (k (dropwhile p s)); auto. destruct (lo <=? n); auto.
      * destruct (lo <=? n); auto.
    + rewrite Nat.add_0_r. reflexivity.
Qed.

(** When the continuation accepts what follows the whole run, a greedy
    repetition stops there. *)
Lemma rep_greedy_first (A : Type) lo p (k : str -> option A) v :
  forall s n,
    k (dropwhile p s) = Some v -> lo <= n + run_len p s ->
    rep Greedy lo None p k s n = Some v.
Proof.
  induction s as [|x s IH]; intros n Hk Hlo.
  - simpl in *. unfold run_len in Hlo. simpl in Hlo.
    replace (lo <=? n) with true by (symmetry; apply Nat.leb_le; lia).
    exact Hk.
  - cbn [rep]. rewrite run_len_cons in Hlo. cbn [dropwhile below] in *.
    destruct (p x) eqn:Px; cbn [andb].
    + rewrite (IH (S n)); auto. lia.
    + replace (lo <=? n) with true by (symmetry; apply Nat.leb_le; lia).
      exact Hk.
Qed.

End Greedy.

(* ================================================================== *)
(** * The page assembler and the link classifier *)
(* ================================================================== *)

Section Classifier.

Variable lower : str -> str.

Lemma classify_filter site_domain links : forall internal external,
  classify lower site_domain links internal external =
  (internal ++ filter (is_internal lower site_domain) links,
   external ++ filter (fun l => negb (is_internal lower site_domain l)) links).
Proof.
  induction links as [|l links IH]; intros i e; simpl.
  - now rewrite !app_nil_r.
  - destruct (is_internal lower site_domain l); simpl; rewrite IH;
      now rewrite <- app_assoc.
Qed.

Lemma split_of_filter (A : Type) (p : A -> bool) (l : list A) :
  split_of l (filter p l) (filter (fun x => negb (p x)) l).
Proof.
  induction l as [|x l IH]; simpl; [constructor|].
  destruct (p x); simpl; now constructor.
Qed.

Lemma make_page_links rel_path html site_domain :
  internalLinks (make_page_object lower rel_path html site_domain)
  = filter (is_internal lower site_domain) (extract_links html)
  /\ externalLinks (make_page_object lower rel_path html site_domain)
     = filter (fun l => negb (is_internal lower site_domain l))
              (extract_links html).
Proof.
  unfold make_page_object. rewrite classify_filter. simpl. auto.
Qed.

Lemma scheme_match href :
  is_some (re_match re_scheme href) = has_scheme href.
Proof.
  unfold re_match, match_at, re_scheme, has_scheme. cbn [seqs plus mt].
  rewrite rep_greedy_det.
  - destruct href as [|c t]; [reflexivity|].
    rewrite run_len_cons. cbn [dropwhile]. destruct (is_alpha c) eqn:Ac.
    + cbn [Nat.add Nat.leb andb].
      destruct (dropwhile is_alpha t) as [|d r]; [reflexivity|].
      unfold one, ch. simpl N_of_ascii.
      destruct (N.eqb d 58); reflexivity.
    + reflexivity.
  - intros x t Px. unfold one, ch. simpl N_of_ascii.
    destruct (N.eqb x 58) eqn:E; auto.
    apply N.eqb_eq in E. subst x. discriminate.
Qed.

Lemma extracted_href_stripped html l :
  In l (extract_links html) -> strip (href l) = href l.
Proof.
  unfold extract_links. intros H. apply in_map_iff in H as (m & <- & _).
  simpl. apply strip_idem.
Qed.

Lemma is_internal_spec site_domain l :
  strip (href l) = href l ->
  is_internal lower site_domain l = spec_internal lower site_domain (href l).
Proof.
  intros Hs. unfold is_internal, spec_internal. cbv zeta.
  assert (E : (if is_empty (href l) then ([] : str) else href l) = href l)
    by (destruct (href l); reflexivity).
  rewrite E, Hs. unfold startswith_any. cbn [existsb].
  rewrite scheme_match.
  repeat match goal with
         | |- context [startswith ?a ?b] => destruct (startswith a b)
         end;
    destruct (is_empty (href l)); cbn [orb andb negb];
    try reflexivity;
    destruct (contains site_domain (lower (href l))); reflexivity.
Qed.

End Classifier.

Lemma ascii_lower_plain : lower_keeps_plain ascii_lower.
Proof.
  intros s. induction s as [|c s IH]; simpl; auto.
  intros H. apply andb_true_iff in H as [Hc Hs].
  rewrite (IH Hs). unfold plain in Hc.
  destruct ((65 <=? c) && (c <=? 90))%N; [|reflexivity].
  rewrite andb_false_r in Hc. discriminate.
Qed.

(** C10.  The page record carries, in its field [contentHtml], the whole
    HTML text it was made from, unchanged. *)
Theorem contentHtml_is_input (lower : str -> str) (rel_path html site_domain : str) :
  contentHtml (make_page_object lower rel_path html site_domain) = html.
Proof.
  unfold make_page_object.
  destruct (classify lower site_domain (extract_links html) [] []).
  reflexivity.
Qed.

(** C4.  Every link extracted from the page goes to exactly one of
    [internalLinks] and [externalLinks], in the order of extraction, which
    is the order of the matches in the markup; [images] is the list of the
    extracted images, one per matched tag, in that order. *)
Theorem links_partitioned (lower : str -> str) (rel_path html site_domain : str) :
  let p := make_page_object lower rel_path html site_domain in
  let links := extract_links html in
  split_of links (internalLinks p) (externalLinks p)
  /\ internalLinks p = filter (is_internal lower site_domain) links
  /\ externalLinks p = filter (fun l => negb (is_internal lower site_domain l)) links
  /\ links = map link_of_match (hits (scan re_link html))
  /\ flat_map tok_text (scan re_link html) = html
  /\ images p = map image_of_match (hits (scan re_img html))
  /\ flat_map tok_text (scan re_img html) = html.
Proof.
  cbv zeta.
  destruct (make_page_links lower rel_path html site_domain) as [Hi He].
  rewrite Hi, He.
  repeat split; try apply scan_text; try apply split_of_filter.
  unfold make_page_object.
  destruct (classify lower site_domain (extract_links html) [] []).
  reflexivity.
Qed.

Lemma is_internal_plain (lower : str -> str) site_domain l :
  lower (strip (href l)) = strip (href l) ->
  is_internal lower site_domain l = is_internal (fun s => s) site_domain l.
Proof.
  intros H. unfold is_internal. cbv zeta.
  assert (E : (if is_empty (href l) then ([] : str) else href l) = href l)
    by (destruct (href l); reflexivity).
  rewrite E, H. reflexivity.
Qed.

(** C3.  For every link the extractor returns, the classifier decides as the
    four rules say, in their order: rule 1 and rule 2 look at the lower-cased
    [href], rule 2 asks whether the site domain occurs in it, rule 3 looks
    for one of the four prefixes or the absence of a scheme prefix.  With the
    site domain of the tool, the four examples of the specification come out
    as it says. *)
Theorem link_classification (lower : str -> str) (site_domain html : str)
    (l : link) :
  lower_keeps_plain lower ->
  In l (extract_links html) ->
  is_internal lower site_domain l = spec_internal lower site_domain (href l)
  /\ (forall a r t,
        is_internal lower (u "stroyglobal.com")
          (MkLink (u "//stroyglobal.com/page") a r t) = true)
  /\ (forall a r t,
        is_internal lower (u "stroyglobal.com")
          (MkLink (u "https://other.com") a r t) = false)
  /\ (forall a r t,
        is_internal lower (u "stroyglobal.com")
          (MkLink (u "#section") a r t) = true)
  /\ (forall a r t,
        is_internal lower (u "stroyglobal.com") (MkLink [] a r t) = false).
Proof.
  intros Hl Hin. split.
  - apply is_internal_spec. eapply extracted_href_stripped; eauto.
  - repeat split; intros a r t;
      (rewrite is_internal_plain; [reflexivity|apply Hl; reflexivity]).
Qed.

Lemma link_classification_witness :
  let html := u "<a href=" ++ quoted (u "//stroyglobal.com/page") ++ u ">x</a>" in
  let l := MkLink (u "//stroyglobal.com/page") (u "x") [] [] in
  is_internal ascii_lower (u "stroyglobal.com") l
  = spec_internal ascii_lower (u "stroyglobal.com") (href l).
Proof.
  cbv zeta.
  refine (proj1 (@link_classification ascii_lower (u "stroyglobal.com")
                   (u "<a href=" ++ quoted (u "//stroyglobal.com/page") ++ u ">x</a>")
                   _ ascii_lower_plain _)).
  vm_compute. left. reflexivity.
Defined.

(* ================================================================== *)
(** * Dictionaries, headings and metas *)
(* ================================================================== *)

Section Dicts.

Variable V : Type.

Lemma dget_dset_same (k : str) (v : V) (d : dict V) :
  dget k (dset k v d) = Some v.
Proof.
  induction d as [|[k' v'] d IH]; simpl.
  - now rewrite str_eqb_refl.
  - destruct (str_eqb k k') eqn:E; simpl.
    + now rewrite str_eqb_refl.
    + now rewrite E.
Qed.

Lemma dget_dset_other (k k' : str) (v : V) (d : dict V) :
  k <> k' -> dget k (dset k' v d) = dget k d.
Proof.
  intros Hne.
  assert (N : str_eqb k k' = false).
  { destruct (str_eqb k k') eqn:E; auto. apply str_eqb_eq in E. contradiction. }
  induction d as [|[k2 v2] d IH]; simpl.
  - now rewrite N.
  - destruct (str_eqb k' k2) eqn:E; simpl.
    + apply str_eqb_eq in E. subst k2. now rewrite N.
    + destruct (str_eqb k k2); auto.
Qed.

Lemma dget_in (k : str) (v : V) (d : dict V) :
  dget k d = Some v -> In k (map fst d).
Proof.
  induction d as [|[k' v'] d IH]; simpl; [discriminate|].
  destruct (str_eqb k k') eqn:E.
  - apply str_eqb_eq in E. auto.
  - auto.
Qed.

Variable key : nat -> str.
Variable val : nat -> option V.

Lemma fold_get_other (levels : list nat) (k : str) : forall d,
  ~ In k (map key levels) ->
  dget k (fold_left (set_level key val) levels d) = dget k d.
Proof.
  induction levels as [|l ls IH]; intros d Hn; simpl; auto.
  rewrite IH by (simpl in Hn; tauto).
  unfold set_level. destruct (val l); auto.
  apply dget_dset_other. simpl in Hn. intros ->. tauto.
Qed.

Lemma fold_get_level (levels : list nat) (l : nat) : forall d,
  NoDup (map key levels) -> In l levels ->
  dget (key l) (fold_left (set_level key val) levels d) =
  match val l with Some v => Some v | None => dget (key l) d end.
Proof.
  induction levels as [|l0 ls IH]; intros d Hnd Hin; simpl in *; [tauto|].
  inversion Hnd as [|? ? Hnotin Hnd']; subst.
  destruct Hin as [->|Hin].
  - rewrite fold_get_other by assumption.
    unfold set_level. destruct (val l); auto. apply dget_dset_same.
  - rewrite IH by assumption. destruct (val l) eqn:E; auto.
    unfold set_level. destruct (val l0); auto.
    apply dget_dset_other. intros Heq. apply Hnotin.
    rewrite <- Heq. now apply in_map.
Qed.

End Dicts.

Section Headings.

Lemma filter_map_comm (A B : Type) (f : A -> B) (p : B -> bool) (l : list A) :
  map f (filter (fun x => p (f x)) l) = filter p (map f l).
Proof.
  induction l as [|x l IH]; simpl; auto.
  destruct (p (f x)); simpl; now rewrite IH.
Qed.

Lemma heading_items_eq html level :
  heading_items (findall1 (re_heading (heading_tag level)) html)
  = level_items html level.
Proof.
  unfold heading_items, level_items.
  apply (filter_map_comm (fun m => strip (strip_tags m))
                         (fun t => negb (is_empty t))).
Qed.

Lemma extract_headings_fold html :
  extract_headings html
  = fold_left (set_level heading_tag (level_value html)) (seq 1 6) [].
Proof.
  unfold extract_headings. generalize (@nil (str * list str)).
  generalize (seq 1 6). intros levels.
  induction levels as [|l ls IH]; intros d; simpl; auto.
  rewrite IH. f_equal. unfold set_level, level_value.
  rewrite heading_items_eq.
  destruct (findall1 (re_heading (heading_tag l)) html) eqn:E; simpl.
  - unfold level_items. rewrite E. reflexivity.
  - destruct (is_empty (level_items html l)); reflexivity.
Qed.

Lemma heading_tags_distinct : NoDup (map heading_tag (seq 1 6)).
Proof.
  simpl. repeat constructor; simpl; intuition discriminate.
Qed.

End Headings.

(** C9.  For each level 1 to 6 the heading extractor maps the tag of the
    level to the bodies of the matching tags, in the order of the document,
    each with its tags stripped (and trimmed), those that are empty after
    that left out; a level with nothing left has no entry.  Every text of
    the mapping is non-empty, and the mapping has no other keys. *)
Theorem headings_nonempty (html : str) :
  (forall level, 1 <= level <= 6 ->
     dget (heading_tag level) (extract_headings html)
     = (let items :=
          filter (fun t => negb (is_empty t))
                 (map (fun m => strip (strip_tags m))
                      (map (fun m => group m 1)
                           (hits (scan (re_heading (heading_tag level)) html)))) in
        if is_empty items then None else Some items)
     /\ flat_map tok_text (scan (re_heading (heading_tag level)) html) = html)
  /\ (forall tag items,
        dget tag (extract_headings html) = Some items ->
        (exists level, 1 <= level <= 6 /\ tag = heading_tag level)
        /\ items <> [] /\ Forall (fun t => t <> []) items).
Proof.
  rewrite extract_headings_fold. split.
  - intros level Hl. split; [|apply scan_text].
    rewrite fold_get_level.
    + cbv zeta.
      change (filter _ (map _ (map _ (hits (scan (re_heading (heading_tag level)) html)))))
        with (level_items html level).
      unfold level_value. cbn [dget].
      destruct (level_items html level); reflexivity.
    + apply heading_tags_distinct.
    + apply in_seq. lia.
  - intros tag items H.
    destruct (in_dec (list_eq_dec N.eq_dec) tag (map heading_tag (seq 1 6)))
      as [Hin|Hout].
    + apply in_map_iff in Hin as (level & <- & Hin). apply in_seq in Hin.
      rewrite fold_get_level in H;
        [|apply heading_tags_distinct|apply in_seq; lia].
      cbn [dget] in H. unfold level_value in H.
      destruct (is_empty (level_items html level)) eqn:E; [discriminate|].
      injection H as <-. split; [exists level; split; [lia|reflexivity]|].
      split.
      * intros Hnil. rewrite Hnil in E. discriminate.
      * apply Forall_forall. intros t Ht. unfold level_items in Ht.
        apply filter_In in Ht as [_ Ht]. intros ->. discriminate.
    + rewrite fold_get_other in H by assumption. discriminate.
Qed.

(* ================================================================== *)
(** * The meta extractor *)
(* ================================================================== *)

Section Search.

(** [search] returns the match at the first place of the text that has
    one. *)
Lemma search_leftmost r m tl rest : forall pre,
  match_at r false rest = Some (m, tl) ->
  (forall a b, pre = a ++ b -> b <> [] -> match_at r false (b ++ rest) = None) ->
  search r (pre ++ rest) = Some m.
Proof.
  induction pre as [|x pre IH]; intros Hm Hnone.
  - simpl. destruct rest; simpl; rewrite Hm; reflexivity.
  - cbn [app search].
    assert (H0 : match_at r false (x :: pre ++ rest) = None)
      by (apply (Hnone [] (x :: pre)); [reflexivity|discriminate]).
    rewrite H0.
    apply IH; auto. intros a b -> Hb. apply (Hnone (x :: a) b); auto.
Qed.

Lemma search_none r : forall s,
  (forall a b, s = a ++ b -> match_at r false b = None) ->
  search r s = None.
Proof.
  induction s as [|x s IH]; intros Hnone.
  - simpl. now rewrite (Hnone [] []).
  - cbn [search]. rewrite (Hnone [] (x :: s)) by reflexivity.
    apply IH. intros a b ->. apply (Hnone (x :: a) b). reflexivity.
Qed.

End Search.

(** C8.  The meta extractor returns a mapping with each of the five keys at
    most once and no other key.  The value of a key comes from the match
    [re.search] finds for the pattern of the key, which is the one at the
    first place of the document where the pattern matches; a key whose
    pattern matches nowhere is absent. *)
Theorem metas_first_match (lower : str -> str) (html : str) :
  let metas := extract_metas lower html in
  NoDup (map fst metas)
  /\ (forall k, In k (map fst metas) ->
        In k [u "charset"; u "description"; u "keywords"; u "robots";
              u "canonical"])
  /\ dget (u "charset") metas
     = option_map (fun m => lower (group m 1)) (search re_charset html)
  /\ (forall name, In name meta_names ->
        dget (u name) metas
        = option_map (fun m => strip (group m 1)) (search (re_meta name) html))
  /\ dget (u "canonical") metas
     = option_map (fun m => strip (group m 1)) (search re_canonical html)
  /\ (forall r pre rest m tl,
        html = pre ++ rest ->
        match_at r false rest = Some (m, tl) ->
        (forall a b, pre = a ++ b -> b <> [] ->
                     match_at r false (b ++ rest) = None) ->
        search r html = Some m)
  /\ (forall r,
        (forall a b, html = a ++ b -> match_at r false b = None) ->
        search r html = None).
Proof.
  cbv zeta. unfold extract_metas, meta_names. cbn [fold_left].
  repeat split.
  - destruct (search re_charset html), (search (re_meta "description") html),
      (search (re_meta "keywords") html), (search (re_meta "robots") html),
      (search re_canonical html);
      cbn; repeat constructor; cbn; intuition discriminate.
  - destruct (search re_charset html), (search (re_meta "description") html),
      (search (re_meta "keywords") html), (search (re_meta "robots") html),
      (search re_canonical html);
      cbn; intuition.
  - destruct (search re_charset html), (search (re_meta "description") html),
      (search (re_meta "keywords") html), (search (re_meta "robots") html),
      (search re_canonical html); reflexivity.
  - intros name [<-|[<-|[<-|[]]]];
      destruct (search re_charset html), (search (re_meta "description") html),
        (search (re_meta "keywords") html), (search (re_meta "robots") html),
        (search re_canonical html); reflexivity.
  - destruct (search re_charset html), (search (re_meta "description") html),
      (search (re_meta "keywords") html), (search (re_meta "robots") html),
      (search re_canonical html); reflexivity.
  - intros r pre rest m tl -> Hm Hn. eapply search_leftmost; eauto.
  - intros r Hn. now apply search_none.
Qed.

(* ================================================================== *)
(** * The validator *)
(* ================================================================== *)

Import Validate.

Section ValidatorFacts.

Variable json_loads : str -> res (json + str).
Variable lower : str -> str.

Lemma bind_ok (A B : Type) (c : res A) (k : A -> res B) (b : B) :
  bind c k = Ok b -> exists a, c = Ok a /\ k a = Ok b.
Proof. destruct c; simpl; [eauto|discriminate]. Qed.

Lemma then_gen_yield (A : Type) (a : A) (g1 g2 : gen A) :
  then_gen (yield a g1) g2 = yield a (then_gen g1 g2).
Proof.
  unfold then_gen, yield. cbn [raises yields].
  destruct (raises g1) eqn:E; rewrite ?E; reflexivity.
Qed.

Lemma iter_from_app (a b : list str) : forall n,
  iter_from json_loads n (a ++ b)
  = then_gen (iter_from json_loads n a)
             (iter_from json_loads (n + length a) b).
Proof.
  induction a as [|l a IH]; intros n; simpl.
  - rewrite Nat.add_0_r. unfold then_gen. cbn [raises yields app].
    now destruct (iter_from json_loads n b).
  - rewrite IH. replace (S n + length a) with (n + S (length a)) by lia.
    destruct (is_empty (strip l)); auto.
    destruct (json_loads (strip l)) as [[v|e]|x];
      rewrite ?then_gen_yield; reflexivity.
Qed.

Lemma run_app (a b : list (nat * json)) : forall st,
  run lower (a ++ b) st = bind (run lower a st) (run lower b).
Proof.
  induction a as [|[ln obj] a IH]; intros st; simpl; auto.
  destruct (step lower ln obj st); simpl; auto.
Qed.

Lemma loop_then (g1 g2 : gen (nat * json)) st :
  loop lower (then_gen g1 g2) st = bind (loop lower g1 st) (loop lower g2).
Proof.
  unfold then_gen, loop. destruct (raises g1) as [x|] eqn:E.
  - rewrite E. destruct (run lower (yields g1) st); reflexivity.
  - cbn [yields raises]. rewrite run_app.
    destruct (run lower (yields g1) st); reflexivity.
Qed.

Lemma loop_yield ln obj (g : gen (nat * json)) st :
  loop lower (yield (ln, obj) g) st
  = bind (step lower ln obj st) (loop lower g).
Proof.
  unfold loop, yield. cbn [yields raises run].
  destruct (step lower ln obj st); reflexivity.
Qed.

Lemma loop_ok (g : gen (nat * json)) st st' :
  loop lower g st = Ok st' ->
  run lower (yields g) st = Ok st' /\ raises g = None.
Proof.
  unfold loop. intros H. apply bind_ok in H as (a & E & H).
  destruct (raises g); [discriminate|]. injection H as <-. auto.
Qed.

Lemma main_ok lines r :
  main json_loads lower lines = Ok r ->
  exists st,
    run lower (yields (iter_ndjson json_loads lines)) init = Ok st
    /\ raises (iter_ndjson json_loads lines) = None
    /\ r = summarize st.
Proof.
  unfold main. intros H. apply bind_ok in H as (st & E & H).
  apply loop_ok in E as [E1 E2]. injection H as <-. eauto.
Qed.

Lemma main_loop lines :
  main json_loads lower lines
  = bind (loop lower (iter_ndjson json_loads lines) init)
      (fun st => Ok (summarize st)).
Proof. reflexivity. Qed.

Lemma step_parse_error ln e st :
  step lower ln (parse_error ln e) st = Ok (add_issue (parse_issue ln e) st).
Proof. reflexivity. Qed.

Lemma iter_from_bad n line rest e :
  strip line <> [] -> json_loads (strip line) = Ok (inr e) ->
  iter_from json_loads n (line :: rest)
  = yield (n, parse_error n e) (iter_from json_loads (S n) rest).
Proof.
  intros Hne He. simpl. rewrite He.
  destruct (strip line); [congruence|reflexivity].
Qed.

Lemma iter_from_uncaught n line rest x :
  strip line <> [] -> json_loads (strip line) = Raise x ->
  iter_from json_loads n (line :: rest) = MkGen [] (Some x).
Proof.
  intros Hne He. simpl. rewrite He.
  destruct (strip line); [congruence|reflexivity].
Qed.

(** A line on which [json.loads] raises [JSONDecodeError]. *)
Lemma loop_bad pre line rest e st :
  strip line <> [] -> json_loads (strip line) = Ok (inr e) ->
  loop lower (iter_ndjson json_loads (pre ++ line :: rest)) st
  = bind (loop lower (iter_ndjson json_loads pre) st)
      (fun st1 =>
         loop lower (iter_from json_loads (2 + length pre) rest)
              (add_issue (parse_issue (1 + length pre) e) st1)).
Proof.
  intros Hne He. unfold iter_ndjson. rewrite iter_from_app, loop_then.
  rewrite (@iter_from_bad (1 + length pre) line rest e Hne He).
  destruct (loop lower (iter_from json_loads 1 pre) st) as [st1|x];
    cbn [bind]; [|reflexivity].
  rewrite loop_yield, step_parse_error. reflexivity.
Qed.

(** A line on which [json.loads] raises another exception. *)
Lemma loop_uncaught pre line rest x st :
  strip line <> [] -> json_loads (strip line) = Raise x ->
  loop lower (iter_ndjson json_loads (pre ++ line :: rest)) st
  = bind (loop lower (iter_ndjson json_loads pre) st) (fun _ => Raise x).
Proof.
  intros Hne He. unfold iter_ndjson. rewrite iter_from_app, loop_then.
  rewrite (@iter_from_uncaught (1 + length pre) line rest x Hne He).
  reflexivity.
Qed.

Lemma main_uncaught pre line rest x :
  strip line <> [] -> json_loads (strip line) = Raise x ->
  main json_loads lower (pre ++ line :: rest)
  = bind (loop lower (iter_ndjson json_loads pre) init) (fun _ => Raise x).
Proof.
  intros Hne He. rewrite main_loop, (@loop_uncaught pre line rest x init Hne He).
  destruct (loop lower (iter_ndjson json_loads pre) init); reflexivity.
Qed.

End ValidatorFacts.

Section Repeat.

Lemma rev_repeat_same (c : char) : forall n, rev (repeat c n) = repeat c n.
Proof.
  induction n as [|n IH]; [reflexivity|].
  cbn [repeat rev]. rewrite IH. symmetry. apply repeat_cons.
Qed.

Lemma lstrip_repeat (c : char) n :
  isspace c = false -> lstrip (repeat c n) = repeat c n.
Proof. intros H. destruct n; [reflexivity|]. cbn [repeat lstrip]. now rewrite H. Qed.

Lemma strip_repeat (c : char) n :
  isspace c = false -> strip (repeat c n) = repeat c n.
Proof.
  intros H. unfold strip, rstrip.
  now rewrite lstrip_repeat, rev_repeat_same, lstrip_repeat, rev_repeat_same.
Qed.

Lemma strip_deep_line : strip deep_line = deep_line.
Proof. apply strip_repeat. reflexivity. Qed.

Lemma deep_line_nonempty : deep_line <> [].
Proof.
  unfold deep_line. assert (H : N.to_nat 100000 <> 0) by lia.
  destruct (N.to_nat 100000); [contradiction|discriminate].
Qed.

End Repeat.

(** C7 (as amended).  A line on which [json.loads] raises [JSONDecodeError]
    adds exactly one issue, which carries the number of the line, and
    nothing else changes: the lines before it are processed as they would be
    without it, and the lines after it are processed from the state it
    leaves, with the numbering going on.  A line on which [json.loads]
    raises another exception ends the run with that exception once the
    lines before it have been processed, and nothing is printed. *)
Theorem parse_error_continues (json_loads : str -> res (json + str))
    (lower : str -> str) (pre rest : list str) (line : str) :
  strip line <> [] ->
  (forall e,
     json_loads (strip line) = Ok (inr e) ->
     (forall st,
        loop lower (iter_ndjson json_loads (pre ++ line :: rest)) st
        = bind (loop lower (iter_ndjson json_loads pre) st)
            (fun st1 =>
               loop lower (iter_from json_loads (2 + length pre) rest)
                    (add_issue (parse_issue (1 + length pre) e) st1)))
     /\ main json_loads lower (pre ++ line :: rest)
        = bind (loop lower (iter_ndjson json_loads pre) init)
            (fun st1 =>
               bind (loop lower (iter_from json_loads (2 + length pre) rest)
                          (add_issue (parse_issue (1 + length pre) e) st1))
                    (fun st2 => Ok (summarize st2))))
  /\ (forall x,
        json_loads (strip line) = Raise x ->
        (forall st,
           loop lower (iter_ndjson json_loads (pre ++ line :: rest)) st
           = bind (loop lower (iter_ndjson json_loads pre) st)
               (fun _ => Raise x))
        /\ main json_loads lower (pre ++ line :: rest)
           = bind (loop lower (iter_ndjson json_loads pre) init)
               (fun _ => Raise x)
        /\ (forall r, main json_loads lower (pre ++ line :: rest) <> Ok r)).
Proof.
  intros Hne. split.
  - intros e He. split.
    + intros st. now apply loop_bad.
    + rewrite main_loop, (@loop_bad json_loads lower pre line rest e init Hne He).
      destruct (loop lower (iter_ndjson json_loads pre) init); reflexivity.
  - intros x Hx. split; [|split].
    + intros st. now apply loop_uncaught.
    + now apply main_uncaught.
    + intros r. rewrite (@main_uncaught json_loads lower pre line rest x Hne Hx).
      destruct (loop lower (iter_ndjson json_loads pre) init); discriminate.
Qed.

Section ValidatorRun.

Variable lower : str -> str.

Ltac inv_bind H :=
  let a := fresh "a" in
  let E := fresh "E" in
  apply bind_ok in H as (a & E & H).

Lemma quiet_refl st : quiet st st.
Proof. split; auto. exists []. now rewrite app_nil_r. Qed.

Lemma quiet_trans st1 st2 st3 : quiet st1 st2 -> quiet st2 st3 -> quiet st1 st3.
Proof.
  intros [S1 (n1 & I1 & F1)] [S2 (n2 & I2 & F2)]. split; [congruence|].
  exists (n1 ++ n2). rewrite I2, I1, <- app_assoc. split; auto.
  rewrite filter_app, F1, F2. reflexivity.
Qed.

Lemma quiet_add i st : is_dup i = false -> quiet st (add_issue i st).
Proof.
  intros H. split; auto. exists [i]. split; auto. simpl. now rewrite H.
Qed.

Lemma quiet_add_if (b : bool) i st :
  is_dup i = false -> quiet st (if b then add_issue i st else st).
Proof. destruct b; [apply quiet_add|intros; apply quiet_refl]. Qed.

Lemma check_internal_quiet ln path : forall links st st',
  check_internal lower ln path links st = Ok st' -> quiet st st'.
Proof.
  induction links as [|l links IH]; intros st st' H; simpl in H.
  - injection H as <-. apply quiet_refl.
  - inv_bind H.
    destruct (is_abs_url lower a && negb (has_char 47%N path)); [discriminate|].
    apply IH in H. eapply quiet_trans; [|exact H].
    now apply quiet_add_if.
Qed.

Lemma check_external_quiet ln path : forall links st st',
  check_external ln path links st = Ok st' -> quiet st st'.
Proof.
  induction links as [|l links IH]; intros st st' H; simpl in H.
  - injection H as <-. apply quiet_refl.
  - inv_bind H. apply IH in H. eapply quiet_trans; [|exact H].
    now apply quiet_add_if.
Qed.

Lemma check_images_quiet ln path : forall imgs st st',
  check_images ln path imgs st = Ok st' -> quiet st st'.
Proof.
  induction imgs as [|i imgs IH]; intros st st' H; simpl in H.
  - injection H as <-. apply quiet_refl.
  - inv_bind H. inv_bind H. apply IH in H.
    eapply quiet_trans; [|exact H].
    eapply quiet_trans; [|now apply quiet_add_if].
    now apply quiet_add_if.
Qed.

(** What one page record does to the set of paths and to the duplicate
    issues. *)
Lemma check_page_dups ln d st st' :
  check_page lower ln (JObj d) st = Ok st' ->
  exists p new,
    dget_or (u "path") (JStr []) d = JStr p
    /\ seen_paths st' = add_path p (seen_paths st)
    /\ issues st' = issues st ++ new
    /\ filter is_dup new
       = if seen p (seen_paths st) then [DuplicatePath ln p] else [].
Proof.
  unfold check_page. intros H.
  inv_bind H. simpl in E. injection E as <-.
  inv_bind H. rename a into p.
  destruct (dget_or (u "path") (JStr []) d) as [| | | |p0| |] eqn:Ep;
    try discriminate.
  simpl in E. injection E as ->.
  repeat inv_bind H.
  match goal with
  | Hi : check_internal _ _ _ _ _ = Ok _,
    He : check_external _ _ _ _ = Ok _ |- _ =>
      apply check_internal_quiet in Hi; apply check_external_quiet in He;
      apply check_images_quiet in H;
      pose proof (quiet_trans (quiet_trans Hi He) H) as [Hs (n & Hi' & Hf)];
      clear Hi He H
  end.
  exists p.
  match type of Hs with
  | context [str_eqb (lower ?c) (u "utf-8")] =>
      destruct (str_eqb (lower c) (u "utf-8") || str_eqb (lower c) (u "utf8"))
  end;
    destruct (startswith (u "/") p);
    cbn [add_issue issues seen_paths page_count] in Hs, Hi';
    destruct (seen p (seen_paths st)) eqn:Sn;
    cbn [add_issue issues seen_paths page_count] in Hs, Hi';
    eexists; (split; [reflexivity|]); (split; [exact Hs|]);
    rewrite Hi', <- ?app_assoc; (split; [reflexivity|]);
    cbn [app]; rewrite ?filter_app; cbn [filter is_dup]; rewrite Hf; reflexivity.
Qed.

End ValidatorRun.

Section ValidatorStep.

Variable lower : str -> str.

Ltac inv_bind H :=
  let a := fresh "a" in
  let E := fresh "E" in
  apply bind_ok in H as (a & E & H).

Lemma eq_text_excl v a b :
  eq_text v a = true -> a <> b -> eq_text v b = false.
Proof.
  destruct v; simpl; try discriminate. intros H Hne.
  apply str_eqb_eq in H. subst s.
  destruct (str_eqb a b) eqn:E; auto. apply str_eqb_eq in E. contradiction.
Qed.

(** What one record does to the set of paths and to the duplicate issues. *)
Lemma step_dups ln obj st st' :
  step lower ln obj st = Ok st' ->
  exists new,
    issues st' = issues st ++ new
    /\ filter is_dup new
       = match page_path obj with
         | Some p => if seen p (seen_paths st) then [DuplicatePath ln p] else []
         | None => []
         end
    /\ seen_paths st'
       = match page_path obj with
         | Some p => add_path p (seen_paths st)
         | None => seen_paths st
         end.
Proof.
  unfold step. intros H. inv_bind H.
  destruct obj as [| | | |s|l|d]; try discriminate.
  - simpl in E. injection E as <-.
    destruct (contains (u "__error__") s); inv_bind H; discriminate.
  - simpl in E. injection E as <-.
    destruct (existsb (fun x => eq_text x (u "__error__")) l);
      inv_bind H; discriminate.
  - simpl in E. injection E as <-. cbn [page_path].
    destruct (is_some (dget (u "__error__") d)) eqn:Err.
    + inv_bind H. injection H as <-.
      exists [Reported a]. auto.
    + inv_bind H. simpl in E. injection E as <-.
      destruct (eq_text (dget_or (u "type") JNull d) (u "site")) eqn:T1.
      * rewrite (eq_text_excl _ T1) by discriminate.
        inv_bind H. injection H as <-.
        destruct (truthy a); [exists []|eexists [_]]; simpl;
          rewrite ?app_nil_r; auto.
      * destruct (eq_text (dget_or (u "type") JNull d) (u "robotsTxt")
                  || eq_text (dget_or (u "type") JNull d) (u "sitemapXml")) eqn:T2.
        -- assert (T3 : eq_text (dget_or (u "type") JNull d) (u "page") = false).
           { apply orb_true_iff in T2 as [T|T];
               apply (eq_text_excl _ T); discriminate. }
           rewrite T3. inv_bind H. injection H as <-.
           destruct (truthy a); [exists []|eexists [_]]; simpl;
             rewrite ?app_nil_r; auto.
        -- destruct (eq_text (dget_or (u "type") JNull d) (u "page")) eqn:T3.
           ++ apply check_page_dups in H as (p & new & Hp & Hs & Hi & Hf).
              rewrite Hp. exists new. auto.
           ++ injection H as <-. eexists [_]. simpl. auto.
Qed.

Lemma seen_add_path p q paths :
  seen p (add_path q paths) = str_eqb p q || seen p paths.
Proof.
  unfold add_path. destruct (seen q paths) eqn:Sq.
  - destruct (str_eqb p q) eqn:E; auto.
    apply str_eqb_eq in E. subst. exact Sq.
  - unfold seen. rewrite existsb_app. simpl.
    rewrite orb_false_r. apply orb_comm.
Qed.

(** The duplicate issues of a run are the repeats of its records. *)
Lemma run_dups : forall recs prev st st',
  (forall p, seen p (seen_paths st) = existsb (str_eqb p) prev) ->
  run lower recs st = Ok st' ->
  filter is_dup (issues st') = filter is_dup (issues st) ++ repeats prev recs.
Proof.
  induction recs as [|[ln obj] recs IH]; intros prev st st' Hseen H.
  - simpl in *. injection H as <-. now rewrite app_nil_r.
  - cbn [run] in H. inv_bind H.
    apply step_dups in E as (new & Hi & Hf & Hs).
    cbn [repeats]. destruct (page_path obj) as [p|].
    + rewrite (IH (p :: prev) _ _) with (2 := H).
      * rewrite Hi, filter_app, Hf, <- app_assoc, Hseen. reflexivity.
      * intros q. rewrite Hs, seen_add_path, Hseen. reflexivity.
    + rewrite (IH prev _ _) with (2 := H).
      * rewrite Hi, filter_app, Hf, app_nil_r. reflexivity.
      * intros q. rewrite Hs. apply Hseen.
Qed.

(** No step takes an issue back. *)
Lemma run_grows : forall recs st st',
  run lower recs st = Ok st' -> exists new, issues st' = issues st ++ new.
Proof.
  induction recs as [|[ln obj] recs IH]; intros st st' H.
  - simpl in H. injection H as <-. exists []. now rewrite app_nil_r.
  - cbn [run] in H. inv_bind H.
    apply step_dups in E as (n1 & Hi & _). apply IH in H as (n2 & H).
    exists (n1 ++ n2). now rewrite H, Hi, app_assoc.
Qed.

End ValidatorStep.

Section ValidatorTotal.

Variable lower : str -> str.

Lemma text_field_typed d k :
  typed_text d k = true -> exists s, text_field (JObj d) k = Ok s.
Proof.
  unfold typed_text, text_field, get, dget_or. cbn [bind].
  destruct (dget k d) as [[| | | |s| |]|]; try discriminate; intros _.
  - cbn [truthy]. destruct (negb (is_empty s)); cbn; eauto.
  - cbn. eauto.
Qed.

Lemma check_internal_total ln path :
  has_char 47%N path = true ->
  forall links st, forallb typed_link links = true ->
  exists st', check_internal lower ln path links st = Ok st'.
Proof.
  intros Hp. induction links as [|l links IH]; intros st H; cbn [check_internal].
  - eauto.
  - cbn [forallb] in H. apply andb_true_iff in H as [Hl H].
    destruct l; try discriminate. cbn [typed_link] in Hl.
    destruct (text_field_typed _ _ Hl) as [s ->]. cbn [bind].
    rewrite Hp. cbn [negb]. rewrite andb_false_r. auto.
Qed.

Lemma check_external_total ln path :
  forall links st, forallb typed_link links = true ->
  exists st', check_external ln path links st = Ok st'.
Proof.
  induction links as [|l links IH]; intros st H; cbn [check_external].
  - eauto.
  - cbn [forallb] in H. apply andb_true_iff in H as [Hl H].
    destruct l; try discriminate. cbn [typed_link] in Hl.
    destruct (text_field_typed _ _ Hl) as [s ->]. cbn [bind]. auto.
Qed.

Lemma check_images_total ln path :
  forall imgs st, forallb typed_image imgs = true ->
  exists st', check_images ln path imgs st = Ok st'.
Proof.
  induction imgs as [|i imgs IH]; intros st H; cbn [check_images].
  - eauto.
  - cbn [forallb] in H. apply andb_true_iff in H as [Hi H].
    destruct i; try discriminate. cbn [typed_image] in Hi.
    apply andb_true_iff in Hi as [H1 H2].
    destruct (text_field_typed _ _ H1) as [s ->].
    destruct (text_field_typed _ _ H2) as [a ->]. cbn [bind]. auto.
Qed.

Lemma typed_list_iterate f d k :
  typed_list f d k = true ->
  exists v l, get (JObj d) k (JArr []) = Ok v /\ iterate v = Ok l
              /\ forallb f l = true.
Proof.
  unfold typed_list, get, dget_or.
  destruct (dget k d) as [[| | | | |l|]|]; try discriminate; intros H.
  - exists (JArr l), l. auto.
  - exists (JArr []), []. auto.
Qed.

Lemma typed_meta_charset d :
  match dget (u "meta") d with
  | None => true
  | Some (JObj m) => typed_text m (u "charset")
  | Some _ => false
  end = true ->
  exists mv cv cs,
    get (JObj d) (u "meta") (JObj []) = Ok mv
    /\ get mv (u "charset") (JStr []) = Ok cv /\ as_str cv = Ok cs.
Proof.
  unfold get at 1. unfold dget_or.
  destruct (dget (u "meta") d) as [[| | | | | |m]|]; try discriminate.
  - unfold typed_text. intros H. exists (JObj m). cbn [get]. unfold dget_or.
    destruct (dget (u "charset") m) as [[| | | |c| |]|]; try discriminate;
      eexists; eexists; repeat split; reflexivity.
  - intros _. exists (JObj []), (JStr []), []. auto.
Qed.

Lemma check_page_total ln d st :
  typed_page d = true -> exists st', check_page lower ln (JObj d) st = Ok st'.
Proof.
  unfold typed_page. intros H.
  apply andb_true_iff in H as [H Him]. apply andb_true_iff in H as [H Hel].
  apply andb_true_iff in H as [H Hil]. apply andb_true_iff in H as [Hp Hm].
  apply typed_list_iterate in Hil as (iv & il & Eiv & Eil & Til).
  apply typed_list_iterate in Hel as (ev & el & Eev & Eel & Tel).
  apply typed_list_iterate in Him as (mv & im & Emv & Eim & Tim).
  apply typed_meta_charset in Hm as (me & cv & cs & Eme & Ecv & Ecs).
  unfold check_page.
  assert (Epath : exists p, get (JObj d) (u "path") (JStr []) = Ok (JStr p)
                            /\ has_char 47%N p = true).
  { unfold get, dget_or.
    destruct (dget (u "path") d) as [[| | | |p| |]|]; try discriminate. eauto. }
  destruct Epath as (p & Ep & Hs).
  rewrite Ep. cbn [bind as_str]. rewrite Eme. cbn [bind]. rewrite Ecv.
  cbn [bind]. rewrite Ecs. cbn [bind]. rewrite Eiv. cbn [bind]. rewrite Eil.
  cbn [bind].
  match goal with
  | |- context [check_internal lower ln p il ?s] =>
      destruct (@check_internal_total ln p Hs il s Til) as [s1 ->]
  end.
  cbn [bind]. rewrite Eev. cbn [bind]. rewrite Eel. cbn [bind].
  match goal with
  | |- context [check_external ln p el ?s] =>
      destruct (@check_external_total ln p el s Tel) as [s2 ->]
  end.
  cbn [bind]. rewrite Emv. cbn [bind]. rewrite Eim. cbn [bind].
  now apply check_images_total.
Qed.

Lemma step_total ln obj st :
  typed_record (ln, obj) = true -> exists st', step lower ln obj st = Ok st'.
Proof.
  unfold typed_record. cbn [snd]. destruct obj as [| | | | | |d]; try discriminate.
  unfold step. cbn [has_member bind].
  destruct (is_some (dget (u "__error__") d)) eqn:Err.
  - intros _. unfold item. destruct (dget (u "__error__") d); [|discriminate].
    cbn. eauto.
  - cbn [get bind].
    destruct (eq_text (dget_or (u "type") JNull d) (u "site")) eqn:T1.
    + rewrite (eq_text_excl _ T1) by discriminate. intros _. eauto.
    + destruct (eq_text (dget_or (u "type") JNull d) (u "robotsTxt")
                || eq_text (dget_or (u "type") JNull d) (u "sitemapXml")) eqn:T2.
      * intros _. eauto.
      * destruct (eq_text (dget_or (u "type") JNull d) (u "page")).
        -- apply check_page_total.
        -- intros _. eauto.
Qed.

Lemma run_total : forall recs st,
  forallb typed_record recs = true -> exists st', run lower recs st = Ok st'.
Proof.
  induction recs as [|[ln obj] recs IH]; intros st H; cbn [run].
  - eauto.
  - cbn [forallb] in H. apply andb_true_iff in H as [Hr H].
    destruct (@step_total ln obj st Hr) as [st1 ->]. cbn [bind]. auto.
Qed.

End ValidatorTotal.

(** C5.  The duplicate-path issues of a run are exactly the repeats of the
    stream, in order: one for each page record whose path is the path of an
    earlier page record, carrying the line of the repeat, and none for a
    first occurrence.  This holds of every run that completes, and a run
    over records of the shape the extractor writes does complete.  Two page
    records that share the path [/a.htm] give exactly one such issue, on
    the second. *)
Theorem duplicates_are_repeats (json_loads : str -> res (json + str))
    (lower : str -> str) (lines : list str) :
  let recs := yields (iter_ndjson json_loads lines) in
  (forall st,
     run lower recs init = Ok st ->
     filter is_dup (issues st) = repeats [] recs)
  /\ (forallb typed_record recs = true ->
      exists st,
        run lower recs init = Ok st
        /\ filter is_dup (issues st) = repeats [] recs)
  /\ (forall n1 o1 n2 o2 st,
        page_path o1 = Some (u "/a.htm") ->
        page_path o2 = Some (u "/a.htm") ->
        run lower [(n1, o1); (n2, o2)] init = Ok st ->
        filter is_dup (issues st) = [DuplicatePath n2 (u "/a.htm")]).
Proof.
  cbv zeta. split; [|split].
  - intros st H. apply run_dups with (prev := []) in H; auto.
  - intros H. destruct (run_total lower _ init H) as [st Hst].
    exists st. split; auto. apply run_dups with (prev := []) in Hst; auto.
  - intros n1 o1 n2 o2 st H1 H2 H.
    apply run_dups with (prev := []) in H; auto.
    rewrite H. cbn [repeats]. rewrite H1, H2. reflexivity.
Qed.

Lemma duplicates_are_repeats_witness :
  exists st,
    run ascii_lower (yields (iter_ndjson toy_loads [u "A"; u "A"])) init
    = Ok st
    /\ filter is_dup (issues st) = [DuplicatePath 2 (u "/a.htm")].
Proof.
  destruct (proj1 (proj2 (@duplicates_are_repeats toy_loads ascii_lower
                            [u "A"; u "A"])) eq_refl) as (st & Hrun & Hd).
  exists st. split; [exact Hrun|]. rewrite Hd. reflexivity.
Defined.

(** C6.  The report carries the first 200 issues of the run, and its
    [issuesCount] is the number of all the issues of the run, however many;
    no issue recorded at some point of the run is missing from that total.
    A run over records of the shape the extractor writes gets through all
    of them, and gives a report unless [json.loads] has ended the stream
    with an exception that is not caught. *)
Theorem issues_capped (json_loads : str -> res (json + str))
    (lower : str -> str) (lines : list str) :
  (forall r,
     main json_loads lower lines = Ok r ->
     exists st,
       run lower (yields (iter_ndjson json_loads lines)) init = Ok st
       /\ issuesCount r = length (issues st)
       /\ reported r = firstn 200 (issues st)
       /\ length (reported r) = Nat.min 200 (issuesCount r)
       /\ (forall recs1 recs2,
             yields (iter_ndjson json_loads lines) = recs1 ++ recs2 ->
             exists st1 new,
               run lower recs1 init = Ok st1
               /\ issues st = issues st1 ++ new))
  /\ (forallb typed_record (yields (iter_ndjson json_loads lines)) = true ->
      exists st,
        run lower (yields (iter_ndjson json_loads lines)) init = Ok st
        /\ main json_loads lower lines
           = match raises (iter_ndjson json_loads lines) with
             | Some x => Raise x
             | None => Ok (summarize st)
             end).
Proof.
  split.
  - intros r H. apply main_ok in H as (st & Hrun & _ & ->).
    exists st. unfold summarize.
    cbn [issuesCount reported].
    repeat split; auto.
    + apply length_firstn.
    + intros recs1 recs2 Hs. rewrite Hs, run_app in Hrun.
      apply bind_ok in Hrun as (st1 & H1 & H2).
      apply run_grows in H2 as (new & H2). eauto.
  - intros H. destruct (run_total lower _ init H) as [st Hst].
    exists st. split; [exact Hst|].
    unfold main, loop. rewrite Hst. cbn [bind].
    destruct (raises (iter_ndjson json_loads lines)); reflexivity.
Qed.

Lemma issues_capped_witness :
  exists st,
    run ascii_lower (yields (iter_ndjson toy_loads (repeat (u "{}") 201))) init
    = Ok st
    /\ length (issues st) = 201
    /\ length (firstn 200 (issues st)) = 200.
Proof.
  destruct (proj1 (@issues_capped toy_loads ascii_lower (repeat (u "{}") 201))
              (MkReport 0 0 201
                 (map (fun n => UnknownType n JNull) (seq 1 200))))
    as (st & Hrun & Hc & Hr & Hl & _).
  - vm_compute. reflexivity.
  - exists st. cbn [issuesCount reported] in Hc, Hr.
    split; [exact Hrun|]. split; [congruence|].
    rewrite <- Hr. rewrite length_map, length_seq. reflexivity.
Defined.

Lemma parse_error_continues_witness :
  main toy_loads ascii_lower [u "{}"; u "oops"; u "A"; u "A"]
  = Ok (MkReport 2 1 3
          [UnknownType 1 JNull; parse_issue 2 (u "Expecting value");
           DuplicatePath 4 (u "/a.htm")]).
Proof.
  change [u "{}"; u "oops"; u "A"; u "A"]
    with ([u "{}"] ++ u "oops" :: [u "A"; u "A"]).
  rewrite (proj2 (proj1 (@parse_error_continues toy_loads ascii_lower
                           [u "{}"] [u "A"; u "A"] (u "oops")
                           ltac:(vm_compute; discriminate))
                    (u "Expecting value") eq_refl)).
  vm_compute. reflexivity.
Defined.

(** C7 (as stated) fails: the generator catches [JSONDecodeError] only.  On
    a line that opens 100000 arrays [json.loads] raises a [RecursionError];
    it ends the run, the line after it is never read and nothing is printed,
    while the same stream without that line gives a report. *)
Lemma deep_line_aborts :
  main toy_deep ascii_lower [u "{}"; deep_line; u "{}"] = Raise RecursionError
  /\ main toy_deep ascii_lower [u "{}"; u "{}"]
     = Ok (MkReport 0 0 2 [UnknownType 1 JNull; UnknownType 2 JNull]).
Proof.
  split; [|lazy; reflexivity].
  change [u "{}"; deep_line; u "{}"] with ([u "{}"] ++ deep_line :: [u "{}"]).
  rewrite (@main_uncaught toy_deep ascii_lower [u "{}"] deep_line [u "{}"]
             RecursionError).
  - lazy. reflexivity.
  - rewrite strip_deep_line. exact deep_line_nonempty.
  - rewrite strip_deep_line. unfold toy_deep. now rewrite str_eqb_refl.
Qed.

(* ================================================================== *)
(** * Substitution *)
(* ================================================================== *)

Section SubFacts.

Variable r : re.
Hypothesis r_nonempty : 0 < min_len r.

Lemma sub_eq repl s :
  sub r repl s =
  match match_at r false s with
  | Some (_, rest) => repl ++ sub r repl rest
  | None =>
      match s with
      | [] => []
      | x :: s' => x :: sub r repl s'
      end
  end.
Proof.
  unfold sub, sub_with. rewrite scan_eq by assumption.
  destruct (match_at r false s) as [[m rest]|]; [reflexivity|].
  destruct s; reflexivity.
Qed.

(** Induction along the steps of a substitution. *)
Lemma sub_ind (P : str -> Prop) :
  (forall s, (forall s', length s' < length s -> P s') -> P s) ->
  forall s, P s.
Proof.
  intros H s. remember (length s) as n eqn:En.
  revert s En. induction n as [n IH] using lt_wf_ind.
  intros s ->. apply H. intros s' Hl. eapply IH; eauto.
Qed.

(** A text the pattern matches nowhere is left as it is. *)
Lemma sub_id repl : forall s,
  (forall a b, s = a ++ b -> match_at r false b = None) ->
  sub r repl s = s.
Proof.
  induction s as [|x s IH]; intros Hn; rewrite sub_eq.
  - now rewrite (Hn [] []).
  - rewrite (Hn [] (x :: s)) by reflexivity. f_equal.
    apply IH. intros a b ->. apply (Hn (x :: a) b). reflexivity.
Qed.

(** What holds of every character of the text and of the replacement holds
    of every character of the result. *)
Lemma sub_forall (P : char -> Prop) repl :
  Forall P repl -> forall s, Forall P s -> Forall P (sub r repl s).
Proof.
  intros Hr s. pattern s. apply sub_ind. clear s. intros s IH Hs.
  rewrite sub_eq. destruct (match_at r false s) as [[m rest]|] eqn:E.
  - pose proof (match_at_nonempty _ _ _ r_nonempty E) as Hl.
    apply match_at_sound in E as (g & -> & _).
    apply Forall_app in Hs as [_ Hs].
    apply Forall_app. split; auto.
  - destruct s as [|x s']; [constructor|].
    inversion Hs; subst. constructor; [assumption|].
    apply IH; [simpl; lia|assumption].
Qed.

End SubFacts.

Section CharFacts.

Lemma has_char_false c s :
  has_char c s = false <-> Forall (fun x => x <> c) s.
Proof.
  unfold has_char. induction s as [|x s IH]; simpl.
  - split; auto.
  - rewrite orb_false_iff, IH. split.
    + intros [H1 H2]. constructor; auto.
      intros ->. rewrite N.eqb_refl in H1. discriminate.
    + intros H. inversion H; subst. split; auto.
      apply N.eqb_neq. congruence.
Qed.

Lemma has_char_app c a b :
  has_char c (a ++ b) = has_char c a || has_char c b.
Proof. apply existsb_app. Qed.

Lemma sub_keeps_absent r repl c s :
  0 < min_len r -> has_char c repl = false -> has_char c s = false ->
  has_char c (sub r repl s) = false.
Proof.
  intros Hr H1 H2. apply has_char_false. apply sub_forall; auto;
    now apply has_char_false.
Qed.

Lemma lstrip_suffix s : exists pre, s = pre ++ lstrip s.
Proof.
  induction s as [|x s [pre IH]]; simpl.
  - now exists [].
  - destruct (isspace x).
    + exists (x :: pre). simpl. congruence.
    + now exists [].
Qed.

Lemma rstrip_prefix s : exists post, s = rstrip s ++ post.
Proof.
  unfold rstrip. destruct (lstrip_suffix (rev s)) as [pre H].
  exists (rev pre). rewrite <- rev_app_distr, <- H. now rewrite rev_involutive.
Qed.

Lemma strip_middle s : exists pre post, s = pre ++ strip s ++ post.
Proof.
  unfold strip. destruct (lstrip_suffix s) as [pre H].
  destruct (rstrip_prefix (lstrip s)) as [post H'].
  exists pre, post. now rewrite <- H', <- H.
Qed.

End CharFacts.

(* ================================================================== *)
(** * The tag stripper *)
(* ================================================================== *)

Section TagPattern.

Lemma non_gt x : non ">" x = negb (N.eqb x 62).
Proof. reflexivity. Qed.

Lemma dropwhile_absent s :
  has_char 62%N s = false -> dropwhile (non ">") s = [].
Proof.
  unfold has_char. induction s as [|x s IH]; cbn [existsb dropwhile]; auto.
  intros H. apply orb_false_iff in H as [Hx Hs].
  rewrite non_gt, N.eqb_sym, Hx. cbn [negb]. auto.
Qed.

Lemma dropwhile_present s :
  has_char 62%N s = true -> exists t, dropwhile (non ">") s = 62%N :: t.
Proof.
  unfold has_char. induction s as [|x s IH]; cbn [existsb dropwhile];
    [discriminate|].
  intros H. rewrite non_gt, N.eqb_sym.
  destruct (N.eqb 62 x) eqn:E; cbn [negb orb] in *.
  - apply N.eqb_eq in E. subst. eauto.
  - auto.
Qed.

(** The pattern of a tag at a [<]: the greedy run has no choice, since only
    a [>] can follow it. *)
Lemma tag_match t :
  match_at re_tag false (60%N :: t) =
  if 1 <=? run_len (non ">") t then
    match dropwhile (non ">") t with
    | y :: s2 =>
        if N.eqb y 62
        then Some (MkMatch (firstn (length (60%N :: t) - length s2) (60%N :: t)) [], s2)
        else None
    | [] => None
    end
  else None.
Proof.
  unfold match_at, re_tag. cbn [seqs plus mt].
  change (one "<" 60%N) with true. cbv iota.
  rewrite rep_greedy_det.
  - reflexivity.
  - intros x s Hx. rewrite non_gt in Hx.
    change (one ">" x) with (N.eqb x 62).
    destruct (N.eqb x 62); [discriminate|reflexivity].
Qed.

Lemma tag_match_other c t :
  N.eqb c 60 = false -> match_at re_tag false (c :: t) = None.
Proof.
  intros H. unfold match_at, re_tag. cbn [seqs plus mt].
  change (one "<" c) with (N.eqb c 60). now rewrite H.
Qed.

Lemma tag_match_opens t :
  is_some (match_at re_tag false (60%N :: t)) = opens t.
Proof.
  rewrite tag_match. destruct t as [|x r]; [reflexivity|].
  rewrite run_len_cons. cbn [opens dropwhile]. rewrite non_gt.
  destruct (N.eqb x 62); cbn [negb andb]; [reflexivity|].
  cbn [Nat.leb]. destruct (has_char 62%N r) eqn:H.
  - apply dropwhile_present in H as [t ->]. reflexivity.
  - rewrite (dropwhile_absent _ H). reflexivity.
Qed.

Lemma tag_match_none s :
  tagfree s = true -> forall a b, s = a ++ b -> match_at re_tag false b = None.
Proof.
  intros H a b ->. induction a as [|x a IH]; simpl in H.
  - destruct b as [|c t]; [reflexivity|]. simpl in H.
    apply andb_true_iff in H as [H _].
    destruct (N.eqb c 60) eqn:E.
    + apply N.eqb_eq in E. subst c.
      rewrite <- tag_match_opens in H.
      match goal with |- ?X = None => destruct X end; [discriminate|reflexivity].
    + now apply tag_match_other.
  - apply andb_true_iff in H as [_ H]. auto.
Qed.

End TagPattern.

Section BlockPattern.

Lemma sem_seqs_cons a l w g g' :
  sem (seqs (a :: l)) w g g' ->
  exists w1 w2 g1, w = w1 ++ w2 /\ sem a w1 g g1 /\ sem (seqs l) w2 g1 g'.
Proof.
  destruct l as [|b l]; cbn [seqs]; intros H.
  - exists w, [], g'. rewrite app_nil_r. simpl. auto.
  - exact H.
Qed.

(** A literal run matches texts of its length, character by character. *)
Lemma sem_ilits l : forall w g g',
  sem (ilits_s l) w g g' -> Forall2 (fun c x => ichar c x = true) l w.
Proof.
  unfold ilits_s. induction l as [|c l IH]; intros w g g' H.
  - simpl in H. destruct H as [-> _]. constructor.
  - cbn [map] in H. apply sem_seqs_cons in H as (w1 & w2 & g1 & -> & H1 & H2).
    simpl in H1. destruct H1 as [(x & -> & Hx) _].
    constructor; eauto.
Qed.

Lemma ichar_lt x : ichar 60 x = true -> x = 60%N.
Proof.
  unfold ichar. cbn. rewrite !orb_false_r. apply N.eqb_eq.
Qed.

Lemma ichar_gt x : ichar 62 x = true -> x = 62%N.
Proof.
  unfold ichar. cbn. rewrite !orb_false_r. apply N.eqb_eq.
Qed.

(** A match of [<name ... </name>] starts with a [<] that opens a tag. *)
Lemma block_opens c a b s m rest :
  (forall x, ichar c x = true -> x <> 62%N) ->
  match_at (seqs [ilits_s (60%N :: c :: a); lazy_star any; ilits_s (b ++ [62%N])])
           false s = Some (m, rest) ->
  exists t, s = 60%N :: t /\ opens t = true.
Proof.
  intros Hc H. apply match_at_sound in H as (g & -> & H & _).
  apply sem_seqs_cons in H as (w1 & w' & g1 & -> & H1 & H).
  apply sem_seqs_cons in H as (w2 & w'' & g2 & -> & _ & H).
  apply sem_seqs_cons in H as (w3 & w4 & g3 & -> & H3 & H4).
  simpl in H4. destruct H4 as [-> _].
  apply sem_ilits in H1. apply sem_ilits in H3.
  inversion H1 as [|? x1 ? t1 Hx1 H1']; subst.
  inversion H1' as [|? x2 ? t2 Hx2 H1'']; subst.
  apply Forall2_app_inv_l in H3 as (v & v' & _ & Hv & ->).
  inversion Hv as [|? y ? ? Hy Hv']; subst. inversion Hv'; subst.
  apply ichar_lt in Hx1. apply ichar_gt in Hy. subst.
  eexists. split; [reflexivity|].
  cbn [opens app]. apply andb_true_iff. split.
  - apply negb_true_iff, N.eqb_neq. now apply Hc.
  - rewrite !has_char_app. cbn. now rewrite !orb_true_r.
Qed.

Lemma tagfree_suffix a : forall b, tagfree (a ++ b) = true -> tagfree b = true.
Proof.
  induction a as [|x a IH]; intros b H; auto.
  cbn [app tagfree] in H. apply andb_true_iff in H as [_ H]. auto.
Qed.

Lemma tagfree_closed s t : tagfree s = true -> forall a, s = a ++ 60%N :: t -> opens t = false.
Proof.
  intros H a ->. apply tagfree_suffix in H. cbn [tagfree] in H.
  rewrite N.eqb_refl in H. apply andb_true_iff in H as [H _].
  now apply negb_true_iff.
Qed.

Lemma script_none s :
  tagfree s = true -> forall a b, s = a ++ b -> match_at re_script false b = None.
Proof.
  intros H a b ->. destruct (match_at re_script false b) as [[m rest]|] eqn:E; auto.
  apply (@block_opens 115%N (u "cript") (u "</script")) in E as (t & -> & Ho).
  - rewrite (tagfree_closed _ H a eq_refl) in Ho. discriminate.
  - intros x Hx ->. vm_compute in Hx. discriminate.
Qed.

Lemma style_none s :
  tagfree s = true -> forall a b, s = a ++ b -> match_at re_style false b = None.
Proof.
  intros H a b ->. destruct (match_at re_style false b) as [[m rest]|] eqn:E; auto.
  apply (@block_opens 115%N (u "tyle") (u "</style")) in E as (t & -> & Ho).
  - rewrite (tagfree_closed _ H a eq_refl) in Ho. discriminate.
  - intros x Hx ->. vm_compute in Hx. discriminate.
Qed.

End BlockPattern.

Section Whitespace.

Lemma ws_match x s :
  match_at re_ws false (x :: s) =
  if isspace x
  then Some (MkMatch (firstn (length (x :: s) - length (dropwhile isspace s))
                             (x :: s)) [],
             dropwhile isspace s)
  else None.
Proof.
  unfold match_at, re_ws, plus. cbn [mt]. destruct (isspace x) eqn:E.
  - apply rep_greedy_first.
    + cbn [dropwhile]. rewrite E. reflexivity.
    + rewrite run_len_cons, E. lia.
  - cbn [rep]. rewrite E. reflexivity.
Qed.

Lemma collapse_nil : sub re_ws space [] = [].
Proof. reflexivity. Qed.

Lemma collapse_cons x s :
  sub re_ws space (x :: s) =
  if isspace x then 32%N :: sub re_ws space (dropwhile isspace s)
  else x :: sub re_ws space s.
Proof.
  rewrite sub_eq by (simpl; lia). rewrite ws_match.
  destruct (isspace x); reflexivity.
Qed.

Lemma dropwhile_head p s :
  match dropwhile p s with x :: _ => p x = false | [] => True end.
Proof.
  induction s as [|x s IH]; simpl; auto.
  destruct (p x) eqn:E; auto.
Qed.

Lemma collapse_head s :
  match s with x :: _ => isspace x = false | [] => True end ->
  match sub re_ws space s with x :: _ => isspace x = false | [] => True end.
Proof.
  destruct s as [|x s]; [rewrite collapse_nil; auto|].
  intros H. rewrite collapse_cons, H. exact H.
Qed.

Lemma collapsed_collapse s : collapsed (sub re_ws space s) = true.
Proof.
  pattern s. apply sub_ind. clear s. intros s IH.
  destruct s as [|x s]; [reflexivity|].
  rewrite collapse_cons. destruct (isspace x) eqn:E.
  - cbn [collapsed]. change (isspace 32) with true. cbv iota.
    rewrite N.eqb_refl. cbn [andb].
    rewrite IH by (simpl; pose proof (dropwhile_length isspace s); lia).
    pose proof (collapse_head _ (dropwhile_head isspace s)) as Hh.
    destruct (sub re_ws space (dropwhile isspace s)); [reflexivity|].
    now rewrite Hh.
  - cbn [collapsed]. rewrite E. cbn [andb]. apply IH. simpl. lia.
Qed.

Lemma collapse_fix : forall s, collapsed s = true -> sub re_ws space s = s.
Proof.
  induction s as [|x s IH]; [reflexivity|].
  cbn [collapsed]. intros H. apply andb_true_iff in H as [Hx Hs].
  rewrite collapse_cons. destruct (isspace x).
  - apply andb_true_iff in Hx as [Hx Hn]. apply N.eqb_eq in Hx. subst x.
    f_equal. destruct s as [|y s]; [reflexivity|].
    cbn [dropwhile]. apply negb_true_iff in Hn. rewrite Hn. auto.
  - f_equal. auto.
Qed.

End Whitespace.

Section Detag.

Lemma opens_absent s : has_char 62%N s = false -> opens s = false.
Proof.
  destruct s as [|x r]; [reflexivity|]. unfold has_char. cbn [existsb opens].
  intros H. apply orb_false_iff in H as [_ H].
  change (existsb (N.eqb 62) r) with (has_char 62%N r) in H.
  rewrite H. apply andb_false_r.
Qed.

Lemma opens_app a b : opens a = true -> opens (a ++ b) = true.
Proof.
  destruct a as [|x r]; [discriminate|]. cbn [opens app].
  intros H. apply andb_true_iff in H as [H1 H2].
  rewrite H1, has_char_app, H2. reflexivity.
Qed.

(** A substitution whose pattern cannot start at a [>], and whose
    replacement has none, does not make a text open a tag. *)
Lemma opens_sub r repl :
  0 < min_len r -> has_char 62%N repl = false ->
  (forall t, match_at r false (62%N :: t) = None) ->
  forall s, opens s = false -> opens (sub r repl s) = false.
Proof.
  intros Hr Hrepl Hgt s Ho. destruct s as [|x t].
  - rewrite sub_eq by assumption.
    destruct (match_at r false []) as [[m rest]|] eqn:E; [|reflexivity].
    apply (match_at_nonempty _ _ _ Hr) in E. simpl in E. lia.
  - destruct (N.eqb x 62) eqn:Ex.
    + apply N.eqb_eq in Ex. subst x.
      rewrite sub_eq, Hgt by assumption. cbn [opens].
      now rewrite N.eqb_refl.
    + cbn [opens] in Ho. rewrite Ex in Ho. cbn [negb andb] in Ho.
      apply opens_absent. apply sub_keeps_absent; auto.
      unfold has_char. cbn [existsb]. rewrite N.eqb_sym, Ex. exact Ho.
Qed.

Lemma tagfree_sub_tag s : tagfree (sub re_tag space s) = true.
Proof.
  pattern s. apply sub_ind. clear s. intros s IH.
  rewrite sub_eq by (simpl; lia).
  destruct (match_at re_tag false s) as [[m rest]|] eqn:E.
  - apply (@match_at_nonempty re_tag) in E; [|simpl; lia].
    cbn [space app tagfree]. now apply IH.
  - destruct s as [|c s']; [reflexivity|].
    cbn [tagfree]. rewrite IH by (simpl; lia). rewrite andb_true_r.
    destruct (N.eqb c 60) eqn:Ec; [|reflexivity].
    apply N.eqb_eq in Ec. subst c.
    apply negb_true_iff. apply opens_sub.
    + simpl. lia.
    + reflexivity.
    + intros t. now apply tag_match_other.
    + rewrite <- tag_match_opens, E. reflexivity.
Qed.

Lemma dropwhile_suffix p s : exists pre, s = pre ++ dropwhile p s.
Proof.
  induction s as [|x s [pre IH]]; simpl.
  - now exists [].
  - destruct (p x).
    + exists (x :: pre). simpl. congruence.
    + now exists [].
Qed.

Lemma tagfree_collapse s :
  tagfree s = true -> tagfree (sub re_ws space s) = true.
Proof.
  pattern s. apply sub_ind. clear s. intros s IH H.
  destruct s as [|x s]; [reflexivity|].
  rewrite collapse_cons. cbn [tagfree] in H.
  apply andb_true_iff in H as [Hx Hs].
  destruct (isspace x) eqn:E.
  - cbn [tagfree]. change (N.eqb 32 60) with false. cbv iota. cbn [andb].
    apply IH.
    + simpl. pose proof (dropwhile_length isspace s). lia.
    + destruct (dropwhile_suffix isspace s) as [pre Hp].
      rewrite Hp in Hs. now apply tagfree_suffix in Hs.
  - cbn [tagfree]. rewrite IH by (auto; simpl; lia). rewrite andb_true_r.
    destruct (N.eqb x 60); [|reflexivity].
    apply negb_true_iff. apply negb_true_iff in Hx.
    apply opens_sub;
      [simpl; lia|reflexivity|intros t; rewrite ws_match; reflexivity|exact Hx].
Qed.

Lemma tagfree_prefix a : forall b, tagfree (a ++ b) = true -> tagfree a = true.
Proof.
  induction a as [|x a IH]; intros b H; [reflexivity|].
  cbn [app tagfree] in *. apply andb_true_iff in H as [Hx H].
  rewrite (IH _ H), andb_true_r.
  destruct (N.eqb x 60); [|reflexivity].
  apply negb_true_iff. apply negb_true_iff in Hx.
  destruct (opens a) eqn:Ho; [|reflexivity].
  rewrite (opens_app _ b Ho) in Hx. discriminate.
Qed.

Lemma tagfree_strip s : tagfree s = true -> tagfree (strip s) = true.
Proof.
  intros H. destruct (strip_middle s) as (pre & post & Hs).
  rewrite Hs in H. apply tagfree_suffix in H. now apply tagfree_prefix in H.
Qed.

Lemma collapsed_suffix a : forall b, collapsed (a ++ b) = true -> collapsed b = true.
Proof.
  induction a as [|x a IH]; intros b H; auto.
  cbn [app collapsed] in H. apply andb_true_iff in H as [_ H]. auto.
Qed.

Lemma collapsed_prefix a : forall b, collapsed (a ++ b) = true -> collapsed a = true.
Proof.
  induction a as [|x a IH]; intros b H; [reflexivity|].
  cbn [app collapsed] in *. apply andb_true_iff in H as [Hx H].
  rewrite (IH _ H), andb_true_r.
  destruct (isspace x); [|reflexivity].
  apply andb_true_iff in Hx as [-> Hx]. destruct a; auto.
Qed.

Lemma collapsed_strip s : collapsed s = true -> collapsed (strip s) = true.
Proof.
  intros H. destruct (strip_middle s) as (pre & post & Hs).
  rewrite Hs in H. apply collapsed_suffix in H. now apply collapsed_prefix in H.
Qed.

(** The text [detag] returns has no tag left, has its whitespace collapsed
    and is trimmed. *)
Lemma detag_clean html :
  tagfree (detag html) = true /\ collapsed (detag html) = true
  /\ strip (detag html) = detag html.
Proof.
  unfold detag. repeat split.
  - apply tagfree_strip, tagfree_collapse, tagfree_sub_tag.
  - apply collapsed_strip, collapsed_collapse.
  - apply strip_idem.
Qed.

(** Such a text is a fixed point of [detag]. *)
Lemma detag_fix s :
  tagfree s = true -> collapsed s = true -> strip s = s -> detag s = s.
Proof.
  intros Ht Hc Hs. unfold detag.
  assert (N1 : 0 < min_len re_script) by (simpl; lia).
  assert (N2 : 0 < min_len re_style) by (simpl; lia).
  assert (N3 : 0 < min_len re_tag) by (simpl; lia).
  rewrite (sub_id re_script N1) by now apply script_none.
  rewrite (sub_id re_style N2) by now apply style_none.
  rewrite (sub_id re_tag N3) by now apply tag_match_none.
  rewrite collapse_fix by assumption. exact Hs.
Qed.

Lemma detag_idem html : detag (detag html) = detag html.
Proof.
  destruct (detag_clean html) as (Ht & Hc & Hs). now apply detag_fix.
Qed.

Lemma unescape_plain s : has_char 38%N s = false -> Html.unescape s = s.
Proof. unfold Html.unescape. now intros ->. Qed.

Lemma detag_keeps_absent c html :
  has_char c space = false ->
  has_char c html = false -> has_char c (detag html) = false.
Proof.
  intros Hsp H. unfold detag.
  assert (H4 : has_char c (sub re_ws space (sub re_tag space
                 (sub re_style [] (sub re_script [] html)))) = false).
  { repeat apply sub_keeps_absent; auto; simpl; lia. }
  destruct (strip_middle (sub re_ws space (sub re_tag space
              (sub re_style [] (sub re_script [] html))))) as (pre & post & Hs).
  rewrite Hs, !has_char_app in H4.
  apply orb_false_iff in H4 as [_ H4]. now apply orb_false_iff in H4 as [H4 _].
Qed.

End Detag.

Lemma strip_tags_decoded html :
  Html.unescape (detag html) = detag html ->
  strip_tags (strip_tags html) = strip_tags html.
Proof.
  intros H. unfold strip_tags. rewrite H, detag_idem. exact H.
Qed.

(** C1 (as amended).  Stripping is idempotent on every input whose stripped
    text is left as it is by the decoding of character references, the last
    step of [strip_tags]; every input without an ampersand is one. *)
Theorem strip_tags_idempotent_when_decoded (html : str) :
  (Html.unescape (detag html) = detag html ->
   strip_tags (strip_tags html) = strip_tags html)
  /\ (has_char 38%N html = false ->
      strip_tags (strip_tags html) = strip_tags html).
Proof.
  split.
  - apply strip_tags_decoded.
  - intros H. apply strip_tags_decoded.
    apply unescape_plain. now apply detag_keeps_absent.
Qed.

Lemma strip_tags_idempotent_when_decoded_witness :
  strip_tags (strip_tags (u "<p>Tom & <b>Jerry</b>  <script>x()</script></p>"))
  = strip_tags (u "<p>Tom & <b>Jerry</b>  <script>x()</script></p>").
Proof.
  apply (proj1 (strip_tags_idempotent_when_decoded _)). vm_compute. reflexivity.
Defined.

(** C1 (as stated) fails: a character reference decodes to markup, and the
    second pass strips it. *)
Lemma strip_tags_not_idempotent :
  strip_tags (u "&lt;b&gt;") = u "<b>"
  /\ strip_tags (strip_tags (u "&lt;b&gt;")) = [].
Proof. split; vm_compute; reflexivity. Qed.

(* ================================================================== *)
(** * The link extractor *)
(* ================================================================== *)

Section Deterministic.

Variable A : Type.

Lemma mt_seqs_cons a l s g (k : str -> groups -> option A) :
  mt (seqs (a :: l)) s g k = mt a s g (fun s' g' => mt (seqs l) s' g' k).
Proof. destruct l; reflexivity. Qed.

(** A literal run is matched character by character. *)
Lemma mt_ilits p : forall s g (k : str -> groups -> option A),
  mt (ilits_s p) s g k =
  if istartswith p s then k (skipn (length p) s) g else None.
Proof.
  unfold ilits_s. induction p as [|c p IH]; intros s g k.
  - reflexivity.
  - cbn [map]. rewrite mt_seqs_cons. cbn [mt istartswith length skipn].
    destruct s as [|x s]; [reflexivity|].
    destruct (ichar c x); [|reflexivity]. cbn [andb]. apply IH.
Qed.

(** A greedy star followed by a character the class excludes. *)
Lemma mt_star_chr p q items s g (k : str -> groups -> option A) :
  (forall x, p x = true -> q x = false) ->
  mt (seqs (star p :: Chr q :: items)) s g k =
  match dropwhile p s with
  | x :: s' => if q x then mt (seqs items) s' g k else None
  | [] => None
  end.
Proof.
  intros Hpq. rewrite mt_seqs_cons. unfold star. cbn [mt].
  rewrite rep_greedy_det.
  - cbn [Nat.leb]. rewrite mt_seqs_cons. reflexivity.
  - intros x t Px. rewrite mt_seqs_cons. cbn [mt]. now rewrite (Hpq x Px).
Qed.

(** A group of one or more characters of a class, followed by a character
    the class excludes. *)
Lemma mt_plus_chr i p q items s g (k : str -> groups -> option A) :
  (forall x, p x = true -> q x = false) ->
  mt (seqs (Grp i (plus p) :: Chr q :: items)) s g k =
  match dropwhile p s with
  | x :: s' =>
      if 1 <=? run_len p s
      then (if q x then mt (seqs items) s' ((i, firstn (run_len p s) s) :: g) k
            else None)
      else None
  | [] => None
  end.
Proof.
  intros Hpq. rewrite mt_seqs_cons. unfold plus. cbn [mt].
  rewrite rep_greedy_det.
  - cbn [Nat.add]. rewrite mt_seqs_cons. cbn [mt]. unfold run_len.
    destruct (dropwhile p s); destruct (1 <=? _); reflexivity.
  - intros x t Px. rewrite mt_seqs_cons. cbn [mt]. now rewrite (Hpq x Px).
Qed.

(** A lazy repetition of any character stops at the first place where its
    continuation, a literal run, matches. *)
Lemma rep_lazy_find cl (F : str -> A) : forall b n,
  rep Lazy 0 None any
      (fun s' => if istartswith cl s' then Some (F s') else None) b n
  = match find_lit cl b with
    | Some j => Some (F (skipn j b))
    | None => None
    end.
Proof.
  induction b as [|x b IH]; intros n; cbn [rep find_lit Nat.leb].
  - destruct (istartswith cl []); reflexivity.
  - destruct (istartswith cl (x :: b)); [reflexivity|].
    cbn [any andb below]. rewrite IH.
    destruct (find_lit cl b); reflexivity.
Qed.

End Deterministic.

Section Spaces.

Lemma space_not_eq x : isspace x = true -> one "=" x = false.
Proof.
  intros H. unfold one. destruct (N.eqb x (ch "=")) eqn:E; auto.
  apply N.eqb_eq in E. subst x. discriminate.
Qed.

Lemma space_not_dq x : isspace x = true -> is_dq x = false.
Proof.
  intros H. unfold is_dq. destruct (N.eqb x dquote) eqn:E; auto.
  apply N.eqb_eq in E. subst x. discriminate.
Qed.

Lemma not_dq_not_dq x : not_dq x = true -> is_dq x = false.
Proof. unfold not_dq, is_dq. now intros H%negb_true_iff. Qed.

Lemma non_gt_not_gt x : non ">" x = true -> one ">" x = false.
Proof. unfold non, one. now intros H%negb_true_iff. Qed.

End Spaces.

Section AttrPattern.

Variable A : Type.

(** The part of the attribute patterns after the name. *)
Lemma mt_attr_rest items s g (k : str -> groups -> option A) :
  mt (seqs (star isspace :: Chr (one "=") :: star isspace :: Chr is_dq :: items))
     s g k
  = match attr_rest s with
    | Some b2 => mt (seqs items) b2 g k
    | None => None
    end.
Proof.
  rewrite mt_star_chr by apply space_not_eq. unfold attr_rest.
  destruct (dropwhile isspace s) as [|x b1]; [reflexivity|].
  change (one "=" x) with (N.eqb x 61).
  destruct (N.eqb x 61); [|reflexivity].
  rewrite mt_star_chr by apply space_not_dq.
  destruct (dropwhile isspace b1) as [|y b2]; [reflexivity|].
  unfold is_dq. destruct (N.eqb y dquote); reflexivity.
Qed.

Lemma mt_value_rest items s g (k : str -> groups -> option A) :
  mt (seqs (Grp 1 (plus not_dq) :: Chr is_dq :: items)) s g k
  = match value_rest s with
    | Some (v, b3) => mt (seqs items) b3 ((1, v) :: g) k
    | None => None
    end.
Proof.
  rewrite mt_plus_chr by apply not_dq_not_dq. unfold value_rest.
  pose proof (dropwhile_head not_dq s) as Hh.
  destruct (dropwhile not_dq s) as [|x b1]; [reflexivity|].
  assert (Hx : is_dq x = true).
  { unfold not_dq in Hh. apply negb_false_iff in Hh. exact Hh. }
  rewrite Hx. destruct (1 <=? run_len not_dq s); reflexivity.
Qed.

Lemma mt_tag_end items s g (k : str -> groups -> option A) :
  mt (seqs (star (non ">") :: Chr (one ">") :: items)) s g k
  = match tag_end s with
    | Some b4 => mt (seqs items) b4 g k
    | None => None
    end.
Proof.
  rewrite mt_star_chr by apply non_gt_not_gt. unfold tag_end.
  pose proof (dropwhile_head (non ">") s) as Hh.
  destruct (dropwhile (non ">") s) as [|x b1]; [reflexivity|].
  assert (Hx : one ">" x = true).
  { unfold non in Hh. apply negb_false_iff in Hh. exact Hh. }
  now rewrite Hx.
Qed.

End AttrPattern.

Section LinkPattern.

Lemma rep_ext (A : Type) g lo hi p (k k' : str -> option A) :
  (forall s, k s = k' s) ->
  forall s n, rep g lo hi p k s n = rep g lo hi p k' s n.
Proof.
  intros Hk. induction s as [|x s IH]; intros n; cbn [rep].
  - now rewrite Hk.
  - now rewrite Hk, IH.
Qed.

(** The attribute pattern at one place, without the engine. *)
Lemma attr1_match attr b :
  match_at (re_attr1 attr) false b =
  match attr_value_at (u attr) b with
  | Some (v, rest) =>
      Some (MkMatch (firstn (length b - length rest) b) [(1, v)], rest)
  | None => None
  end.
Proof.
  unfold match_at, re_attr1, attr_value_at, ilits.
  rewrite mt_seqs_cons, mt_ilits.
  destruct (istartswith (u attr) b); [|reflexivity].
  rewrite mt_attr_rest.
  destruct (attr_rest (skipn (length (u attr)) b)) as [b2|]; [|reflexivity].
  rewrite mt_value_rest.
  destruct (value_rest b2) as [[v b3]|]; reflexivity.
Qed.

(** [re.search] for an attribute is a plain search from left to right. *)
Lemma search_attr1 attr : forall s,
  match search (re_attr1 attr) s with
  | Some r => group r 1
  | None => []
  end = find_attr (u attr) s.
Proof.
  induction s as [|x s IH]; cbn [search find_attr]; rewrite attr1_match.
  - destruct (attr_value_at (u attr) []) as [[v rest]|]; reflexivity.
  - destruct (attr_value_at (u attr) (x :: s)) as [[v rest]|];
      [reflexivity|apply IH].
Qed.

Lemma find_lit_le p : forall s j, find_lit p s = Some j -> j <= length s.
Proof.
  induction s as [|x s IH]; intros j; cbn [find_lit].
  - destruct (istartswith p []); [|discriminate]. intros [= <-]. simpl. lia.
  - destruct (istartswith p (x :: s)); [intros [= <-]; lia|].
    destruct (find_lit p s) as [i|] eqn:E; [|discriminate].
    intros [= <-]. specialize (IH i eq_refl). simpl. lia.
Qed.

Lemma mt_link_tail (A : Type) (F : str -> groups -> A) b :
  mt (seqs link_tail_items) b [] (fun s' g' => Some (F s' g'))
  = match link_at_tail b with
    | Some (v, body, rest) => Some (F rest [(2, body); (1, v)])
    | None => None
    end.
Proof.
  unfold link_tail_items, link_at_tail, attr_value_at, ilits.
  rewrite mt_seqs_cons, mt_ilits.
  destruct (istartswith (u "href") b); [|reflexivity].
  rewrite mt_attr_rest.
  destruct (attr_rest (skipn (length (u "href")) b)) as [b2|]; [|reflexivity].
  rewrite mt_value_rest.
  destruct (value_rest b2) as [[v b3]|]; [|reflexivity].
  rewrite mt_tag_end.
  destruct (tag_end b3) as [b4|]; [|reflexivity].
  rewrite mt_seqs_cons. unfold lazy_star. cbn [mt seqs].
  rewrite (@rep_ext _ Lazy 0 None any _
             (fun s' => if istartswith (u "</a>") s'
                        then Some (F (skipn 4 s')
                                     [(2, firstn (length b4 - length s') b4); (1, v)])
                        else None))
    by (intros s; apply mt_ilits).
  rewrite (rep_lazy_find (u "</a>")
             (fun s' => F (skipn 4 s')
                          [(2, firstn (length b4 - length s') b4); (1, v)])).
  destruct (find_lit (u "</a>") b4) as [j|] eqn:E; [|reflexivity].
  apply find_lit_le in E.
  rewrite skipn_skipn, length_skipn.
  replace (length b4 - (length b4 - j)) with j by lia.
  replace (4 + j) with (j + 4) by lia. reflexivity.
Qed.

Lemma re_link_items : re_link = seqs (ilits "<a" :: star (non ">") :: link_tail_items).
Proof. reflexivity. Qed.

(** The link pattern at one place: after [<a], the greedy run of characters
    other than [>] backs up to the last place from which the rest of the
    pattern matches. *)
Lemma link_match s :
  match_at re_link false s =
  if istartswith (u "<a") s then
    rep Greedy 0 None (non ">")
        (fun b =>
           match link_at_tail b with
           | Some (v, body, rest) =>
               Some (MkMatch (firstn (length s - length rest) s)
                             [(2, body); (1, v)], rest)
           | None => None
           end)
        (skipn 2 s) 0
  else None.
Proof.
  unfold match_at. rewrite re_link_items. unfold ilits at 1.
  rewrite mt_seqs_cons, mt_ilits.
  destruct (istartswith (u "<a") s); [|reflexivity].
  rewrite mt_seqs_cons. unfold star. cbn [mt andb].
  apply rep_ext. intros b.
  apply (mt_link_tail
           (fun s' g' => (MkMatch (firstn (length s - length s') s) g', s'))).
Qed.

(** A greedy repetition stops at the last place of the run where its
    continuation succeeds. *)
Lemma rep_greedy_beyond (A : Type) lo p (k : str -> option A) : forall rest n,
  (forall a b, rest = a ++ b -> a <> [] -> forallb p a = true -> k b = None) ->
  rep Greedy lo None p k rest n = if lo <=? n then k rest else None.
Proof.
  induction rest as [|y r IH]; intros n Hb; cbn [rep]; [reflexivity|].
  destruct (p y) eqn:Py; cbn [andb below]; [|reflexivity].
  rewrite IH.
  - rewrite (Hb [y] r) by (auto; try discriminate; simpl; now rewrite Py).
    destruct (lo <=? S n); reflexivity.
  - intros a b -> Ha Hp. apply (Hb (y :: a) b); auto; try discriminate.
    simpl. now rewrite Py.
Qed.

Lemma rep_greedy_last (A : Type) lo p (k : str -> option A) v rest :
  k rest = Some v ->
  (forall a b, rest = a ++ b -> a <> [] -> forallb p a = true -> k b = None) ->
  forall pre n,
    forallb p pre = true -> lo <= n + length pre ->
    rep Greedy lo None p k (pre ++ rest) n = Some v.
Proof.
  intros Hk Hb. induction pre as [|x pre IH]; intros n Hp Hlo.
  - cbn [app]. rewrite rep_greedy_beyond by assumption.
    simpl in Hlo. replace (lo <=? n) with true
      by (symmetry; apply Nat.leb_le; lia).
    exact Hk.
  - cbn [app rep]. cbn [forallb] in Hp. apply andb_true_iff in Hp as [Px Hp].
    rewrite Px. cbn [andb below]. rewrite IH; auto. simpl in Hlo. lia.
Qed.

End LinkPattern.

Section AnchorShape.

Lemma has_char_forallb c s :
  has_char c s = false -> forallb (fun x => negb (N.eqb x c)) s = true.
Proof.
  unfold has_char. induction s as [|x s IH]; cbn [existsb forallb]; auto.
  intros H. apply orb_false_iff in H as [Hx Hs].
  rewrite N.eqb_sym, Hx. cbn [negb andb]. auto.
Qed.

Lemma dropwhile_app_stop p c : forall v X,
  forallb p v = true -> p c = false -> dropwhile p (v ++ c :: X) = c :: X.
Proof.
  induction v as [|x v IH]; intros X Hv Hc; cbn [app dropwhile forallb] in *.
  - now rewrite Hc.
  - apply andb_true_iff in Hv as [Hx Hv]. rewrite Hx. auto.
Qed.

Lemma run_len_app_stop p c v X :
  forallb p v = true -> p c = false -> run_len p (v ++ c :: X) = length v.
Proof.
  intros Hv Hc. unfold run_len. rewrite dropwhile_app_stop by assumption.
  rewrite length_app. simpl. lia.
Qed.

Lemma value_rest_quoted v X :
  v <> [] -> has_char dquote v = false ->
  value_rest (v ++ dquote :: X) = Some (v, X).
Proof.
  intros Hne Hq. apply has_char_forallb in Hq.
  unfold value_rest.
  rewrite (dropwhile_app_stop not_dq dquote v X Hq eq_refl).
  rewrite (run_len_app_stop not_dq dquote v X Hq eq_refl).
  rewrite firstn_app, Nat.sub_diag, firstn_all. cbn [firstn].
  rewrite app_nil_r. destruct v; [contradiction|reflexivity].
Qed.

Lemma tag_end_closed a Y :
  has_char 62%N a = false -> tag_end (a ++ 62%N :: Y) = Some Y.
Proof.
  intros H. apply has_char_forallb in H. unfold tag_end.
  now rewrite (dropwhile_app_stop (non ">") 62%N a Y H eq_refl).
Qed.

(** A literal that starts inside [sfx] and none of whose characters
    matches [x] ends inside [sfx]. *)
Lemma istartswith_stop x : forall p sfx tail,
  (forall c, In c p -> ichar c x = false) ->
  istartswith p (sfx ++ x :: tail) = true -> istartswith p sfx = true.
Proof.
  induction p as [|c p IH]; intros sfx tail Hc H; [reflexivity|].
  destruct sfx as [|y sfx]; cbn [app istartswith] in *.
  - rewrite (Hc c) in H by (now left). discriminate.
  - apply andb_true_iff in H as [Hy H]. rewrite Hy.
    apply (IH sfx tail); auto. intros c' Hin. apply Hc. now right.
Qed.

Lemma icontains_suffix p : forall a sfx,
  istartswith p sfx = true -> icontains p (a ++ sfx) = true.
Proof.
  induction a as [|x a IH]; intros sfx H; cbn [app].
  - destruct sfx; cbn [icontains]; now rewrite H.
  - cbn [icontains]. rewrite (IH sfx H). apply orb_true_r.
Qed.

Lemma find_close body post :
  icontains (u "</a>") body = false ->
  find_lit (u "</a>") (body ++ u "</a>" ++ post) = Some (length body).
Proof.
  induction body as [|x body IH]; intros H.
  - reflexivity.
  - cbn [icontains] in H. apply orb_false_iff in H as [Hx H].
    cbn [app find_lit length].
    assert (E : istartswith (u "</a>") (x :: body ++ u "</a>" ++ post) = false).
    { destruct (istartswith (u "</a>") (x :: body ++ u "</a>" ++ post)) eqn:E;
        auto.
      change (u "</a>") with (60%N :: u "/a>") in E at 1.
      change (u "</a>" ++ post) with (60%N :: u "/a>" ++ post) in E.
      cbn [istartswith] in E. apply andb_true_iff in E as [E1 E2].
      apply istartswith_stop in E2.
      - change (u "</a>") with (60%N :: u "/a>") in Hx.
        cbn [istartswith] in Hx. rewrite E1, E2 in Hx. discriminate.
      - intros c [<-|[<-|[<-|[]]]]; reflexivity. }
    rewrite E, (IH H). reflexivity.
Qed.

Lemma link_at_tail_here v after body post :
  v <> [] -> has_char dquote v = false -> has_char 62%N after = false ->
  icontains (u "</a>") body = false ->
  link_at_tail (u "href=" ++ dquote :: v ++ dquote :: after ++ 62%N :: body
                  ++ u "</a>" ++ post)
  = Some (v, body, post).
Proof.
  intros Hv Hq Ha Hb. unfold link_at_tail, attr_value_at.
  change (istartswith (u "href") (u "href=" ++ ?x)) with true. cbv iota.
  change (attr_rest (skipn (length (u "href")) (u "href=" ++ dquote :: ?x)))
    with (Some x).
  cbv iota. rewrite value_rest_quoted by assumption.
  rewrite tag_end_closed by assumption.
  rewrite find_close by assumption.
  rewrite firstn_app, Nat.sub_diag, firstn_all. cbn [firstn].
  rewrite app_nil_r.
  rewrite skipn_app.
  rewrite (skipn_all2 body) by lia. cbn [app].
  replace (length body + 4 - length body) with 4 by lia. reflexivity.
Qed.

Lemma prefix_split : forall a b X T,
  forallb (non ">") a = true -> a ++ b = X ++ 62%N :: T ->
  exists sfx, X = a ++ sfx /\ b = sfx ++ 62%N :: T.
Proof.
  induction a as [|y a IH]; intros b X T Ha H.
  - exists X. auto.
  - cbn [forallb] in Ha. apply andb_true_iff in Ha as [Hy Ha].
    destruct X as [|x X]; cbn [app] in H; injection H as -> H.
    + discriminate.
    + destruct (IH _ _ _ Ha H) as (sfx & -> & ->). now exists sfx.
Qed.

Lemma link_at_tail_beyond v after T :
  icontains (u "href") (v ++ dquote :: after) = false ->
  forall a b,
    u "href=" ++ dquote :: v ++ dquote :: after ++ 62%N :: T = a ++ b ->
    a <> [] -> forallb (non ">") a = true -> link_at_tail b = None.
Proof.
  intros Hh a b H Hne Ha.
  assert (E : istartswith (u "href") b = false);
    [|unfold link_at_tail, attr_value_at; now rewrite E].
  change (u "href=" ++ dquote :: v ++ dquote :: after ++ 62%N :: T)
    with (104%N :: 114%N :: 101%N :: 102%N :: 61%N :: 34%N
            :: v ++ dquote :: after ++ 62%N :: T) in H.
  destruct a as [|a0 a]; [contradiction|]. clear Hne.
  cbn [forallb] in Ha. apply andb_true_iff in Ha as [_ Ha].
  cbn [app] in H. injection H as _ H.
  do 5 (destruct a as [|? a];
        [cbn [app] in H; subst b; reflexivity|];
        cbn [forallb] in Ha; apply andb_true_iff in Ha as [_ Ha];
        cbn [app] in H; injection H as _ H).
  replace (v ++ dquote :: after ++ 62%N :: T)
    with ((v ++ dquote :: after) ++ 62%N :: T) in H
    by (now rewrite <- app_assoc).
  symmetry in H. apply prefix_split in H as (sfx & Hx & ->); auto.
  destruct (istartswith (u "href") (sfx ++ 62%N :: T)) eqn:E; auto.
  apply istartswith_stop in E.
  - rewrite Hx, (icontains_suffix _ a _ E) in Hh. discriminate.
  - intros c [<-|[<-|[<-|[<-|[]]]]]; reflexivity.
Qed.

(** The link pattern matches the whole of an anchor element. *)
Lemma link_match_element before v after body post :
  has_char 62%N before = false ->
  v <> [] -> has_char dquote v = false ->
  has_char 62%N after = false ->
  icontains (u "href") (v ++ dquote :: after) = false ->
  icontains (u "</a>") body = false ->
  match_at re_link false (anchor_element before v after body ++ post)
  = Some (MkMatch (anchor_element before v after body) [(2, body); (1, v)],
          post).
Proof.
  intros Hb Hv Hq Ha Hh Hc. rewrite link_match.
  set (s := anchor_element before v after body ++ post).
  assert (Es : s = u "<a" ++ before
                   ++ (u "href=" ++ dquote :: v ++ dquote :: after ++ 62%N :: body
                         ++ u "</a>" ++ post)).
  { unfold s, anchor_element, quoted. cbn [app].
    repeat (rewrite <- ?app_assoc; cbn [app]). reflexivity. }
  replace (istartswith (u "<a") s) with true by (rewrite Es; reflexivity).
  replace (skipn 2 s)
    with (before ++ (u "href=" ++ dquote :: v ++ dquote :: after ++ 62%N :: body
                       ++ u "</a>" ++ post))
    by (rewrite Es; reflexivity).
  erewrite rep_greedy_last.
  - reflexivity.
  - rewrite link_at_tail_here by assumption.
    unfold s. rewrite firstn_cut. reflexivity.
  - intros a b Hab Hne Hp.
    assert (E : link_at_tail b = None)
      by (eapply link_at_tail_beyond; eassumption).
    rewrite E. reflexivity.
  - apply has_char_forallb in Hb. exact Hb.
  - lia.
Qed.

End AnchorShape.

Section AnchorRecord.

Lemma re_link_nonempty : 0 < min_len re_link.
Proof. simpl. lia. Qed.

Lemma ichar_lt_false x : N.eqb x 60 = false -> ichar 60 x = false.
Proof.
  intros H. destruct (ichar 60 x) eqn:E; auto.
  apply ichar_lt in E. subst. discriminate.
Qed.

Lemma hits_skip pre ts : hits (map Lit pre ++ ts) = hits ts.
Proof. induction pre; cbn; auto. Qed.

Lemma find_attr_absent name : forall s,
  icontains name s = false -> find_attr name s = [].
Proof.
  induction s as [|x s IH]; cbn [icontains find_attr]; intros H;
    apply orb_false_iff in H as [H1 H2]; unfold attr_value_at; rewrite H1.
  - reflexivity.
  - auto.
Qed.

Lemma istartswith_self name X :
  (forall c, In c name -> ichar c c = true) -> istartswith name (name ++ X) = true.
Proof.
  induction name as [|c name IH]; intros H; cbn [app istartswith]; auto.
  rewrite H by (now left). apply IH. intros c' Hc. apply H. now right.
Qed.

Lemma istartswith_head x name X :
  name <> [] -> (forall c, In c name -> ichar c x = false) ->
  istartswith name (x :: X) = false.
Proof.
  destruct name as [|c name]; [contradiction|]. intros _ H.
  cbn [istartswith]. now rewrite H by (now left).
Qed.

Lemma find_attr_eq name s :
  find_attr name s =
  match attr_value_at name s with
  | Some (v, _) => v
  | None => match s with [] => [] | _ :: s' => find_attr name s' end
  end.
Proof. destruct s; reflexivity. Qed.

Lemma find_attr_first name val back : forall front,
  icontains name front = false ->
  (forall c, In c name -> ichar c c = true /\ ichar c 32 = false) ->
  val <> [] -> has_char dquote val = false ->
  find_attr name (front ++ 32%N :: name ++ 61%N :: quoted val ++ back) = val.
Proof.
  intros front Hf Hn Hv Hq.
  assert (Hne : name <> []) by (intros ->; destruct front; discriminate).
  induction front as [|x front IH].
  - cbn [app]. rewrite find_attr_eq. unfold attr_value_at at 1.
    rewrite istartswith_head by (auto; intros c Hc; apply Hn, Hc).
    rewrite find_attr_eq. unfold attr_value_at.
    rewrite istartswith_self by (intros c' Hc; apply Hn, Hc).
    rewrite skipn_app, Nat.sub_diag, skipn_all. cbn [app skipn].
    unfold quoted. cbn [app]. rewrite <- app_assoc. cbn [app].
    change (attr_rest (61%N :: dquote :: ?x)) with (Some x). cbv iota.
    now rewrite value_rest_quoted.
  - cbn [icontains] in Hf. apply orb_false_iff in Hf as [H1 H2].
    cbn [app find_attr]. unfold attr_value_at at 1.
    replace (istartswith name (x :: front ++ 32%N :: name ++ 61%N :: quoted val ++ back))
      with false; [auto|].
    symmetry.
    destruct (istartswith name (x :: front ++ 32%N :: name ++ 61%N :: quoted val ++ back))
      eqn:E; auto.
    apply (istartswith_stop 32 name (x :: front)) in E.
    + congruence.
    + intros c Hc. apply Hn, Hc.
Qed.

End AnchorRecord.

(* ================================================================== *)
(** * Further properties of the extractor *)
(* ================================================================== *)

(** X1.  The text [strip_tags] decodes is clean, whatever the input: none
    of the three patterns of [strip_tags] matches anywhere in it, every
    whitespace character of it is a single space followed by a character
    that is not whitespace, and it has no whitespace at either end.  On an
    input without an ampersand that text is the result, and the result has
    no ampersand. *)
Theorem strip_tags_output_clean (html : str) :
  let t := detag html in
  strip_tags html = Html.unescape t
  /\ (forall a b, t = a ++ b ->
        match_at re_tag false b = None
        /\ match_at re_script false b = None
        /\ match_at re_style false b = None)
  /\ tagfree t = true
  /\ collapsed t = true
  /\ strip t = t
  /\ (has_char 38%N html = false ->
      strip_tags html = t /\ has_char 38%N (strip_tags html) = false).
Proof.
  intros t. destruct (detag_clean html) as (H1 & H2 & H3).
  split; [reflexivity|]. split; [|repeat split; auto].
  - intros a b E. split; [|split].
    + now apply (tag_match_none H1 a).
    + now apply (script_none H1 a).
    + now apply (style_none H1 a).
  - unfold strip_tags. apply unescape_plain. now apply detag_keeps_absent.
  - unfold strip_tags. rewrite unescape_plain; now apply detag_keeps_absent.
Qed.

Lemma strip_tags_output_clean_witness :
  strip_tags (u "  <p>a   <b>b</b> </p> c ") = u "a b c".
Proof.
  rewrite (proj1 (proj2 (proj2 (proj2 (proj2 (proj2
             (@strip_tags_output_clean (u "  <p>a   <b>b</b> </p> c "))))))
             eq_refl)).
  vm_compute. reflexivity.
Defined.

(** X2.  A text that is already stripped is only decoded: on a text none
    of whose [<] opens a tag, with its whitespace collapsed and trimmed,
    [strip_tags] is [html.unescape], and it changes nothing when the text
    has no ampersand either. *)
Theorem strip_tags_fixes_clean_text (t : str) :
  tagfree t = true -> collapsed t = true -> strip t = t ->
  strip_tags t = Html.unescape t
  /\ (has_char 38%N t = false -> strip_tags t = t).
Proof.
  intros Hl Hc Hs. unfold strip_tags.
  rewrite detag_fix by assumption.
  split; [reflexivity|]. apply unescape_plain.
Qed.

Lemma strip_tags_fixes_clean_text_witness :
  strip_tags (u "2 > 1 &amp; 1 < 2") = u "2 > 1 & 1 < 2".
Proof.
  rewrite (proj1 (@strip_tags_fixes_clean_text (u "2 > 1 &amp; 1 < 2")
                    eq_refl eq_refl eq_refl)).
  vm_compute. reflexivity.
Defined.

Section NoMarkup.

Lemma starts_lt_ilits p items : starts_lt (seqs (ilits_s (60%N :: p) :: items)).
Proof.
  intros s m rest H. apply match_at_sound in H as (g & -> & H & _).
  apply sem_seqs_cons in H as (w1 & w2 & g1 & -> & H1 & _).
  apply sem_ilits in H1. inversion H1 as [|? x ? t Hx _]; subst.
  apply ichar_lt in Hx. subst. cbn [app]. eauto.
Qed.

Lemma starts_lt_chr items : starts_lt (seqs (Chr (one "<") :: items)).
Proof.
  intros s m rest H. apply match_at_sound in H as (g & -> & H & _).
  apply sem_seqs_cons in H as (w1 & w2 & g1 & -> & H1 & _).
  cbn [sem] in H1. destruct H1 as [(x & -> & Hx) _].
  apply N.eqb_eq in Hx. subst. cbn [app]. eauto.
Qed.

Lemma no_lt_no_match r s :
  starts_lt r -> has_char 60%N s = false ->
  forall a b, s = a ++ b -> match_at r false b = None.
Proof.
  intros Hr H a b ->. rewrite has_char_app in H.
  apply orb_false_iff in H as [_ H].
  destruct (match_at r false b) as [[m rest]|] eqn:E; auto.
  apply Hr in E as [t ->]. unfold has_char in H. cbn [existsb] in H.
  rewrite N.eqb_refl in H. discriminate.
Qed.

(** A text the pattern matches nowhere has no match in its scan. *)
Lemma scan_no_match r : forall s,
  (forall a b, s = a ++ b -> match_at r false b = None) ->
  scan r s = map Lit s.
Proof.
  intros s. change (scan r s) with (scan_at r false s).
  induction s as [|x s IH]; intros H; rewrite scan_at_eq.
  - now rewrite (H [] []).
  - rewrite (H [] (x :: s)) by reflexivity. cbn [map]. f_equal.
    apply IH. intros a b ->. apply (H (x :: a) b). reflexivity.
Qed.

Lemma hits_lits s : hits (map Lit s) = [].
Proof. induction s; cbn; auto. Qed.

Lemma finditer_no_match r s :
  (forall a b, s = a ++ b -> match_at r false b = None) -> finditer r s = [].
Proof.
  intros H. change (finditer r s) with (hits (scan r s)).
  rewrite scan_no_match by assumption. apply hits_lits.
Qed.

End NoMarkup.

(** X3.  A text without any [<], the empty text [read_file_safe] returns for
    an unreadable file among them, gives the page record with nothing in it:
    an empty title, the default meta values, no heading, no link and no
    image. *)
Theorem page_of_text_without_markup (lower : str -> str)
    (rel_path html site_domain : str) :
  has_char 60%N html = false ->
  make_page_object lower rel_path html site_domain
  = MkPage (u "page") (47%N :: slashes rel_path) 200 []
      (MkMeta [] [] (u "index,follow") [] (u "utf-8"))
      [] [] [] html [] [] [] [].
Proof.
  intros H.
  assert (S1 : forall p items,
             search (seqs (ilits_s (60%N :: p) :: items)) html = None).
  { intros p items. apply search_none.
    apply no_lt_no_match; auto. apply starts_lt_ilits. }
  assert (F1 : forall p items,
             finditer (seqs (ilits_s (60%N :: p) :: items)) html = []).
  { intros p items. apply finditer_no_match.
    apply no_lt_no_match; auto. apply starts_lt_ilits. }
  assert (F2 : forall items,
             finditer (seqs (Chr (one "<") :: items)) html = []).
  { intros items. apply finditer_no_match.
    apply no_lt_no_match; auto. apply starts_lt_chr. }
  unfold make_page_object, extract_between, extract_metas, extract_headings,
    extract_links, extract_images, findall1, meta_names.
  cbn [seq fold_left].
  change re_title with (seqs (ilits_s (60%N :: u "title>")
                                :: [Grp 1 (lazy_star any); ilits "</title>"])).
  unfold re_link, re_img, re_charset, re_canonical, re_meta, re_heading.
  change (ilits "<a") with (ilits_s (60%N :: u "a")).
  change (ilits "<img") with (ilits_s (60%N :: u "img")).
  change (ilits "<meta") with (ilits_s (60%N :: u "meta")).
  change (ilits "<link") with (ilits_s (60%N :: u "link")).
  rewrite !S1, !F1, !F2. reflexivity.
Qed.

Lemma page_of_text_without_markup_witness :
  images (make_page_object ascii_lower (u "a\b.htm") [] (u "stroyglobal.com")) = [].
Proof.
  rewrite (@page_of_text_without_markup ascii_lower (u "a\b.htm") []
             (u "stroyglobal.com") eq_refl).
  reflexivity.
Defined.

Section Before.

Lemma ilits_starts_with_lit p items : starts_with_lit (seqs (ilits_s p :: items)) p.
Proof.
  intros s H. unfold match_at. now rewrite mt_seqs_cons, mt_ilits, H.
Qed.

(** A literal that starts with [<] and has no other [<] does not start in
    a text that does not hold it, whatever follows the text from a [<]
    on. *)
Lemma lit_not_before tl pre R :
  (forall c, In c tl -> ichar c 60 = false) ->
  icontains (60%N :: tl) pre = false ->
  forall a b, pre = a ++ b -> b <> [] ->
  istartswith (60%N :: tl) (b ++ 60%N :: R) = false.
Proof.
  intros Htl Hpre a b -> Hb. destruct b as [|x b]; [contradiction|].
  destruct (istartswith (60%N :: tl) ((x :: b) ++ 60%N :: R)) eqn:E;
    [|reflexivity].
  cbn [app istartswith] in E. apply andb_true_iff in E as [E1 E2].
  apply istartswith_stop in E2; [|exact Htl].
  rewrite (icontains_suffix (60%N :: tl) a (x :: b)) in Hpre; [discriminate|].
  cbn [istartswith]. now rewrite E1, E2.
Qed.

Lemma scan_skip_before r tl R :
  starts_with_lit r (60%N :: tl) -> 0 < min_len r ->
  (forall c, In c tl -> ichar c 60 = false) ->
  forall pre, icontains (60%N :: tl) pre = false ->
  scan r (pre ++ 60%N :: R) = map Lit pre ++ scan r (60%N :: R).
Proof.
  intros Hr Hm Htl. induction pre as [|x pre IH]; intros H; [reflexivity|].
  cbn [app map]. rewrite scan_eq by exact Hm.
  rewrite Hr.
  - rewrite IH; [reflexivity|].
    cbn [icontains] in H. now apply orb_false_iff in H as [_ H].
  - apply (@lit_not_before tl (x :: pre) R Htl H [] (x :: pre));
      [reflexivity|discriminate].
Qed.

Lemma search_skip_before r tl R m rest :
  starts_with_lit r (60%N :: tl) ->
  (forall c, In c tl -> ichar c 60 = false) ->
  match_at r false (60%N :: R) = Some (m, rest) ->
  forall pre, icontains (60%N :: tl) pre = false ->
  search r (pre ++ 60%N :: R) = Some m.
Proof.
  intros Hr Htl Hm pre H. eapply search_leftmost; [exact Hm|].
  intros a b Hab Hb. apply Hr. now apply (@lit_not_before tl pre R Htl H a b).
Qed.

End Before.

Section FirstOccurrence.

Lemma find_lit_none p : forall s,
  find_lit p s = None <-> icontains p s = false.
Proof.
  induction s as [|x s IH]; cbn [find_lit icontains].
  - destruct (istartswith p []); cbn; split; congruence.
  - destruct (istartswith p (x :: s)); cbn [orb]; [split; congruence|].
    rewrite <- IH. destruct (find_lit p s); cbn; split; congruence.
Qed.

Lemma icontains_skipn p : forall n s,
  icontains p s = false -> icontains p (skipn n s) = false.
Proof.
  induction n as [|n IH]; intros s H; [exact H|].
  destruct s as [|x s]; [exact H|]. cbn [skipn]. apply IH.
  cbn [icontains] in H. now apply orb_false_iff in H as [_ H].
Qed.

Lemma find_lit_skipn p n s :
  find_lit p s = None -> find_lit p (skipn n s) = None.
Proof. rewrite !find_lit_none. apply icontains_skipn. Qed.

Lemma icontains_no_lt tl : forall s,
  has_char 60%N s = false -> icontains (60%N :: tl) s = false.
Proof.
  induction s as [|x s IH]; intros H; [reflexivity|].
  cbn [has_char existsb] in H. apply orb_false_iff in H as [Hx H].
  cbn [icontains istartswith].
  rewrite ichar_lt_false by (now rewrite N.eqb_sym). cbn [andb orb].
  now apply IH.
Qed.

(** A literal that starts with [<] and has no other [<] first occurs, in a
    text that does not hold it followed by an occurrence, at that
    occurrence. *)
Lemma find_lit_first tl post :
  (forall c, In c tl -> ichar c 60 = false) ->
  istartswith tl post = true ->
  forall body,
    icontains (60%N :: tl) body = false ->
    find_lit (60%N :: tl) (body ++ 60%N :: post) = Some (length body).
Proof.
  intros Htl Hpost. induction body as [|x body IH]; intros H.
  - cbn [app find_lit istartswith length]. now rewrite Hpost.
  - cbn [icontains] in H. apply orb_false_iff in H as [Hx H].
    cbn [app find_lit length].
    assert (E : istartswith (60%N :: tl) (x :: body ++ 60%N :: post) = false).
    { destruct (istartswith (60%N :: tl) (x :: body ++ 60%N :: post)) eqn:E;
        auto.
      cbn [istartswith] in E, Hx. apply andb_true_iff in E as [E1 E2].
      apply istartswith_stop in E2; [|exact Htl].
      rewrite E1, E2 in Hx. discriminate. }
    rewrite E, (IH H). reflexivity.
Qed.

End FirstOccurrence.

Section Title.

Lemma title_match s :
  match_at re_title false s =
  if istartswith (u "<title>") s then
    match find_lit (u "</title>") (skipn 7 s) with
    | Some j =>
        Some (MkMatch (firstn (length s - length (skipn (j + 8) (skipn 7 s))) s)
                      [(1, firstn j (skipn 7 s))],
              skipn (j + 8) (skipn 7 s))
    | None => None
    end
  else None.
Proof.
  unfold match_at, re_title, ilits. rewrite mt_seqs_cons, mt_ilits.
  destruct (istartswith (u "<title>") s); [|reflexivity].
  change (length (u "<title>")) with 7. set (b := skipn 7 s).
  rewrite mt_seqs_cons. unfold lazy_star. cbn [mt seqs andb].
  rewrite (@rep_ext _ Lazy 0 None any _
             (fun s' => if istartswith (u "</title>") s'
                        then Some (MkMatch (firstn (length s - length (skipn 8 s')) s)
                                           [(1, firstn (length b - length s') b)],
                                   skipn 8 s')
                        else None))
    by (intros t; apply mt_ilits).
  rewrite (rep_lazy_find (u "</title>")
             (fun s' => (MkMatch (firstn (length s - length (skipn 8 s')) s)
                                 [(1, firstn (length b - length s') b)],
                         skipn 8 s'))).
  destruct (find_lit (u "</title>") b) as [j|] eqn:E; [|reflexivity].
  apply find_lit_le in E.
  rewrite skipn_skipn. replace (8 + j) with (j + 8) by lia.
  rewrite (length_skipn j b).
  replace (length b - (length b - j)) with j by lia. reflexivity.
Qed.

Lemma search_title : forall s,
  option_map (fun m => group m 1) (search re_title s)
  = match find_lit (u "<title>") s with
    | Some i =>
        match find_lit (u "</title>") (skipn (i + 7) s) with
        | Some j => Some (firstn j (skipn (i + 7) s))
        | None => None
        end
    | None => None
    end.
Proof.
  induction s as [|x s IH].
  - reflexivity.
  - cbn [search find_lit]. rewrite title_match.
    destruct (istartswith (u "<title>") (x :: s)) eqn:Ho.
    + cbn [Nat.add].
      destruct (find_lit (u "</title>") (skipn 7 (x :: s))) as [j|] eqn:Ec;
        [reflexivity|].
      rewrite search_none; [reflexivity|].
      intros a b ->. rewrite title_match.
      destruct (istartswith (u "<title>") b); [|reflexivity].
      replace (skipn 7 b) with (skipn (S (length a)) (skipn 7 (x :: a ++ b))).
      * now rewrite (find_lit_skipn _ _ _ Ec).
      * rewrite skipn_skipn. replace (S (length a) + 7) with (S (length a + 7)) by lia.
        cbn [skipn].
        replace (length a + 7) with (7 + length a) by lia.
        rewrite <- skipn_skipn, skipn_app, skipn_all, Nat.sub_diag.
        reflexivity.
    + rewrite IH. destruct (find_lit (u "<title>") s) as [i|]; reflexivity.
Qed.

Lemma extract_title s : extract_between re_title s = title_of s.
Proof.
  unfold extract_between, title_of. pose proof (search_title s) as H.
  destruct (search re_title s) as [m|]; cbn [option_map] in H.
  - destruct (find_lit (u "<title>") s) as [i|]; [|discriminate].
    destruct (find_lit (u "</title>") (skipn (i + 7) s)); [|discriminate].
    f_equal. now injection H.
  - destruct (find_lit (u "<title>") s) as [i|]; [|reflexivity].
    destruct (find_lit (u "</title>") (skipn (i + 7) s)); [discriminate|].
    reflexivity.
Qed.

End Title.

(** X11.  The title of a page is read from the first [<title>] of the
    text, written exactly so in any mix of cases and without attributes, up
    to the first [</title>] after it: the text between the two, stripped,
    and then stripped of its tags when it is not empty.  When the text has
    no [<title>], or no [</title>] after the first one, the title is empty,
    whatever follows. *)
Theorem title_is_first_element (lower : str -> str)
    (rel_path html site_domain : str) :
  extract_between re_title html = title_of html
  /\ p_title (make_page_object lower rel_path html site_domain)
     = (if is_empty (title_of html) then [] else strip_tags (title_of html))
  /\ (forall pre body post,
        html = pre ++ u "<title>" ++ body ++ u "</title>" ++ post ->
        icontains (u "<title>") pre = false ->
        icontains (u "</title>") body = false ->
        title_of html = strip body)
  /\ (icontains (u "<title>") html = false -> title_of html = [])
  /\ (forall pre rest,
        html = pre ++ u "<title>" ++ rest ->
        icontains (u "<title>") pre = false ->
        icontains (u "</title>") rest = false ->
        title_of html = []).
Proof.
  split; [apply extract_title|]. split; [|split; [|split]].
  - unfold make_page_object.
    destruct (classify lower site_domain (extract_links html) [] []).
    cbn [p_title]. now rewrite extract_title.
  - intros pre body post -> Hpre Hbody. unfold title_of.
    change (u "<title>" ++ body ++ u "</title>" ++ post)
      with (60%N :: u "title>" ++ body ++ u "</title>" ++ post).
    change (u "<title>") with (60%N :: u "title>").
    rewrite find_lit_first.
    + replace (skipn (length pre + 7)
                 (pre ++ 60%N :: u "title>" ++ body ++ u "</title>" ++ post))
        with (body ++ 60%N :: u "/title>" ++ post).
      * change (u "</title>") with (60%N :: u "/title>").
        rewrite find_lit_first.
        -- now rewrite firstn_app, firstn_all, Nat.sub_diag, app_nil_r.
        -- intros c [<-|[<-|[<-|[<-|[<-|[<-|[<-|[]]]]]]]]; reflexivity.
        -- reflexivity.
        -- exact Hbody.
      * replace (length pre + 7) with (7 + length pre) by lia.
        rewrite <- skipn_skipn, skipn_app, skipn_all, Nat.sub_diag.
        reflexivity.
    + intros c [<-|[<-|[<-|[<-|[<-|[<-|[]]]]]]]; reflexivity.
    + reflexivity.
    + exact Hpre.
  - intros H. unfold title_of. apply find_lit_none in H. now rewrite H.
  - intros pre rest -> Hpre Hrest. unfold title_of.
    change (u "<title>" ++ rest) with (60%N :: u "title>" ++ rest).
    change (u "<title>") with (60%N :: u "title>").
    rewrite find_lit_first.
    + replace (skipn (length pre + 7) (pre ++ 60%N :: u "title>" ++ rest))
        with rest.
      * apply find_lit_none in Hrest. now rewrite Hrest.
      * replace (length pre + 7) with (7 + length pre) by lia.
        rewrite <- skipn_skipn, skipn_app, skipn_all, Nat.sub_diag.
        reflexivity.
    + intros c [<-|[<-|[<-|[<-|[<-|[<-|[]]]]]]]; reflexivity.
    + reflexivity.
    + exact Hpre.
Qed.

Section ImagePattern.

Lemma mt_star_grp_chr (A : Type) i p q items s g
    (k : str -> groups -> option A) :
  (forall x, p x = true -> q x = false) ->
  mt (seqs (Grp i (star p) :: Chr q :: items)) s g k =
  match dropwhile p s with
  | x :: s' =>
      if q x then mt (seqs items) s' ((i, firstn (run_len p s) s) :: g) k
      else None
  | [] => None
  end.
Proof.
  intros Hpq. rewrite mt_seqs_cons. unfold star. cbn [mt].
  rewrite rep_greedy_det.
  - cbn [Nat.add Nat.leb]. rewrite mt_seqs_cons. cbn [mt]. unfold run_len.
    destruct (dropwhile p s); reflexivity.
  - intros x t Px. rewrite mt_seqs_cons. cbn [mt]. now rewrite (Hpq x Px).
Qed.

Lemma mt_value_rest0 (A : Type) items s g (k : str -> groups -> option A) :
  mt (seqs (Grp 1 (star not_dq) :: Chr is_dq :: items)) s g k
  = match value_rest0 s with
    | Some (v, b3) => mt (seqs items) b3 ((1, v) :: g) k
    | None => None
    end.
Proof.
  rewrite mt_star_grp_chr by apply not_dq_not_dq. unfold value_rest0.
  pose proof (dropwhile_head not_dq s) as Hh.
  destruct (dropwhile not_dq s) as [|x b1]; [reflexivity|].
  assert (Hx : is_dq x = true).
  { unfold not_dq in Hh. apply negb_false_iff in Hh. exact Hh. }
  now rewrite Hx.
Qed.

Lemma attr0_match attr b :
  match_at (re_attr0 attr) false b =
  match attr_value_at0 (u attr) b with
  | Some (v, rest) =>
      Some (MkMatch (firstn (length b - length rest) b) [(1, v)], rest)
  | None => None
  end.
Proof.
  unfold match_at, re_attr0, attr_value_at0, ilits.
  rewrite mt_seqs_cons, mt_ilits.
  destruct (istartswith (u attr) b); [|reflexivity].
  rewrite mt_attr_rest.
  destruct (attr_rest (skipn (length (u attr)) b)) as [b2|]; [|reflexivity].
  rewrite mt_value_rest0.
  destruct (value_rest0 b2) as [[v b3]|]; reflexivity.
Qed.

Lemma find_attr0_eq name s :
  find_attr0 name s =
  match attr_value_at0 name s with
  | Some (v, _) => v
  | None => match s with [] => [] | _ :: s' => find_attr0 name s' end
  end.
Proof. destruct s; reflexivity. Qed.

(** [get_attr] is a plain search from left to right. *)
Lemma get_attr_find attr : forall tag,
  get_attr tag attr = strip (find_attr0 (u attr) tag).
Proof.
  unfold get_attr.
  induction tag as [|x tag IH]; cbn [search]; rewrite attr0_match,
    find_attr0_eq.
  - destruct (attr_value_at0 (u attr) []) as [[v rest]|]; reflexivity.
  - destruct (attr_value_at0 (u attr) (x :: tag)) as [[v rest]|];
      [reflexivity|apply IH].
Qed.

Lemma image_of_match_tag m : image_of_match m = image_of_tag (m_whole m).
Proof.
  unfold image_of_match, image_of_tag. cbn [group].
  now rewrite !get_attr_find.
Qed.

Lemma img_match s :
  match_at re_img false s =
  if istartswith (u "<img") s then
    match tag_end (skipn 4 s) with
    | Some rest => Some (MkMatch (firstn (length s - length rest) s) [], rest)
    | None => None
    end
  else None.
Proof.
  unfold match_at, re_img, ilits. rewrite mt_seqs_cons, mt_ilits.
  destruct (istartswith (u "<img") s); [|reflexivity].
  change (length (u "<img")) with 4.
  change [star (non ">"); Chr (one ">")]
    with (star (non ">") :: Chr (one ">") :: []).
  rewrite mt_tag_end.
  destruct (tag_end (skipn 4 s)); reflexivity.
Qed.

Lemma re_img_nonempty : 0 < min_len re_img.
Proof. cbn. lia. Qed.

Lemma img_tag_match attrs post :
  has_char 62%N attrs = false ->
  match_at re_img false (img_tag attrs ++ post)
  = Some (MkMatch (img_tag attrs) [], post).
Proof.
  intros H. rewrite img_match.
  change (istartswith (u "<img") (img_tag attrs ++ post)) with true.
  cbv iota.
  change (skipn 4 (img_tag attrs ++ post)) with ((attrs ++ u ">") ++ post).
  rewrite <- app_assoc. change (u ">" ++ post) with (62%N :: post).
  rewrite tag_end_closed by exact H.
  now rewrite firstn_cut.
Qed.

Lemma istartswith_long p : forall F Y,
  length p <= length F -> istartswith p (F ++ Y) = istartswith p F.
Proof.
  induction p as [|c p IH]; intros F Y H; [reflexivity|].
  destruct F as [|x F]; [cbn in H; lia|].
  cbn [app istartswith]. rewrite IH; [reflexivity|]. cbn in H. lia.
Qed.

Lemma skipn_inside (l X : str) : forall m,
  m < length l -> exists c t, skipn m (l ++ X) = c :: t /\ In c l.
Proof.
  induction l as [|y l IH]; intros m H; [cbn in H; lia|].
  destruct m as [|m].
  - exists y, (l ++ X). split; [reflexivity|now left].
  - cbn [app skipn]. destruct (IH m) as (c & t & E & Hc); [cbn in H; lia|].
    exists c, t. split; [exact E|now right].
Qed.

(** The name of an attribute cannot start inside the text before it and
    end inside the name itself. *)
Lemma attr0_straddle name F X :
  forallb name_char name = true ->
  F <> [] -> istartswith name F = false ->
  attr_value_at0 name (F ++ name ++ X) = None.
Proof.
  intros Hn Hne HF. unfold attr_value_at0.
  destruct (istartswith name (F ++ name ++ X)) eqn:E; [|reflexivity].
  assert (L : length F < length name).
  { destruct (Nat.le_gt_cases (length name) (length F)) as [L|L]; [|exact L].
    rewrite istartswith_long in E by exact L. congruence. }
  replace (skipn (length name) (F ++ name ++ X))
    with (skipn (length name - length F) (name ++ X)).
  - destruct (@skipn_inside name X (length name - length F))
      as (c & t & -> & Hc).
    { destruct F; [congruence|]. cbn [length]. lia. }
    rewrite forallb_forall in Hn. specialize (Hn c Hc). unfold name_char in Hn.
    apply andb_true_iff in Hn as [Hn H61]. apply andb_true_iff in Hn as [_ Hs].
    apply negb_true_iff in Hs, H61.
    unfold attr_rest. cbn [dropwhile]. now rewrite Hs, H61.
  - rewrite (skipn_app (length name) F).
    replace (skipn (length name) F) with (@nil N)
      by (symmetry; apply skipn_all2; lia).
    reflexivity.
Qed.

Lemma attr_rest_eq_quote Y : attr_rest (61%N :: dquote :: Y) = Some Y.
Proof. reflexivity. Qed.

Lemma attr0_here name val back :
  forallb name_char name = true ->
  has_char dquote val = false ->
  attr_value_at0 name (name ++ 61%N :: quoted val ++ back)
  = Some (val, back).
Proof.
  intros Hn Hv. unfold attr_value_at0.
  rewrite istartswith_self.
  - rewrite skipn_app, skipn_all, Nat.sub_diag. cbn [app skipn].
    unfold quoted. cbn [app]. rewrite attr_rest_eq_quote.
    unfold value_rest0. rewrite <- app_assoc. cbn [app].
    assert (Hq : forallb not_dq val = true).
    { apply has_char_forallb in Hv. exact Hv. }
    rewrite dropwhile_app_stop, run_len_app_stop;
      try exact Hq; try (unfold not_dq; now rewrite N.eqb_refl).
    now rewrite firstn_app, firstn_all, Nat.sub_diag, app_nil_r.
  - intros c Hc. rewrite forallb_forall in Hn. specialize (Hn c Hc).
    unfold name_char in Hn. apply andb_true_iff in Hn as [Hn _].
    now apply andb_true_iff in Hn as [Hn _].
Qed.

Lemma find_attr0_absent name : forall s,
  icontains name s = false -> find_attr0 name s = [].
Proof.
  induction s as [|x s IH]; intros H; rewrite find_attr0_eq;
    unfold attr_value_at0; cbn [icontains] in H.
  - rewrite orb_false_r in H. now rewrite H.
  - apply orb_false_iff in H as [H1 H2]. rewrite H1. now apply IH.
Qed.

Lemma find_attr0_first name val back :
  forallb name_char name = true ->
  has_char dquote val = false ->
  forall front,
    icontains name front = false ->
    find_attr0 name (front ++ name ++ 61%N :: quoted val ++ back) = val.
Proof.
  intros Hn Hv. induction front as [|x front IH]; intros H;
    rewrite find_attr0_eq.
  - cbn [app]. now rewrite attr0_here.
  - cbn [icontains] in H. apply orb_false_iff in H as [H1 H2].
    change ((x :: front) ++ name ++ 61%N :: quoted val ++ back)
      with ((x :: front) ++ name ++ (61%N :: quoted val ++ back)).
    rewrite attr0_straddle; [|exact Hn|discriminate|exact H1].
    cbn [app]. now apply IH.
Qed.

End ImagePattern.

(** X12.  The record of an image tag.  A text that has no [<img] before
    an image tag, the tag written as [<img], attributes without [>] and [>],
    gives the record of that tag first and then the records of the text
    after it.  Each of the five fields is read from the text of the tag on
    its own: it is the stripped value at the first place where the name,
    optional whitespace, an equals sign, optional whitespace and a value
    between double quotes occur, the value possibly empty, and it is empty
    when the name does not occur.  The name is not matched as a whole
    word: it may be the end of a longer attribute name. *)
Theorem image_record (pre attrs post : str) :
  icontains (u "<img") pre = false ->
  has_char 62%N attrs = false ->
  let tag := img_tag attrs in
  extract_images (pre ++ tag ++ post)
  = MkImage (strip (find_attr0 (u "src") tag))
            (strip (find_attr0 (u "alt") tag))
            (strip (find_attr0 (u "title") tag))
            (strip (find_attr0 (u "width") tag))
            (strip (find_attr0 (u "height") tag))
      :: extract_images post
  /\ (forall name, icontains name tag = false -> find_attr0 name tag = [])
  /\ (forall name front val back,
        tag = front ++ name ++ 61%N :: quoted val ++ back ->
        forallb name_char name = true ->
        icontains name front = false ->
        has_char dquote val = false ->
        find_attr0 name tag = val).
Proof.
  intros Hpre Hattrs tag. split; [|split].
  - unfold extract_images, finditer. fold (hits (scan re_img (pre ++ tag ++ post))).
    change (tag ++ post) with (60%N :: (u "img" ++ attrs ++ u ">") ++ post).
    rewrite (@scan_skip_before re_img (u "img"));
      [|apply (ilits_starts_with_lit (u "<img") [star (non ">"); Chr (one ">")])
       |apply re_img_nonempty
       |intros c [<-|[<-|[<-|[]]]]; reflexivity
       |exact Hpre].
    change (60%N :: (u "img" ++ attrs ++ u ">") ++ post) with (tag ++ post).
    rewrite hits_skip, scan_eq by apply re_img_nonempty.
    unfold tag. rewrite img_tag_match by exact Hattrs.
    cbn [hits flat_map app map]. rewrite image_of_match_tag. reflexivity.
  - intros name. apply find_attr0_absent.
  - intros name front val back -> Hn Hf Hv. now apply find_attr0_first.
Qed.

Lemma image_record_witness :
  extract_images
    (u "<p>x " ++ img_tag (u " data-src=" ++ quoted (u "lazy.png") ++ u " src="
                            ++ quoted (u "a.png") ++ u " ALT = " ++ quoted [])
     ++ u " y")
  = [MkImage (u "lazy.png") [] [] [] []].
Proof.
  rewrite (proj1 (@image_record (u "<p>x ")
                    (u " data-src=" ++ quoted (u "lazy.png") ++ u " src="
                       ++ quoted (u "a.png") ++ u " ALT = " ++ quoted [])
                    (u " y") eq_refl eq_refl)).
  vm_compute. reflexivity.
Defined.

Section Unquoted.

Lemma sem_seqs_dq l : forall w g g',
  sem (seqs l) w g g' -> In (Chr is_dq) l -> has_char dquote w = true.
Proof.
  induction l as [|a l IH]; intros w g g' H Hin; [destruct Hin|].
  apply sem_seqs_cons in H as (w1 & w2 & g1 & -> & H1 & H2).
  rewrite has_char_app. destruct Hin as [->|Hin].
  - cbn [sem] in H1. destruct H1 as [(x & -> & Hx) _].
    unfold is_dq in Hx. apply N.eqb_eq in Hx. subst x.
    cbn [has_char existsb]. now rewrite N.eqb_refl.
  - rewrite (IH _ _ _ H2 Hin). apply orb_true_r.
Qed.

(** A pattern with a double quote in it matches nowhere in a text without
    one. *)
Lemma no_dq_no_match l s :
  In (Chr is_dq) l -> has_char dquote s = false ->
  forall a b, s = a ++ b -> match_at (seqs l) false b = None.
Proof.
  intros Hin H a b ->.
  destruct (match_at (seqs l) false b) as [[m rest]|] eqn:E; [|reflexivity].
  apply match_at_sound in E as (g & Eb & Hs & _).
  apply sem_seqs_dq in Hs; [|exact Hin].
  rewrite Eb, !has_char_app, Hs, orb_true_r in H. discriminate.
Qed.

(** A match of a scan is a stretch of the text. *)
Lemma hit_inside r s m :
  In m (finditer r s) -> exists a b, s = a ++ m_whole m ++ b.
Proof.
  unfold finditer. intros H. apply in_flat_map in H as (t & Ht & Hm).
  destruct t as [c|m']; [destruct Hm|]. destruct Hm as [->|[]].
  apply in_split in Ht as (t1 & t2 & Ht).
  exists (flat_map tok_text t1), (flat_map tok_text t2).
  rewrite <- (scan_text r s), Ht, flat_map_app. reflexivity.
Qed.

Lemma get_attr_unquoted tag attr :
  has_char dquote tag = false -> get_attr tag attr = [].
Proof.
  intros H. unfold get_attr, re_attr0. rewrite search_none; [reflexivity|].
  apply no_dq_no_match; [|exact H]. cbn. tauto.
Qed.

End Unquoted.

(** X13.  Attribute values that are not between double quotes are not
    read.  From a text without any double quote the extractor takes no
    link, whatever anchors the text has; its images are all records of five
    empty fields; and the description, the keywords, the robots value and
    the canonical address are not found, so that the page record has their
    defaults.  Only the charset can be read from such a text. *)
Theorem unquoted_values_not_read (lower : str -> str)
    (rel_path html site_domain : str) :
  has_char dquote html = false ->
  extract_links html = []
  /\ Forall (fun i => i = MkImage [] [] [] [] []) (extract_images html)
  /\ (forall k, In k [u "description"; u "keywords"; u "robots"; u "canonical"] ->
        dget k (extract_metas lower html) = None)
  /\ (let p := make_page_object lower rel_path html site_domain in
      internalLinks p = [] /\ externalLinks p = []
      /\ description (p_meta p) = [] /\ keywords (p_meta p) = []
      /\ robots (p_meta p) = u "index,follow" /\ canonical (p_meta p) = []).
Proof.
  intros H.
  assert (L : extract_links html = []).
  { unfold extract_links. rewrite finditer_no_match; [reflexivity|].
    apply no_dq_no_match; [|exact H]. cbn. tauto. }
  assert (M : forall k,
             In k [u "description"; u "keywords"; u "robots"; u "canonical"] ->
             dget k (extract_metas lower html) = None).
  { assert (S1 : forall name, search (re_meta name) html = None).
    { intros name. apply search_none. apply no_dq_no_match; [|exact H].
      cbn. tauto. }
    assert (S2 : search re_canonical html = None).
    { apply search_none. apply no_dq_no_match; [|exact H]. cbn. tauto. }
    intros k Hk. unfold extract_metas, meta_names. cbn [fold_left].
    rewrite !S1, S2.
    destruct (search re_charset html);
      destruct Hk as [<-|[<-|[<-|[<-|[]]]]]; reflexivity. }
  split; [exact L|]. split; [|split; [exact M|]].
  - unfold extract_images. apply Forall_forall. intros i Hi.
    apply in_map_iff in Hi as (m & <- & Hm).
    apply hit_inside in Hm as (a & b & E).
    assert (Hw : has_char dquote (m_whole m) = false).
    { rewrite E, !has_char_app in H.
      apply orb_false_iff in H as [_ H]. now apply orb_false_iff in H as [H _]. }
    unfold image_of_match. cbn [group].
    now rewrite !get_attr_unquoted.
  - cbv zeta.
    destruct (make_page_links lower rel_path html site_domain) as [I E].
    rewrite I, E, L. unfold make_page_object.
    destruct (classify lower site_domain (extract_links html) [] []).
    cbn [p_meta description keywords robots canonical]. unfold dget_or.
    rewrite !M by (cbn; tauto). repeat split; reflexivity.
Qed.

Lemma unquoted_values_not_read_witness :
  extract_links (u "<a href=/x>t</a> <img src=a.png>") = [].
Proof.
  exact (proj1 (@unquoted_values_not_read ascii_lower []
                  (u "<a href=/x>t</a> <img src=a.png>") [] eq_refl)).
Defined.

Section Blocks.

Lemma sub_skip r repl s :
  starts_lt r -> 0 < min_len r ->
  forall pre, has_char 60%N pre = false ->
  sub r repl (pre ++ s) = pre ++ sub r repl s.
Proof.
  intros Hr Hm. induction pre as [|x pre IH]; intros H; [reflexivity|].
  cbn [has_char existsb] in H. apply orb_false_iff in H as [Hx H].
  cbn [app]. rewrite sub_eq by exact Hm.
  destruct (match_at r false (x :: pre ++ s)) as [[m rest]|] eqn:E.
  - apply Hr in E as [t E]. injection E as -> _. discriminate.
  - now rewrite IH.
Qed.

(** A block pattern at one place: the opening literal, then anything up to
    the first closing literal. *)
Lemma block_match op cl s :
  match_at (seqs [ilits_s op; lazy_star any; ilits_s cl]) false s =
  if istartswith op s then
    match find_lit cl (skipn (length op) s) with
    | Some j =>
        Some (MkMatch
                (firstn (length s
                         - length (skipn (j + length cl) (skipn (length op) s))) s)
                [],
              skipn (j + length cl) (skipn (length op) s))
    | None => None
    end
  else None.
Proof.
  unfold match_at. rewrite mt_seqs_cons, mt_ilits.
  destruct (istartswith op s); [|reflexivity].
  set (b := skipn (length op) s).
  rewrite mt_seqs_cons. unfold lazy_star. cbn [mt seqs andb].
  rewrite (@rep_ext _ Lazy 0 None any _
             (fun s' => if istartswith cl s'
                        then Some (MkMatch
                                     (firstn (length s - length (skipn (length cl) s')) s)
                                     [],
                                   skipn (length cl) s')
                        else None))
    by (intros t; apply mt_ilits).
  rewrite (rep_lazy_find cl
             (fun s' => (MkMatch
                           (firstn (length s - length (skipn (length cl) s')) s) [],
                         skipn (length cl) s'))).
  destruct (find_lit cl b) as [j|]; [|reflexivity].
  rewrite skipn_skipn. replace (length cl + j) with (j + length cl) by lia.
  reflexivity.
Qed.

(** A block that closes at its first closing literal is taken whole. *)
Lemma block_taken op tl body b repl :
  (forall c, In c tl -> ichar c 60 = false) ->
  (forall c, In c (60%N :: tl) -> ichar c c = true) ->
  (forall c, In c op -> ichar c c = true) ->
  0 < length op ->
  icontains (60%N :: tl) body = false ->
  sub (seqs [ilits_s op; lazy_star any; ilits_s (60%N :: tl)]) repl
      (op ++ body ++ (60%N :: tl) ++ b)
  = repl ++ sub (seqs [ilits_s op; lazy_star any; ilits_s (60%N :: tl)]) repl b.
Proof.
  intros Htl Hcl Hop Hlen Hbody.
  rewrite sub_eq.
  - rewrite block_match, istartswith_self by exact Hop.
    rewrite skipn_app, skipn_all, Nat.sub_diag. cbn [app skipn].
    rewrite find_lit_first; [|exact Htl| |exact Hbody].
    + replace (skipn (length body + length (60%N :: tl))
                 (body ++ 60%N :: tl ++ b)) with b; [reflexivity|].
      change (60%N :: tl ++ b) with ((60%N :: tl) ++ b).
      rewrite app_assoc, skipn_app, <- length_app, skipn_all, Nat.sub_diag.
      reflexivity.
    + apply istartswith_self. intros c Hc. apply Hcl. now right.
  - unfold ilits_s. destruct op; [cbn in Hlen; lia|].
    cbn [map seqs min_len]. destruct (map _ op); cbn; lia.
Qed.

Lemma re_script_nonempty : 0 < min_len re_script.
Proof. cbn. lia. Qed.

Lemma re_style_nonempty : 0 < min_len re_style.
Proof. cbn. lia. Qed.

Lemma script_starts_lt : starts_lt re_script.
Proof.
  apply (starts_lt_ilits (u "script") [lazy_star any; ilits "</script>"]).
Qed.

Lemma style_starts_lt : starts_lt re_style.
Proof.
  apply (starts_lt_ilits (u "style") [lazy_star any; ilits "</style>"]).
Qed.

Lemma script_taken body b :
  icontains (u "</script>") body = false ->
  sub re_script [] (u "<script" ++ body ++ u "</script>" ++ b)
  = sub re_script [] b.
Proof.
  intros H.
  apply (@block_taken (u "<script") (u "/script>") body b []); auto.
  - intros c [<-|[<-|[<-|[<-|[<-|[<-|[<-|[<-|[]]]]]]]]]; reflexivity.
  - intros c [<-|[<-|[<-|[<-|[<-|[<-|[<-|[<-|[<-|[]]]]]]]]]]; reflexivity.
  - intros c [<-|[<-|[<-|[<-|[<-|[<-|[<-|[]]]]]]]]; reflexivity.
  - cbn. lia.
Qed.

Lemma style_taken body b :
  icontains (u "</style>") body = false ->
  sub re_style [] (u "<style" ++ body ++ u "</style>" ++ b)
  = sub re_style [] b.
Proof.
  intros H.
  apply (@block_taken (u "<style") (u "/style>") body b []); auto.
  - intros c [<-|[<-|[<-|[<-|[<-|[<-|[<-|[]]]]]]]]; reflexivity.
  - intros c [<-|[<-|[<-|[<-|[<-|[<-|[<-|[<-|[]]]]]]]]]; reflexivity.
  - intros c [<-|[<-|[<-|[<-|[<-|[<-|[]]]]]]]; reflexivity.
  - cbn. lia.
Qed.

Lemma script_literal t :
  istartswith (u "<script") (60%N :: t) = false ->
  sub re_script [] (60%N :: t) = 60%N :: sub re_script [] t.
Proof.
  intros H. rewrite sub_eq by apply re_script_nonempty.
  unfold re_script at 1, ilits at 1 2. rewrite block_match, H. reflexivity.
Qed.

(** The script pattern leaves a style block without [<] inside alone. *)
Lemma script_skips_style body b :
  has_char 60%N body = false ->
  sub re_script [] (u "<style" ++ body ++ u "</style>" ++ b)
  = u "<style" ++ body ++ u "</style>" ++ sub re_script [] b.
Proof.
  intros H.
  change (u "<style" ++ body ++ u "</style>" ++ b)
    with (60%N :: (u "style" ++ body) ++ 60%N :: u "/style>" ++ b).
  change (u "<style" ++ body ++ u "</style>" ++ sub re_script [] b)
    with (60%N :: (u "style" ++ body) ++ 60%N :: u "/style>"
            ++ sub re_script [] b).
  rewrite script_literal by reflexivity. f_equal.
  rewrite sub_skip;
    [|apply script_starts_lt|apply re_script_nonempty
     |rewrite has_char_app, H; reflexivity].
  f_equal.
  rewrite script_literal by reflexivity. f_equal.
  apply (@sub_skip re_script [] b script_starts_lt re_script_nonempty
           (u "/style>") eq_refl).
Qed.

Lemma istartswith_more p : forall s t,
  istartswith p s = true -> istartswith p (s ++ t) = true.
Proof.
  induction p as [|c p IH]; intros s t H; [reflexivity|].
  destruct s as [|x s]; [discriminate|]. cbn [app istartswith] in *.
  apply andb_true_iff in H as [H1 H2]. now rewrite H1, (IH _ _ H2).
Qed.

Lemma icontains_prefix p : forall a b,
  icontains p (a ++ b) = false -> icontains p a = false.
Proof.
  induction a as [|x a IH]; intros b H.
  - cbn [icontains]. rewrite orb_false_r.
    destruct (istartswith p []) eqn:E; [|reflexivity].
    apply (istartswith_more _ _ b) in E. cbn [app] in E, H.
    destruct b; cbn [icontains] in H; rewrite E in H; discriminate.
  - cbn [app icontains] in *. apply orb_false_iff in H as [H1 H2].
    rewrite (IH _ H2), orb_false_r.
    destruct (istartswith p (x :: a)) eqn:E; [|reflexivity].
    apply (istartswith_more _ _ b) in E. cbn [app] in E. congruence.
Qed.

Lemma icontains_tail p a b :
  icontains p (a ++ b) = false -> icontains p b = false.
Proof.
  intros H. destruct (icontains p b) eqn:E; [|reflexivity].
  assert (X : exists y z, b = y ++ z /\ istartswith p z = true).
  { clear H. induction b as [|x b IH].
    - exists [], []. cbn [icontains] in E. rewrite orb_false_r in E. auto.
    - cbn [icontains] in E. apply orb_true_iff in E as [E|E].
      + exists [], (x :: b). auto.
      + destruct (IH E) as (y & z & -> & Hz). exists (x :: y), z. auto. }
  destruct X as (y & z & -> & Hz).
  rewrite app_assoc, (icontains_suffix p (a ++ y) z Hz) in H. discriminate.
Qed.

(** A pattern that starts with a literal changes nothing in a text that
    does not hold the literal. *)
Lemma sub_without_lit r p repl s :
  starts_with_lit r p -> 0 < min_len r ->
  icontains p s = false -> sub r repl s = s.
Proof.
  intros Hr Hm H. apply sub_id; [exact Hm|].
  intros a b ->. apply Hr.
  destruct (istartswith p b) eqn:E; [|reflexivity].
  rewrite (icontains_suffix p a b E) in H. discriminate.
Qed.

Lemma sub_skip_before r tl repl R :
  starts_with_lit r (60%N :: tl) -> 0 < min_len r ->
  (forall c, In c tl -> ichar c 60 = false) ->
  forall pre, icontains (60%N :: tl) pre = false ->
  sub r repl (pre ++ 60%N :: R) = pre ++ sub r repl (60%N :: R).
Proof.
  intros Hr Hm Htl. induction pre as [|x pre IH]; intros H; [reflexivity|].
  cbn [app]. rewrite sub_eq by exact Hm.
  rewrite Hr.
  - rewrite IH; [reflexivity|].
    cbn [icontains] in H. now apply orb_false_iff in H as [_ H].
  - apply (@lit_not_before tl (x :: pre) R Htl H [] (x :: pre));
      [reflexivity|discriminate].
Qed.

Lemma script_starts_with_lit : starts_with_lit re_script (u "<script").
Proof.
  apply (ilits_starts_with_lit (u "<script") [lazy_star any; ilits "</script>"]).
Qed.

Lemma style_starts_with_lit : starts_with_lit re_style (u "<style").
Proof.
  apply (ilits_starts_with_lit (u "<style") [lazy_star any; ilits "</style>"]).
Qed.

(** The only script block of a text. *)
Lemma script_only a body b :
  icontains (u "<script") (a ++ b) = false ->
  icontains (u "</script>") body = false ->
  sub re_script [] (a ++ u "<script" ++ body ++ u "</script>" ++ b)
  = sub re_script [] (a ++ b).
Proof.
  intros Hab Hbody.
  rewrite (@sub_without_lit re_script (u "<script") [] (a ++ b)
             script_starts_with_lit re_script_nonempty Hab).
  change (u "<script" ++ body ++ u "</script>" ++ b)
    with (60%N :: u "script" ++ body ++ u "</script>" ++ b).
  rewrite (@sub_skip_before re_script (u "script"));
    [|apply script_starts_with_lit|apply re_script_nonempty
     |intros c [<-|[<-|[<-|[<-|[<-|[<-|[]]]]]]]; reflexivity
     |apply (icontains_prefix _ _ _ Hab)].
  change (60%N :: u "script" ++ body ++ u "</script>" ++ b)
    with (u "<script" ++ body ++ u "</script>" ++ b).
  rewrite script_taken by exact Hbody.
  rewrite (@sub_without_lit re_script (u "<script") [] b
             script_starts_with_lit re_script_nonempty
             (icontains_tail _ _ _ Hab)).
  reflexivity.
Qed.

Lemma style_only a body b :
  icontains (u "<style") (a ++ b) = false ->
  icontains (u "</style>") body = false ->
  sub re_style [] (a ++ u "<style" ++ body ++ u "</style>" ++ b)
  = sub re_style [] (a ++ b).
Proof.
  intros Hab Hbody.
  rewrite (@sub_without_lit re_style (u "<style") [] (a ++ b)
             style_starts_with_lit re_style_nonempty Hab).
  change (u "<style" ++ body ++ u "</style>" ++ b)
    with (60%N :: u "style" ++ body ++ u "</style>" ++ b).
  rewrite (@sub_skip_before re_style (u "style"));
    [|apply style_starts_with_lit|apply re_style_nonempty
     |intros c [<-|[<-|[<-|[<-|[<-|[]]]]]]; reflexivity
     |apply (icontains_prefix _ _ _ Hab)].
  change (60%N :: u "style" ++ body ++ u "</style>" ++ b)
    with (u "<style" ++ body ++ u "</style>" ++ b).
  rewrite style_taken by exact Hbody.
  rewrite (@sub_without_lit re_style (u "<style") [] b
             style_starts_with_lit re_style_nonempty
             (icontains_tail _ _ _ Hab)).
  reflexivity.
Qed.

End Blocks.

(** X14.  Script and style blocks go with their content.  A block from
    [<script] to the first [</script>] is removed with everything in it,
    markup included, so that the result is that of the text without the
    block: this holds when the text before the block has no [<], and when
    the block is the only script block of the text.  The same holds of a
    block from [<style] to the first [</style>] that is the only style
    block of a text without script blocks, and of a style block without
    [<] inside that follows a text without [<]. *)
Theorem blocks_removed (a body b : str) :
  (icontains (u "</script>") body = false ->
   has_char 60%N a = false \/ icontains (u "<script") (a ++ b) = false ->
   strip_tags (a ++ u "<script" ++ body ++ u "</script>" ++ b)
   = strip_tags (a ++ b))
  /\ (icontains (u "</style>") body = false ->
      icontains (u "<script") (a ++ u "<style" ++ body ++ u "</style>" ++ b)
      = false ->
      icontains (u "<script") (a ++ b) = false ->
      icontains (u "<style") (a ++ b) = false ->
      strip_tags (a ++ u "<style" ++ body ++ u "</style>" ++ b)
      = strip_tags (a ++ b))
  /\ (has_char 60%N a = false -> has_char 60%N body = false ->
      strip_tags (a ++ u "<style" ++ body ++ u "</style>" ++ b)
      = strip_tags (a ++ b)).
Proof.
  split; [|split].
  - intros Hb [Ha|Hab]; unfold strip_tags, detag.
    + rewrite !(@sub_skip re_script [] _ script_starts_lt re_script_nonempty
                  a Ha).
      now rewrite script_taken.
    + now rewrite script_only.
  - intros Hb Hs1 Hs2 Hst. unfold strip_tags, detag.
    rewrite !(@sub_without_lit re_script (u "<script") [] _
                script_starts_with_lit re_script_nonempty)
      by assumption.
    now rewrite style_only.
  - intros Ha Hb. unfold strip_tags, detag.
    rewrite !(@sub_skip re_script [] _ script_starts_lt re_script_nonempty a Ha).
    rewrite script_skips_style by exact Hb.
    rewrite !(@sub_skip re_style [] _ style_starts_lt re_style_nonempty a Ha).
    rewrite style_taken; [reflexivity|]. now apply icontains_no_lt.
Qed.

Lemma blocks_removed_witness :
  strip_tags (u "<p>Hi</p> " ++ u "<script" ++ u ">if (a<b) alert('<b>x</b>')"
              ++ u "</script>" ++ u "<i>there</i>")
  = u "Hi there".
Proof.
  rewrite (proj1 (@blocks_removed (u "<p>Hi</p> ")
                    (u ">if (a<b) alert('<b>x</b>')") (u "<i>there</i>"))
             eq_refl (or_intror eq_refl)).
  vm_compute. reflexivity.
Defined.

Section HeadingPattern.

Lemma istartswith_app a : forall b s,
  istartswith (a ++ b) s = istartswith a s && istartswith b (skipn (length a) s).
Proof.
  induction a as [|c a IH]; intros b s; [reflexivity|].
  destruct s as [|x s]; cbn [app istartswith length skipn]; [reflexivity|].
  rewrite IH. apply andb_assoc.
Qed.

Lemma ichar_gt_one x : ichar 62 x = one ">" x.
Proof.
  unfold ichar, one, ch. cbn.
  rewrite ?andb_false_l, ?orb_false_r. reflexivity.
Qed.

(** The closing tag of a heading pattern is one literal run. *)
Lemma mt_close (A : Type) a b s g (k : str -> groups -> option A) :
  mt (seqs [ilits_s a; ilits_s b; Chr (one ">")]) s g k
  = if istartswith (a ++ b ++ [62%N]) s
    then k (skipn (length (a ++ b ++ [62%N])) s) g
    else None.
Proof.
  rewrite mt_seqs_cons, mt_ilits, !istartswith_app.
  destruct (istartswith a s); [|reflexivity]. cbn [andb].
  rewrite mt_seqs_cons, mt_ilits.
  destruct (istartswith b (skipn (length a) s)); [|reflexivity]. cbn [andb].
  cbn [seqs mt]. rewrite !length_app. cbn [length].
  rewrite skipn_skipn.
  replace (length a + (length b + 1)) with (1 + (length b + length a)) by lia.
  rewrite <- (skipn_skipn 1).
  destruct (skipn (length b + length a) s) as [|x t]; [reflexivity|].
  cbn [istartswith skipn]. rewrite ichar_gt_one, andb_true_r. reflexivity.
Qed.

Lemma heading_match tag s :
  match_at (re_heading tag) false s =
  match s with
  | x :: s1 =>
      if one "<" x && istartswith tag s1 then
        match tag_end (skipn (length tag) s1) with
        | Some b4 =>
            match find_lit (u "</" ++ tag ++ [62%N]) b4 with
            | Some j =>
                Some (MkMatch
                        (firstn (length s
                                 - length (skipn (j + length (u "</" ++ tag ++ [62%N])) b4))
                                s)
                        [(1, firstn j b4)],
                      skipn (j + length (u "</" ++ tag ++ [62%N])) b4)
            | None => None
            end
        | None => None
        end
      else None
  | [] => None
  end.
Proof.
  unfold match_at, re_heading. rewrite mt_seqs_cons. cbn [mt].
  destruct s as [|x s1]; [reflexivity|].
  destruct (one "<" x); [|reflexivity]. cbn [andb].
  rewrite mt_seqs_cons, mt_ilits.
  destruct (istartswith tag s1); [|reflexivity].
  rewrite mt_tag_end.
  destruct (tag_end (skipn (length tag) s1)) as [b4|]; [|reflexivity].
  rewrite mt_seqs_cons. unfold lazy_star, ilits. cbn [mt andb].
  rewrite (@rep_ext _ Lazy 0 None any _
             (fun s' =>
                if istartswith (u "</" ++ tag ++ [62%N]) s'
                then Some (MkMatch
                             (firstn (length (x :: s1)
                                      - length (skipn (length (u "</" ++ tag ++ [62%N])) s'))
                                     (x :: s1))
                             [(1, firstn (length b4 - length s') b4)],
                           skipn (length (u "</" ++ tag ++ [62%N])) s')
                else None))
    by (intros t; apply mt_close).
  rewrite (rep_lazy_find (u "</" ++ tag ++ [62%N])
             (fun s' =>
                (MkMatch
                   (firstn (length (x :: s1)
                            - length (skipn (length (u "</" ++ tag ++ [62%N])) s'))
                           (x :: s1))
                   [(1, firstn (length b4 - length s') b4)],
                 skipn (length (u "</" ++ tag ++ [62%N])) s'))).
  destruct (find_lit (u "</" ++ tag ++ [62%N]) b4) as [j|] eqn:E;
    [|reflexivity].
  apply find_lit_le in E.
  rewrite skipn_skipn.
  replace (length (u "</" ++ tag ++ [62%N]) + j)
    with (j + length (u "</" ++ tag ++ [62%N])) by lia.
  rewrite (length_skipn j b4).
  replace (length b4 - (length b4 - j)) with j by lia. reflexivity.
Qed.

Lemma re_heading_nonempty tag : 0 < min_len (re_heading tag).
Proof.
  unfold re_heading. cbn [seqs min_len]. lia.
Qed.

Lemma ichar_lt_one x : ichar 60 x = one "<" x.
Proof.
  unfold ichar, one, ch. cbn.
  rewrite ?andb_false_l, ?orb_false_r. reflexivity.
Qed.

Lemma heading_starts_with_lit tag :
  starts_with_lit (re_heading tag) (60%N :: tag).
Proof.
  intros s H. rewrite heading_match. destruct s as [|x s1]; [reflexivity|].
  cbn [istartswith] in H. rewrite ichar_lt_one in H. now rewrite H.
Qed.

Lemma level_cases level :
  1 <= level <= 6 ->
  level = 1 \/ level = 2 \/ level = 3 \/ level = 4 \/ level = 5 \/ level = 6.
Proof. lia. Qed.

Lemma skipn_over (x y z : str) :
  skipn (length x + length y) (x ++ y ++ z) = z.
Proof.
  now rewrite app_assoc, skipn_app, <- length_app, skipn_all, Nat.sub_diag.
Qed.

Lemma heading_element_match level attrs body post :
  1 <= level <= 6 ->
  has_char 62%N attrs = false ->
  icontains (close_tag level) body = false ->
  match_at (re_heading (heading_tag level)) false
    (heading_element level attrs body ++ post)
  = Some (MkMatch (heading_element level attrs body) [(1, body)], post).
Proof.
  intros Hl Ha Hb. rewrite heading_match.
  change (u "</" ++ heading_tag level ++ [62%N])
    with (60%N :: 47%N :: heading_tag level ++ [62%N]).
  change (close_tag level)
    with (60%N :: 47%N :: heading_tag level ++ [62%N]) in Hb.
  assert (Ht : forall c, In c (heading_tag level) -> ichar c c = true).
  { apply level_cases in Hl as [->|[->|[->|[->|[->| ->]]]]];
      intros c [<-|[<-|[]]]; reflexivity. }
  assert (H1 : forall c, In c (47%N :: heading_tag level ++ [62%N]) ->
                         ichar c 60 = false).
  { apply level_cases in Hl as [->|[->|[->|[->|[->| ->]]]]];
      intros c [<-|[<-|[<-|[<-|[]]]]]; reflexivity. }
  assert (H2 : forall c, In c (47%N :: heading_tag level ++ [62%N]) ->
                         ichar c c = true).
  { apply level_cases in Hl as [->|[->|[->|[->|[->| ->]]]]];
      intros c [<-|[<-|[<-|[<-|[]]]]]; reflexivity. }
  remember (47%N :: heading_tag level ++ [62%N]) as tl eqn:Etl.
  remember (heading_tag level) as tag eqn:Etag.
  assert (E : heading_element level attrs body ++ post
              = 60%N :: tag ++ attrs ++ 62%N :: body ++ (60%N :: tl) ++ post).
  { unfold heading_element, close_tag. rewrite Etl, <- Etag.
    rewrite <- !app_assoc. cbn [app]. rewrite <- !app_assoc. reflexivity. }
  rewrite E. change (one "<" 60) with true. cbn [andb].
  rewrite istartswith_self by exact Ht.
  rewrite skipn_app, skipn_all, Nat.sub_diag.
  change (skipn 0 (attrs ++ 62%N :: body ++ (60%N :: tl) ++ post))
    with (attrs ++ 62%N :: body ++ (60%N :: tl) ++ post).
  change ([] ++ attrs ++ 62%N :: body ++ (60%N :: tl) ++ post)
    with (attrs ++ 62%N :: body ++ (60%N :: tl) ++ post).
  rewrite tag_end_closed by exact Ha.
  change (body ++ (60%N :: tl) ++ post) with (body ++ 60%N :: tl ++ post) at 1.
  rewrite find_lit_first;
    [|exact H1|apply istartswith_self; exact H2|exact Hb].
  rewrite skipn_over.
  rewrite firstn_app, firstn_all, Nat.sub_diag, app_nil_r.
  rewrite <- E. now rewrite firstn_cut.
Qed.

Lemma level_items_cons body ms :
  filter (fun t => negb (is_empty t))
         (map (fun m => strip (strip_tags m)) (body :: ms))
  = heading_entry body
    ++ filter (fun t => negb (is_empty t))
              (map (fun m => strip (strip_tags m)) ms).
Proof.
  cbn [map filter]. unfold heading_entry.
  destruct (is_empty (strip (strip_tags body))); reflexivity.
Qed.

End HeadingPattern.

(** X15.  The entry of a heading element.  A text that does not hold the
    opening of a heading of a level, [<h] and the digit, before a heading
    element of that level, the element written as the opening tag
    with any text without [>] after its name, a body without the closing
    tag of the level and that closing tag, gives the body of the element as
    the first match of the level and then the matches of the text after the
    element.  In the record the level has the text of the body without its
    tags when that is not empty, followed by the entries of the text after
    the element, and the level is absent when all of them are empty. *)
Theorem heading_record (level : nat) (pre attrs body post : str) :
  1 <= level <= 6 ->
  icontains (open_tag level) pre = false ->
  has_char 62%N attrs = false ->
  icontains (close_tag level) body = false ->
  let html := pre ++ heading_element level attrs body ++ post in
  findall1 (re_heading (heading_tag level)) html
  = body :: findall1 (re_heading (heading_tag level)) post
  /\ level_items html level = heading_entry body ++ level_items post level
  /\ dget (heading_tag level) (extract_headings html)
     = (if is_empty (heading_entry body ++ level_items post level) then None
        else Some (heading_entry body ++ level_items post level)).
Proof.
  intros Hl Hpre Ha Hb html.
  assert (F : findall1 (re_heading (heading_tag level)) html
              = body :: findall1 (re_heading (heading_tag level)) post).
  { unfold findall1, finditer, html.
    fold (hits (scan (re_heading (heading_tag level))
                  (pre ++ heading_element level attrs body ++ post))).
    change (heading_element level attrs body ++ post)
      with (60%N :: (heading_tag level ++ attrs ++ u ">" ++ body
                       ++ close_tag level) ++ post).
    rewrite (@scan_skip_before (re_heading (heading_tag level))
               (heading_tag level));
      [|apply heading_starts_with_lit|apply re_heading_nonempty
       |apply level_cases in Hl as [->|[->|[->|[->|[->| ->]]]]];
          intros c [<-|[<-|[]]]; reflexivity
       |exact Hpre].
    change (60%N :: (heading_tag level ++ attrs ++ u ">" ++ body
                       ++ close_tag level) ++ post)
      with (heading_element level attrs body ++ post).
    rewrite hits_skip, scan_eq by apply re_heading_nonempty.
    rewrite heading_element_match by assumption.
    reflexivity. }
  assert (I : level_items html level = heading_entry body ++ level_items post level).
  { unfold level_items. rewrite F. apply level_items_cons. }
  split; [exact F|]. split; [exact I|].
  rewrite extract_headings_fold, fold_get_level;
    [|apply heading_tags_distinct|apply in_seq; lia].
  cbn [dget]. unfold level_value. rewrite I.
  destruct (heading_entry body ++ level_items post level); reflexivity.
Qed.

Lemma heading_record_witness :
  dget (heading_tag 2)
    (extract_headings
       (u "<h1>T</h1> " ++ heading_element 2 (u " class=x") (u " A <b>b</b> ")
        ++ u "<H2></H2><h2>C</h2>"))
  = Some [u "A b"; u "C"].
Proof.
  rewrite (proj2 (proj2 (@heading_record 2 (u "<h1>T</h1> ") (u " class=x")
                           (u " A <b>b</b> ") (u "<H2></H2><h2>C</h2>")
                           ltac:(lia) eq_refl eq_refl eq_refl))).
  vm_compute. reflexivity.
Defined.

Section PairPattern.

Lemma mt_star_stop (A : Type) p items x t g (k : str -> groups -> option A) :
  p x = false ->
  mt (seqs (star p :: items)) (x :: t) g k = mt (seqs items) (x :: t) g k.
Proof.
  intros H. rewrite mt_seqs_cons. unfold star. cbn [mt rep].
  rewrite H. reflexivity.
Qed.

Lemma mt_chr_take (A : Type) p items x t g (k : str -> groups -> option A) :
  p x = true ->
  mt (seqs (Chr p :: items)) (x :: t) g k = mt (seqs items) t g k.
Proof.
  intros H. rewrite mt_seqs_cons. cbn [mt]. now rewrite H.
Qed.

(** An optional character that is there is taken when the rest of the
    pattern matches after it. *)
Lemma mt_opt_take (A : Type) p items x t g (k : str -> groups -> option A) r :
  p x = true ->
  mt (seqs items) t g k = Some r ->
  mt (seqs (opt p :: items)) (x :: t) g k = Some r.
Proof.
  intros H Hr. rewrite mt_seqs_cons. unfold opt. cbn [mt rep below].
  rewrite H. cbn [andb Nat.ltb Nat.leb].
  destruct t as [|y t']; cbn [rep below Nat.ltb Nat.leb];
    rewrite ?andb_false_r; now rewrite Hr.
Qed.

Lemma lit_char_facts p :
  forallb lit_char p = true ->
  forall c, In c p ->
  ichar c c = true /\ ichar c 62 = false /\ ichar c 60 = false.
Proof.
  intros H c Hc. rewrite forallb_forall in H. specialize (H c Hc).
  unfold lit_char in H. apply andb_true_iff in H as [H H3].
  apply andb_true_iff in H as [H1 H2].
  apply negb_true_iff in H2, H3. auto.
Qed.

Lemma mt_ilits_self (A : Type) p items T g (k : str -> groups -> option A) :
  (forall c, In c p -> ichar c c = true) ->
  mt (seqs (ilits_s p :: items)) (p ++ T) g k = mt (seqs items) T g k.
Proof.
  intros H. rewrite mt_seqs_cons, mt_ilits, istartswith_self by exact H.
  now rewrite skipn_app, skipn_all, Nat.sub_diag.
Qed.

Lemma mt_value_lo (A : Type) lo items s g (k : str -> groups -> option A) :
  mt (seqs (Grp 1 (Rep Greedy lo None not_dq) :: Chr is_dq :: items)) s g k
  = match dropwhile not_dq s with
    | _ :: b1 =>
        if lo <=? run_len not_dq s
        then mt (seqs items) b1 ((1, firstn (run_len not_dq s) s) :: g) k
        else None
    | [] => None
    end.
Proof.
  rewrite mt_seqs_cons. cbn [mt].
  rewrite rep_greedy_det.
  - cbn [Nat.add]. rewrite mt_seqs_cons. cbn [mt]. unfold run_len.
    pose proof (dropwhile_head not_dq s) as Hh.
    destruct (dropwhile not_dq s) as [|x b1];
      [destruct (lo <=? _); reflexivity|].
    assert (Hx : is_dq x = true).
    { unfold not_dq in Hh. apply negb_false_iff in Hh. exact Hh. }
    rewrite Hx. reflexivity.
  - intros x t Px. rewrite mt_seqs_cons. cbn [mt].
    now rewrite (not_dq_not_dq x Px).
Qed.

(** The second attribute, from its name on. *)
Lemma pair_second (A : Type) k2 lo v T g (F : str -> groups -> A) :
  forallb lit_char k2 = true ->
  has_char dquote v = false -> lo <= length v ->
  mt (seqs [ilits_s k2; star isspace; Chr (one "="); star isspace; Chr is_dq;
            Grp 1 (Rep Greedy lo None not_dq); Chr is_dq])
     (k2 ++ 61%N :: quoted v ++ T) g (fun s' g' => Some (F s' g'))
  = Some (F T ((1, v) :: g)).
Proof.
  intros Hk Hv Hlo.
  rewrite mt_ilits_self by (intros x Hx; now apply (lit_char_facts _ Hk)).
  rewrite mt_attr_rest. unfold quoted. cbn [app].
  rewrite attr_rest_eq_quote.
  change [Grp 1 (Rep Greedy lo None not_dq); Chr is_dq]
    with (Grp 1 (Rep Greedy lo None not_dq) :: Chr is_dq :: []).
  rewrite mt_value_lo. rewrite <- app_assoc. cbn [app].
  assert (Hq : forallb not_dq v = true).
  { apply has_char_forallb in Hv. exact Hv. }
  rewrite dropwhile_app_stop, run_len_app_stop;
    try exact Hq; try (unfold not_dq; now rewrite N.eqb_refl).
  replace (lo <=? length v) with true by (symmetry; now apply Nat.leb_le).
  rewrite firstn_app, firstn_all, Nat.sub_diag, app_nil_r. reflexivity.
Qed.

(** A literal does not start in the stretch of a tag after a place where
    it does not occur any more. *)
Lemma lit_beyond k X T :
  forallb lit_char k = true ->
  forall a b,
    X ++ 62%N :: T = a ++ b -> a <> [] -> forallb (non ">") a = true ->
    icontains k (skipn 1 X) = false ->
    istartswith k b = false.
Proof.
  intros Hk a b H Hne Ha Hc.
  symmetry in H. apply prefix_split in H as (sfx & Hx & ->); [|exact Ha].
  destruct (istartswith k (sfx ++ 62%N :: T)) eqn:E; [|reflexivity].
  apply istartswith_stop in E.
  - destruct a as [|a0 a]; [contradiction|].
    rewrite Hx in Hc. cbn [app skipn] in Hc.
    rewrite (icontains_suffix _ a _ E) in Hc. discriminate.
  - intros y Hy. now apply (lit_char_facts _ Hk).
Qed.

(** From the first attribute on. *)
Lemma pair_first (A : Type) k1 v1 k2 lo b v c post (F : str -> groups -> A) :
  forallb lit_char k1 = true -> forallb lit_char v1 = true ->
  forallb lit_char k2 = true ->
  has_char 62%N b = false ->
  has_char dquote v = false -> lo <= length v ->
  icontains k2 (skipn 1 (k2 ++ 61%N :: quoted v ++ c)) = false ->
  mt (seqs [ilits_s k1; star isspace; Chr (one "="); star isspace; opt is_dq;
            ilits_s v1; opt is_dq; star (non ">");
            ilits_s k2; star isspace; Chr (one "="); star isspace; Chr is_dq;
            Grp 1 (Rep Greedy lo None not_dq); Chr is_dq])
     (k1 ++ 61%N :: quoted v1 ++ b ++ k2 ++ 61%N :: quoted v
        ++ c ++ 62%N :: post) []
     (fun s' g' => Some (F s' g'))
  = Some (F (c ++ 62%N :: post) [(1, v)]).
Proof.
  intros H1 Hv1 H2 Hb Hv Hlo Hc.
  rewrite mt_ilits_self by (intros x Hx; now apply (lit_char_facts _ H1)).
  rewrite mt_star_stop by reflexivity.
  rewrite mt_chr_take by reflexivity.
  unfold quoted. cbn [app].
  rewrite mt_star_stop by reflexivity.
  apply mt_opt_take; [reflexivity|].
  rewrite <- app_assoc.
  rewrite mt_ilits_self by (intros x Hx; now apply (lit_char_facts _ Hv1)).
  cbn [app].
  apply mt_opt_take; [reflexivity|].
  rewrite mt_seqs_cons. unfold star at 1. cbn [mt].
  apply rep_greedy_last.
  - cbv beta. unfold quoted. now apply pair_second.
  - intros a' b' Hab Hne Hp.
    rewrite mt_seqs_cons, mt_ilits.
    assert (E : istartswith k2 b' = false); [|now rewrite E].
    apply (@lit_beyond k2 (k2 ++ 61%N :: quoted v ++ c) post H2 a' b');
      auto.
    rewrite <- Hab. unfold quoted.
    repeat (rewrite <- ?app_assoc; cbn [app]). reflexivity.
  - apply has_char_forallb in Hb. exact Hb.
  - lia.
Qed.

Lemma pair_match op k1 v1 k2 lo a b v c post :
  (forall x, In x op -> ichar x x = true) -> forallb lit_char k1 = true ->
  forallb lit_char v1 = true -> forallb lit_char k2 = true ->
  has_char 62%N a = false -> has_char 62%N b = false ->
  has_char dquote v = false -> lo <= length v ->
  icontains k1 (skipn 1 (k1 ++ 61%N :: quoted v1 ++ b ++ k2 ++ 61%N :: quoted v
                           ++ c)) = false ->
  icontains k2 (skipn 1 (k2 ++ 61%N :: quoted v ++ c)) = false ->
  match_at (re_pair op k1 v1 k2 lo) false
    (pair_element op a k1 v1 b k2 v ++ c ++ 62%N :: post)
  = Some (MkMatch (pair_element op a k1 v1 b k2 v) [(1, v)],
          c ++ 62%N :: post).
Proof.
  intros Hop H1 Hv1 H2 Ha Hb Hv Hlo Hc1 Hc2.
  set (s := pair_element op a k1 v1 b k2 v ++ c ++ 62%N :: post).
  assert (Es : s = op ++ a ++ (k1 ++ 61%N :: quoted v1 ++ b ++ k2
                                  ++ 61%N :: quoted v ++ c ++ 62%N :: post)).
  { unfold s, pair_element, quoted. cbn [app].
    repeat (rewrite <- ?app_assoc; cbn [app]). reflexivity. }
  unfold match_at, re_pair. rewrite Es at 1.
  rewrite mt_ilits_self by exact Hop.
  rewrite mt_seqs_cons. unfold star at 1. cbn [mt andb].
  erewrite rep_greedy_last.
  - reflexivity.
  - cbv beta.
    rewrite (@pair_first _ k1 v1 k2 lo b v c post
               (fun s' g' => (MkMatch (firstn (length s - length s') s) g', s')))
      by assumption.
    unfold s. rewrite firstn_cut. reflexivity.
  - intros a' b' Hab Hne Hp.
    rewrite mt_seqs_cons, mt_ilits.
    assert (E : istartswith k1 b' = false); [|now rewrite E].
    apply (@lit_beyond k1
             (k1 ++ 61%N :: quoted v1 ++ b ++ k2 ++ 61%N :: quoted v ++ c)
             post H1 a' b'); auto.
    rewrite <- Hab. unfold quoted.
    repeat (rewrite <- ?app_assoc; cbn [app]). reflexivity.
  - apply has_char_forallb in Ha. exact Ha.
  - lia.
Qed.

Lemma search_pair op k1 v1 k2 lo pre a b v c post :
  icontains (60%N :: op) pre = false ->
  forallb lit_char op = true -> forallb lit_char k1 = true ->
  forallb lit_char v1 = true -> forallb lit_char k2 = true ->
  has_char 62%N a = false -> has_char 62%N b = false ->
  has_char dquote v = false -> lo <= length v ->
  icontains k1 (skipn 1 (k1 ++ 61%N :: quoted v1 ++ b ++ k2 ++ 61%N :: quoted v
                           ++ c)) = false ->
  icontains k2 (skipn 1 (k2 ++ 61%N :: quoted v ++ c)) = false ->
  search (re_pair (60%N :: op) k1 v1 k2 lo)
    (pre ++ pair_element (60%N :: op) a k1 v1 b k2 v ++ c ++ 62%N :: post)
  = Some (MkMatch (pair_element (60%N :: op) a k1 v1 b k2 v) [(1, v)]).
Proof.
  intros Hpre Hop H1 Hv1 H2 Ha Hb Hv Hlo Hc1 Hc2.
  assert (Hop' : forall x, In x (60%N :: op) -> ichar x x = true).
  { intros x [<-|Hx]; [reflexivity|]. now apply (lit_char_facts _ Hop). }
  pose proof (@pair_match (60%N :: op) k1 v1 k2 lo a b v c post
                Hop' H1 Hv1 H2 Ha Hb Hv Hlo Hc1 Hc2) as M.
  change (pair_element (60%N :: op) a k1 v1 b k2 v ++ c ++ 62%N :: post)
    with (60%N :: (op ++ a ++ k1 ++ 61%N :: quoted v1 ++ b ++ k2
                     ++ 61%N :: quoted v) ++ c ++ 62%N :: post) in M |- *.
  eapply (@search_skip_before _ op); [| |exact M|exact Hpre].
  - apply ilits_starts_with_lit.
  - intros x Hx. now apply (lit_char_facts _ Hop).
Qed.

Variable lower : str -> str.

Lemma metas_get_name html name :
  In name meta_names ->
  dget (u name) (extract_metas lower html)
  = option_map (fun m => strip (group m 1)) (search (re_meta name) html).
Proof.
  unfold extract_metas, meta_names. cbn [fold_left].
  intros [<-|[<-|[<-|[]]]];
    destruct (search re_charset html), (search (re_meta "description") html),
      (search (re_meta "keywords") html), (search (re_meta "robots") html),
      (search re_canonical html); reflexivity.
Qed.

Lemma metas_get_canonical html :
  dget (u "canonical") (extract_metas lower html)
  = option_map (fun m => strip (group m 1)) (search re_canonical html).
Proof.
  unfold extract_metas, meta_names. cbn [fold_left].
  destruct (search re_charset html), (search (re_meta "description") html),
    (search (re_meta "keywords") html), (search (re_meta "robots") html),
    (search re_canonical html); reflexivity.
Qed.

End PairPattern.

(** X16.  The value of a named meta tag.  For a text that has no [<meta]
    before a meta tag with the attribute [name], its value one of
    [description], [keywords] and [robots] between double quotes, and
    further on in the tag the attribute [content] with a value between
    double quotes, the extractor gives the name that value, stripped,
    provided the rest of the tag holds neither [name] nor [content] again.
    The value may be empty and may hold any character but a double
    quote. *)
Theorem meta_record (lower : str -> str) (name : string)
    (pre a b v c post : str) :
  In name meta_names ->
  icontains (u "<meta") pre = false ->
  has_char 62%N a = false -> has_char 62%N b = false ->
  has_char dquote v = false ->
  icontains (u "name")
    (quoted (u name) ++ b ++ u "content=" ++ quoted v ++ c) = false ->
  icontains (u "content") (quoted v ++ c) = false ->
  dget (u name)
    (extract_metas lower (pre ++ meta_element a name b v ++ c ++ u ">" ++ post))
  = Some (strip v).
Proof.
  intros Hn Hpre Ha Hb Hv Hc1 Hc2.
  rewrite metas_get_name by exact Hn.
  change (re_meta name)
    with (re_pair (60%N :: u "meta") (u "name") (u name) (u "content") 0).
  unfold meta_element. change (u "<meta") with (60%N :: u "meta").
  change (u ">" ++ post) with (62%N :: post).
  rewrite search_pair; try assumption; try reflexivity; try lia.
  destruct Hn as [<-|[<-|[<-|[]]]]; reflexivity.
Qed.

Lemma meta_record_witness :
  dget (u "description")
    (extract_metas ascii_lower
       (u "<!doctype html> "
        ++ meta_element (u " ") "description" (u " ") (u " Hello & welcome ")
        ++ u "/" ++ u ">" ++ u "<title>t</title>"))
  = Some (u "Hello & welcome").
Proof.
  rewrite (@meta_record ascii_lower "description" (u "<!doctype html> ")
             (u " ") (u " ") (u " Hello & welcome ") (u "/")
             (u "<title>t</title>") (or_introl eq_refl)
             eq_refl eq_refl eq_refl eq_refl eq_refl eq_refl).
  reflexivity.
Defined.

(** X17.  The canonical address.  For a text that has no [<link] before a
    [link] tag with the attribute [rel], its value [canonical] between
    double quotes, and further on in the tag the attribute [href] with a
    value between double quotes that is not empty, the extractor gives
    [canonical] that value, stripped, provided the rest of the tag holds
    neither [rel] nor [href] again. *)
Theorem canonical_record (lower : str -> str) (pre a b v c post : str) :
  icontains (u "<link") pre = false ->
  has_char 62%N a = false -> has_char 62%N b = false ->
  v <> [] -> has_char dquote v = false ->
  icontains (u "rel")
    (quoted (u "canonical") ++ b ++ u "href=" ++ quoted v ++ c) = false ->
  icontains (u "href") (quoted v ++ c) = false ->
  dget (u "canonical")
    (extract_metas lower (pre ++ canonical_element a b v ++ c ++ u ">" ++ post))
  = Some (strip v).
Proof.
  intros Hpre Ha Hb Hne Hv Hc1 Hc2.
  rewrite metas_get_canonical.
  change re_canonical
    with (re_pair (60%N :: u "link") (u "rel") (u "canonical") (u "href") 1).
  unfold canonical_element. change (u "<link") with (60%N :: u "link").
  change (u ">" ++ post) with (62%N :: post).
  rewrite search_pair; try assumption; try reflexivity.
  destruct v; [congruence|cbn; lia].
Qed.

Lemma canonical_record_witness :
  dget (u "canonical")
    (extract_metas ascii_lower
       (u "<head><meta charset=utf-8>"
        ++ canonical_element (u " ") (u " ") (u "https://stroyglobal.com/a.htm")
        ++ u " /" ++ u ">" ++ []))
  = Some (u "https://stroyglobal.com/a.htm").
Proof.
  rewrite (@canonical_record ascii_lower (u "<head><meta charset=utf-8>")
             (u " ") (u " ")
             (u "https://stroyglobal.com/a.htm") (u " /") []
             eq_refl eq_refl eq_refl ltac:(discriminate)
             eq_refl eq_refl eq_refl).
  reflexivity.
Defined.

Section CharsetPattern.

Lemma mt_opt_skip (A : Type) p items x t g (k : str -> groups -> option A) :
  p x = false ->
  mt (seqs (opt p :: items)) (x :: t) g k = mt (seqs items) (x :: t) g k.
Proof.
  intros H. rewrite mt_seqs_cons. unfold opt. cbn [mt rep].
  rewrite H. reflexivity.
Qed.

Lemma mt_opt_last (A : Type) s g (F : str -> groups -> A) :
  mt (opt is_dq) s g (fun s' g' => Some (F s' g'))
  = Some (F (after_quote s) g).
Proof.
  unfold opt. cbn [mt]. destruct s as [|x t]; [reflexivity|].
  cbn [rep after_quote below Nat.ltb Nat.leb].
  destruct (is_dq x); [|reflexivity]. cbn [andb].
  destruct t as [|y t']; cbn [rep below Nat.ltb Nat.leb];
    rewrite ?andb_false_r; reflexivity.
Qed.

Lemma nce_not_space x : not_charset_end x = true -> isspace x = false.
Proof.
  unfold not_charset_end. intros H. apply negb_true_iff in H.
  now apply orb_false_iff in H as [H _]; apply orb_false_iff in H as [H _];
    apply orb_false_iff in H as [H _].
Qed.

Lemma nce_not_dq x : not_charset_end x = true -> is_dq x = false.
Proof.
  unfold not_charset_end, is_dq. intros H. apply negb_true_iff in H.
  apply orb_false_iff in H as [H _]; apply orb_false_iff in H as [H _].
  now apply orb_false_iff in H as [_ H].
Qed.

(** The value of a charset declaration and what follows it. *)
Lemma charset_value (A : Type) v c post g (F : str -> groups -> A) :
  v <> [] -> forallb not_charset_end v = true -> value_ends c = true ->
  mt (seqs [Grp 1 (plus not_charset_end); opt is_dq])
     (v ++ c ++ 62%N :: post) g (fun s' g' => Some (F s' g'))
  = Some (F (after_quote (c ++ 62%N :: post)) ((1, v) :: g)).
Proof.
  intros Hne Hv Hc. rewrite mt_seqs_cons. unfold plus. cbn [mt seqs].
  assert (Hx : exists x X, c ++ 62%N :: post = x :: X
                           /\ not_charset_end x = false).
  { destruct c as [|e c']; [exists 62%N, post; auto|].
    exists e, (c' ++ 62%N :: post). split; [reflexivity|].
    cbn [value_ends] in Hc. now apply negb_true_iff in Hc. }
  destruct Hx as (x & X & Ex & Px). rewrite Ex.
  apply rep_greedy_first.
  - rewrite dropwhile_app_stop by assumption.
    rewrite (mt_opt_last (x :: X) _ F).
    rewrite length_app, Nat.add_sub, firstn_app, firstn_all, Nat.sub_diag,
      app_nil_r.
    reflexivity.
  - rewrite run_len_app_stop by assumption.
    destruct v; [congruence|cbn; lia].
Qed.

(** From [charset] on. *)
Lemma charset_tail (A : Type) q v c post (F : str -> groups -> A) :
  q = [] \/ q = [dquote] ->
  v <> [] -> forallb not_charset_end v = true -> value_ends c = true ->
  mt (seqs [ilits "charset"; star isspace; Chr (one "="); star isspace;
            opt is_dq; Grp 1 (plus not_charset_end); opt is_dq])
     (u "charset=" ++ q ++ v ++ c ++ 62%N :: post) []
     (fun s' g' => Some (F s' g'))
  = Some (F (after_quote (c ++ 62%N :: post)) [(1, v)]).
Proof.
  intros Hq Hne Hv Hc. unfold ilits.
  change (u "charset=" ++ q ++ v ++ c ++ 62%N :: post)
    with (u "charset" ++ 61%N :: q ++ v ++ c ++ 62%N :: post).
  rewrite mt_ilits_self by (intros x [<-|[<-|[<-|[<-|[<-|[<-|[<-|[]]]]]]]];
                            reflexivity).
  rewrite mt_star_stop by reflexivity.
  rewrite mt_chr_take by reflexivity.
  destruct v as [|v0 v']; [congruence|].
  assert (Hv0 : not_charset_end v0 = true).
  { cbn [forallb] in Hv. now apply andb_true_iff in Hv as [Hv _]. }
  destruct Hq as [-> | ->]; cbn [app].
  - rewrite mt_star_stop by (now apply nce_not_space).
    rewrite mt_opt_skip by (now apply nce_not_dq).
    exact (@charset_value A (v0 :: v') c post [] F Hne Hv Hc).
  - rewrite mt_star_stop by reflexivity.
    apply mt_opt_take; [reflexivity|].
    exact (@charset_value A (v0 :: v') c post [] F Hne Hv Hc).
Qed.

Lemma charset_match a q v c post :
  has_char 62%N a = false ->
  q = [] \/ q = [dquote] ->
  v <> [] -> forallb not_charset_end v = true -> value_ends c = true ->
  icontains (u "charset") (skipn 1 (u "charset=" ++ q ++ v ++ c)) = false ->
  exists m rest,
    match_at re_charset false (charset_element a q v ++ c ++ 62%N :: post)
    = Some (m, rest)
    /\ group m 1 = v.
Proof.
  intros Ha Hq Hne Hv Hc Hb.
  set (s := charset_element a q v ++ c ++ 62%N :: post).
  assert (Es : s = u "<meta" ++ a ++ (u "charset=" ++ q ++ v ++ c ++ 62%N :: post)).
  { unfold s, charset_element.
    repeat (rewrite <- ?app_assoc; cbn [app]). reflexivity. }
  exists (MkMatch (firstn (length s - length (after_quote (c ++ 62%N :: post))) s)
                  [(1, v)]),
         (after_quote (c ++ 62%N :: post)).
  split; [|reflexivity].
  unfold match_at, re_charset. unfold ilits at 1. rewrite Es at 1.
  rewrite mt_ilits_self by (intros x [<-|[<-|[<-|[<-|[<-|[]]]]]]; reflexivity).
  rewrite mt_seqs_cons. unfold star at 1. cbn [mt andb].
  apply rep_greedy_last.
  - cbv beta.
    now rewrite (@charset_tail _ q v c post
                   (fun s' g' => (MkMatch (firstn (length s - length s') s) g', s'))).
  - intros a' b' Hab Hne' Hp.
    unfold ilits. rewrite mt_seqs_cons, mt_ilits.
    assert (E : istartswith (u "charset") b' = false); [|now rewrite E].
    apply (@lit_beyond (u "charset") (u "charset=" ++ q ++ v ++ c) post
             eq_refl a' b'); auto.
    rewrite <- Hab. repeat (rewrite <- ?app_assoc; cbn [app]). reflexivity.
  - apply has_char_forallb in Ha. exact Ha.
  - lia.
Qed.

Variable lower : str -> str.

Lemma metas_get_charset html :
  dget (u "charset") (extract_metas lower html)
  = option_map (fun m => lower (group m 1)) (search re_charset html).
Proof.
  unfold extract_metas, meta_names. cbn [fold_left].
  destruct (search re_charset html), (search (re_meta "description") html),
    (search (re_meta "keywords") html), (search (re_meta "robots") html),
    (search re_canonical html); reflexivity.
Qed.

End CharsetPattern.

(** X19.  The charset of a page.  For a text that has no [<meta] before a
    meta tag that holds [charset=] and a value, with or without a double
    quote before it, the extractor gives [charset] the value in lower case:
    the value is the longest run of characters other than whitespace, a
    double quote, a slash and [>], provided the rest of the tag does not
    hold [charset] again.  The declaration may be an attribute of the tag or
    part of the value of another attribute, as in a [content] of
    [text/html; charset=...]. *)
Theorem charset_record (lower : str -> str) (pre a q v c post : str) :
  icontains (u "<meta") pre = false ->
  has_char 62%N a = false ->
  q = [] \/ q = [dquote] ->
  v <> [] -> forallb not_charset_end v = true -> value_ends c = true ->
  icontains (u "charset") (q ++ v ++ c) = false ->
  dget (u "charset")
    (extract_metas lower (pre ++ charset_element a q v ++ c ++ u ">" ++ post))
  = Some (lower v).
Proof.
  intros Hpre Ha Hq Hne Hv Hc Hb.
  rewrite metas_get_charset.
  destruct (@charset_match a q v c post Ha Hq Hne Hv Hc) as (m & rest & Hm & Hg).
  { change (skipn 1 (u "charset=" ++ q ++ v ++ c))
      with (104%N :: 97%N :: 114%N :: 115%N :: 101%N :: 116%N :: 61%N
              :: q ++ v ++ c).
    cbn [icontains istartswith]. exact Hb. }
  change (u ">" ++ post) with (62%N :: post).
  change (charset_element a q v ++ c ++ 62%N :: post)
    with (60%N :: (u "meta" ++ a ++ u "charset=" ++ q ++ v) ++ c ++ 62%N :: post)
    in Hm |- *.
  rewrite (@search_skip_before re_charset (u "meta") _ m rest); auto.
  - cbn [option_map]. now rewrite Hg.
  - apply (ilits_starts_with_lit (u "<meta")
             [star (non ">"); ilits "charset"; star isspace; Chr (one "=");
              star isspace; opt is_dq; Grp 1 (plus not_charset_end);
              opt is_dq]).
  - intros x [<-|[<-|[<-|[<-|[]]]]]; reflexivity.
Qed.

Lemma charset_record_witness :
  dget (u "charset")
    (extract_metas ascii_lower
       (u "<html><head>"
        ++ charset_element
             (u " http-equiv=" ++ quoted (u "Content-Type") ++ u " content="
                ++ [dquote] ++ u "text/html; ")
             [] (u "Windows-1251")
        ++ [dquote] ++ u ">" ++ u "</head>"))
  = Some (u "windows-1251").
Proof.
  rewrite (@charset_record ascii_lower (u "<html><head>")
             (u " http-equiv=" ++ quoted (u "Content-Type") ++ u " content="
                ++ [dquote] ++ u "text/html; ")
             [] (u "Windows-1251") [dquote] (u "</head>")
             eq_refl eq_refl (or_introl eq_refl) ltac:(discriminate)
             eq_refl eq_refl eq_refl).
  reflexivity.
Defined.

Section ValueShape.

(** Every match of a scan with a pattern that matches no empty text is a
    match of the pattern at some place. *)
Lemma hits_forall r (P : rmatch -> Prop) :
  0 < min_len r ->
  (forall s m rest, match_at r false s = Some (m, rest) -> P m) ->
  forall s, Forall P (finditer r s).
Proof.
  intros Hm HP s. unfold finditer. fold (hits (scan r s)).
  pattern s. apply sub_ind. clear s. intros s IH.
  rewrite scan_eq by exact Hm.
  destruct (match_at r false s) as [[m rest]|] eqn:E.
  - cbn [hits flat_map app]. constructor; [now apply (HP s m rest)|].
    apply IH. now apply (match_at_nonempty r false s Hm E).
  - destruct s as [|x s']; [constructor|].
    cbn [hits flat_map app]. apply IH. cbn. lia.
Qed.

Lemma run_forallb p : forall s, forallb p (firstn (run_len p s) s) = true.
Proof.
  induction s as [|x s IH]; [reflexivity|].
  rewrite run_len_cons. destruct (p x) eqn:Px; [|reflexivity].
  cbn [firstn forallb]. now rewrite Px, IH.
Qed.

Lemma not_dq_absent v : forallb not_dq v = true -> has_char dquote v = false.
Proof.
  induction v as [|x v IH]; [reflexivity|].
  cbn [forallb has_char existsb]. intros H.
  apply andb_true_iff in H as [Hx H]. fold (has_char dquote v).
  rewrite (IH H), orb_false_r. unfold not_dq in Hx.
  apply negb_true_iff in Hx. now rewrite N.eqb_sym.
Qed.

Lemma value_rest_clean b v rest :
  value_rest b = Some (v, rest) -> has_char dquote v = false.
Proof.
  unfold value_rest. destruct (dropwhile not_dq b); [discriminate|].
  destruct (1 <=? run_len not_dq b); [|discriminate].
  intros H. injection H as <- _. apply not_dq_absent, run_forallb.
Qed.

Lemma value_rest0_clean b v rest :
  value_rest0 b = Some (v, rest) -> has_char dquote v = false.
Proof.
  unfold value_rest0. destruct (dropwhile not_dq b); [discriminate|].
  intros H. injection H as <- _. apply not_dq_absent, run_forallb.
Qed.

Lemma find_attr_clean name : forall s, has_char dquote (find_attr name s) = false.
Proof.
  induction s as [|x s IH]; rewrite find_attr_eq; unfold attr_value_at.
  - destruct (istartswith name []); [|reflexivity].
    destruct (attr_rest _) as [b2|]; [|reflexivity].
    destruct (value_rest b2) as [[v r]|] eqn:E; [|reflexivity].
    now apply value_rest_clean in E.
  - destruct (istartswith name (x :: s)); [|exact IH].
    destruct (attr_rest _) as [b2|]; [|exact IH].
    destruct (value_rest b2) as [[v r]|] eqn:E; [|exact IH].
    now apply value_rest_clean in E.
Qed.

Lemma find_attr0_clean name : forall s, has_char dquote (find_attr0 name s) = false.
Proof.
  induction s as [|x s IH]; rewrite find_attr0_eq; unfold attr_value_at0.
  - destruct (istartswith name []); [|reflexivity].
    destruct (attr_rest _) as [b2|]; [|reflexivity].
    destruct (value_rest0 b2) as [[v r]|] eqn:E; [|reflexivity].
    now apply value_rest0_clean in E.
  - destruct (istartswith name (x :: s)); [|exact IH].
    destruct (attr_rest _) as [b2|]; [|exact IH].
    destruct (value_rest0 b2) as [[v r]|] eqn:E; [|exact IH].
    now apply value_rest0_clean in E.
Qed.

Lemma strip_keeps_absent c s : has_char c s = false -> has_char c (strip s) = false.
Proof.
  intros H. destruct (strip_middle s) as (pre & post & E).
  rewrite E, !has_char_app in H.
  apply orb_false_iff in H as [_ H]. now apply orb_false_iff in H as [H _].
Qed.

(** The groups of a match of the link pattern. *)
Lemma link_match_groups s m rest :
  match_at re_link false s = Some (m, rest) ->
  exists v body,
    m_groups m = [(2, body); (1, v)]
    /\ v <> [] /\ has_char dquote v = false.
Proof.
  rewrite link_match. destruct (istartswith (u "<a") s); [|discriminate].
  intros H. apply rep_sound in H as (w & s' & _ & _ & _ & _ & H).
  unfold link_at_tail, attr_value_at in H.
  destruct (istartswith (u "href") s'); [|discriminate].
  destruct (attr_rest _) as [b2|]; [|discriminate].
  destruct (value_rest b2) as [[v b3]|] eqn:E; [|discriminate].
  destruct (tag_end b3) as [b4|]; [|discriminate].
  destruct (find_lit (u "</a>") b4) as [j|]; [|discriminate].
  injection H as <- _. exists v, (firstn j b4). split; [reflexivity|]. split.
  - unfold value_rest in E. destruct (dropwhile not_dq b2); [discriminate|].
    destruct (1 <=? run_len not_dq b2) eqn:L; [|discriminate].
    injection E as <- _. apply Nat.leb_le in L.
    destruct b2 as [|y b2]; [cbn in L; lia|].
    rewrite run_len_cons in L |- *. destruct (not_dq y); [discriminate|lia].
  - now apply value_rest_clean in E.
Qed.

End ValueShape.

(** ** The record of a link *)

Section Reached.

(** Text at no place of which the pattern matches is passed over. *)
Lemma scan_skip_unmatched r s :
  0 < min_len r ->
  forall pre,
    (forall a b, pre = a ++ b -> b <> [] -> match_at r false (b ++ s) = None) ->
    scan r (pre ++ s) = map Lit pre ++ scan r s.
Proof.
  intros Hm. induction pre as [|x pre IH]; intros H; [reflexivity|].
  cbn [app map]. rewrite scan_eq by exact Hm.
  pose proof (H [] (x :: pre) eq_refl ltac:(discriminate)) as E.
  cbn [app] in E. rewrite E.
  rewrite IH; [reflexivity|].
  intros a b -> Hb. now apply (H (x :: a) b).
Qed.

(** The link pattern matches at no place of a text without [<a], whatever
    follows the text from a [<] on. *)
Lemma link_not_before pre R :
  icontains (u "<a") pre = false ->
  forall a b, pre = a ++ b -> b <> [] ->
  match_at re_link false (b ++ 60%N :: R) = None.
Proof.
  intros H a b Hab Hb.
  apply (ilits_starts_with_lit (u "<a") (star (non ">") :: link_tail_items)).
  assert (Htl : forall c, In c [97%N] -> ichar c 60 = false)
    by (intros c [<-|[]]; reflexivity).
  exact (@lit_not_before [97%N] pre R Htl H a b Hab Hb).
Qed.

(** The record of an anchor element the scan has reached. *)
Lemma link_of_element pre before v after body post :
  has_char 62%N before = false ->
  v <> [] -> has_char dquote v = false ->
  has_char 62%N after = false ->
  icontains (u "href") (v ++ dquote :: after) = false ->
  icontains (u "</a>") body = false ->
  (forall a b, pre = a ++ b -> b <> [] ->
     match_at re_link false (b ++ anchor_element before v after body ++ post)
     = None) ->
  extract_links (pre ++ anchor_element before v after body ++ post)
  = MkLink (strip v) (strip_tags body)
           (find_attr (u "rel") (anchor_element before v after body))
           (find_attr (u "target") (anchor_element before v after body))
      :: extract_links post.
Proof.
  intros Hb Hv Hq Ha Hh Hc Hp.
  unfold extract_links, finditer.
  change (flat_map (fun t => match t with Lit _ => [] | Hit m => [m] end))
    with hits.
  rewrite (@scan_skip_unmatched re_link _ re_link_nonempty pre Hp), hits_skip.
  rewrite scan_eq by apply re_link_nonempty.
  rewrite link_match_element by assumption.
  cbn [hits flat_map app map]. f_equal.
  unfold link_of_match. cbn [group lookup m_whole m_groups Nat.eqb].
  now rewrite !search_attr1.
Qed.

End Reached.

(** C2 (as amended).  For every text the extractor emits one record for
    each successive match of the link pattern, in the order of the text.
    The match holds a quoted value that is not empty and has no double quote
    in it, and a body.  The [href] of the record is that value with the
    whitespace around it stripped; its [anchor] is the body with its tags
    stripped; its [rel] and [target] are the values of the first
    [rel="..."] and [target="..."] found in the text of the whole match,
    body included: empty when the name occurs nowhere in it, and the value
    of the attribute when the first occurrence of the name is that
    attribute.  An anchor element whose [href] attribute has a non-empty
    double-quoted value, with no [>] in its tag before [href] or after the
    value, with [href] occurring neither in the value nor in the rest of the
    tag after it, and with no closing tag in its body, is one match of the
    pattern.  When the pattern matches at no place of the text before the
    element, which is so when [<a] does not occur there, its record is the
    first and the records of the text after the element follow it. *)
Theorem anchor_record (html : str) :
  extract_links html
  = map (fun m => MkLink (strip (group m 1)) (strip_tags (group m 2))
                         (find_attr (u "rel") (group m 0))
                         (find_attr (u "target") (group m 0)))
        (finditer re_link html)
  /\ Forall (fun m => exists v body,
               m_groups m = [(2, body); (1, v)]
               /\ v <> [] /\ has_char dquote v = false)
            (finditer re_link html)
  /\ (forall pre before v after body post,
        html = pre ++ anchor_element before v after body ++ post ->
        has_char 62%N before = false ->
        v <> [] -> has_char dquote v = false ->
        has_char 62%N after = false ->
        icontains (u "href") (v ++ dquote :: after) = false ->
        icontains (u "</a>") body = false ->
        let elem := anchor_element before v after body in
        let rec := MkLink (strip v) (strip_tags body)
                          (find_attr (u "rel") elem)
                          (find_attr (u "target") elem) in
        match_at re_link false (elem ++ post)
        = Some (MkMatch elem [(2, body); (1, v)], post)
        /\ ((forall a b, pre = a ++ b -> b <> [] ->
               match_at re_link false (b ++ elem ++ post) = None) ->
            extract_links html = rec :: extract_links post)
        /\ (icontains (u "<a") pre = false ->
            extract_links html = rec :: extract_links post))
  /\ (forall name s, icontains name s = false -> find_attr name s = [])
  /\ (forall name front val back,
        icontains name front = false ->
        (forall c, In c name -> ichar c c = true /\ ichar c 32 = false) ->
        val <> [] -> has_char dquote val = false ->
        find_attr name (front ++ 32%N :: name ++ 61%N :: quoted val ++ back)
        = val).
Proof.
  split; [|split; [|split; [|split]]].
  - unfold extract_links. apply map_ext. intros m.
    unfold link_of_match. now rewrite !search_attr1.
  - apply (@hits_forall re_link _ re_link_nonempty link_match_groups).
  - intros pre before v after body post -> Hb Hv Hq Ha Hh Hc elem rec.
    split; [now apply link_match_element|]. split.
    + intros Hp. now apply link_of_element.
    + intros Hp. apply link_of_element; auto.
      intros a b Hab Hne.
      now apply (@link_not_before pre _ Hp a b).
  - intros name s. apply find_attr_absent.
  - intros name front val back Hf Hn Hval Hvq. now apply find_attr_first.
Qed.

Lemma anchor_record_witness :
  extract_links
    (u "<p>See " ++
     anchor_element (u " class=" ++ quoted (u "c") ++ u " ") (u " /x?a=1 ")
       (u " rel=" ++ quoted (u "nofollow") ++ u " target=" ++ quoted (u "_blank"))
       (u "A  <b>b</b>")
     ++ u ".</p>")
  = [MkLink (u "/x?a=1") (u "A b") (u "nofollow") (u "_blank")].
Proof.
  refine (eq_trans
            (proj2 (proj2 (proj1 (proj2 (proj2 (@anchor_record _)))
               (u "<p>See ")
               (u " class=" ++ quoted (u "c") ++ u " ") (u " /x?a=1 ")
               (u " rel=" ++ quoted (u "nofollow") ++ u " target="
                  ++ quoted (u "_blank"))
               (u "A  <b>b</b>") (u ".</p>")
               eq_refl eq_refl ltac:(discriminate) eq_refl eq_refl eq_refl
               eq_refl))
               eq_refl)
            _).
  vm_compute. reflexivity.
Defined.

(** C2 (as stated) fails: the [href] of the record is the attribute value
    stripped, not the raw value, and [rel] is looked for in the body too, so
    it is not empty when the tag has no [rel] attribute but the body has
    text of that form.  Nor does every anchor tag with a quoted [href] give
    a record of its own: when the value holds [href] itself the record is
    read from the last place of the tag where the attribute pattern matches,
    a [>] inside the tag before [href] leaves the tag unmatched, and an
    anchor in the body of an anchor that is not closed is part of that
    body. *)
Lemma href_not_raw :
  extract_links (anchor_element (u " ") (u " /x ") [] (u "t"))
  = [MkLink (u "/x") (u "t") [] []]
  /\ extract_links (anchor_element (u " ") (u "x") []
                      (u "rel=" ++ quoted (u "y")))
     = [MkLink (u "x") (u "rel=" ++ quoted (u "y")) (u "y") []]
  /\ extract_links (anchor_element (u " ") (u "x href=")
                      (u " y=" ++ quoted (u "1")) (u "t"))
     = [MkLink (u "y=") (u "t") [] []]
  /\ extract_links (anchor_element (u " title=" ++ quoted (u ">") ++ u " ")
                      (u "x") [] (u "t"))
     = []
  /\ extract_links (u "<a href=" ++ quoted (u "q") ++ u ">"
                      ++ anchor_element (u " ") (u "v") [] (u "b"))
     = [MkLink (u "q") (u "b") [] []].
Proof. repeat split; vm_compute; reflexivity. Qed.

(** X20.  The values the extractor returns.  No [href], [rel] or [target]
    of an extracted link and no field of an extracted image holds a double
    quote, and the [href] of a link and the fields of an image have no
    whitespace at either end, so that the [strip] the validator applies to
    them changes nothing.  The [href] of a link comes from a quoted value
    that is not empty, its anchor is the body of the element without its
    tags, and its [rel] and [target] are read from the text of the whole
    element, body included. *)
Theorem extracted_values_shape (html : str) :
  (forall l, In l (extract_links html) ->
     (exists m v body,
        In m (finditer re_link html)
        /\ m_groups m = [(2, body); (1, v)] /\ v <> []
        /\ href l = strip v /\ anchor l = strip_tags body
        /\ rel l = find_attr (u "rel") (m_whole m)
        /\ target l = find_attr (u "target") (m_whole m))
     /\ strip (href l) = href l
     /\ has_char dquote (href l) = false
     /\ has_char dquote (rel l) = false
     /\ has_char dquote (target l) = false)
  /\ (forall i, In i (extract_images html) ->
        Forall (fun f => has_char dquote f = false /\ strip f = f)
               [src i; alt i; title i; width i; height i]).
Proof.
  split.
  - intros l Hl. unfold extract_links in Hl.
    apply in_map_iff in Hl as (m & <- & Hm).
    pose proof (@hits_forall re_link
                  (fun m => exists v body,
                       m_groups m = [(2, body); (1, v)]
                       /\ v <> [] /\ has_char dquote v = false)
                  re_link_nonempty link_match_groups html) as F.
    rewrite Forall_forall in F.
    destruct (F m Hm) as (v & body & Hg & Hne & Hv).
    assert (G1 : group m 1 = v) by (unfold group; now rewrite Hg).
    assert (G2 : group m 2 = body) by (unfold group; now rewrite Hg).
    unfold link_of_match. cbn [href anchor rel target].
    rewrite !search_attr1, G1, G2. cbn [group].
    split; [exists m, v, body; repeat split; auto|].
    split; [apply strip_idem|]. split; [now apply strip_keeps_absent|].
    split; apply find_attr_clean.
  - intros i Hi. unfold extract_images in Hi.
    apply in_map_iff in Hi as (m & <- & Hm).
    rewrite image_of_match_tag. unfold image_of_tag.
    cbn [src alt title width height].
    repeat constructor;
      try (apply strip_keeps_absent, find_attr0_clean); apply strip_idem.
Qed.

(** X21.  The headings of a page, as a whole.  The record has one entry
    for each level from 1 to 6 that has a heading text that is not empty,
    in the order of the levels, whatever the order of the headings in the
    text; the entry of a level is the texts of the bodies of its elements
    without their tags, stripped, those that are empty left out, in the
    order of the text. *)
Theorem headings_in_level_order (html : str) :
  extract_headings html
  = map (fun level => (heading_tag level, level_items html level))
        (filter (fun level => negb (is_empty (level_items html level)))
                (seq 1 6)).
Proof.
  rewrite extract_headings_fold.
  cbn [seq fold_left filter]. unfold set_level, level_value.
  destruct (level_items html 1) as [|x1 l1] eqn:E1;
    destruct (level_items html 2) as [|x2 l2] eqn:E2;
    destruct (level_items html 3) as [|x3 l3] eqn:E3;
    destruct (level_items html 4) as [|x4 l4] eqn:E4;
    destruct (level_items html 5) as [|x5 l5] eqn:E5;
    destruct (level_items html 6) as [|x6 l6] eqn:E6;
    cbn [is_empty negb map];
    rewrite ?E1, ?E2, ?E3, ?E4, ?E5, ?E6; reflexivity.
Qed.

(* ================================================================== *)
(** * Further properties of the validator *)
(* ================================================================== *)

Section Stream.

Variable json_loads : str -> res (json + str).

Lemma iter_from_step n line lines :
  iter_from json_loads n (line :: lines)
  = if blank line then iter_from json_loads (S n) lines
    else match record_at json_loads n line with
         | Some rec => yield rec (iter_from json_loads (S n) lines)
         | None =>
             MkGen [] (match json_loads (strip line) with
                       | Raise x => Some x
                       | Ok _ => None
                       end)
         end.
Proof.
  cbn [iter_from]. unfold blank, record_at.
  destruct (is_empty (strip line)); [reflexivity|].
  destruct (json_loads (strip line)) as [[v|e]|x]; reflexivity.
Qed.

Lemma read_lines_step n line lines :
  read_lines json_loads (line :: lines)
  = if blank line then line :: read_lines json_loads lines
    else match record_at json_loads n line with
         | Some _ => line :: read_lines json_loads lines
         | None => []
         end.
Proof.
  cbn [read_lines]. unfold record_at.
  destruct (blank line); [reflexivity|].
  destruct (json_loads (strip line)) as [[v|e]|x]; reflexivity.
Qed.

Lemma record_at_fst k line n obj :
  record_at json_loads k line = Some (n, obj) -> n = k.
Proof.
  unfold record_at.
  destruct (json_loads (strip line)) as [[v|e]|x]; try discriminate;
    now intros [= <- _].
Qed.

Lemma record_at_none k line :
  record_at json_loads k line = None ->
  exists x, json_loads (strip line) = Raise x.
Proof.
  unfold record_at.
  destruct (json_loads (strip line)) as [[v|e]|x]; try discriminate; eauto.
Qed.

Lemma nth_shift (line : str) l k :
  filter (fun n => negb (blank (nth (n - k) (line :: l) [])))
         (seq (S k) (length l))
  = filter (fun n => negb (blank (nth (n - S k) l []))) (seq (S k) (length l)).
Proof.
  apply filter_ext_in. intros n Hn. apply in_seq in Hn.
  replace (n - k) with (S (n - S k)) by lia. reflexivity.
Qed.

Lemma iter_from_numbers : forall lines k,
  map fst (yields (iter_from json_loads k lines))
  = filter (fun n => negb (blank (nth (n - k) (read_lines json_loads lines) [])))
      (seq k (length (read_lines json_loads lines))).
Proof.
  induction lines as [|line lines IH]; intros k; [reflexivity|].
  rewrite iter_from_step, (read_lines_step k).
  destruct (blank line) eqn:B.
  - cbn [length seq filter]. rewrite nth_shift, Nat.sub_diag.
    change (nth 0 (line :: read_lines json_loads lines) []) with line.
    rewrite B. cbn [negb]. apply IH.
  - destruct (record_at json_loads k line) as [[n obj]|] eqn:R; [|reflexivity].
    apply record_at_fst in R as ->.
    cbn [yield yields map fst length seq filter].
    rewrite nth_shift, Nat.sub_diag.
    change (nth 0 (line :: read_lines json_loads lines) []) with line.
    rewrite B. cbn [negb]. f_equal. apply IH.
Qed.

Lemma iter_from_in : forall lines k n obj,
  In (n, obj) (yields (iter_from json_loads k lines))
  <-> exists line, k <= n
                   /\ nth_error (read_lines json_loads lines) (n - k) = Some line
                   /\ blank line = false
                   /\ record_at json_loads n line = Some (n, obj).
Proof.
  induction lines as [|line lines IH]; intros k n obj.
  - cbn [iter_from yields In read_lines]. split; [tauto|].
    intros (l & _ & H & _). destruct (n - k); discriminate.
  - rewrite iter_from_step, (read_lines_step k).
    assert (Later :
      In (n, obj) (yields (iter_from json_loads (S k) lines))
      <-> exists l, k <= n /\ n <> k
                    /\ nth_error (line :: read_lines json_loads lines) (n - k)
                       = Some l
                    /\ blank l = false
                    /\ record_at json_loads n l = Some (n, obj)).
    { rewrite IH. split.
      - intros (l & Hk & Hn & Hb & Hr). exists l.
        replace (n - k) with (S (n - S k)) by lia.
        repeat split; auto; lia.
      - intros (l & Hk & Hne & Hn & Hb & Hr). exists l.
        replace (n - k) with (S (n - S k)) in Hn by lia.
        repeat split; auto. lia. }
    destruct (blank line) eqn:B.
    + rewrite Later. split.
      * intros (l & Hk & _ & H). eauto.
      * intros (l & Hk & Hn & Hb & Hr). exists l.
        repeat split; auto. intros ->.
        rewrite Nat.sub_diag in Hn. injection Hn as ->. congruence.
    + destruct (record_at json_loads k line) as [[n0 o0]|] eqn:R.
      * pose proof (record_at_fst _ _ R) as ->.
        cbn [yield yields In]. rewrite Later. split.
        -- intros [H|(l & Hk & _ & H)]; [|eauto].
           injection H as <- <-. exists line. rewrite Nat.sub_diag.
           repeat split; auto.
        -- intros (l & Hk & Hn & Hb & Hr).
           destruct (Nat.eq_dec n k) as [->|Hne].
           ++ left. rewrite Nat.sub_diag in Hn. injection Hn as ->.
              congruence.
           ++ right. exists l. repeat split; auto.
      * cbn [yields In]. split; [tauto|].
        intros (l & _ & H & _). destruct (n - k); discriminate.
Qed.

Lemma iter_from_length : forall lines k,
  length (yields (iter_from json_loads k lines))
  = length (filter (fun l => negb (blank l)) (read_lines json_loads lines)).
Proof.
  induction lines as [|line lines IH]; intros k; [reflexivity|].
  rewrite iter_from_step, (read_lines_step k).
  destruct (blank line) eqn:B.
  - cbn [filter]. rewrite B. cbn [negb]. apply IH.
  - destruct (record_at json_loads k line) as [rec|]; [|reflexivity].
    cbn [yield yields filter length]. rewrite B. cbn [negb length].
    f_equal. apply IH.
Qed.

Lemma iter_from_raises : forall lines k,
  match raises (iter_from json_loads k lines) with
  | None => read_lines json_loads lines = lines
  | Some x =>
      exists line rest,
        lines = read_lines json_loads lines ++ line :: rest
        /\ blank line = false /\ json_loads (strip line) = Raise x
  end.
Proof.
  induction lines as [|line lines IH]; intros k; [reflexivity|].
  rewrite iter_from_step, (read_lines_step k). specialize (IH (S k)).
  destruct (blank line) eqn:B.
  - destruct (raises (iter_from json_loads (S k) lines)) as [x|].
    + destruct IH as (l & r & E & H). exists l, r. split; [|exact H].
      cbn [app]. now f_equal.
    + now f_equal.
  - destruct (record_at json_loads k line) as [rec|] eqn:R.
    + cbn [yield raises].
      destruct (raises (iter_from json_loads (S k) lines)) as [x|].
      * destruct IH as (l & r & E & H). exists l, r. split; [|exact H].
        cbn [app]. now f_equal.
      * now f_equal.
    + apply record_at_none in R as [x R]. rewrite R. cbn [raises].
      exists line, lines. auto.
Qed.

Lemma iter_from_completes lines k :
  (forall line x, In line lines -> json_loads (strip line) <> Raise x) ->
  read_lines json_loads lines = lines
  /\ raises (iter_from json_loads k lines) = None.
Proof.
  intros H. pose proof (iter_from_raises lines k) as R.
  destruct (raises (iter_from json_loads k lines)) as [x|]; [|auto].
  destruct R as (l & r & E & _ & Hx). exfalso. apply (H l x); [|exact Hx].
  rewrite E. apply in_or_app. right. now left.
Qed.

End Stream.

(** X4.  [iter_ndjson] numbers the lines from 1 and counts the blank lines
    it skips: the numbers of its records are the numbers of the lines that
    are not blank, in increasing order, and the record with the number [n]
    is made of line [n], the parsed value or the parse-error object that
    carries [n].  The lines it gets through are all the lines of the file
    when [json.loads] raises nothing but [JSONDecodeError], and otherwise
    those before the first line on which it raises another exception, which
    ends the generator. *)
Theorem iter_ndjson_numbers (json_loads : str -> res (json + str))
    (lines : list str) :
  let g := iter_ndjson json_loads lines in
  let recs := yields g in
  let read := read_lines json_loads lines in
  map fst recs
  = filter (fun n => negb (blank (nth (n - 1) read []))) (seq 1 (length read))
  /\ (forall n obj,
        In (n, obj) recs
        <-> exists line, 1 <= n /\ nth_error read (n - 1) = Some line
                         /\ blank line = false
                         /\ record_at json_loads n line = Some (n, obj))
  /\ length recs = length (filter (fun l => negb (blank l)) read)
  /\ match raises g with
     | None => read = lines
     | Some x =>
         exists line rest,
           lines = read ++ line :: rest
           /\ blank line = false /\ json_loads (strip line) = Raise x
     end
  /\ ((forall line x, In line lines -> json_loads (strip line) <> Raise x) ->
      read = lines /\ raises g = None).
Proof.
  cbv zeta. unfold iter_ndjson. split; [|split; [|split; [|split]]].
  - apply iter_from_numbers.
  - intros n obj. apply iter_from_in.
  - apply iter_from_length.
  - apply iter_from_raises.
  - apply iter_from_completes.
Qed.

Section Paths.

Lemma add_path_in p q paths :
  In q (add_path p paths) <-> q = p \/ In q paths.
Proof.
  unfold add_path. destruct (seen p paths) eqn:S.
  - split; auto. intros [->|H]; auto.
    unfold seen in S. apply existsb_exists in S as (x & Hx & E).
    apply str_eqb_eq in E. now subst.
  - rewrite in_app_iff. cbn. intuition.
Qed.

Lemma add_path_nodup p paths : NoDup paths -> NoDup (add_path p paths).
Proof.
  intros H. unfold add_path. destruct (seen p paths) eqn:S; auto.
  apply NoDup_app; auto.
  - constructor; [intros []|constructor].
  - intros x Hx [E|[]]. subst x.
    assert (seen p paths = true); [|congruence].
    unfold seen. apply existsb_exists. exists p. split; auto.
    apply str_eqb_refl.
Qed.

Lemma fold_add_path ps : forall acc,
  NoDup acc ->
  NoDup (fold_left (fun acc p => add_path p acc) ps acc)
  /\ forall q, In q (fold_left (fun acc p => add_path p acc) ps acc)
               <-> In q ps \/ In q acc.
Proof.
  induction ps as [|p ps IH]; intros acc H; cbn [fold_left].
  - split; auto. intros q. cbn. tauto.
  - destruct (IH (add_path p acc) (add_path_nodup p H)) as [N M].
    split; auto. intros q. rewrite M, add_path_in. cbn. intuition.
Qed.

End Paths.

Section Counts.

Variable lower : str -> str.

Ltac inv_bind H :=
  let a := fresh "a" in
  let E := fresh "E" in
  apply bind_ok in H as (a & E & H).

Lemma count_add_if (b : bool) i st :
  page_count (if b then add_issue i st else st) = page_count st.
Proof. destruct b; reflexivity. Qed.

Lemma check_internal_count ln path : forall links st st',
  check_internal lower ln path links st = Ok st' -> page_count st' = page_count st.
Proof.
  induction links as [|l links IH]; intros st st' H; simpl in H.
  - now injection H as <-.
  - inv_bind H.
    destruct (is_abs_url lower a && negb (has_char 47%N path)); [discriminate|].
    apply IH in H. rewrite H. apply count_add_if.
Qed.

Lemma check_external_count ln path : forall links st st',
  check_external ln path links st = Ok st' -> page_count st' = page_count st.
Proof.
  induction links as [|l links IH]; intros st st' H; simpl in H.
  - now injection H as <-.
  - inv_bind H. apply IH in H. rewrite H. apply count_add_if.
Qed.

Lemma check_images_count ln path : forall imgs st st',
  check_images ln path imgs st = Ok st' -> page_count st' = page_count st.
Proof.
  induction imgs as [|i imgs IH]; intros st st' H; simpl in H.
  - now injection H as <-.
  - inv_bind H. inv_bind H. apply IH in H. rewrite H.
    now rewrite !count_add_if.
Qed.

Lemma check_page_count ln obj st st' :
  check_page lower ln obj st = Ok st' -> page_count st' = S (page_count st).
Proof.
  unfold check_page. intros H. repeat inv_bind H.
  apply check_images_count in H.
  match goal with
  | Hi : check_internal _ _ _ _ _ = Ok _,
    He : check_external _ _ _ _ = Ok _ |- _ =>
      apply check_internal_count in Hi; apply check_external_count in He;
      rewrite H, He, Hi
  end.
  repeat match goal with
         | |- context [if ?b then _ else _] => destruct b
         end; reflexivity.
Qed.

(** What one record does to the number of pages. *)
Lemma step_count ln obj st st' :
  step lower ln obj st = Ok st' ->
  page_count st'
  = page_count st + length (page_paths [(ln, obj)]).
Proof.
  unfold page_paths. cbn [flat_map snd]. rewrite app_nil_r.
  unfold step. intros H. inv_bind H.
  destruct obj as [| | | |s|l|d]; try discriminate.
  - simpl in E. injection E as <-.
    destruct (contains (u "__error__") s); inv_bind H; discriminate.
  - simpl in E. injection E as <-.
    destruct (existsb (fun x => eq_text x (u "__error__")) l);
      inv_bind H; discriminate.
  - simpl in E. injection E as <-. cbn [page_path].
    destruct (is_some (dget (u "__error__") d)) eqn:Err.
    + inv_bind H. injection H as <-. cbn. lia.
    + inv_bind H. simpl in E. injection E as <-.
      destruct (eq_text (dget_or (u "type") JNull d) (u "site")) eqn:T1.
      * rewrite (eq_text_excl _ T1) by discriminate.
        inv_bind H. injection H as <-.
        destruct (truthy a); cbn; lia.
      * destruct (eq_text (dget_or (u "type") JNull d) (u "robotsTxt")
                  || eq_text (dget_or (u "type") JNull d) (u "sitemapXml")) eqn:T2.
        -- assert (T3 : eq_text (dget_or (u "type") JNull d) (u "page") = false).
           { apply orb_true_iff in T2 as [T|T];
               apply (eq_text_excl _ T); discriminate. }
           rewrite T3. inv_bind H. injection H as <-.
           destruct (truthy a); cbn; lia.
        -- destruct (eq_text (dget_or (u "type") JNull d) (u "page")) eqn:T3.
           ++ pose proof (check_page_count _ _ _ H) as Hc.
              apply check_page_dups in H as (p & new & Hp & _).
              rewrite Hp, Hc. cbn. lia.
           ++ injection H as <-. cbn. lia.
Qed.

Lemma page_paths_cons ln obj recs :
  page_paths ((ln, obj) :: recs)
  = match page_path obj with Some p => [p] | None => [] end ++ page_paths recs.
Proof. reflexivity. Qed.

(** The pages, the paths and the duplicate issues of a run. *)
Lemma run_counts : forall recs st st',
  run lower recs st = Ok st' ->
  page_count st' = page_count st + length (page_paths recs)
  /\ seen_paths st'
     = fold_left (fun acc p => add_path p acc) (page_paths recs) (seen_paths st)
  /\ length (seen_paths st') + length (filter is_dup (issues st'))
     = length (seen_paths st) + length (filter is_dup (issues st))
       + length (page_paths recs).
Proof.
  induction recs as [|[ln obj] recs IH]; intros st st' H.
  - simpl in H. injection H as <-. cbn. repeat split; lia.
  - cbn [run] in H. inv_bind H.
    pose proof (step_count _ _ _ E) as Hc.
    apply step_dups in E as (new & Hi & Hf & Hs).
    apply IH in H as (H1 & H2 & H3).
    rewrite page_paths_cons, length_app, fold_left_app.
    unfold page_paths in Hc. cbn [flat_map snd] in Hc. rewrite app_nil_r in Hc.
    rewrite Hi, filter_app, length_app, Hf, Hs in H3. rewrite Hs in H2.
    rewrite Hc in H1. clear Hc Hi Hf Hs.
    destruct (page_path obj) as [p|]; cbn [fold_left length app] in *.
    + split; [lia|]. split; [exact H2|]. revert H3.
      unfold add_path. destruct (seen p (seen_paths st)); cbn [length];
        rewrite ?length_app; cbn [length]; lia.
    + split; [lia|]. split; [exact H2|]. lia.
Qed.

End Counts.

(** X5.  The counts of the summary.  [pages] is the number of page records
    of the stream and [uniquePaths] the number of distinct paths among
    them, so it is at most [pages] and equal to it exactly when no two page
    records share a path; and each page record either brings a new path or
    a duplicate-path issue, so [pages] is [uniquePaths] plus the number of
    those issues. *)
Theorem summary_counts (json_loads : str -> res (json + str))
    (lower : str -> str) (lines : list str) (r : report) :
  main json_loads lower lines = Ok r ->
  let paths := page_paths (yields (iter_ndjson json_loads lines)) in
  pages r = length paths
  /\ (exists distinct,
        NoDup distinct /\ (forall p, In p distinct <-> In p paths)
        /\ uniquePaths r = length distinct)
  /\ uniquePaths r <= pages r
  /\ (uniquePaths r = pages r <-> NoDup paths)
  /\ (forall st,
        run lower (yields (iter_ndjson json_loads lines)) init = Ok st ->
        pages r = uniquePaths r + length (filter is_dup (issues st))).
Proof.
  intros H. apply main_ok in H as (st & Hrun & _ & ->).
  cbv zeta. unfold summarize. cbn [pages uniquePaths].
  destruct (run_counts _ _ _ Hrun) as (H1 & H2 & H3).
  cbn [init page_count seen_paths issues filter length] in H1, H2, H3.
  destruct (@fold_add_path (page_paths (yields (iter_ndjson json_loads lines))) []
              (NoDup_nil _)) as [N M].
  rewrite <- H2 in N, M.
  assert (I1 : incl (seen_paths st)
                    (page_paths (yields (iter_ndjson json_loads lines)))).
  { intros q Hq. apply M in Hq as [Hq|[]]. exact Hq. }
  assert (I2 : incl (page_paths (yields (iter_ndjson json_loads lines)))
                    (seen_paths st)).
  { intros q Hq. apply M. now left. }
  split; [lia|]. split; [|split; [|split]].
  - exists (seen_paths st). repeat split; auto.
  - rewrite H1. cbn. now apply NoDup_incl_length.
  - rewrite H1. cbn [Nat.add]. split.
    + intros E. apply NoDup_incl_NoDup with (l := seen_paths st); auto. lia.
    + intros Hn. apply Nat.le_antisymm; apply NoDup_incl_length; auto.
  - intros st0 Hst0. rewrite Hrun in Hst0. injection Hst0 as <-. lia.
Qed.

Lemma summary_counts_witness :
  2 = length (page_paths
                (yields (iter_ndjson toy_loads [u "A"; u "{}"; []; u "A"]))).
Proof.
  exact (proj1 (@summary_counts toy_loads ascii_lower
                  [u "A"; u "{}"; []; u "A"]
                  (MkReport 2 1 2 [UnknownType 2 JNull;
                                   DuplicatePath 4 (u "/a.htm")])
                  eq_refl)).
Defined.

Section Aborts.

Variable json_loads : str -> res (json + str).
Variable lower : str -> str.

Lemma step_non_object ln obj st :
  is_dict obj = false -> step lower ln obj st = Raise (abort_of obj).
Proof.
  destruct obj as [| | | |s|l|d]; try discriminate; intros _; try reflexivity.
  - unfold step. cbn [has_member bind abort_of].
    destruct (contains (u "__error__") s); reflexivity.
  - unfold step. cbn [has_member bind abort_of].
    destruct (existsb (fun x => eq_text x (u "__error__")) l); reflexivity.
Qed.

Lemma iter_from_good n line rest v :
  blank line = false -> json_loads (strip line) = Ok (inl v) ->
  iter_from json_loads n (line :: rest)
  = yield (n, v) (iter_from json_loads (S n) rest).
Proof.
  intros Hb Hv. cbn [iter_from]. unfold blank in Hb. now rewrite Hb, Hv.
Qed.

(** A line that parses to a value that is not an object. *)
Lemma loop_non_object pre line rest v st :
  blank line = false -> json_loads (strip line) = Ok (inl v) ->
  is_dict v = false ->
  loop lower (iter_ndjson json_loads (pre ++ line :: rest)) st
  = bind (loop lower (iter_ndjson json_loads pre) st)
      (fun _ => Raise (abort_of v)).
Proof.
  intros Hb Hv Hd. unfold iter_ndjson. rewrite iter_from_app, loop_then.
  rewrite (@iter_from_good (1 + length pre) line rest v Hb Hv).
  destruct (loop lower (iter_from json_loads 1 pre) st) as [st1|x];
    cbn [bind]; [|reflexivity].
  rewrite loop_yield, step_non_object by assumption. reflexivity.
Qed.

Lemma check_internal_cases ln path : forall links st,
  forallb typed_link links = true ->
  if negb (has_char 47%N path) && existsb (abs_link lower) links
  then check_internal lower ln path links st = Raise IndexError
  else exists st', check_internal lower ln path links st = Ok st'.
Proof.
  induction links as [|l links IH]; intros st H.
  - rewrite andb_false_r. cbn. eauto.
  - cbn [forallb] in H. apply andb_true_iff in H as [Hl H].
    destruct l; try discriminate. cbn [typed_link] in Hl.
    cbn [check_internal existsb]. unfold abs_link at 1.
    destruct (text_field_typed _ _ Hl) as [s ->]. cbn [bind].
    rewrite (andb_comm (is_abs_url lower s)).
    specialize (IH (if is_empty s
                    then add_issue (EmptyInternalHref ln path) st else st) H).
    destruct (has_char 47%N path); cbn [negb andb] in *; [exact IH|].
    destruct (is_abs_url lower s); cbn [orb]; [reflexivity|exact IH].
Qed.

Lemma typed_list_internal d :
  typed_list typed_link d (u "internalLinks") = true ->
  get (JObj d) (u "internalLinks") (JArr []) = Ok (JArr (internal_links_of d))
  /\ forallb typed_link (internal_links_of d) = true.
Proof.
  unfold typed_list, get, dget_or, internal_links_of.
  destruct (dget (u "internalLinks") d) as [[| | | | |l|]|];
    try discriminate; auto.
Qed.

Lemma check_page_cases ln d p st :
  dget_or (u "path") (JStr []) d = JStr p ->
  typed_fields d = true ->
  if negb (has_char 47%N p) && existsb (abs_link lower) (internal_links_of d)
  then check_page lower ln (JObj d) st = Raise IndexError
  else exists st', check_page lower ln (JObj d) st = Ok st'.
Proof.
  unfold typed_fields. intros Ep H.
  apply andb_true_iff in H as [H Him]. apply andb_true_iff in H as [H Hel].
  apply andb_true_iff in H as [Hm Hil].
  apply typed_list_internal in Hil as (Eiv & Til).
  apply typed_list_iterate in Hel as (ev & el & Eev & Eel & Tel).
  apply typed_list_iterate in Him as (mv & im & Emv & Eim & Tim).
  apply typed_meta_charset in Hm as (me & cv & cs & Eme & Ecv & Ecs).
  assert (Ep' : get (JObj d) (u "path") (JStr []) = Ok (JStr p)).
  { cbn [get]. now rewrite Ep. }
  unfold check_page.
  rewrite Ep'. cbn [bind as_str]. rewrite Eme. cbn [bind]. rewrite Ecv.
  cbn [bind]. rewrite Ecs. cbn [bind]. rewrite Eiv. cbn [bind iterate].
  match goal with
  | |- context [check_internal lower ln p _ ?s] =>
      pose proof (@check_internal_cases ln p (internal_links_of d) s Til) as C
  end.
  destruct (negb (has_char 47%N p)
            && existsb (abs_link lower) (internal_links_of d)).
  - rewrite C. reflexivity.
  - destruct C as [s1 ->]. cbn [bind]. rewrite Eev.
    cbn [bind]. rewrite Eel. cbn [bind].
    match goal with
    | |- context [check_external ln p el ?s] =>
        destruct (@check_external_total ln p el s Tel) as [s2 ->]
    end.
    cbn [bind]. rewrite Emv. cbn [bind]. rewrite Eim.
    cbn [bind]. now apply check_images_total.
Qed.

Lemma step_page ln d st :
  is_some (dget (u "__error__") d) = false ->
  eq_text (dget_or (u "type") JNull d) (u "page") = true ->
  step lower ln (JObj d) st = check_page lower ln (JObj d) st.
Proof.
  intros He Ht. unfold step. cbn [has_member bind get]. rewrite He.
  rewrite (eq_text_excl _ Ht (b := u "site")) by discriminate.
  rewrite (eq_text_excl _ Ht (b := u "robotsTxt")) by discriminate.
  rewrite (eq_text_excl _ Ht (b := u "sitemapXml")) by discriminate.
  cbn [orb]. now rewrite Ht.
Qed.

End Aborts.

(** X6.  A line that parses to a value that is not an object ends the run
    with an exception: the lines before it are processed, and whatever state
    they leave, nothing is printed.  The exception is a [TypeError], or an
    [AttributeError] for a text or a list without the member [__error__]. *)
Theorem non_object_line_aborts (json_loads : str -> res (json + str))
    (lower : str -> str) (pre rest : list str) (line : str) (v : json) :
  blank line = false ->
  json_loads (strip line) = Ok (inl v) ->
  is_dict v = false ->
  (forall st,
     loop lower (iter_ndjson json_loads (pre ++ line :: rest)) st
     = bind (loop lower (iter_ndjson json_loads pre) st)
         (fun _ => Raise (abort_of v)))
  /\ main json_loads lower (pre ++ line :: rest)
     = bind (loop lower (iter_ndjson json_loads pre) init)
         (fun _ => Raise (abort_of v))
  /\ (forall r, main json_loads lower (pre ++ line :: rest) <> Ok r).
Proof.
  intros Hb Hv Hd.
  assert (M : main json_loads lower (pre ++ line :: rest)
              = bind (loop lower (iter_ndjson json_loads pre) init)
                  (fun _ => Raise (abort_of v))).
  { rewrite main_loop,
      (@loop_non_object json_loads lower pre line rest v init Hb Hv Hd).
    destruct (loop lower (iter_ndjson json_loads pre) init); reflexivity. }
  split; [intros st; now apply loop_non_object|]. split; [exact M|].
  intros r. rewrite M.
  destruct (loop lower (iter_ndjson json_loads pre) init); discriminate.
Qed.

Lemma non_object_line_aborts_witness :
  main toy_values ascii_lower [u "A"; u " null "; u "A"] = Raise TypeError.
Proof.
  change [u "A"; u " null "; u "A"] with ([u "A"] ++ u " null " :: [u "A"]).
  rewrite (proj1 (proj2 (@non_object_line_aborts toy_values ascii_lower
                           [u "A"] [u "A"] (u " null ") JNull
                           eq_refl eq_refl eq_refl))).
  vm_compute. reflexivity.
Defined.

(** X7.  A page record whose path has no slash.  With fields of the shape
    the extractor writes, the record ends the run with an [IndexError] when
    one of its internal links has an absolute URL as [href], the condition of
    line 62 indexing the split path at 1; in every other case the record is
    checked to the end. *)
Theorem page_path_without_slash (lower : str -> str) (ln : nat)
    (d : dict json) (p : str) (st : state) :
  is_some (dget (u "__error__") d) = false ->
  eq_text (dget_or (u "type") JNull d) (u "page") = true ->
  dget_or (u "path") (JStr []) d = JStr p ->
  typed_fields d = true ->
  if negb (has_char 47%N p) && existsb (abs_link lower) (internal_links_of d)
  then step lower ln (JObj d) st = Raise IndexError
  else exists st',
         step lower ln (JObj d) st = Ok st'
         /\ page_count st' = S (page_count st).
Proof.
  intros He Ht Ep Hf. rewrite step_page by assumption.
  pose proof (@check_page_cases lower ln d p st Ep Hf) as C.
  destruct (negb (has_char 47%N p)
            && existsb (abs_link lower) (internal_links_of d)); [exact C|].
  destruct C as [st' C]. exists st'. split; [exact C|].
  now apply check_page_count in C.
Qed.

Lemma page_path_without_slash_witness :
  step ascii_lower 3 (JObj page_b) init = Raise IndexError.
Proof.
  exact (@page_path_without_slash ascii_lower 3 page_b (u "b.htm") init
           eq_refl eq_refl eq_refl eq_refl).
Defined.

Section ReadBack.

Variable lower : str -> str.

Lemma text_field_str (d : dict json) k s :
  dget k d = Some (JStr s) -> text_field (JObj d) k = Ok (strip s).
Proof.
  intros H. unfold text_field, get, dget_or. rewrite H. cbn [bind truthy].
  destruct s; reflexivity.
Qed.

Lemma link_json_href l :
  text_field (Manifest.link_json l) (u "href") = Ok (strip (href l)).
Proof. now apply text_field_str. Qed.

Lemma image_json_src i :
  text_field (Manifest.image_json i) (u "src") = Ok (strip (src i)).
Proof. now apply text_field_str. Qed.

Lemma image_json_alt i :
  text_field (Manifest.image_json i) (u "alt") = Ok (strip (alt i)).
Proof. now apply text_field_str. Qed.

Lemma issues_add_if (b : bool) i iss sp pc :
  (if b then add_issue i (MkState iss sp pc) else MkState iss sp pc)
  = MkState (iss ++ (if b then [i] else [])) sp pc.
Proof. destruct b; cbn; now rewrite ?app_nil_r. Qed.

Lemma check_internal_links ln path :
  has_char 47%N path = true ->
  forall links iss sp pc,
    check_internal lower ln path (map Manifest.link_json links) (MkState iss sp pc)
    = Ok (MkState (iss ++ href_issues (EmptyInternalHref ln path) links) sp pc).
Proof.
  intros Hp. induction links as [|l links IH]; intros iss sp pc.
  - cbn. now rewrite app_nil_r.
  - cbn [map check_internal]. rewrite link_json_href. cbn [bind].
    rewrite Hp. cbn [negb]. rewrite andb_false_r.
    rewrite issues_add_if, IH, <- app_assoc. reflexivity.
Qed.

Lemma check_external_links ln path :
  forall links iss sp pc,
    check_external ln path (map Manifest.link_json links) (MkState iss sp pc)
    = Ok (MkState (iss ++ href_issues (EmptyExternalHref ln path) links) sp pc).
Proof.
  induction links as [|l links IH]; intros iss sp pc.
  - cbn. now rewrite app_nil_r.
  - cbn [map check_external]. rewrite link_json_href. cbn [bind].
    rewrite issues_add_if, IH, <- app_assoc. reflexivity.
Qed.

Lemma check_images_list ln path :
  forall imgs iss sp pc,
    check_images ln path (map Manifest.image_json imgs) (MkState iss sp pc)
    = Ok (MkState (iss ++ image_issues ln path imgs) sp pc).
Proof.
  induction imgs as [|i imgs IH]; intros iss sp pc.
  - cbn. now rewrite app_nil_r.
  - cbn [map check_images]. rewrite image_json_src. cbn [bind].
    rewrite image_json_alt. cbn [bind].
    rewrite !issues_add_if, IH. unfold image_issues. cbn [flat_map].
    rewrite <- !app_assoc. reflexivity.
Qed.

Lemma check_page_json ln p iss sp pc :
  has_char 47%N (p_path p) = true ->
  check_page lower ln (Manifest.page_json p) (MkState iss sp pc)
  = Ok (MkState (iss ++ page_issues lower ln p sp) (add_path (p_path p) sp)
                (S pc)).
Proof.
  intros Hp. unfold check_page, Manifest.page_json.
  cbn [get bind issues seen_paths page_count].
  change (dget_or (u "path") (JStr []) _) with (JStr (p_path p)).
  cbn [as_str bind].
  change (dget_or (u "meta") (JObj []) _)
    with (JObj [(u "description", JStr (description (p_meta p)));
                (u "keywords", JStr (keywords (p_meta p)));
                (u "robots", JStr (robots (p_meta p)));
                (u "canonical", JStr (canonical (p_meta p)));
                (u "charset", JStr (charset (p_meta p)))]).
  cbn [get bind].
  change (dget_or (u "charset") (JStr []) _) with (JStr (charset (p_meta p))).
  cbn [as_str bind].
  change (dget_or (u "internalLinks") (JArr []) _)
    with (JArr (map Manifest.link_json (internalLinks p))).
  change (dget_or (u "externalLinks") (JArr []) _)
    with (JArr (map Manifest.link_json (externalLinks p))).
  change (dget_or (u "images") (JArr []) _)
    with (JArr (map Manifest.image_json (images p))).
  cbn [iterate bind].
  fold (utf8 lower (charset (p_meta p))).
  unfold page_issues.
  destruct (startswith (u "/") (p_path p));
    cbn [add_issue issues seen_paths page_count];
    destruct (seen (p_path p) sp);
    cbn [add_issue issues seen_paths page_count];
    destruct (utf8 lower (charset (p_meta p)));
    unfold add_issue; cbn [issues seen_paths page_count app];
    rewrite check_internal_links by assumption; cbn [bind];
    rewrite check_external_links; cbn [bind];
    rewrite check_images_list;
    rewrite <- ?app_assoc; reflexivity.
Qed.

Lemma step_page_json ln p st :
  p_type p = u "page" ->
  step lower ln (Manifest.page_json p) st
  = check_page lower ln (Manifest.page_json p) st.
Proof.
  intros Ht. unfold Manifest.page_json. apply step_page; [reflexivity|].
  unfold dget_or. cbn [dget]. rewrite Ht. reflexivity.
Qed.

End ReadBack.

(** X8.  The validator reads a page record back as the builder wrote it.
    For a page value with a slash in its path, the step of the loop
    completes, counts one page, adds the path of the record to the paths
    seen and reports the issues of the checks in their order, each computed
    from the fields of the value: the path itself, one issue for each link
    with an empty [href] and for each image with an empty [src] or [alt]. *)
Theorem validator_reads_page_record (lower : str -> str) (ln : nat)
    (p : page) (st : state) :
  p_type p = u "page" ->
  has_char 47%N (p_path p) = true ->
  step lower ln (Manifest.page_json p) st
  = Ok (MkState (issues st ++ page_issues lower ln p (seen_paths st))
                (add_path (p_path p) (seen_paths st))
                (S (page_count st))).
Proof.
  intros Ht Hp. rewrite step_page_json by assumption.
  destruct st as [iss sp pc]. now apply check_page_json.
Qed.

Lemma validator_reads_page_record_witness :
  step ascii_lower 5
    (Manifest.page_json
       (MkPage (u "page") (u "/a.htm") 200 [] (MkMeta [] [] [] [] (u "UTF-8"))
               [] [] [] []
               [MkLink (u " ") [] [] []] [MkLink (u "x") [] [] []]
               [MkImage (u "i.png") [] [] [] []] []))
    (MkState [] [u "/a.htm"] 1)
  = Ok (MkState [DuplicatePath 5 (u "/a.htm");
                 EmptyInternalHref 5 (u "/a.htm");
                 MissingAlt 5 (u "i.png") (u "/a.htm")]
                [u "/a.htm"] 2).
Proof.
  rewrite validator_reads_page_record by reflexivity.
  vm_compute. reflexivity.
Defined.

Section Pipeline.

Variable lower : str -> str.

Lemma page_fields rel_path html site_domain :
  p_type (make_page_object lower rel_path html site_domain) = u "page"
  /\ p_path (make_page_object lower rel_path html site_domain)
     = 47%N :: slashes rel_path.
Proof.
  unfold make_page_object.
  destruct (classify lower site_domain (extract_links html) [] []).
  split; reflexivity.
Qed.

Lemma slashes_no_backslash s : has_char 92%N (slashes s) = false.
Proof.
  induction s as [|c s IH]; [reflexivity|].
  cbn [slashes map has_char existsb]. fold (slashes s). fold (has_char 92%N (slashes s)).
  rewrite IH, orb_false_r.
  destruct (N.eqb c 92) eqn:E; [reflexivity|].
  now rewrite N.eqb_sym.
Qed.

Lemma slashes_fix s : has_char 92%N s = false -> slashes s = s.
Proof.
  induction s as [|c s IH]; [reflexivity|].
  cbn [has_char existsb slashes map]. fold (has_char 92%N s). fold (slashes s).
  intros H. apply orb_false_iff in H as [H1 H2].
  rewrite (IH H2). rewrite N.eqb_sym in H1. now rewrite H1.
Qed.

Lemma internal_href_nonempty site_domain l :
  is_internal lower site_domain l = true -> is_empty (strip (href l)) = false.
Proof.
  unfold is_internal. destruct (href l) as [|c t] eqn:E; [discriminate|].
  cbn [is_empty]. destruct (is_empty (strip (c :: t))); [discriminate|auto].
Qed.

Lemma href_issues_internal i site_domain links :
  href_issues i (filter (is_internal lower site_domain) links) = [].
Proof.
  induction links as [|l links IH]; [reflexivity|]. cbn [filter].
  destruct (is_internal lower site_domain l) eqn:E; [|exact IH].
  unfold href_issues. cbn [flat_map].
  rewrite (internal_href_nonempty _ _ E). exact IH.
Qed.

Lemma href_issues_benign ln path links :
  forallb benign (href_issues (EmptyExternalHref ln path) links) = true.
Proof.
  induction links as [|l links IH]; [reflexivity|].
  unfold href_issues. cbn [flat_map]. rewrite forallb_app.
  destruct (is_empty (strip (href l))); cbn; exact IH.
Qed.

Lemma image_issues_benign ln path imgs :
  forallb benign (image_issues ln path imgs) = true.
Proof.
  induction imgs as [|i imgs IH]; [reflexivity|].
  unfold image_issues. cbn [flat_map]. rewrite !forallb_app.
  destruct (is_empty (strip (src i))); destruct (is_empty (strip (alt i)));
    cbn; exact IH.
Qed.

(** The step of the validator on a page the extractor made. *)
Lemma step_extracted ln rel_path html site_domain st :
  let p := make_page_object lower rel_path html site_domain in
  step lower ln (Manifest.page_json p) st
  = Ok (MkState
          (issues st
           ++ (if seen (p_path p) (seen_paths st)
               then [DuplicatePath ln (p_path p)] else [])
           ++ (if utf8 lower (charset (p_meta p)) then []
               else [NonUtf8Charset ln (p_path p)])
           ++ href_issues (EmptyExternalHref ln (p_path p)) (externalLinks p)
           ++ image_issues ln (p_path p) (images p))
          (add_path (p_path p) (seen_paths st))
          (S (page_count st))).
Proof.
  cbv zeta.
  destruct (page_fields rel_path html site_domain) as [Ht Hp].
  rewrite step_page_json by exact Ht.
  destruct st as [iss sp pc].
  rewrite check_page_json by (rewrite Hp; reflexivity).
  unfold page_issues.
  rewrite (proj1 (make_page_links lower rel_path html site_domain)).
  rewrite href_issues_internal.
  replace (startswith (u "/") (p_path (make_page_object lower rel_path html site_domain)))
    with true by (rewrite Hp; reflexivity).
  reflexivity.
Qed.

Lemma step_extracted_benign ln rel_path html site_domain st :
  exists new,
    step lower ln
      (Manifest.page_json (make_page_object lower rel_path html site_domain)) st
    = Ok (MkState (issues st ++ new)
            (add_path (47%N :: slashes rel_path) (seen_paths st))
            (S (page_count st)))
    /\ forallb benign new = true.
Proof.
  rewrite step_extracted.
  destruct (page_fields rel_path html site_domain) as [_ Hp]. rewrite Hp.
  eexists. split; [reflexivity|].
  rewrite !forallb_app, href_issues_benign, image_issues_benign.
  destruct (seen _ _); destruct (utf8 _ _); reflexivity.
Qed.

Lemma page_path_json p :
  p_type p = u "page" -> page_path (Manifest.page_json p) = Some (p_path p).
Proof.
  intros Ht. unfold Manifest.page_json. cbn [page_path].
  change (is_some (dget (u "__error__") _)) with false. cbv iota.
  unfold dget_or at 1. cbn [dget]. rewrite Ht. reflexivity.
Qed.

Lemma run_pages (files : list Manifest.file) : forall k st,
  exists st' new,
    run lower
      (number_from k
         (map (fun f => Manifest.page_json
                          (make_page_object lower (Manifest.f_rel_path f)
                             (Manifest.f_html f) Manifest.site_domain))
              files)) st
    = Ok st'
    /\ issues st' = issues st ++ new /\ forallb benign new = true.
Proof.
  induction files as [|f files IH]; intros k st.
  - exists st, []. cbn. now rewrite app_nil_r.
  - cbn [map number_from run].
    destruct (step_extracted_benign k (Manifest.f_rel_path f)
                (Manifest.f_html f) Manifest.site_domain st) as (n1 & -> & B1).
    cbn [bind].
    match goal with
    | |- context [run lower _ ?s] =>
        destruct (IH (S k) s) as (st' & n2 & Hr & Hi & B2)
    end.
    exists st', (n1 ++ n2). split; [exact Hr|].
    cbn [issues] in Hi. rewrite Hi, <- app_assoc. split; [reflexivity|].
    now rewrite forallb_app, B1, B2.
Qed.

Lemma page_paths_pages (files : list Manifest.file) : forall k,
  page_paths
    (number_from k
       (map (fun f => Manifest.page_json
                        (make_page_object lower (Manifest.f_rel_path f)
                           (Manifest.f_html f) Manifest.site_domain))
            files))
  = map path_of files.
Proof.
  induction files as [|f files IH]; intros k; [reflexivity|].
  cbn [map number_from]. rewrite page_paths_cons, IH.
  destruct (page_fields (Manifest.f_rel_path f) (Manifest.f_html f)
              Manifest.site_domain) as [Ht Hp].
  rewrite (page_path_json _ Ht), Hp. reflexivity.
Qed.

Lemma step_site ln st : step lower ln Manifest.site_obj st = Ok st.
Proof. reflexivity. Qed.

Lemma step_robots ln content st :
  is_empty content = false ->
  step lower ln (Manifest.robots_obj content) st = Ok st.
Proof.
  intros H. unfold step, Manifest.robots_obj. cbn. now rewrite H.
Qed.

Lemma step_sitemap ln content st :
  is_empty content = false ->
  step lower ln (Manifest.sitemap_obj content) st = Ok st.
Proof.
  intros H. unfold step, Manifest.sitemap_obj. cbn. now rewrite H.
Qed.

Lemma startswith_app_self (p s : str) : startswith p (p ++ s) = true.
Proof.
  induction p as [|c p IH]; [reflexivity|].
  cbn [app startswith]. now rewrite N.eqb_refl, IH.
Qed.

End Pipeline.

(** X9.  A page the extractor made passes the validator.  The step
    completes for every text and every relative path; the path of the
    record starts with a slash and holds no backslash, so the path check
    never fires; no internal link has an empty [href], the classifier
    sending those to the external links; what can be reported is a
    duplicate path, a charset other than UTF-8, external links with an
    [href] of whitespace and images without [src] or [alt]. *)
Theorem extracted_page_passes (lower : str -> str)
    (rel_path html site_domain : str) (ln : nat) (st : state) :
  let p := make_page_object lower rel_path html site_domain in
  step lower ln (Manifest.page_json p) st
  = Ok (MkState
          (issues st
           ++ (if seen (p_path p) (seen_paths st)
               then [DuplicatePath ln (p_path p)] else [])
           ++ (if utf8 lower (charset (p_meta p)) then []
               else [NonUtf8Charset ln (p_path p)])
           ++ href_issues (EmptyExternalHref ln (p_path p)) (externalLinks p)
           ++ image_issues ln (p_path p) (images p))
          (add_path (p_path p) (seen_paths st))
          (S (page_count st)))
  /\ p_path p = 47%N :: slashes rel_path
  /\ has_char 92%N (p_path p) = false
  /\ (has_char 92%N rel_path = false -> p_path p = 47%N :: rel_path)
  /\ href_issues (EmptyInternalHref ln (p_path p)) (internalLinks p) = [].
Proof.
  cbv zeta. split; [apply step_extracted|].
  destruct (page_fields lower rel_path html site_domain) as [_ Hp].
  split; [exact Hp|]. rewrite Hp. split; [|split].
  - cbn [has_char existsb]. apply slashes_no_backslash.
  - intros H. now rewrite slashes_fix.
  - rewrite (proj1 (make_page_links lower rel_path html site_domain)).
    apply href_issues_internal.
Qed.

(** X10.  The validator on the manifest of the builder.  Run over the
    objects the builder prints, one a line in the order of printing, the
    loop of the validator completes; the site, robots and sitemap objects
    raise no issue, the last two being printed only with a content that is
    not empty; the pages counted are the [.htm] files of the walk and their
    paths are the relative paths of the files in the order of the walk; and
    every issue is one of those a page of the extractor can give.  A file
    is a page when its name in lower case ends with [.htm]: a name that
    ends with [.html] is left out. *)
Theorem manifest_validates (lower : str -> str) (robots_txt sitemap_xml : str)
    (files : list Manifest.file) :
  let recs :=
    number_from 1 (Manifest.main lower robots_txt sitemap_xml files) in
  page_paths recs = map path_of (htm_files lower files)
  /\ (exists st,
        run lower recs init = Ok st
        /\ page_count st = length (htm_files lower files)
        /\ forallb benign (issues st) = true)
  /\ (forall f x,
        lower (Manifest.f_name f) = x ++ u ".htm" ->
        In f files -> In f (htm_files lower files))
  /\ (forall f x,
        lower (Manifest.f_name f) = x ++ u ".html" ->
        ~ In f (htm_files lower files)).
Proof.
  cbv zeta. unfold Manifest.main. fold (htm_files lower files).
  set (pj := fun f => Manifest.page_json
                        (make_page_object lower (Manifest.f_rel_path f)
                           (Manifest.f_html f) Manifest.site_domain)).
  assert (P : page_paths
                (number_from 1
                   ([Manifest.site_obj]
                    ++ (if is_empty robots_txt then []
                        else [Manifest.robots_obj robots_txt])
                    ++ (if is_empty sitemap_xml then []
                        else [Manifest.sitemap_obj sitemap_xml])
                    ++ map pj (htm_files lower files)))
              = map path_of (htm_files lower files)).
  { destruct (is_empty robots_txt); destruct (is_empty sitemap_xml);
      cbn [app number_from]; rewrite !page_paths_cons;
      cbn [Manifest.site_obj Manifest.robots_obj Manifest.sitemap_obj page_path];
      apply page_paths_pages. }
  split; [exact P|]. split; [|split].
  2: { intros f x E Hf. apply filter_In. split; [exact Hf|].
       rewrite E. unfold Manifest.endswith. rewrite rev_app_distr.
       apply startswith_app_self. }
  2: { intros f x E Hf. apply filter_In in Hf as [_ Hf].
       rewrite E in Hf. unfold Manifest.endswith in Hf.
       rewrite rev_app_distr in Hf. discriminate. }
  assert (R : exists st,
             run lower
               (number_from 1
                  ([Manifest.site_obj]
                   ++ (if is_empty robots_txt then []
                       else [Manifest.robots_obj robots_txt])
                   ++ (if is_empty sitemap_xml then []
                       else [Manifest.sitemap_obj sitemap_xml])
                   ++ map pj (htm_files lower files))) init = Ok st
             /\ forallb benign (issues st) = true).
  { destruct (is_empty robots_txt) eqn:Er;
      destruct (is_empty sitemap_xml) eqn:Es;
      cbn [app number_from run]; rewrite step_site; cbn [bind];
      rewrite ?step_robots by exact Er; cbn [bind];
      rewrite ?step_sitemap by exact Es; cbn [bind];
      match goal with
      | |- context [number_from ?k _] =>
          destruct (run_pages lower (htm_files lower files) k init)
            as (st & new & Hr & Hi & B)
      end;
      exists st; (split; [exact Hr|]); rewrite Hi; exact B. }
  destruct R as (st & Hr & B). exists st. split; [exact Hr|].
  split; [|exact B].
  destruct (run_counts _ _ _ Hr) as (H1 & _). rewrite H1, P.
  cbn [init page_count]. now rewrite length_map.
Qed.

Section Attribution.

Variable lower : str -> str.

Ltac inv_bind H :=
  let a := fresh "a" in
  let E := fresh "E" in
  apply bind_ok in H as (a & E & H).

Lemma grown_refl ln st : grown ln st st.
Proof. exists []. now rewrite app_nil_r. Qed.

Lemma grown_trans ln st1 st2 st3 :
  grown ln st1 st2 -> grown ln st2 st3 -> grown ln st1 st3.
Proof.
  intros (g1 & I1 & F1) (g2 & I2 & F2). exists (g1 ++ g2).
  rewrite I2, I1, <- app_assoc, forallb_app, F1, F2. auto.
Qed.

Lemma grown_add ln i st : stamped ln i = true -> grown ln st (add_issue i st).
Proof. intros H. exists [i]. cbn. now rewrite H. Qed.

Lemma grown_add_if ln (b : bool) i st :
  stamped ln i = true -> grown ln st (if b then add_issue i st else st).
Proof. destruct b; [apply grown_add|intros; apply grown_refl]. Qed.

Lemma grown_add_unless ln (b : bool) i st :
  stamped ln i = true -> grown ln st (if b then st else add_issue i st).
Proof. destruct b; [intros; apply grown_refl|apply grown_add]. Qed.

Lemma stamped_self ln : Nat.eqb ln ln = true.
Proof. apply Nat.eqb_refl. Qed.

Lemma check_internal_grown ln path : forall links st st',
  check_internal lower ln path links st = Ok st' -> grown ln st st'.
Proof.
  induction links as [|l links IH]; intros st st' H; simpl in H.
  - injection H as <-. apply grown_refl.
  - inv_bind H.
    destruct (is_abs_url lower a && negb (has_char 47%N path)); [discriminate|].
    apply IH in H. eapply grown_trans; [|exact H].
    apply grown_add_if. apply stamped_self.
Qed.

Lemma check_external_grown ln path : forall links st st',
  check_external ln path links st = Ok st' -> grown ln st st'.
Proof.
  induction links as [|l links IH]; intros st st' H; simpl in H.
  - injection H as <-. apply grown_refl.
  - inv_bind H. apply IH in H. eapply grown_trans; [|exact H].
    apply grown_add_if. apply stamped_self.
Qed.

Lemma check_images_grown ln path : forall imgs st st',
  check_images ln path imgs st = Ok st' -> grown ln st st'.
Proof.
  induction imgs as [|i imgs IH]; intros st st' H; simpl in H.
  - injection H as <-. apply grown_refl.
  - inv_bind H. inv_bind H. apply IH in H.
    eapply grown_trans; [|exact H].
    eapply grown_trans; [|apply grown_add_if; apply stamped_self].
    apply grown_add_if. apply stamped_self.
Qed.

Lemma check_page_grown ln obj st st' :
  check_page lower ln obj st = Ok st' -> grown ln st st'.
Proof.
  unfold check_page. intros H. repeat inv_bind H.
  apply check_images_grown in H.
  match goal with
  | Hi : check_internal _ _ _ _ _ = Ok _,
    He : check_external _ _ _ _ = Ok _ |- _ =>
      apply check_internal_grown in Hi; apply check_external_grown in He;
      pose proof (grown_trans (grown_trans Hi He) H) as G; clear Hi He H
  end.
  eapply grown_trans; [|exact G]. clear G.
  match goal with
  | |- grown ln st (if ?b then ?s else add_issue ?i ?s) =>
      apply grown_trans with (st2 := s);
        [|apply grown_add_unless; apply stamped_self]
  end.
  match goal with
  | |- grown ln st (MkState (issues ?s) _ _) =>
      assert (G : grown ln st s); [|destruct G as (g & Hg & Fg); now exists g]
  end.
  match goal with
  | |- grown ln st (if ?b then add_issue ?i ?s else ?s) =>
      apply grown_trans with (st2 := s);
        [|apply grown_add_if; apply stamped_self]
  end.
  match goal with
  | |- grown ln st (if ?b then ?s else add_issue ?i ?s) =>
      apply grown_trans with (st2 := s);
        [|apply grown_add_unless; apply stamped_self]
  end.
  exists []. cbn. now rewrite app_nil_r.
Qed.

(** What one record adds to the issues. *)
Ltac close_group :=
  cbn [issues add_issue app length forallb stamped issue_line andb];
  rewrite ?app_nil_r, ?Nat.eqb_refl;
  repeat split; intros; try reflexivity;
  cbn [forallb stamped issue_line andb length]; rewrite ?Nat.eqb_refl;
  auto; lia.

Lemma step_grown ln obj st st' :
  step lower ln obj st = Ok st' ->
  exists g,
    issues st' = issues st ++ g /\ forallb (stamped ln) g = true
    /\ (page_path obj = None -> length g <= 1).
Proof.
  unfold step. intros H. inv_bind H.
  destruct obj as [| | | |s|l|d]; try discriminate.
  - simpl in E. injection E as <-.
    destruct (contains (u "__error__") s); inv_bind H; discriminate.
  - simpl in E. injection E as <-.
    destruct (existsb (fun x => eq_text x (u "__error__")) l);
      inv_bind H; discriminate.
  - simpl in E. injection E as <-. cbn [page_path].
    destruct (is_some (dget (u "__error__") d)) eqn:Err.
    + inv_bind H. injection H as <-. exists [Reported a]. close_group.
    + inv_bind H. simpl in E. injection E as <-.
      destruct (eq_text (dget_or (u "type") JNull d) (u "site")) eqn:T1.
      * inv_bind H. injection H as <-.
        destruct (truthy a); [exists []|eexists [_]]; close_group.
      * destruct (eq_text (dget_or (u "type") JNull d) (u "robotsTxt")
                  || eq_text (dget_or (u "type") JNull d) (u "sitemapXml")) eqn:T2.
        -- inv_bind H. injection H as <-.
           destruct (truthy a); [exists []|eexists [_]]; close_group.
        -- destruct (eq_text (dget_or (u "type") JNull d) (u "page")) eqn:T3.
           ++ pose proof (check_page_dups _ _ _ _ H) as (p & _ & Hp & _).
              apply check_page_grown in H as (g & Hg & Fg).
              exists g. rewrite Hp. repeat split; auto. discriminate.
           ++ injection H as <-. eexists [_]. close_group.
Qed.

Lemma run_grown : forall recs st st',
  run lower recs st = Ok st' ->
  exists groups,
    issues st' = issues st ++ concat groups
    /\ Forall2 (fun rec g =>
                  forallb (stamped (fst rec)) g = true
                  /\ (page_path (snd rec) = None -> length g <= 1))
               recs groups.
Proof.
  induction recs as [|[ln obj] recs IH]; intros st st' H.
  - simpl in H. injection H as <-. exists []. cbn. now rewrite app_nil_r.
  - cbn [run] in H. inv_bind H.
    apply step_grown in E as (g & Hg & Fg & Lg).
    apply IH in H as (groups & Hi & F2).
    exists (g :: groups). cbn [concat]. rewrite Hi, Hg, <- app_assoc.
    split; [reflexivity|]. constructor; auto.
Qed.

End Attribution.

(** X18.  The issues follow the stream.  The issues of a run are those of
    its records one after the other in the order of the records; every
    issue of a record carries the number of the line of that record, an
    [__error__] object being reported as it is; and a record that is not a
    page gives one issue at most. *)
Theorem issues_follow_stream (json_loads : str -> res (json + str))
    (lower : str -> str) (lines : list str) (r : report) :
  main json_loads lower lines = Ok r ->
  exists st groups,
    run lower (yields (iter_ndjson json_loads lines)) init = Ok st
    /\ issues st = concat groups
    /\ issuesCount r = length (concat groups)
    /\ Forall2 (fun rec g =>
                  forallb (stamped (fst rec)) g = true
                  /\ (page_path (snd rec) = None -> length g <= 1))
               (yields (iter_ndjson json_loads lines)) groups.
Proof.
  intros H. apply main_ok in H as (st & Hrun & _ & ->).
  destruct (run_grown _ _ _ Hrun) as (groups & Hi & F).
  exists st, groups. cbn [init issues app] in Hi.
  unfold summarize. cbn [issuesCount]. rewrite Hi. auto.
Qed.

Lemma issues_follow_stream_witness :
  exists st groups,
    run ascii_lower
      (yields (iter_ndjson toy_loads [u "{}"; []; u "x"; u "A"; u "A"]))
      init = Ok st
    /\ issues st = concat groups
    /\ 3 = length (concat groups)
    /\ Forall2 (fun rec g =>
                  forallb (stamped (fst rec)) g = true
                  /\ (page_path (snd rec) = None -> length g <= 1))
               (yields (iter_ndjson toy_loads [u "{}"; []; u "x"; u "A"; u "A"]))
               groups.
Proof.
  exact (@issues_follow_stream toy_loads ascii_lower
           [u "{}"; []; u "x"; u "A"; u "A"]
           (MkReport 2 1 3
              [UnknownType 1 JNull; parse_issue 3 (u "Expecting value");
               DuplicatePath 5 (u "/a.htm")])
           eq_refl).
Defined.
